(* ===== verification/_CoqProject ===== *)
-Q . S2P
Prelude.v
Effects.v
Keys.v
Strconv.v
Bitmap.v
Json.v
KeyLock.v
Wire.v
Frames.v
Ids.v
Protocol.v
Unpack.v
Typing.v
PQueue.v
Model.v
Encodings.v
JsonTypes.v
Queues.v
Index.v
Segment.v
Scans.v
Topic.v
Clients.v
Storage.v
Messages.v
MessageLog.v
FileDB.v
Store.v
Notify.v
Commands.v
Channels.v
Conversations.v
SwaggerUI.v
Aes.v
Server.v
Handler.v
Sending.v
ImClient.v
Exchange.v
Sessions.v
Nodes.v
ChannelAPI.v
MessageAPI.v
UserAPI.v
Sync.v
UserQueue.v
ConversationAPI.v
Webhook.v
Wait.v
Proxy.v
Backup.v
Recovery.v
Senders.v
Settings.v
