(* ===== verification/Prelude.v ===== *)
(** LiMaoIM, an instant-messaging server in Go, as functions of its state.

    * The program

    Clients keep a TCP connection to a node and speak the binary protocol of
    pkg/lmproto over it. The read loop cuts the stream into packets
    (internal/lim/packet.go, limao.go), the packet handler
    (internal/lim/handler.go) answers them: CONNECT checks a token and agrees
    on a key, SEND asks the channel manager who may send to whom, numbers and
    stores the message, and hands it to the delivery (delivery.go), which
    writes a sealed RECV to every connected client of every subscriber and
    puts it in flight (in_flight_pqueue.go, retry_queue.go) until it is
    acknowledged. Conversations (conversation.go) are counted along the way.
    Everything is kept by internal/db: a bolt file for tokens, channels,
    lists and cursors, logs of segments with an index for messages. In a
    cluster the writes are proposed as commands (storage_cmd.go,
    storage_cluster.go), and messages for users of other nodes go through
    the node in-flight queue. pkg/client is the client's side.

    * The files

    Foundations: Prelude.v (outcomes of Go calls, fixed-width integers, bytes,
    shared lemmas, the hint databases), Effects.v (a monad of state and
    outcome), Keys.v and Strconv.v (fmt.Sprintf, strings, strconv), Json.v
    (encoding/json), Encodings.v (base64, hex, MD5), Bitmap.v
    (pkg/util/bitmap.go), KeyLock.v (pkg/keylock).

    The protocol: Wire.v (encoder.go, decoder.go), Frames.v (common.go and a
    Module for each packet file), Protocol.v (protocol.go), Typing.v (the
    widths a decoded packet has), Unpack.v (limUnpacket and OnPacket), Proxy.v
    (pkg/lmproxyproto, the protocol of a proxy's commands).

    Data and queues: Model.v (db.Message, Conversation, Message), JsonTypes.v
    (their JSON), PQueue.v (both priority queues, once, over the class Item),
    Queues.v (RetryQueue and NodeInFlightQueue), Wait.v (pkg/wait).

    The data base: Index.v, Segment.v, Topic.v (one log each way up), Scans.v
    (that the scans of a segment end on any bytes), Messages.v (slots, topics,
    caches, the operations of FileDB on messages), MessageLog.v (what they
    promise), Senders.v (senders that run at the same time at one topic),
    FileDB.v (the bolt file), Store.v and Notify.v (what it promises),
    Storage.v (the interface Storage the server sees, as the class Storage with
    the laws StorageLaws and an implementation in memory), Commands.v (the
    cluster's commands), Backup.v and Recovery.v (snapshots of slots, and
    reading them into a data base).

    The server: Settings.v (options.go: what a node fills in when it loads its
    options, pkg/util/ip.go), Ids.v (hashes, fake channels), Clients.v
    (ClientManager), Channels.v, Conversations.v, Aes.v (pkg/util/aes.go,
    dh.go), Server.v (the state LiMao, writing and delivering), Handler.v
    (PacketHandler), Sending.v and Sessions.v (what sending and connecting
    bring about), Webhook.v (the loops that report to a data source); the HTTP
    interface: ChannelAPI.v and Sync.v (api_channel.go), MessageAPI.v and
    UserQueue.v (api_message.go), UserAPI.v (api_user.go), ConversationAPI.v
    (api_conversation.go). Between nodes: Nodes.v (node_node.go, rpc/server.go,
    over the servers of a cluster).

    The client: ImClient.v (pkg/client), Exchange.v (client and server
    together). SwaggerUI.v is about functions of the bundles that serve the API
    documentation.

    * How the code is modelled

    A Go call is a function to [outcome]: a value, an [error], or a panic;
    what changes state is in [io], and keeps its changes when it fails.
    Integers are in Z, with the wrap-around of their width written out
    ([u32], [i64]). Slices that are shared, objects that know their own place
    in a heap, two objects open on one file: where it matters there is a store
    of objects and references into it (PQueue.v, Queues.v, Topic.v).
    Concurrency is modelled where the code's correctness rests on it:
    KeyLock.v, Wait.v, Senders.v and the Adds of Clients.v have steps that
    interleave, the halves of a round of Conversations.v are separate
    operations; elsewhere an operation runs alone. Code outside the repository is a parameter with
    its documented behaviour as the laws of a class, and an implementation
    that has them: the block cipher and the curve (Crypto), bolt (Bolt), the
    caches of golang-lru (LRU, Cache), protobuf and gRPC (Proto, fate), HTTP
    datasource, clocks, random numbers, other nodes (Env).

    Loops that Go writes as for or recursion take a fuel that is shown to be
    enough: the length of the buffer for the readers, of the file for segment
    scans (every record has at least 24 bytes), the number of objects for the
    heaps and ticks, the length of the text for JSON. The theorems state
    what is returned, so that running out of fuel would falsify them.

    * What is shown

    Protocol: a packet is read back from its bytes, in front of any others; the
    unpacker hands over exactly the complete packets; which bytes panic or
    hang. Queues: ticks hand over exactly what is due, earliest first;
    acknowledgements stick. Data base: FileDB refines a map of typed entries,
    and a map of logs of messages, under any sequence of operations, evictions
    and restarts; the queue of notifications is first in, first out; index,
    segments and topics keep what was appended and open again with it; commands
    are decoded as proposed. Server: sending is decided by the lists of the
    storage alone, and a message that is accepted is numbered, stored, and
    delivered once to exactly the right clients; a connection is accepted
    exactly with the right token; client and server agree on a key and read
    each other's messages; the manager of clients refines a registry; what the
    HTTP handlers of channels, messages and tokens answer and leave in the
    storage and its caches. Senders that interleave at a topic get distinct
    numbers, and exactly what was written is stored, in the order of the
    writes. Locks by key exclude each other and do not starve; a trigger
    answers exactly one waiter. Types: every packet that is decoded has the
    fields of its frame within their widths. Termination: the scans of a
    segment end on any bytes whatsoever. Backups: a snapshot of a slot brings
    its last topic back. Cluster: a message reaches exactly the nodes of its
    subscribers, and sending to another node's channel is that node's decision.
    Reading: a client that reads and acknowledges gets its queue, whole and in
    order; recent messages and conversations. Loaded options stay as they are
    when they are loaded again. Where the code falls short of this, a theorem
    says how: messages that are overtaken, topics that have rolled, torn
    writes, removals from lists, late acknowledgements, unreadable commands,
    lost clients, snapshots of several topics, messages with index entries.

    * What is not modelled

    The wrappers of HTTP requests and their JSON binding, monitoring, logging,
    dialling and timeouts of gRPC, the consensus layer (of which the
    repository has only an interface), wiring the server together, copies of
    third-party id generators; blocking and shutdown of the goroutines around
    the modelled operations. Time is a number the caller passes. Errors of the
    file system itself (a full disk) do not occur in the models.

    The files under src/ whose names end in .js are three vendored bundles of
    Swagger UI, each of whose code is one minified line (line 2). They are
    not part of the server. SwaggerUI.v translates from them the module
    base64-js and the UTF-8 conversions of the module Buffer, and nothing
    else of these lines.

    * What could be taken further

    Logs with index entries in the theorems about reading (MessageLog.v has
    them, UserQueue.v and ConversationAPI.v assume small logs), senders at a
    topic that rolls, reading backups of arbitrary bytes. *)
From stdpp Require Import base list strings gmap pretty.
From Stdlib Require Import ZArith Lia Strings.Byte.

#[global] Open Scope Z_scope.

(** * Outcomes of Go calls

    [Ret] is a normal return, [Err] a return with a non-nil [error], [Panic]
    a run-time panic (index out of range, negative [make], explicit
    [panic]). *)

Inductive error :=
  | EOF                                   (* io.EOF *)
  | ErrUnexpectedEOF                      (* io.ErrUnexpectedEOF *)
  | ErrExpect (got want : Z)              (* couldn't read expect bytes %d of %d *)
  | ErrMsg (msg : string)                 (* errors.New, fmt.Errorf *)
  | ErrWrap (msg : string) (cause : error). (* errors.Wrap *)

Inductive outcome (A : Type) :=
  | Ret (a : A)
  | Err (e : error)
  | Panic.
Arguments Ret {A} a.
Arguments Err {A} e.
Arguments Panic {A}.

#[export] Instance outcome_ret : MRet outcome := fun _ a => Ret a.
#[export] Instance outcome_bind : MBind outcome := fun A B f m =>
  match m with Ret a => f a | Err e => Err e | Panic => Panic end.
#[export] Instance outcome_fmap : FMap outcome := fun A B f m =>
  match m with Ret a => Ret (f a) | Err e => Err e | Panic => Panic end.

Definition is_Ret {A} (m : outcome A) : Prop := exists a, m = Ret a.

(** [errors.Wrap(err, msg)] on the error branch. *)
Definition wrap {A} (msg : string) (m : outcome A) : outcome A :=
  match m with Err e => Err (ErrWrap msg e) | _ => m end.

Lemma bind_Ret {A B} (m : outcome A) (f : A -> outcome B) b :
  m ≫= f = Ret b -> exists a, m = Ret a /\ f a = Ret b.
Proof. destruct m; cbn; intros H; try discriminate; eauto. Qed.

Lemma bind_not_Panic {A B} (m : outcome A) (f : A -> outcome B) :
  m <> Panic -> (forall a, m = Ret a -> f a <> Panic) -> m ≫= f <> Panic.
Proof. destruct m; cbn; intros; auto; try discriminate. Qed.

Lemma wrap_not_Panic {A} msg (m : outcome A) : m <> Panic -> wrap msg m <> Panic.
Proof. destruct m; cbn; congruence. Qed.

(** * Fixed-width integers *)

Definition wrapU (w : Z) (z : Z) : Z := z mod 2 ^ w.
Definition wrapS (w : Z) (z : Z) : Z := (z + 2 ^ (w - 1)) mod 2 ^ w - 2 ^ (w - 1).

Abbreviation u8 := (wrapU 8).
Abbreviation u16 := (wrapU 16).
Abbreviation u32 := (wrapU 32).
Abbreviation u64 := (wrapU 64).
Abbreviation i16 := (wrapS 16).
Abbreviation i32 := (wrapS 32).
Abbreviation i64 := (wrapS 64).

Definition inU (w z : Z) : Prop := 0 <= z < 2 ^ w.
Definition inS (w z : Z) : Prop := - 2 ^ (w - 1) <= z < 2 ^ (w - 1).

Lemma wrapU_id w z : inU w z -> wrapU w z = z.
Proof. intros H. apply Z.mod_small, H. Qed.

Lemma wrapU_range w z : 0 <= w -> inU w (wrapU w z).
Proof. intros. apply Z.mod_pos_bound. lia. Qed.

Lemma pow2_split w : 0 < w -> 2 ^ w = 2 * 2 ^ (w - 1).
Proof. intros. rewrite <- Z.pow_succ_r by lia. f_equal. lia. Qed.

Lemma wrapS_id w z : 0 < w -> inS w z -> wrapS w z = z.
Proof.
  unfold inS, wrapS. intros Hw H. pose proof (pow2_split w Hw).
  rewrite Z.mod_small; lia.
Qed.

Lemma wrapS_range w z : 0 < w -> inS w (wrapS w z).
Proof.
  unfold inS, wrapS. intros Hw. pose proof (pow2_split w Hw).
  pose proof (Z.mod_pos_bound (z + 2 ^ (w - 1)) (2 ^ w)). lia.
Qed.

Lemma wrapS_wrapU w z : 0 < w -> wrapS w (wrapU w z) = wrapS w z.
Proof. intros. unfold wrapS, wrapU. rewrite Zplus_mod_idemp_l. reflexivity. Qed.

Lemma wrapU_wrapS w z : 0 < w -> wrapU w (wrapS w z) = wrapU w z.
Proof.
  intros. unfold wrapS, wrapU.
  rewrite <- Zminus_mod_idemp_l, Zmod_mod, Zminus_mod_idemp_l. f_equal. lia.
Qed.

(** * Bytes *)

Definition byte_of_Z (z : Z) : byte :=
  match Byte.of_N (Z.to_N (z mod 256)) with Some b => b | None => Byte.x00 end.
Definition Z_of_byte (b : byte) : Z := Z.of_N (Byte.to_N b).

#[export] Instance byte_eq_decision : EqDecision byte := Byte.byte_eq_dec.

Lemma Z_of_byte_range b : 0 <= Z_of_byte b < 256.
Proof. unfold Z_of_byte. pose proof (Byte.to_N_bounded b). lia. Qed.

Lemma Z_of_byte_of_Z z : Z_of_byte (byte_of_Z z) = z mod 256.
Proof.
  unfold byte_of_Z, Z_of_byte.
  pose proof (Z.mod_pos_bound z 256 ltac:(lia)).
  destruct (Byte.of_N _) as [b|] eqn:E.
  - apply Byte.to_of_N in E. rewrite E. lia.
  - apply Byte.of_N_None_iff in E. lia.
Qed.

Lemma byte_of_Z_of_byte b : byte_of_Z (Z_of_byte b) = b.
Proof. destruct b; reflexivity. Qed.

Lemma byte_of_Z_mod z : byte_of_Z (z mod 256) = byte_of_Z z.
Proof. unfold byte_of_Z. rewrite Zmod_mod. reflexivity. Qed.

Lemma Z_of_byte_inj a b : Z_of_byte a = Z_of_byte b -> a = b.
Proof. intros H. rewrite <- (byte_of_Z_of_byte a), H. apply byte_of_Z_of_byte. Qed.

(** ** Big-endian byte strings *)

Fixpoint be (n : nat) (z : Z) : list byte :=
  match n with
  | O => []
  | S n' => byte_of_Z (Z.shiftr z (8 * Z.of_nat n')) :: be n' z
  end.

Fixpoint be_val (acc : Z) (l : list byte) : Z :=
  match l with
  | [] => acc
  | b :: l' => be_val (acc * 256 + Z_of_byte b) l'
  end.

Lemma length_be n z : length (be n z) = n.
Proof. induction n; cbn; auto. Qed.

Lemma div_mod_digit z k : 0 <= k ->
  z mod 2 ^ (8 * (k + 1)) = 2 ^ (8 * k) * ((z / 2 ^ (8 * k)) mod 256) + z mod 2 ^ (8 * k).
Proof.
  intros. replace (2 ^ (8 * (k + 1))) with (2 ^ (8 * k) * 256).
  - rewrite Z.rem_mul_r by lia. lia.
  - replace (8 * (k + 1)) with (8 * k + 8) by lia. rewrite Z.pow_add_r by lia. reflexivity.
Qed.

Lemma be_val_be n z acc :
  be_val acc (be n z) = acc * 2 ^ (8 * Z.of_nat n) + z mod 2 ^ (8 * Z.of_nat n).
Proof.
  revert acc. induction n as [|n IH]; intros acc.
  - cbn. rewrite Z.mod_1_r. lia.
  - cbn [be be_val]. rewrite IH, Z_of_byte_of_Z, Z.shiftr_div_pow2 by lia.
    replace (Z.of_nat (S n)) with (Z.of_nat n + 1) by lia.
    rewrite (div_mod_digit z (Z.of_nat n)) by lia.
    replace (8 * (Z.of_nat n + 1)) with (8 * Z.of_nat n + 8) by lia.
    rewrite Z.pow_add_r by lia. change (2 ^ 8) with 256. lia.
Qed.

(** The or-of-shifts idiom of the decoders: or-ing a byte below an
    accumulator that ends in zero bits is an addition. *)
Lemma lor_low a b k : 0 <= k -> 0 <= b < 2 ^ k -> Z.lor (a * 2 ^ k) b = a * 2 ^ k + b.
Proof.
  intros Hk Hb. rewrite <- Z.add_nocarry_lor; [reflexivity|].
  apply Z.bits_inj'. intros i Hi. rewrite Z.land_spec, Z.bits_0.
  destruct (Z.ltb_spec i k).
  - rewrite Z.mul_pow2_bits_low by lia. reflexivity.
  - rewrite andb_false_iff. right. destruct (Z.eq_dec b 0) as [->|]; [apply Z.bits_0|].
    apply Z.bits_above_log2; [lia|]. apply Z.log2_lt_pow2; [lia|].
    eapply Z.lt_le_trans; [apply Hb|]. apply Z.pow_le_mono_r; lia.
Qed.

Lemma lor_byte a b k : 0 <= k -> 0 <= b < 256 ->
  Z.lor (a * 2 ^ (k + 8)) (b * 2 ^ k) = (a * 256 + b) * 2 ^ k.
Proof.
  intros Hk Hb. rewrite lor_low; rewrite ?Z.pow_add_r by lia; change (2 ^ 8) with 256.
  - lia.
  - lia.
  - pose proof (Z.pow_pos_nonneg 2 k). nia.
Qed.

(** * Go strings are byte sequences *)

Abbreviation bytes_of_string := String.list_byte_of_string.
Abbreviation string_of_bytes := String.string_of_list_byte.

Lemma string_of_bytes_of_string s : string_of_bytes (bytes_of_string s) = s.
Proof. apply String.string_of_list_byte_of_string. Qed.

Lemma bytes_of_string_of_bytes l : bytes_of_string (string_of_bytes l) = l.
Proof. apply String.list_byte_of_string_of_list_byte. Qed.

(** Length of a Go slice or string, as an [int]. *)
Definition zlen {A} (l : list A) : Z := Z.of_nat (length l).

Lemma zlen_nonneg {A} (l : list A) : 0 <= zlen l.
Proof. unfold zlen. lia. Qed.

Lemma zlen_app {A} (l1 l2 : list A) : zlen (l1 ++ l2) = zlen l1 + zlen l2.
Proof. unfold zlen. rewrite length_app. lia. Qed.

Lemma zlen_be n z : zlen (be n z) = Z.of_nat n.
Proof. unfold zlen. rewrite length_be. reflexivity. Qed.

(** The middle part of a concatenation, cut out the way Go slices it. *)
Lemma slice_mid {A} (n m : nat) (l1 l2 l3 : list A) :
  n = length l1 -> m = (length l1 + length l2)%nat ->
  drop n (take m (l1 ++ l2 ++ l3)) = l2.
Proof.
  intros -> ->. rewrite app_assoc, <- length_app, take_app_length, drop_app_length. reflexivity.
Qed.

Lemma zlen_cons {A} (x : A) l : zlen (x :: l) = 1 + zlen l.
Proof. unfold zlen. rewrite length_cons. lia. Qed.

Lemma zlen_nil {A} : zlen (@nil A) = 0.
Proof. reflexivity. Qed.

Lemma to_nat_zlen {A} (l : list A) : Z.to_nat (zlen l) = length l.
Proof. unfold zlen. lia. Qed.

(** * Lists *)

Lemma filter_ext_in {A} (P Q : A -> Prop) `{forall x, Decision (P x), forall x, Decision (Q x)} (l : list A) :
  (forall x, x ∈ l -> P x <-> Q x) -> filter P l = filter Q l.
Proof.
  induction l as [|x l IH]; intros HPQ; [reflexivity|].
  assert (filter P l = filter Q l) as E by (apply IH; intros y Hy; apply HPQ; constructor; done).
  rewrite !filter_cons, E. destruct (HPQ x ltac:(constructor)) as [H1 H2].
  do 2 case_decide; tauto.
Qed.

Lemma filter_map {A B} (f : A -> B) (P : B -> Prop) `{forall x, Decision (P x)} (l : list A) :
  filter P (f <$> l) = f <$> filter (fun x => P (f x)) l.
Proof.
  induction l as [|x l IH]; [reflexivity|]. rewrite fmap_cons, !filter_cons, IH.
  case_decide; reflexivity.
Qed.

Lemma filter_all {A} (P : A -> Prop) `{forall x, Decision (P x)} (l : list A) :
  (forall x, x ∈ l -> P x) -> filter P l = l.
Proof.
  induction l as [|x l IH]; intros HP; [reflexivity|].
  rewrite filter_cons, decide_True, IH; [done|intros y Hy|]; apply HP; constructor; done.
Qed.

Lemma filter_none {A} (P : A -> Prop) `{forall x, Decision (P x)} (l : list A) :
  (forall x, x ∈ l -> ~ P x) -> filter P l = [].
Proof.
  induction l as [|x l IH]; intros HP; [reflexivity|].
  rewrite filter_cons, decide_False, IH; [done|intros y Hy|]; apply HP; constructor; done.
Qed.

(** * Automation *)

Create HintDb go discriminated.
Create Rewrite HintDb go.
#[export] Hint Resolve Z_of_byte_range zlen_nonneg : go.
#[export] Hint Rewrite @zlen_app @zlen_be @zlen_cons @zlen_nil : go.

(** Case on every boolean test and match scrutinee of the goal. *)
Ltac case_match_goal :=
  match goal with
  | |- context [match ?x with _ => _ end] => destruct x eqn:?
  end.

(** Turn boolean comparisons of the context into propositions. *)
Ltac zbool :=
  repeat match goal with
  | H : (_ <? _) = true |- _ => apply Z.ltb_lt in H
  | H : (_ <? _) = false |- _ => apply Z.ltb_ge in H
  | H : (_ <=? _) = true |- _ => apply Z.leb_le in H
  | H : (_ <=? _) = false |- _ => apply Z.leb_gt in H
  | H : (_ =? _) = true |- _ => apply Z.eqb_eq in H
  | H : (_ =? _) = false |- _ => apply Z.eqb_neq in H
  | H : (_ && _) = true |- _ => apply andb_true_iff in H; destruct H
  | H : (_ || _) = false |- _ => apply orb_false_iff in H; destruct H
  | H : negb _ = true |- _ => apply negb_true_iff in H
  | H : negb _ = false |- _ => apply negb_false_iff in H
  end.
