(* ===== verification/Effects.v ===== *)
(** Stateful operations that can fail: a computation over a state [S] returns
    an [outcome] and the new state, whichever the outcome, the way a Go
    method that returns an error keeps the changes it has made. *)
From stdpp Require Import base list strings.
From S2P Require Import Prelude.

Definition io (S A : Type) : Type := S -> outcome A * S.

#[export] Instance io_ret {S} : MRet (io S) := fun _ a s => (Ret a, s).
#[export] Instance io_bind {S} : MBind (io S) := fun _ _ f m s =>
  match m s with
  | (Ret a, s') => f a s'
  | (Err e, s') => (Err e, s')
  | (Panic, s') => (Panic, s')
  end.
#[export] Instance io_fmap {S} : FMap (io S) := fun _ _ f m => a ← m; mret (f a).

Section Ops.
Context {S : Type}.

Definition gets {A} (f : S -> A) : io S A := fun s => (Ret (f s), s).
Definition modify (f : S -> S) : io S unit := fun s => (Ret tt, f s).
Definition raise {A} (e : error) : io S A := fun s => (Err e, s).
Definition lift {A} (o : outcome A) : io S A := fun s => (o, s).

(** [x, err := m]: the error as a value. *)
Definition attempt {A} (m : io S A) : io S (A + error) := fun s =>
  match m s with
  | (Ret a, s') => (Ret (inl a), s')
  | (Err e, s') => (Ret (inr e), s')
  | (Panic, s') => (Panic, s')
  end.

(** [errors.Wrap(err, msg)]. *)
Definition wrap_io {A} (msg : string) (m : io S A) : io S A := fun s =>
  let '(o, s') := m s in (wrap msg o, s').

(** An operation on a part of the state. *)
Definition zoom {T A} (get : S -> T) (set : T -> S -> S) (m : io T A) : io S A := fun s =>
  let '(o, t) := m (get s) in (o, set t s).

(** [for _, x := range l { f(x) }]. *)
Fixpoint for_each {A} (f : A -> io S unit) (l : list A) : io S unit :=
  match l with
  | [] => mret tt
  | x :: l' => f x ;; for_each f l'
  end.

Lemma bind_Ret_io {A B} (m : io S A) (f : A -> io S B) s a s' : m s = (Ret a, s') -> (m ≫= f) s = f a s'.
Proof. unfold mbind, io_bind. intros ->. reflexivity. Qed.

Lemma attempt_Ret {A} (m : io S A) s a s' : m s = (Ret a, s') -> attempt m s = (Ret (inl a), s').
Proof. unfold attempt. intros ->. reflexivity. Qed.

Lemma attempt_Err {A} (m : io S A) s e s' : m s = (Err e, s') -> attempt m s = (Ret (inr e), s').
Proof. unfold attempt. intros ->. reflexivity. Qed.

(** A loop whose rounds all return carries an invariant through. *)
Lemma for_each_inv {A} (f : A -> io S unit) (Inv : list A -> S -> Prop) l s :
  (forall x l1 l2 s, l = l1 ++ x :: l2 -> Inv l1 s -> exists s', f x s = (Ret tt, s') /\ Inv (l1 ++ [x]) s') ->
  Inv [] s -> exists s', for_each f l s = (Ret tt, s') /\ Inv l s'.
Proof.
  intros Hf. enough (forall l2 l1 s, l = l1 ++ l2 -> Inv l1 s ->
    exists s', for_each f l2 s = (Ret tt, s') /\ Inv l s') as H by (intros; by apply (H l [])).
  induction l2 as [|x l2 IH]; intros l1 s1 E Hi.
  - rewrite app_nil_r in E. subst. eexists. split; [reflexivity|done].
  - destruct (Hf x l1 l2 s1 E Hi) as (s2 & E2 & Hi2). cbn [for_each].
    rewrite (bind_Ret_io _ _ _ _ _ E2). apply (IH (l1 ++ [x])); [by rewrite <- app_assoc|done].
Qed.
End Ops.

(** Runs the next statement, whose result a lemma or the context gives. *)
Ltac io_step H := rewrite (bind_Ret_io _ _ _ _ _ H).
