(* ===== verification/Keys.v ===== *)
(** Keys made with [fmt.Sprintf]: [%d] prints a decimal number, so a separator
    that is not a digit keeps the parts of a key apart. And the functions of
    package strings the program uses. *)
From stdpp Require Import base list strings pretty.
From Stdlib Require Import ZArith Lia Ascii String.
From S2P Require Import Prelude.

(** [c] does not occur in [s]. *)
Fixpoint avoids (c : ascii) (s : string) : Prop :=
  match s with EmptyString => True | String a s' => a <> c /\ avoids c s' end.

Lemma avoids_app c s t : avoids c (s +:+ t) <-> avoids c s /\ avoids c t.
Proof.
  induction s as [|a s IH]; [cbn; tauto|]. change (String a s +:+ t) with (String a (s +:+ t)).
  cbn [avoids]. rewrite IH. tauto.
Qed.

Definition is_digit (a : ascii) : bool := (N_of_ascii "0" <=? N_of_ascii a)%N && (N_of_ascii a <=? N_of_ascii "9")%N.

Lemma pretty_N_char_digit x : is_digit (pretty_N_char x) = true.
Proof. unfold pretty_N_char. repeat case_match; reflexivity. Qed.

Lemma pretty_N_go_avoids c x s : is_digit c = false -> avoids c s -> avoids c (pretty_N_go x s).
Proof.
  intros Hc. revert s. induction (N.lt_wf_0 x) as [x _ IH]; intros s Hs.
  assert (x = 0 \/ 0 < x)%N as [->|?] by lia; [done|].
  rewrite pretty_N_go_step by done. apply IH; [by apply N.div_lt|]. split; [|done].
  intros <-. rewrite pretty_N_char_digit in Hc. discriminate.
Qed.

Lemma pretty_N_avoids c (x : N) : is_digit c = false -> avoids c (pretty x).
Proof.
  intros Hc. unfold pretty, pretty_N. case_decide; [|apply pretty_N_go_avoids; done].
  split; [intros <-; discriminate|done].
Qed.

(** A printed number has digits only, and a sign when it is negative. *)
Lemma pretty_Z_avoids c (z : Z) : is_digit c = false -> c <> "-"%char \/ 0 <= z -> avoids c (pretty z).
Proof.
  intros Hc Hs. unfold pretty, pretty_Z. destruct z as [|p|p].
  - split; [intros <-; discriminate|done].
  - apply pretty_N_avoids, Hc.
  - cbn. split; [|apply pretty_N_avoids, Hc]. destruct Hs; [congruence|lia].
Qed.

(** The part before the first separator. *)
Lemma split_first c s1 s2 t1 t2 : avoids c s1 -> avoids c s2 ->
  s1 +:+ String c t1 = s2 +:+ String c t2 -> s1 = s2 /\ t1 = t2.
Proof.
  revert s2. induction s1 as [|a s1 IH]; intros [|b s2] H1 H2; cbn in *; intros E.
  - injection E as E. auto.
  - injection E as E1 E2. destruct H2. congruence.
  - injection E as E1 E2. destruct H1. congruence.
  - injection E as -> E. destruct H1, H2. destruct (IH s2) as [-> ->]; auto.
Qed.

(** The part after the last separator. *)
Lemma split_last c s1 s2 t1 t2 : avoids c t1 -> avoids c t2 ->
  s1 +:+ String c t1 = s2 +:+ String c t2 -> s1 = s2 /\ t1 = t2.
Proof.
  revert s2. induction s1 as [|a s1 IH]; intros [|b s2] H1 H2; cbn in *; intros E.
  - injection E as E. auto.
  - injection E as E1 E2. subst. apply avoids_app in H1 as [_ H]. cbn in H. destruct H. congruence.
  - injection E as E1 E2. subst. apply avoids_app in H2 as [_ H]. cbn in H. destruct H. congruence.
  - injection E as -> E. destruct (IH s2) as [-> ->]; auto.
Qed.

(** [fmt.Sprintf] with the formats [%d_%d], [%s-%d] and [%d-%s]. *)
Definition Sprintf_d_d (a b : Z) : string := pretty a +:+ "_" +:+ pretty b.
Definition Sprintf_s_d (s : string) (d : Z) : string := s +:+ "-" +:+ pretty d.
Definition Sprintf_d_s (d : Z) (s : string) : string := pretty d +:+ "-" +:+ s.

#[export] Instance Sprintf_d_d_inj : Inj2 (=) (=) (=) Sprintf_d_d.
Proof.
  intros a1 b1 a2 b2 E. unfold Sprintf_d_d in E.
  apply (split_first "_") in E as [Ea Eb];
    [|apply pretty_Z_avoids; [reflexivity|left; discriminate]..].
  split; [apply (inj pretty), Ea|apply (inj pretty), Eb].
Qed.

Lemma Sprintf_s_d_inj s1 d1 s2 d2 : 0 <= d1 -> 0 <= d2 ->
  Sprintf_s_d s1 d1 = Sprintf_s_d s2 d2 -> s1 = s2 /\ d1 = d2.
Proof.
  intros H1 H2 E. unfold Sprintf_s_d in E.
  apply (split_last "-") in E as [-> E]; [|apply pretty_Z_avoids; auto..].
  split; [done|]. apply (inj pretty), E.
Qed.

Lemma Sprintf_d_s_inj d1 s1 d2 s2 : 0 <= d1 -> 0 <= d2 ->
  Sprintf_d_s d1 s1 = Sprintf_d_s d2 s2 -> d1 = d2 /\ s1 = s2.
Proof.
  intros H1 H2 E. unfold Sprintf_d_s in E.
  apply (split_first "-") in E as [E ->]; [|apply pretty_Z_avoids; auto..].
  split; [|done]. apply (inj pretty), E.
Qed.

(** * Package strings *)

(** [strings.HasSuffix] and [strings.TrimSuffix]. *)
Definition HasSuffix (s suffix : string) : bool :=
  let n := String.length s in let m := String.length suffix in
  (m <=? n)%nat && bool_decide (String.substring (n - m) m s = suffix).
Definition TrimSuffix (s suffix : string) : string :=
  if HasSuffix s suffix then String.substring 0 (String.length s - String.length suffix) s else s.

(** [strings.Contains], [strings.Split] and [strings.Join] with a separator of
    one character. *)
Fixpoint Contains (s : string) (c : ascii) : bool :=
  match s with EmptyString => false | String a s' => bool_decide (a = c) || Contains s' c end.

Fixpoint Split (s : string) (c : ascii) : list string :=
  match s with
  | EmptyString => [EmptyString]
  | String a s' =>
      if bool_decide (a = c) then EmptyString :: Split s' c
      else match Split s' c with x :: l => String a x :: l | [] => [] end
  end.

Fixpoint Join (l : list string) (c : ascii) : string :=
  match l with
  | [] => EmptyString
  | [s] => s
  | s :: l' => s +:+ String c (Join l' c)
  end.

Lemma Contains_avoids s c : Contains s c = false <-> avoids c s.
Proof.
  induction s as [|a s IH]; cbn; [tauto|]. rewrite orb_false_iff, IH, bool_decide_eq_false. tauto.
Qed.

Lemma Contains_app s t c : Contains (s +:+ t) c = Contains s c || Contains t c.
Proof.
  induction s as [|a s IH]; [done|]. change (String a s +:+ t) with (String a (s +:+ t)).
  cbn [Contains]. rewrite IH. apply orb_assoc.
Qed.

Lemma Split_avoids s c : avoids c s -> Split s c = [s].
Proof.
  induction s as [|a s IH]; [done|]. intros [Ha Hs]. cbn. rewrite bool_decide_false by done. by rewrite IH.
Qed.

Lemma Split_app s t c : avoids c s -> Split (s +:+ String c t) c = s :: Split t c.
Proof.
  induction s as [|a s IH]; intros Hs.
  - change (EmptyString +:+ String c t) with (String c t). cbn [Split]. by rewrite bool_decide_true.
  - destruct Hs as [Ha Hs]. change (String a s +:+ String c t) with (String a (s +:+ String c t)). cbn [Split].
    rewrite bool_decide_false by done. by rewrite IH.
Qed.

(** Splitting undoes joining for a nonempty list of parts without the
    separator. *)
Lemma Split_Join l c : l <> [] -> Forall (avoids c) l -> Split (Join l c) c = l.
Proof.
  induction l as [|s l IH]; [done|]. intros _ [Hs Hl]%Forall_cons. destruct l as [|t l].
  - by apply Split_avoids.
  - change (Join (s :: t :: l) c) with (s +:+ String c (Join (t :: l) c)).
    rewrite Split_app by done. f_equal. by apply IH.
Qed.
