(* ===== verification/Strconv.v ===== *)
(** Package strconv as the program uses it: decimal numbers are read back as
    [fmt.Sprintf] and [strconv.Itoa] print them. *)
From stdpp Require Import base list strings pretty.
From Stdlib Require Import ZArith Lia Ascii Strings.Byte.
From S2P Require Import Prelude Keys.

Fixpoint parse_digits (acc : Z) (s : string) : option Z :=
  match s with
  | EmptyString => Some acc
  | String a s' =>
      let d := Z.of_N (Ascii.N_of_ascii a) - 48 in
      if (0 <=? d) && (d <=? 9) then parse_digits (acc * 10 + d) s' else None
  end.

(** An optional sign and digits; the number is not bounded yet. *)
Definition parse_signed (s : string) : option Z :=
  match s with
  | EmptyString => None
  | String "-"%char s' => match s' with EmptyString => None | _ => Z.opp <$> parse_digits 0 s' end
  | String "+"%char s' => match s' with EmptyString => None | _ => parse_digits 0 s' end
  | _ => parse_digits 0 s
  end.

(** [strconv.ParseInt(s, 10, w)], with [None] for an error. *)
Definition ParseIntW (w : Z) (s : string) : option Z :=
  v ← parse_signed s; if (- 2 ^ (w - 1) <=? v) && (v <? 2 ^ (w - 1)) then Some v else None.
Definition ParseInt : string -> option Z := ParseIntW 64.

(** [v, _ := strconv.Atoi(s)]: an error is ignored; what is out of range is
    the nearest number in range. *)
Definition Atoi (s : string) : Z :=
  match parse_signed s with
  | Some v => Z.max (- 2 ^ 63) (Z.min (2 ^ 63 - 1) v)
  | None => 0
  end.

(** [strconv.ParseUint(s, 10, w)], and [v, _ := strconv.ParseUint(s, 10, 64)]. *)
Definition ParseUintW (w : Z) (s : string) : option Z :=
  match s with
  | EmptyString => None
  | _ => v ← parse_digits 0 s; if v <? 2 ^ w then Some v else None
  end.
Definition ParseUint (s : string) : Z :=
  match s with
  | EmptyString => 0
  | _ => match parse_digits 0 s with Some v => Z.min (2 ^ 64 - 1) v | None => 0 end
  end.

(** * Reading back what was printed *)

Lemma parse_digit_char acc (d : N) s : (d < 10)%N ->
  parse_digits acc (String (pretty_N_char d) s) = parse_digits (acc * 10 + Z.of_N d) s.
Proof.
  intros Hd. cbn [parse_digits].
  assert (Z.of_N (N_of_ascii (pretty_N_char d)) - 48 = Z.of_N d) as ->.
  { assert (d = 0 \/ d = 1 \/ d = 2 \/ d = 3 \/ d = 4 \/ d = 5 \/ d = 6 \/ d = 7 \/ d = 8 \/ d = 9)%N as H by lia.
    repeat (destruct H as [->|H]; [reflexivity|]). by subst. }
  by rewrite (proj2 (Z.leb_le 0 _)), (proj2 (Z.leb_le _ 9)) by lia.
Qed.

Lemma parse_pretty_go x s : exists k, forall acc, parse_digits acc (pretty_N_go x s) = parse_digits (acc * k + Z.of_N x) s.
Proof.
  revert s. induction (N.lt_wf_0 x) as [x _ IH]; intros s.
  assert (x = 0 \/ 0 < x)%N as [->|?] by lia.
  { exists 1. intros acc. rewrite pretty_N_go_0. f_equal. lia. }
  rewrite pretty_N_go_step by done. destruct (IH (x `div` 10)%N ltac:(by apply N.div_lt) (String (pretty_N_char (x `mod` 10)) s)) as [k Hk].
  exists (k * 10). intros acc. rewrite Hk, parse_digit_char by (by apply N.mod_lt). f_equal.
  pose proof (N.div_mod x 10 ltac:(done)) as E. rewrite N2Z.inj_div, N2Z.inj_mod.
  pose proof (Z.div_mod (Z.of_N x) 10). lia.
Qed.

(** A positive number starts with a digit that is not zero. *)
Lemma pretty_go_head x s : (0 < x)%N -> exists d t, (0 < d < 10)%N /\ pretty_N_go x s = String (pretty_N_char d) t.
Proof.
  revert s. induction (N.lt_wf_0 x) as [x _ IH]; intros s Hx. rewrite pretty_N_go_step by done.
  assert (x < 10 \/ 10 <= x)%N as [Hs|Hl] by lia.
  - rewrite N.div_small, pretty_N_go_0, N.mod_small by done. eauto.
  - apply IH; [by apply N.div_lt|]. apply N.div_str_pos. lia.
Qed.

Lemma pretty_N_cases (n : N) : (n = 0%N /\ pretty n = "0") \/
  exists d t, (0 < d < 10)%N /\ pretty n = String (pretty_N_char d) t.
Proof.
  unfold pretty, pretty_N. case_decide as H; [by left|]. right. apply pretty_go_head. lia.
Qed.

Lemma parse_digits_pretty (n : N) : parse_digits 0 (pretty n) = Some (Z.of_N n).
Proof.
  unfold pretty, pretty_N. case_decide as H; [by subst|]. destruct (parse_pretty_go n "") as [k ->]. reflexivity.
Qed.

Lemma pretty_N_first (n : N) : exists c t, pretty n = String c t /\ c <> "-"%char /\ c <> "+"%char.
Proof.
  destruct (pretty_N_cases n) as [[_ ->]|(d & t & Hd & ->)]; [by exists "0"%char, ""|]. exists (pretty_N_char d), t.
  split; [done|]. split; intros E; pose proof (pretty_N_char_digit d) as Hc; rewrite E in Hc; discriminate.
Qed.

Lemma parse_signed_pretty (z : Z) : parse_signed (pretty z) = Some z.
Proof.
  destruct z as [|p|p]; [reflexivity| |].
  - change (pretty (Z.pos p)) with (pretty (N.pos p)). pose proof (parse_digits_pretty (N.pos p)) as E.
    destruct (pretty_N_first (N.pos p)) as (c & t & Hp & H1 & H2). rewrite Hp in E |- *.
    assert (parse_signed (String c t) = parse_digits 0 (String c t)) as -> by (destruct c as [[] [] [] [] [] [] [] []]; try done; congruence).
    exact E.
  - change (pretty (Z.neg p)) with (String "-" (pretty (N.pos p))). cbn [parse_signed].
    pose proof (parse_digits_pretty (N.pos p)) as E. destruct (pretty_N_first (N.pos p)) as (c & t & Hp & _).
    rewrite Hp in E |- *. by rewrite E.
Qed.

Lemma ParseIntW_pretty w z : inS w z -> ParseIntW w (pretty z) = Some z.
Proof.
  intros [H1 H2]. unfold ParseIntW. rewrite parse_signed_pretty. cbn.
  by rewrite (proj2 (Z.leb_le _ _)), (proj2 (Z.ltb_lt _ _)) by done.
Qed.

Lemma Atoi_pretty z : inS 64 z -> Atoi (pretty z) = z.
Proof. intros [H1 H2]. unfold Atoi. rewrite parse_signed_pretty. cbn in H1, H2 |- *. lia. Qed.

Lemma pretty_nonneg z : 0 <= z -> pretty z = pretty (Z.to_N z).
Proof. destruct z as [|p|p]; [done|done|lia]. Qed.

Lemma ParseUintW_pretty w z : inU w z -> ParseUintW w (pretty z) = Some z.
Proof.
  intros [H1 H2]. rewrite pretty_nonneg by done. unfold ParseUintW. pose proof (parse_digits_pretty (Z.to_N z)) as E.
  destruct (pretty_N_first (Z.to_N z)) as (c & t & Hp & _). rewrite Hp in E |- *. rewrite E. cbn.
  rewrite Z2N.id by done. by rewrite (proj2 (Z.ltb_lt _ _)).
Qed.

Lemma ParseUint_pretty z : inU 64 z -> ParseUint (pretty z) = z.
Proof.
  intros [H1 H2]. rewrite pretty_nonneg by done. unfold ParseUint. pose proof (parse_digits_pretty (Z.to_N z)) as E.
  destruct (pretty_N_first (Z.to_N z)) as (c & t & Hp & _). rewrite Hp in E |- *. rewrite E.
  rewrite Z2N.id by done. lia.
Qed.

(** A number below [10 ^ k] has at most [k] digits. *)
Lemma length_pretty_go k x s : (x < 10 ^ N.of_nat k)%N ->
  (length (bytes_of_string (pretty_N_go x s)) <= k + length (bytes_of_string s))%nat.
Proof.
  revert x s. induction k as [|k IH]; intros x s Hx.
  - change (10 ^ N.of_nat 0)%N with 1%N in Hx. assert (x = 0)%N as -> by lia. rewrite pretty_N_go_0. lia.
  - assert (x = 0 \/ 0 < x)%N as [->|?] by lia; [rewrite pretty_N_go_0; lia|].
    rewrite pretty_N_go_step by done. rewrite Nat2N.inj_succ, N.pow_succ_r' in Hx.
    pose proof (IH (x `div` 10)%N (String (pretty_N_char (x `mod` 10)) s) ltac:(apply N.Div0.div_lt_upper_bound; lia)) as HI.
    assert (forall a, length (bytes_of_string (String a s)) = S (length (bytes_of_string s))) as El by done.
    rewrite El in HI. lia.
Qed.

Lemma length_pretty (k : nat) z : 0 <= z < 10 ^ Z.of_nat (S k) -> (length (bytes_of_string (pretty z)) <= S k)%nat.
Proof.
  intros Hz. rewrite pretty_nonneg by lia. unfold pretty, pretty_N. case_decide; [cbn; lia|].
  pose proof (length_pretty_go (S k) (Z.to_N z) "") as Hl. cbn [String.list_byte_of_string length] in Hl.
  rewrite Nat.add_0_r in Hl. apply Hl. apply N2Z.inj_lt. rewrite Z2N.id, N2Z.inj_pow, nat_N_Z by lia. lia.
Qed.
