(* ===== verification/Bitmap.v ===== *)
(** Bit maps of slots (pkg/util/bitmap.go): which of the slots of the data
    base a node of a cluster has, what a node hands over to another, and the
    text of a list of slots. *)
From stdpp Require Import base list strings pretty.
From Stdlib Require Import ZArith Lia Ascii Strings.Byte.
From S2P Require Import Prelude Keys.

Record SlotBitMap := mkSlotBitMap { bits : list byte; slotNum : Z }.

(** [make([]byte, n)]. *)
Definition make_bytes (n : Z) : outcome (list byte) :=
  if n <? 0 then Panic else Ret (replicate (Z.to_nat n) x00).
Definition NewSlotBitMap (slotNum : Z) : outcome SlotBitMap :=
  bits ← make_bytes (if Z.rem slotNum 8 =? 0 then Z.quot slotNum 8 else Z.quot slotNum 8 + 1);
  Ret (mkSlotBitMap bits slotNum).
Definition NewSlotBitMapWithBits (bits : list byte) : SlotBitMap := mkSlotBitMap bits 0.
Definition Reset (s : SlotBitMap) : outcome SlotBitMap := NewSlotBitMap (slotNum s).
Definition set_bits (l : list byte) (s : SlotBitMap) : SlotBitMap := mkSlotBitMap l (slotNum s).

(** [b | 1<<pos] and [b & ^(1<<pos)] on a byte. *)
Definition bit_on (b pos : Z) : Z := Z.lor b (Z.shiftl 1 pos).
Definition bit_off (b pos : Z) : Z := Z.land b (Z.lxor (Z.shiftl 1 pos) 255).

Definition SetSlot (num : Z) (v : bool) (s : SlotBitMap) : outcome SlotBitMap :=
  let index := Z.to_nat (num / 8) in
  let pos := num mod 8 in
  match bits s !! index with
  | None => Panic
  | Some b =>
      let b' := if v then bit_on (Z_of_byte b) pos else bit_off (Z_of_byte b) pos in
      Ret (set_bits (<[index := byte_of_Z b']> (bits s)) s)
  end.
(** The loop of [SetSlotForRange]: it panics where the bit map ends. *)
Fixpoint set_from (n : nat) (i : Z) (v : bool) (s : SlotBitMap) : outcome SlotBitMap :=
  match n with
  | O => Ret s
  | S n' => s' ← SetSlot i v s; set_from n' (i + 1) v s'
  end.
Definition SetSlotForRange (start end_ : Z) (v : bool) (s : SlotBitMap) : outcome SlotBitMap :=
  set_from (Z.to_nat (end_ - start + 1)) start v s.
Definition GetSlot (num : Z) (s : SlotBitMap) : outcome bool :=
  match bits s !! Z.to_nat (num / 8) with
  | None => Panic
  | Some b => Ret (negb (Z.land (Z_of_byte b) (Z.shiftl 1 (num mod 8)) =? 0))
  end.

(** The slots of a byte, the first of them [8 * i]. *)
Definition vaild (b : Z) (j : Z) : bool := Z.land (Z.shiftr b j) 1 =? 1.
Definition byte_slots (i : Z) (b : byte) : list Z :=
  (fun j => u32 (i * 8 + j)) <$> filter (fun j => vaild (Z_of_byte b) j) (seqZ 0 8).
Fixpoint slots_from (i : Z) (l : list byte) : list Z :=
  match l with [] => [] | b :: l' => byte_slots i b ++ slots_from (i + 1) l' end.
Definition GetVaildSlots (s : SlotBitMap) : list Z := slots_from 0 (bits s).
Definition GetVaildSlotNum (s : SlotBitMap) : Z := zlen (GetVaildSlots s).

(** [ExportSlots]: the loop over the bits [j - 1], ..., 0 of a byte, and the
    loop over the bytes, the last one first; a loop that breaks leaves what
    follows as it was. *)
Fixpoint export_bits (j : nat) (b eb exportNum : Z) : Z * Z * Z :=
  match j with
  | O => (b, eb, exportNum)
  | S j' =>
      if exportNum <=? 0 then (b, eb, exportNum)
      else if vaild b (Z.of_nat j') then
        export_bits j' (bit_off b (Z.of_nat j')) (bit_on eb (Z.of_nat j')) (exportNum - 1)
      else export_bits j' b eb exportNum
  end.
Fixpoint export_bytes (l : list byte) (exportNum : Z) : list byte * list byte * Z :=
  match l with
  | [] => ([], [], exportNum)
  | b :: l' =>
      let '(l1, e1, n1) := export_bytes l' exportNum in
      if n1 <=? 0 then (b :: l1, x00 :: e1, n1)
      else
        let '(b', eb, n2) := export_bits 8 (Z_of_byte b) 0 n1 in
        (byte_of_Z b' :: l1, byte_of_Z eb :: e1, n2)
  end.
Definition ExportSlots (num : Z) (s : SlotBitMap) : list byte * SlotBitMap :=
  let '(l, exportBits, _) := export_bytes (bits s) num in (exportBits, set_bits l s).

(** [b & ^v], [b | v]. *)
Definition and_not (b v : byte) : byte := byte_of_Z (Z.land (Z_of_byte b) (Z.lxor (Z_of_byte v) 255)).
Definition or_byte (b v : byte) : byte := byte_of_Z (Z.lor (Z_of_byte b) (Z_of_byte v)).

(** [CleanSlots] puts the two lists side by side at their ends, [MergeSlots]
    at their beginnings. *)
Fixpoint clean_rev (l slots : list byte) : list byte :=
  match l, slots with
  | b :: l', v :: slots' => and_not b v :: clean_rev l' slots'
  | _, _ => l
  end.
Definition CleanSlots (slots : list byte) (s : SlotBitMap) : SlotBitMap :=
  set_bits (reverse (clean_rev (reverse (bits s)) (reverse slots))) s.
Fixpoint merge (l v : list byte) : list byte :=
  match l, v with
  | b :: l', x :: v' => or_byte b x :: merge l' v'
  | _, _ => l
  end.
Definition MergeSlots (bs : list (list byte)) (s : SlotBitMap) : SlotBitMap := set_bits (foldl merge (bits s) bs) s.

(** [SlotsContains]: an index into a [subslice] that has ended panics. *)
Fixpoint SlotsContains_loop (b subslice : list byte) : outcome bool :=
  match b, subslice with
  | [], _ => Ret true
  | _ :: _, [] => Panic
  | b1 :: b', s1 :: subslice' =>
      if existsb (fun j => vaild (Z_of_byte s1) j && negb (vaild (Z_of_byte b1) j)) (seqZ 0 8) then Ret false
      else SlotsContains_loop b' subslice'
  end.
Definition SlotsContains (b subslice : list byte) : outcome bool :=
  if (length b <? length subslice)%nat then Ret false else SlotsContains_loop b subslice.

(** [FormatSlots]: [prev] is the element before the rest of the loop. *)
Definition range_text (start last : Z) : string :=
  if start =? last then pretty start else (pretty start +:+ "-" +:+ pretty last)%string.
Fixpoint format_loop (start prev : Z) (rest : list Z) : list string :=
  match rest with
  | [] => []
  | x :: rest' =>
      let gap := negb (u32 (x - prev) =? 1) in
      (if gap then [range_text start prev] else []) ++
      (let start' := if gap then x else start in
       (if bool_decide (rest' = []) then [range_text start' x] else []) ++ format_loop start' x rest')
  end.
Definition FormatSlots (slots : list Z) : string :=
  match slots with [] => EmptyString | x :: rest => Join (format_loop x x rest) ","%char end.

(** * Bits of a byte *)

Lemma vaild_testbit b j : 0 <= j -> vaild b j = Z.testbit b j.
Proof.
  intros Hj. unfold vaild. change 1 with (Z.ones 1) at 1. rewrite Z.land_ones by lia. change (2 ^ 1) with 2.
  rewrite <- (Z.add_0_l j) at 2. rewrite <- Z.shiftr_spec, Z.bit0_odd, Zmod_odd by lia. by destruct (Z.odd _).
Qed.

(** The places of the bits of a byte that are set. *)
Definition ones (b : Z) : list Z := filter (fun j => vaild b j) (seqZ 0 8).

Lemma length_ones b : (length (ones b) <= 8)%nat.
Proof. unfold ones. rewrite length_filter. reflexivity. Qed.

(** What [export_bits] makes of a byte. *)
Definition exported (b : byte) (n : Z) : Prop :=
  let '(b', eb, n') := export_bits 8 (Z_of_byte b) 0 n in
  ones (Z_of_byte (byte_of_Z b')) ++ ones (Z_of_byte (byte_of_Z eb)) = ones (Z_of_byte b) /\
  zlen (ones (Z_of_byte (byte_of_Z eb))) = Z.min n (zlen (ones (Z_of_byte b))) /\
  n' = n - zlen (ones (Z_of_byte (byte_of_Z eb))) /\
  and_not b (byte_of_Z eb) = byte_of_Z b' /\ or_byte (byte_of_Z b') (byte_of_Z eb) = b.

#[local] Instance exported_dec b n : Decision (exported b n).
Proof. unfold exported. destruct (export_bits _ _ _ _) as [[b' eb] n']. apply _. Defined.

Lemma exported_small b n : 0 <= n <= 8 -> exported b n.
Proof.
  intros Hn. assert (n ∈ seqZ 0 9) as Hin by (apply elem_of_seqZ; lia). clear Hn. revert n Hin.
  apply Forall_forall. destruct b; apply (bool_decide_unpack _); vm_compute; exact I.
Qed.

(** Beyond the number of bits left, the count only counts down. *)
Lemma export_bits_more j b eb n d : Z.of_nat j <= n -> 0 <= d ->
  export_bits j b eb (n + d) = let '(b', eb', r) := export_bits j b eb n in (b', eb', r + d).
Proof.
  revert b eb n. induction j as [|j IH]; intros b eb n Hn Hd; [done|]. cbn [export_bits].
  rewrite !(proj2 (Z.leb_gt _ 0)) by lia. destruct (vaild b (Z.of_nat j)); [|by apply IH; lia].
  replace (n + d - 1) with (n - 1 + d) by lia. apply IH; lia.
Qed.

Lemma exported_all b n : 0 <= n -> exported b n.
Proof.
  intros Hn. destruct (decide (n <= 8)); [by apply exported_small|].
  pose proof (exported_small b 8 ltac:(lia)) as H8. unfold exported in *.
  replace n with (8 + (n - 8)) by lia. rewrite (export_bits_more 8) by lia.
  destruct (export_bits 8 _ 0 8) as [[b' eb] r]. destruct H8 as (H1 & H2 & -> & H4).
  pose proof (length_ones (Z_of_byte b)) as Hb. unfold zlen in *. split; [done|]. split; [lia|]. split; [lia|done].
Qed.

Lemma byte_slots_ones i b : byte_slots i b = (fun j => u32 (i * 8 + j)) <$> ones (Z_of_byte b).
Proof. reflexivity. Qed.

Lemma byte_slots_zero i : byte_slots i x00 = [].
Proof. reflexivity. Qed.

Lemma zlen_byte_slots i b : zlen (byte_slots i b) = zlen (ones (Z_of_byte b)).
Proof. rewrite byte_slots_ones. unfold zlen. by rewrite length_fmap. Qed.

Lemma and_not_zero b : and_not b x00 = b.
Proof. destruct b; reflexivity. Qed.
Lemma or_zero b : or_byte b x00 = b.
Proof. destruct b; reflexivity. Qed.

(** * Handing slots over *)

(** [CleanSlots] of as many bytes goes byte by byte. *)
Lemma clean_rev_zip l v : length v = length l -> clean_rev l v = zip_with and_not l v.
Proof. revert v. induction l as [|b l IH]; intros [|x v]; cbn; intros [=]; auto. by rewrite IH. Qed.

Lemma zip_with_reverse {A B C} (f : A -> B -> C) l k : length l = length k ->
  zip_with f (reverse l) (reverse k) = reverse (zip_with f l k).
Proof.
  revert k. induction l as [|a l IH]; intros [|b k] Hk; try discriminate Hk; [done|]. injection Hk as Hk.
  cbn [zip_with]. rewrite !reverse_cons, zip_with_app by by rewrite !length_reverse. by rewrite IH.
Qed.

Lemma CleanSlots_zip v s : length v = length (bits s) -> CleanSlots v s = set_bits (zip_with and_not (bits s) v) s.
Proof.
  intros Hv. unfold CleanSlots. rewrite clean_rev_zip by by rewrite !length_reverse.
  by rewrite zip_with_reverse, reverse_involutive by done.
Qed.

Lemma export_bytes_spec l n : 0 <= n ->
  let '(l', e, n') := export_bytes l n in
  (forall i, slots_from i l' ++ slots_from i e = slots_from i l) /\
  (forall i, zlen (slots_from i e) = Z.min n (zlen (slots_from i l))) /\
  (forall i, n' = n - zlen (slots_from i e)) /\
  length e = length l /\ zip_with and_not l e = l' /\ merge l' e = l.
Proof.
  revert n. induction l as [|b l IH]; intros n Hn; cbn [export_bytes].
  { split; [done|]. split; [intros i; cbn; unfold zlen; cbn; lia|]. split; [intros; cbn; unfold zlen; cbn; lia|done]. }
  specialize (IH n Hn). destruct (export_bytes l n) as [[l1 e1] n1]. destruct IH as (Hs & Hl & Hn1 & He & Hc & Hm).
  assert (forall i, zlen (slots_from i l1) = zlen (slots_from i l) - zlen (slots_from i e1)) as Hrest
    by (intros i; rewrite <- (Hs i), zlen_app; lia).
  destruct (n1 <=? 0) eqn:E; zbool.
  - cbn [slots_from length zip_with merge]. rewrite and_not_zero, or_zero, Hc, Hm, He. repeat split.
    + intros i. rewrite byte_slots_zero, <- app_assoc, app_nil_l. by rewrite Hs.
    + intros i. rewrite byte_slots_zero, app_nil_l, zlen_app, Hl.
      pose proof (zlen_nonneg (byte_slots i b)). specialize (Hn1 (i + 1)). rewrite Hl in Hn1. lia.
    + intros i. rewrite byte_slots_zero, app_nil_l. apply Hn1.
  - assert (forall i, slots_from i l1 = []) as Hnil.
    { intros i. apply nil_length_inv. specialize (Hn1 i). specialize (Hrest i). rewrite Hl in *. unfold zlen in *. lia. }
    assert (0 <= n1) as Hn0 by lia. pose proof (exported_all b n1 Hn0) as Hx. unfold exported in Hx.
    destruct (export_bits 8 (Z_of_byte b) 0 n1) as [[b' eb] n2]. destruct Hx as (Ho & Hk & -> & Ha & Hr).
    cbn [slots_from length zip_with merge]. rewrite Hc, Hm, He, Ha, Hr. repeat split.
    + intros i. rewrite Hnil, app_nil_r, !byte_slots_ones, app_assoc, <- fmap_app, Ho. f_equal.
      rewrite <- (Hs (i + 1)), Hnil. done.
    + intros i. rewrite !zlen_app, !zlen_byte_slots, Hk. specialize (Hn1 (i + 1)). specialize (Hl (i + 1)).
      specialize (Hrest (i + 1)). rewrite Hnil in Hrest. change (zlen []) with 0 in Hrest. lia.
    + intros i. rewrite zlen_app, zlen_byte_slots. specialize (Hn1 (i + 1)). lia.
Qed.

(** C32: [ExportSlots] of [num] slots takes the [num] highest ones out of the
    bit map, or all of them when there are fewer, and leaves the others; what
    it has taken is a bit map of the same length: cleaning the slots in it
    from the old bit map gives the new one, and merging it into the new one
    gives the old one back. *)
Theorem ExportSlots_takes_highest num s : 0 <= num ->
  let '(e, s') := ExportSlots num s in
  GetVaildSlots s' ++ GetVaildSlots (NewSlotBitMapWithBits e) = GetVaildSlots s /\
  GetVaildSlotNum (NewSlotBitMapWithBits e) = Z.min num (GetVaildSlotNum s) /\
  CleanSlots e s = s' /\ MergeSlots [e] s' = s.
Proof.
  intros Hn. unfold ExportSlots. pose proof (export_bytes_spec (bits s) num Hn) as H.
  destruct (export_bytes (bits s) num) as [[l e] n']. destruct H as (Hs & Hl & _ & He & Hc & Hm).
  split; [apply Hs|]. split; [apply Hl|]. split; [by rewrite CleanSlots_zip, Hc|].
  unfold MergeSlots, set_bits. cbn. rewrite Hm. by destruct s.
Qed.

(** * Single slots *)

(** The bit of a slot, for slots the bit map has. *)
Definition has_slot (l : list byte) (k : Z) : option bool :=
  if 0 <=? k then (fun b => vaild (Z_of_byte b) (k mod 8)) <$> l !! Z.to_nat (k / 8) else None.

Lemma bits_of_byte b p q : 0 <= p < 8 -> 0 <= q < 8 ->
  vaild (Z_of_byte (byte_of_Z (bit_on (Z_of_byte b) p))) q = (p =? q) || vaild (Z_of_byte b) q /\
  vaild (Z_of_byte (byte_of_Z (bit_off (Z_of_byte b) p))) q = negb (p =? q) && vaild (Z_of_byte b) q /\
  negb (Z.land (Z_of_byte b) (Z.shiftl 1 q) =? 0) = vaild (Z_of_byte b) q.
Proof.
  intros Hp Hq. assert (p ∈ seqZ 0 8) as Hp' by (apply elem_of_seqZ; lia).
  assert (q ∈ seqZ 0 8) as Hq' by (apply elem_of_seqZ; lia). clear Hp Hq. revert q Hq'. apply Forall_forall.
  revert p Hp'. apply Forall_forall. destruct b; apply (bool_decide_unpack _); vm_compute; exact I.
Qed.

Lemma GetSlot_has k s : 0 <= k -> GetSlot k s = match has_slot (bits s) k with Some v => Ret v | None => Panic end.
Proof.
  intros Hk. unfold GetSlot, has_slot. rewrite (proj2 (Z.leb_le 0 k)) by done.
  destruct (bits s !! _) as [b|]; cbn [fmap option_fmap option_map]; [|done].
  f_equal. apply (bits_of_byte b (k mod 8)); apply Z.mod_pos_bound; lia.
Qed.

(** [SetSlot] of a slot the bit map has sets its bit and no other one; a
    slot it does not have panics. *)
Theorem SetSlot_sets num v s : 0 <= num ->
  match has_slot (bits s) num with
  | None => SetSlot num v s = Panic
  | Some _ => exists s', SetSlot num v s = Ret s' /\
      forall k, 0 <= k -> GetSlot k s' = if k =? num then Ret v else GetSlot k s
  end.
Proof.
  intros Hnum. unfold has_slot, SetSlot. rewrite (proj2 (Z.leb_le 0 num)) by done.
  destruct (bits s !! Z.to_nat (num / 8)) as [b|] eqn:Hb; cbn [fmap option_fmap option_map]; [|done].
  set (b' := if v then _ else _). eexists. split; [done|]. intros k Hk. rewrite !GetSlot_has by done.
  unfold has_slot. rewrite (proj2 (Z.leb_le 0 k)) by done. cbn [set_bits bits].
  pose proof (Z.mod_pos_bound k 8 ltac:(lia)) as Hkm. pose proof (Z.mod_pos_bound num 8 ltac:(lia)) as Hnm.
  pose proof (Z.div_mod k 8 ltac:(lia)). pose proof (Z.div_mod num 8 ltac:(lia)).
  destruct (bits_of_byte b (num mod 8) (k mod 8) Hnm Hkm) as (Hon & Hoff & _).
  destruct (decide (k / 8 = num / 8)) as [E|E].
  - rewrite E, list_lookup_insert_eq by (by eapply lookup_lt_Some). cbn [fmap option_fmap option_map]. rewrite Hb.
    assert (vaild (Z_of_byte (byte_of_Z b')) (k mod 8) = if num mod 8 =? k mod 8 then v else vaild (Z_of_byte b) (k mod 8)) as ->.
    { unfold b'. destruct v; rewrite ?Hon, ?Hoff; by destruct (_ =? _). }
    destruct (k =? num) eqn:Ekn; zbool; [rewrite Ekn, Z.eqb_refl; done|].
    rewrite (proj2 (Z.eqb_neq _ _)) by lia. done.
  - rewrite list_lookup_insert_ne by (pose proof (Z.div_pos k 8); pose proof (Z.div_pos num 8); lia).
    destruct (k =? num) eqn:Ekn; zbool; [by subst k|done].
Qed.

(** [GetVaildSlots] lists the slots that are set, in their order. *)
Lemma slots_from_spec i l : 0 <= i -> 8 * (i + zlen l) <= 2 ^ 32 ->
  slots_from i l = filter (fun k => has_slot l (k - 8 * i) = Some true) (seqZ (8 * i) (8 * zlen l)).
Proof.
  revert i. induction l as [|b l IH]; intros i Hi Hb; [done|]. cbn [slots_from]. rewrite zlen_cons in *.
  pose proof (zlen_nonneg l).
  replace (8 * (1 + zlen l)) with (8 + 8 * zlen l) by lia. rewrite seqZ_app, filter_app by lia. f_equal.
  - rewrite byte_slots_ones. unfold ones.
    replace (seqZ (8 * i) 8) with ((fun j => u32 (i * 8 + j)) <$> seqZ 0 8).
    2:{ replace (8 * i) with (8 * i + 0) by lia. rewrite <- fmap_add_seqZ. apply list_fmap_ext.
        intros j x Hx. apply list_elem_of_lookup_2, elem_of_seqZ in Hx. rewrite wrapU_id by (unfold inU; lia). lia. }
    rewrite filter_map. f_equal. apply filter_ext_in. intros j Hj%elem_of_seqZ. cbn.
    unfold has_slot. rewrite wrapU_id by (unfold inU; lia).
    replace (i * 8 + j - 8 * i) with j by lia. rewrite (proj2 (Z.leb_le 0 j)), (Z.div_small j 8), (Z.mod_small j 8) by lia.
    change ((b :: l) !! Z.to_nat 0) with (Some b). cbn [fmap option_fmap option_map].
    destruct (vaild _ _); naive_solver.
  - rewrite IH by lia. replace (8 * (i + 1)) with (8 * i + 8) by lia. apply filter_ext_in.
    intros k Hk%elem_of_seqZ. unfold has_slot. rewrite !(proj2 (Z.leb_le 0 _)) by lia.
    replace (k - (8 * i + 8)) with (k - 8 * i + (-1) * 8) by lia. rewrite Z.mod_add, Z.div_add by lia.
    assert (1 <= (k - 8 * i) / 8) by (apply Z.div_le_lower_bound; lia).
    replace (Z.to_nat ((k - 8 * i) / 8)) with (S (Z.to_nat ((k - 8 * i) / 8 + -1))) by lia. done.
Qed.

(** * Runs *)

Definition example_map : SlotBitMap := mkSlotBitMap [x05; x83] 16.

Example example_slots : GetVaildSlots example_map = [0; 2; 8; 9; 15].
Proof. reflexivity. Qed.
Example example_export : ExportSlots 2 example_map = ([x00; x82], mkSlotBitMap [x05; x01] 16).
Proof. reflexivity. Qed.

Lemma ExportSlots_takes_highest_witness :
  let '(e, s') := ExportSlots 2 example_map in
  GetVaildSlots s' ++ GetVaildSlots (NewSlotBitMapWithBits e) = GetVaildSlots example_map /\
  GetVaildSlotNum (NewSlotBitMapWithBits e) = Z.min 2 (GetVaildSlotNum example_map) /\
  CleanSlots e example_map = s' /\ MergeSlots [e] s' = example_map.
Proof. pose proof (ExportSlots_takes_highest 2 example_map ltac:(lia)) as H. exact H. Defined.

Lemma SetSlot_sets_witness : exists s', SetSlot 9 false example_map = Ret s' /\
  forall k, 0 <= k -> GetSlot k s' = if k =? 9 then Ret false else GetSlot k example_map.
Proof. exact (SetSlot_sets 9 false example_map ltac:(lia)). Defined.

(** A text of slots: runs of consecutive ones; but the loop starts at the
    second slot, so that a single slot has no text. *)
Example FormatSlots_runs : FormatSlots [0; 1; 2; 5; 7; 8] = "0-2,5,7-8"%string.
Proof. reflexivity. Qed.
Lemma FormatSlots_single x : FormatSlots [x] = EmptyString.
Proof. reflexivity. Qed.

(** [SlotsContains] panics when the second list is shorter and the first one
    has all its slots. *)
Lemma SlotsContains_shorter : SlotsContains [x01; x00] [x01] = Panic.
Proof. reflexivity. Qed.
