(* ===== verification/Json.v ===== *)
(** encoding/json as [util.ToJSON] and [util.ReadJSONByByte]
    (pkg/util/common.go) use it: the text of a value as [Marshal] writes it,
    the parser of [Decoder] with [UseNumber], and the conversions between
    values and the types the program stores or sends. An error carries no
    details, and the parser has no limit on nesting. *)
From stdpp Require Import base list strings pretty.
From Stdlib Require Import ZArith Lia Strings.Byte.
From S2P Require Import Prelude Keys.

(** A JSON value; a number is its literal ([json.Number]), a string its
    bytes. *)
Inductive value :=
  | Null
  | Bool (b : bool)
  | Num (s : list byte)
  | Str (s : list byte)
  | Arr (vs : list value)
  | Obj (ms : list (list byte * value)).

(** * UTF-8 *)

Definition byte_in (lo hi : Z) (b : byte) : bool := (lo <=? Z_of_byte b) && (Z_of_byte b <=? hi).
Definition cont : byte -> bool := byte_in 0x80 0xBF.

(** The size [utf8.DecodeRune] reports, 0 for a byte that starts no rune. *)
Definition rune_len (l : list byte) : nat :=
  match l with
  | [] => O
  | b0 :: r =>
      let x := Z_of_byte b0 in
      if x <? 0x80 then 1%nat
      else if byte_in 0xC2 0xDF b0 then
        match r with b1 :: _ => if cont b1 then 2%nat else O | [] => O end
      else if byte_in 0xE0 0xEF b0 then
        match r with
        | b1 :: b2 :: _ =>
            if byte_in (if x =? 0xE0 then 0xA0 else 0x80) (if x =? 0xED then 0x9F else 0xBF) b1 && cont b2 then 3%nat else O
        | _ => O
        end
      else if byte_in 0xF0 0xF4 b0 then
        match r with
        | b1 :: b2 :: b3 :: _ =>
            if byte_in (if x =? 0xF0 then 0x90 else 0x80) (if x =? 0xF4 then 0x8F else 0xBF) b1 && cont b2 && cont b3
            then 4%nat else O
        | _ => O
        end
      else O
  end.

(** [utf8.Valid]. *)
Fixpoint valid_loop (fuel : nat) (l : list byte) : bool :=
  match fuel, l with
  | S fuel', _ :: _ => match rune_len l with O => false | S k => valid_loop fuel' (drop (S k) l) end
  | _, _ => bool_decide (l = [])
  end.
Definition Valid (l : list byte) : bool := valid_loop (length l) l.

(** [utf8.EncodeRune]: a surrogate or a number that is too large is written
    as U+FFFD. *)
Definition replacement : list byte := [Byte.xef; Byte.xbf; Byte.xbd].
Definition surrogate (r : Z) : bool := (0xD800 <=? r) && (r <? 0xE000).
Definition EncodeRune (r : Z) : list byte :=
  let c n := byte_of_Z (Z.lor 0x80 (Z.land (Z.shiftr r n) 0x3F)) in
  if r <? 0x80 then [byte_of_Z r]
  else if r <? 0x800 then [byte_of_Z (Z.lor 0xC0 (Z.shiftr r 6)); c 0]
  else if surrogate r || (r >? 0x10FFFF) then replacement
  else if r <? 0x10000 then [byte_of_Z (Z.lor 0xE0 (Z.shiftr r 12)); c 6; c 0]
  else [byte_of_Z (Z.lor 0xF0 (Z.shiftr r 18)); c 12; c 6; c 0].

(** * Writing *)

Definition hexdigit (v : Z) : byte := nth (Z.to_nat v) (bytes_of_string "0123456789abcdef") Byte.x00.
(** [htmlSafeSet]: what stands for itself below 0x80. *)
Definition htmlSafe (b : byte) : bool :=
  (32 <=? Z_of_byte b) && negb (bool_decide (b ∈ [Byte.x22; "\"; "<"; ">"; "&"]%byte)).
Definition escape (b : byte) : list byte :=
  match b with
  | "\" => ["\"; "\"]
  | Byte.x22 => ["\"; Byte.x22]
  | Byte.x0a => ["\"; "n"]
  | Byte.x0d => ["\"; "r"]
  | Byte.x09 => ["\"; "t"]
  | _ => ["\"; "u"; "0"; "0"; hexdigit (Z.shiftr (Z_of_byte b) 4); hexdigit (Z.land (Z_of_byte b) 15)]
  end%byte.
Definition is_2028 (c : list byte) : bool := bool_decide (c = [Byte.xe2; Byte.x80; Byte.xa8]).
Definition is_2029 (c : list byte) : bool := bool_decide (c = [Byte.xe2; Byte.x80; Byte.xa9]).
Definition quote_rune (c : list byte) : list byte :=
  if is_2028 c then bytes_of_string "\u2028" else if is_2029 c then bytes_of_string "\u2029" else c.

(** [encodeState.string], without the quotes. *)
Fixpoint quote_loop (fuel : nat) (l : list byte) : list byte :=
  match fuel, l with
  | S fuel', b :: r =>
      if Z_of_byte b <? 0x80 then (if htmlSafe b then [b] else escape b) ++ quote_loop fuel' r
      else match rune_len l with
           | O => bytes_of_string "\ufffd" ++ quote_loop fuel' r
           | S k => quote_rune (take (S k) l) ++ quote_loop fuel' (drop (S k) l)
           end
  | _, _ => []
  end.
Definition dquote : byte := Byte.x22.
Definition quote (s : list byte) : list byte := dquote :: quote_loop (length s) s ++ [dquote].

Fixpoint commas (l : list (list byte)) : list byte :=
  match l with [] => [] | [x] => x | x :: l' => x ++ ","%byte :: commas l' end.

(** [json.Marshal]; the members of an object are in the order of the map's
    sorted keys or of the struct's fields. *)
Fixpoint Marshal (v : value) : list byte :=
  match v with
  | Null => bytes_of_string "null"
  | Bool true => bytes_of_string "true"
  | Bool false => bytes_of_string "false"
  | Num s => s
  | Str s => quote s
  | Arr vs => "["%byte :: commas (map Marshal vs) ++ ["]"%byte]
  | Obj ms => "{"%byte :: commas (map (fun m => quote m.1 ++ ":"%byte :: Marshal m.2) ms) ++ ["}"%byte]
  end.

(** * Reading *)

Definition is_space (b : byte) : bool := bool_decide (b ∈ [" "%byte; Byte.x09; Byte.x0d; Byte.x0a]).
Fixpoint skip (l : list byte) : list byte :=
  match l with b :: r => if is_space b then skip r else l | [] => [] end.

Definition hexval (b : byte) : option Z :=
  if byte_in 48 57 b then Some (Z_of_byte b - 48)
  else if byte_in 97 102 b then Some (Z_of_byte b - 97 + 10)
  else if byte_in 65 70 b then Some (Z_of_byte b - 65 + 10)
  else None.
(** Four hexadecimal digits; with the [\u] before them. *)
Definition u4 (l : list byte) : option (Z * list byte) :=
  match l with
  | a :: b :: c :: d :: r =>
      va ← hexval a; vb ← hexval b; vc ← hexval c; vd ← hexval d;
      Some (((va * 16 + vb) * 16 + vc) * 16 + vd, r)
  | _ => None
  end.
Definition getu4 (l : list byte) : option (Z * list byte) :=
  match l with
  | "\" :: "u" :: r => u4 r
  | _ => None
  end%byte.
(** [utf16.DecodeRune]. *)
Definition surrogate_pair (r1 r2 : Z) : option Z :=
  if (0xD800 <=? r1) && (r1 <? 0xDC00) && (0xDC00 <=? r2) && (r2 <? 0xE000)
  then Some (Z.lor (Z.shiftl (r1 - 0xD800) 10) (r2 - 0xDC00) + 0x10000) else None.
Definition unescape (c : byte) : option byte :=
  match c with
  | "\" => Some "\"
  | "/" => Some "/"
  | Byte.x22 => Some Byte.x22
  | "b" => Some Byte.x08
  | "f" => Some Byte.x0c
  | "n" => Some Byte.x0a
  | "r" => Some Byte.x0d
  | "t" => Some Byte.x09
  | _ => None
  end%byte.

Definition behind (x : list byte) (r : option (list byte * list byte)) : option (list byte * list byte) :=
  '(s, l) ← r; Some (x ++ s, l).

(** A string behind its opening quote ([unquote]), with what follows it. *)
Fixpoint string_lit (fuel : nat) (l : list byte) : option (list byte * list byte) :=
  match fuel, l with
  | S fuel', b :: r =>
      if bool_decide (b = dquote) then Some ([], r)
      else if bool_decide (b = "\"%byte) then
        match r with
        | [] => None
        | c :: r1 =>
            if bool_decide (c = "u"%byte) then
              '(rr, r2) ← u4 r1;
              if surrogate rr then
                match getu4 r2 with
                | Some (rr1, r3) =>
                    match surrogate_pair rr rr1 with
                    | Some dec => behind (EncodeRune dec) (string_lit fuel' r3)
                    | None => behind replacement (string_lit fuel' r2)
                    end
                | None => behind replacement (string_lit fuel' r2)
                end
              else behind (EncodeRune rr) (string_lit fuel' r2)
            else x ← unescape c; behind [x] (string_lit fuel' r1)
        end
      else if Z_of_byte b <? 32 then None
      else match rune_len l with
           | O => behind replacement (string_lit fuel' r)
           | S k => behind (take (S k) l) (string_lit fuel' (drop (S k) l))
           end
  | _, _ => None
  end.

Definition digit (b : byte) : bool := byte_in 48 57 b.
Fixpoint digits (l : list byte) : list byte * list byte :=
  match l with
  | b :: r => if digit b then let '(ds, r') := digits r in (b :: ds, r') else ([], l)
  | [] => ([], [])
  end.
Definition digits1 (l : list byte) : option (list byte * list byte) :=
  let '(ds, r) := digits l in match ds with [] => None | _ => Some (ds, r) end.

(** A number literal: sign, integer part, fraction, exponent. *)
Definition sign_part (l : list byte) : list byte * list byte :=
  match l with "-" :: r => (["-"], r) | _ => ([], l) end%byte.
Definition int_part (l : list byte) : option (list byte * list byte) :=
  match l with "0" :: r => Some (["0"], r) | _ => digits1 l end%byte.
Definition frac_part (l : list byte) : option (list byte * list byte) :=
  match l with
  | "." :: r => '(ds, r') ← digits1 r; Some ("." :: ds, r')
  | _ => Some ([], l)
  end%byte.
Definition exp_part (l : list byte) : option (list byte * list byte) :=
  match l with
  | ("e" | "E") as e :: r =>
      let '(sg, r1) := match r with ("+" | "-") as c :: r1 => ([c], r1) | _ => ([], r) end in
      '(ds, r') ← digits1 r1; Some (e :: sg ++ ds, r')
  | _ => Some ([], l)
  end%byte.
Definition number (l : list byte) : option (list byte * list byte) :=
  let '(sg, l1) := sign_part l in
  '(i, l2) ← int_part l1;
  '(f, l3) ← frac_part l2;
  '(e, l4) ← exp_part l3;
  Some (sg ++ i ++ f ++ e, l4).

(** A value, the elements of an array behind its bracket, the members of an
    object behind its brace. *)
Fixpoint parse (fuel : nat) (l : list byte) : option (value * list byte) :=
  match fuel with
  | O => None
  | S fuel' =>
      match skip l with
      | "{" :: l1 =>
          match skip l1 with
          | "}" :: r => Some (Obj [], r)
          | _ => '(ms, r) ← members fuel' l1; Some (Obj ms, r)
          end
      | "[" :: l1 =>
          match skip l1 with
          | "]" :: r => Some (Arr [], r)
          | _ => '(vs, r) ← elements fuel' l1; Some (Arr vs, r)
          end
      | Byte.x22 :: r => '(s, r') ← string_lit (length r) r; Some (Str s, r')
      | "t" :: "r" :: "u" :: "e" :: r => Some (Bool true, r)
      | "f" :: "a" :: "l" :: "s" :: "e" :: r => Some (Bool false, r)
      | "n" :: "u" :: "l" :: "l" :: r => Some (Null, r)
      | l1 => '(s, r) ← number l1; Some (Num s, r)
      end%byte
  end
with elements (fuel : nat) (l : list byte) : option (list value * list byte) :=
  match fuel with
  | O => None
  | S fuel' =>
      '(v, r) ← parse fuel' l;
      match skip r with
      | "," :: r1 => '(vs, r2) ← elements fuel' r1; Some (v :: vs, r2)
      | "]" :: r1 => Some ([v], r1)
      | _ => None
      end%byte
  end
with members (fuel : nat) (l : list byte) : option (list (list byte * value) * list byte) :=
  match fuel with
  | O => None
  | S fuel' =>
      match skip l with
      | Byte.x22 :: r =>
          '(k, r1) ← string_lit (length r) r;
          match skip r1 with
          | ":" :: r2 =>
              '(v, r3) ← parse fuel' r2;
              match skip r3 with
              | "," :: r4 => '(ms, r5) ← members fuel' r4; Some ((k, v) :: ms, r5)
              | "}" :: r4 => Some ([(k, v)], r4)
              | _ => None
              end
          | _ => None
          end
      | _ => None
      end%byte
  end.

(** [Decoder.Decode] of the first value of a text. A round of [parse] that
    does not go down a list takes a byte or fails, so [2 * length] rounds are
    enough. *)
Definition SyntaxError : error := ErrMsg "invalid JSON".
Definition Decode (l : list byte) : outcome value :=
  match skip l with
  | [] => Err EOF
  | _ => match parse (2 * length l) l with Some (v, _) => Ret v | None => Err SyntaxError end
  end.

Definition text (s : string) : list byte := bytes_of_string s.
Example Marshal_example :
  Marshal (Obj [(text "token", Str (text "a<b\" ++ [dquote])); (text "n", Num (text "-12")); (text "l", Arr [Null; Bool true])])
  = text "{" ++ [dquote] ++ text "token" ++ [dquote] ++ text ":" ++ [dquote] ++ text "a\u003cb\\\" ++ [dquote; dquote]
    ++ text "," ++ [dquote] ++ text "n" ++ [dquote] ++ text ":-12," ++ [dquote] ++ text "l" ++ [dquote] ++ text ":[null,true]}".
Proof. reflexivity. Qed.

(** * Reading undoes writing *)

(** ** Strings *)

Lemma rune_len_bound l k : rune_len l = S k -> (S k <= length l)%nat.
Proof. destruct l as [|b0 [|b1 [|b2 [|b3 r]]]]; cbn; repeat case_match; intros; try discriminate; lia. Qed.

(** A rune is recognised by its own bytes. *)
Lemma rune_len_take l k x : rune_len l = S k -> rune_len (take (S k) l ++ x) = S k.
Proof.
  intros E. destruct l as [|b0 [|b1 [|b2 [|b3 r]]]]; [discriminate|..]; unfold rune_len in E;
    repeat match type of E with context [if ?c then _ else _] => destruct c eqn:? end;
    try discriminate; injection E as <-; cbn [take app]; unfold rune_len;
    repeat match goal with H : ?c = _ |- context [if ?c then _ else _] => rewrite H end; reflexivity.
Qed.

Lemma rune_len_ascii b r : Z_of_byte b < 0x80 -> rune_len (b :: r) = 1%nat.
Proof. intros H. cbn. by rewrite (proj2 (Z.ltb_lt _ _)). Qed.

(** One character below 0x80, as it is written, is read back. *)
Definition written (b : byte) : list byte := if htmlSafe b then [b] else escape b.
Lemma string_lit_ascii b fuel o : Z_of_byte b < 0x80 ->
  string_lit (S fuel) (written b ++ o) = behind [b] (string_lit fuel o).
Proof. intros H. destruct b; try (exfalso; vm_compute in H; discriminate); reflexivity. Qed.

(** A longer rune starts with a byte that is read as part of a rune. *)
Lemma rune_head b r k : rune_len (b :: r) = S k -> 0x80 <= Z_of_byte b ->
  bool_decide (b = dquote) = false /\ bool_decide (b = "\"%byte) = false /\ Z_of_byte b <? 32 = false.
Proof.
  intros _ Hb. split_and!; [apply bool_decide_eq_false_2..|lia]; intros ->; vm_compute in Hb; by apply Hb.
Qed.

Lemma string_lit_rune l k fuel o : rune_len l = S k -> (forall b r, l = b :: r -> 0x80 <= Z_of_byte b) ->
  string_lit (S fuel) (quote_rune (take (S k) l) ++ o) = behind (take (S k) l) (string_lit fuel o).
Proof.
  intros Hk Hb. unfold quote_rune, is_2028, is_2029. case_bool_decide as E1; [by rewrite E1|].
  case_bool_decide as E2; [by rewrite E2|]. clear E1 E2.
  pose proof (rune_len_bound l k Hk) as Hlen. pose proof (rune_len_take l k o Hk) as Hk'.
  assert (length (take (S k) l) = S k) as Hlt by (rewrite length_take; lia).
  destruct l as [|b r]; [discriminate|]. destruct (rune_head b r k Hk (Hb b r eq_refl)) as (E1 & E2 & E3).
  remember (take (S k) (b :: r)) as c eqn:Ec. destruct c as [|b' c]; [done|]. injection Ec as -> Ec.
  cbn [app] in Hk' |- *. cbn [string_lit]. rewrite E1, E2, E3, Hk'. change (b :: c ++ o) with ((b :: c) ++ o).
  by rewrite <- Hlt, take_app_length, drop_app_length.
Qed.

Lemma valid_step fuel b r : valid_loop (S fuel) (b :: r) = true ->
  exists k, rune_len (b :: r) = S k /\ valid_loop fuel (drop (S k) (b :: r)) = true.
Proof. cbn [valid_loop]. destruct (rune_len (b :: r)) as [|k]; [discriminate|]. eauto. Qed.

Lemma string_lit_quote fuel n m l rest : valid_loop m l = true -> (length l <= m)%nat -> (length l <= n)%nat ->
  (length l < fuel)%nat -> string_lit fuel (quote_loop n l ++ dquote :: rest) = Some (l, rest).
Proof.
  revert n m l. induction fuel as [|fuel IH]; intros n m l Hv Hm Hn Hf; [lia|].
  destruct l as [|b r]; [by destruct n|]. destruct m as [|m]; [cbn in Hm; lia|]. destruct n as [|n]; [cbn in Hn; lia|].
  cbn [length] in *. destruct (valid_step m b r Hv) as (k & Hk & Hv'). cbn [quote_loop].
  destruct (Z.ltb_spec (Z_of_byte b) 0x80) as [Hb|Hb].
  - rewrite (rune_len_ascii b r Hb) in Hk. injection Hk as <-. cbn [drop] in Hv'.
    change (if htmlSafe b then [b] else escape b) with (written b).
    rewrite <- app_assoc, (string_lit_ascii b fuel _ Hb), (IH n m r) by (try done; lia). done.
  - rewrite Hk. pose proof (rune_len_bound _ _ Hk) as Hl. cbn [length] in Hl.
    rewrite <- app_assoc, (string_lit_rune (b :: r) k) by (try done; intros ? ? [= <- <-]; done).
    rewrite (IH n m (drop (S k) (b :: r))) by (try done; rewrite length_drop; cbn [length]; lia).
    cbn [behind mbind option_bind]. by rewrite take_drop.
Qed.

(** What is written is no shorter than the string, so that there is fuel
    enough. *)
Lemma length_quote_loop n l : (length l <= n)%nat -> (length l <= length (quote_loop n l))%nat.
Proof.
  revert l. induction n as [|n IH]; intros [|b r] Hl; cbn [length] in *; try lia. cbn [quote_loop].
  destruct (Z.ltb_spec (Z_of_byte b) 0x80).
  - rewrite length_app. pose proof (IH r ltac:(lia)).
    assert (1 <= length (if htmlSafe b then [b] else escape b))%nat; [|lia]. destruct b; vm_compute; lia.
  - destruct (rune_len (b :: r)) as [|k] eqn:Hk.
    + rewrite length_app. pose proof (IH r ltac:(lia)). change (length (bytes_of_string "\ufffd")) with 6%nat. lia.
    + pose proof (rune_len_bound _ _ Hk) as Hb. cbn [length] in Hb. rewrite length_app.
      pose proof (IH (drop (S k) (b :: r))) as Hd. rewrite length_drop in Hd. cbn [length] in Hd.
      specialize (Hd ltac:(lia)).
      assert (S k <= length (quote_rune (take (S k) (b :: r))))%nat; [|lia].
      assert (length (take (S k) (b :: r)) = S k) as Ht by (rewrite length_take; cbn [length]; lia).
      unfold quote_rune, is_2028, is_2029. case_bool_decide as E1; [|case_bool_decide as E2; [|lia]].
      * rewrite <- Ht, E1. vm_compute. lia.
      * rewrite <- Ht, E2. vm_compute. lia.
Qed.

Lemma string_lit_Str s rest (r := quote_loop (length s) s ++ dquote :: rest) : Valid s = true ->
  string_lit (length r) r = Some (s, rest).
Proof.
  intros Hs. unfold r. apply (string_lit_quote _ _ (length s)); [exact Hs|done|done|].
  rewrite length_app. cbn [length]. pose proof (length_quote_loop (length s) s ltac:(done)). lia.
Qed.

(** ** Numbers

    What may follow a number without being taken for a part of it. *)
Definition stops (rest : list byte) : Prop :=
  match rest with b :: _ => digit b = false /\ b <> "."%byte /\ b <> "e"%byte /\ b <> "E"%byte | [] => True end.

Lemma digits_app l ds r rest : digits l = (ds, r) -> stops rest -> digits (l ++ rest) = (ds, r ++ rest).
Proof.
  intros E Hs. revert ds E. induction l as [|b l IH]; intros ds E; cbn in E |- *.
  - injection E as <- <-. destruct rest as [|b r]; [done|]. destruct Hs as [Hd _]. cbn. by rewrite Hd.
  - destruct (digit b) eqn:Hb.
    + destruct (digits l) as [ds' r'] eqn:E'. injection E as <- <-. by rewrite (IH _ eq_refl).
    + by injection E as <- <-.
Qed.

Lemma digits1_app l ds r rest : digits1 l = Some (ds, r) -> stops rest -> digits1 (l ++ rest) = Some (ds, r ++ rest).
Proof.
  unfold digits1. intros E Hs. destruct (digits l) as [ds' r'] eqn:E'. rewrite (digits_app _ _ _ rest E' Hs).
  destruct ds'; [done|]. by injection E as <- <-.
Qed.

Lemma int_part_app l i r rest : int_part l = Some (i, r) -> stops rest -> int_part (l ++ rest) = Some (i, r ++ rest).
Proof.
  intros E Hs. destruct l as [|b l]; [done|].
  destruct (decide (b = "0"%byte)) as [->|Hb]; [cbn in E |- *; by injection E as <- <-|].
  assert (forall l', int_part (b :: l') = digits1 (b :: l')) as Hd by (intros l'; destruct b; done).
  cbn [app]. rewrite Hd in E |- *. by apply (digits1_app (b :: l)).
Qed.

Lemma frac_part_app l f r rest : frac_part l = Some (f, r) -> stops rest -> frac_part (l ++ rest) = Some (f, r ++ rest).
Proof.
  intros E Hs. destruct l as [|b l].
  - injection E as <- <-. destruct rest as [|b r]; [done|]. destruct Hs as (_ & H1 & _). destruct b; done.
  - destruct (decide (b = "."%byte)) as [->|Hb].
    + cbn in E |- *. destruct (digits1 l) as [[ds r']|] eqn:E'; [|done]. injection E as <- <-.
      by rewrite (digits1_app _ _ _ rest E' Hs).
    + assert (forall l', frac_part (b :: l') = Some ([], b :: l')) as Hd by (intros l'; destruct b; done).
      rewrite Hd in E. injection E as <- <-. apply Hd.
Qed.

Lemma exp_part_app l e r rest : exp_part l = Some (e, r) -> stops rest -> exp_part (l ++ rest) = Some (e, r ++ rest).
Proof.
  intros E Hs. destruct l as [|b l].
  - injection E as <- <-. destruct rest as [|b r]; [done|]. destruct Hs as (_ & _ & H1 & H2). destruct b; done.
  - assert (forall x l', b = "e"%byte \/ b = "E"%byte -> exp_part (b :: l') = x ->
      x = let '(sg, r1) := match l' with ("+" | "-") as c :: r1 => ([c], r1) | _ => ([], l') end%byte in
          '(ds, r') ← digits1 r1; Some (b :: sg ++ ds, r')) as Hexp by (intros x l' [-> | ->] <-; done).
    destruct (decide (b = "e"%byte \/ b = "E"%byte)) as [Hb|Hb].
    + rewrite (Hexp _ _ Hb eq_refl) in E. cbn [app]. rewrite (Hexp _ (l ++ rest) Hb eq_refl). clear Hexp.
      destruct l as [|c l]; [done|]. cbn [app].
      assert (forall l', match c :: l' with ("+" | "-") as c :: r1 => ([c], r1) | _ => ([], c :: l') end%byte =
        if decide (c = "+"%byte \/ c = "-"%byte) then ([c], l') else ([], c :: l')) as Hsg.
      { intros l'. destruct c; try done; rewrite decide_False by (intros [|]; discriminate); done. }
      rewrite Hsg in E |- *. case_decide.
      * destruct (digits1 l) as [[ds r']|] eqn:E'; [|done]. injection E as <- <-. by rewrite (digits1_app _ _ _ rest E' Hs).
      * destruct (digits1 (c :: l)) as [[ds r']|] eqn:E'; [|done]. injection E as <- <-.
        change (c :: l ++ rest) with ((c :: l) ++ rest). by rewrite (digits1_app _ _ _ rest E' Hs).
    + assert (forall l', exp_part (b :: l') = Some ([], b :: l')) as Hd.
      { intros l'. destruct b; try done; exfalso; apply Hb; auto. }
      rewrite Hd in E. injection E as <- <-. apply Hd.
Qed.

Lemma number_app l s r rest : number l = Some (s, r) -> stops rest -> number (l ++ rest) = Some (s, r ++ rest).
Proof.
  unfold number. intros E Hs. destruct l as [|b l]; [done|].
  assert (sign_part ((b :: l) ++ rest) = ((sign_part (b :: l)).1, (sign_part (b :: l)).2 ++ rest)) as ->
    by (destruct b; done).
  destruct (sign_part (b :: l)) as [sg l1]. cbn [fst snd]. destruct (int_part l1) as [[i l2]|] eqn:E1; [|done].
  rewrite (int_part_app _ _ _ rest E1 Hs). cbn [mbind option_bind] in E |- *.
  destruct (frac_part l2) as [[f l3]|] eqn:E2; [|done]. rewrite (frac_part_app _ _ _ rest E2 Hs). cbn [mbind option_bind] in E |- *.
  destruct (exp_part l3) as [[e l4]|] eqn:E3; [|done]. rewrite (exp_part_app _ _ _ rest E3 Hs). by injection E as <- <-.
Qed.

(** A number starts with a sign or a digit. *)
Lemma number_head s r : number s = Some r -> exists b t, s = b :: t /\ (b = "-"%byte \/ digit b = true).
Proof.
  destruct s as [|b t]; [done|]. intros E. exists b, t. split; [done|].
  destruct (decide (b = "-"%byte)) as [|Hb]; [by left|right]. unfold number in E.
  assert (sign_part (b :: t) = ([], b :: t)) as Es by (destruct b; done). rewrite Es in E.
  destruct (decide (b = "0"%byte)) as [->|H0]; [done|].
  assert (int_part (b :: t) = digits1 (b :: t)) as Ei by (destruct b; done). rewrite Ei in E.
  unfold digits1 in E. cbn [digits] in E. by destruct (digit b).
Qed.

(** ** Values *)

(** Values induct through their lists. *)
Fixpoint value_ind' (P : value -> Prop) (HNull : P Null) (HBool : forall b, P (Bool b)) (HNum : forall s, P (Num s))
  (HStr : forall s, P (Str s)) (HArr : forall vs, Forall P vs -> P (Arr vs))
  (HObj : forall ms, Forall (fun m => P m.2) ms -> P (Obj ms)) (v : value) : P v :=
  let rec := value_ind' P HNull HBool HNum HStr HArr HObj in
  match v with
  | Null => HNull
  | Bool b => HBool b
  | Num s => HNum s
  | Str s => HStr s
  | Arr vs => HArr vs ((fix go vs := match vs return Forall P vs with
      | [] => @List.Forall_nil _ P | v :: vs' => @List.Forall_cons _ P v vs' (rec v) (go vs') end) vs)
  | Obj ms => HObj ms ((fix go ms := match ms return Forall (fun m => P m.2) ms with
      | [] => @List.Forall_nil _ _ | m :: ms' => @List.Forall_cons _ _ m ms' (rec m.2) (go ms') end) ms)
  end.

(** Values that are read back: number literals are numbers and strings are
    UTF-8. *)
Fixpoint proper (v : value) : Prop :=
  match v with
  | Null | Bool _ => True
  | Num s => number s = Some (s, [])
  | Str s => Valid s = true
  | Arr vs => (fix all vs := match vs with [] => True | v :: vs' => proper v /\ all vs' end) vs
  | Obj ms => (fix all ms := match ms with
      | [] => True | m :: ms' => (Valid m.1 = true /\ proper m.2) /\ all ms' end) ms
  end.

Lemma proper_Arr vs : proper (Arr vs) <-> Forall proper vs.
Proof. induction vs as [|v vs IH]; [done|]. rewrite Forall_cons, <- IH. done. Qed.
Lemma proper_Obj ms : proper (Obj ms) <-> Forall (fun m => Valid m.1 = true /\ proper m.2) ms.
Proof. induction ms as [|m ms IH]; [done|]. rewrite Forall_cons, <- IH. done. Qed.

(** Rounds the parser needs. *)
Fixpoint rounds (v : value) : nat :=
  match v with
  | Arr vs => S (foldr (fun v n => S (rounds v) + n) 0 vs)
  | Obj ms => S (foldr (fun m n => S (rounds m.2) + n) 0 ms)
  | _ => 1
  end%nat.
Definition rounds_all (l : list nat) : nat := foldr (fun n m => S n + m)%nat 0%nat l.
Lemma rounds_Arr vs : rounds (Arr vs) = S (rounds_all (map rounds vs)).
Proof. cbn. f_equal. unfold rounds_all. induction vs as [|v vs IH]; [done|]. cbn. by rewrite IH. Qed.
Lemma rounds_Obj ms : rounds (Obj ms) = S (rounds_all (map (fun m => rounds m.2) ms)).
Proof. cbn. f_equal. unfold rounds_all. induction ms as [|v ms IH]; [done|]. cbn. by rewrite IH. Qed.

Definition reads (v : value) : Prop := forall fuel rest, (rounds v <= fuel)%nat -> stops rest ->
  parse fuel (Marshal v ++ rest) = Some (v, rest).

(** The text of a value starts with a byte that is neither a space nor the
    end of a list. *)
Definition starts (l : list byte) : Prop :=
  match l with b :: _ => is_space b = false /\ b <> "]"%byte /\ b <> "}"%byte | [] => False end.
Lemma starts_Marshal v : proper v -> starts (Marshal v).
Proof.
  destruct v as [|[]|s|s|vs|ms]; try (intros _; cbn; done). intros Hv. cbn in Hv.
  destruct (number_head s _ Hv) as (b & t & -> & [->|Hb]); [done|]. cbn.
  destruct b; try (exfalso; discriminate Hb); done.
Qed.

Lemma skip_starts l r : starts l -> skip (l ++ r) = l ++ r.
Proof. destruct l as [|b l]; [done|]. intros [Hb _]. cbn. by rewrite Hb. Qed.

Lemma reads_elements vs : vs <> [] -> Forall (fun v => proper v /\ reads v) vs ->
  forall fuel rest, (rounds_all (map rounds vs) <= fuel)%nat ->
  elements fuel (commas (map Marshal vs) ++ "]"%byte :: rest) = Some (vs, rest).
Proof.
  induction vs as [|v vs IH]; [done|]. intros _ [[Hp Hv] Hvs]%Forall_cons fuel rest Hf.
  cbn in Hf. destruct fuel as [|fuel]; [lia|]. cbn [elements]. destruct vs as [|v' vs].
  - cbn [map commas]. rewrite Hv by (try done; lia). reflexivity.
  - cbn [map commas] in IH |- *. rewrite <- app_assoc, Hv by (try done; lia). cbn [app skip mbind option_bind].
    change (is_space ","%byte) with false. cbn iota. rewrite IH by (try done; cbn in Hf |- *; lia). reflexivity.
Qed.

Lemma reads_members ms : ms <> [] -> Forall (fun m => Valid m.1 = true /\ reads m.2) ms ->
  forall fuel rest, (rounds_all (map (fun m => rounds m.2) ms) <= fuel)%nat ->
  members fuel (commas (map (fun m => quote m.1 ++ ":"%byte :: Marshal m.2) ms) ++ "}"%byte :: rest) = Some (ms, rest).
Proof.
  induction ms as [|[k v] ms IH]; [done|]. intros _ [[Hp Hv] Hvs]%Forall_cons fuel rest Hf.
  cbn [fst snd] in Hp, Hv. cbn in Hf. destruct fuel as [|fuel]; [lia|]. unfold quote in *. cbn [map fst snd].
  assert (forall x, (commas (((dquote :: quote_loop (length k) k ++ [dquote]) ++ ":"%byte :: Marshal v)
    :: x)) = dquote :: (quote_loop (length k) k ++ dquote :: ":"%byte :: commas (Marshal v :: x))) as Hc.
  { intros [|y x]; cbn [commas app]; rewrite <- ?app_assoc; reflexivity. }
  rewrite Hc. cbn [app members skip]. change (is_space dquote) with false. cbn iota.
  rewrite <- app_assoc. cbn [app]. unfold dquote at 1. cbn iota.
  rewrite (string_lit_Str k (":"%byte :: _)) by done. cbn [mbind option_bind skip].
  change (is_space ":"%byte) with false. cbn iota. destruct ms as [|m ms].
  - cbn [map commas]. rewrite Hv by (try done; lia). reflexivity.
  - cbn [map commas] in IH |- *. rewrite <- app_assoc, Hv by (try done; lia). cbn [app skip mbind option_bind].
    change (is_space ","%byte) with false. cbn iota. rewrite IH by (try done; cbn in Hf |- *; lia). reflexivity.
Qed.

(** The first byte decides which kind of value is read. *)
Lemma parse_Num fuel s r : number s = Some (s, []) -> stops r -> parse (S fuel) (s ++ r) = Some (Num s, r).
Proof.
  intros Hn Hr. pose proof (number_app s s [] r Hn Hr) as E. cbn [app] in E.
  destruct (number_head s _ Hn) as (b & t & -> & Hb). cbn [parse]. rewrite skip_starts.
  - cbn [app] in E |- *. destruct Hb as [->|Hb]; [by rewrite E|].
    destruct b; try (exfalso; discriminate Hb); by rewrite E.
  - destruct Hb as [->|Hb]; [done|]. cbn. destruct b; try (exfalso; discriminate Hb); done.
Qed.

Lemma commas_starts x l r : starts x -> starts (commas (x :: l) ++ r).
Proof. destruct x as [|b x]; [done|]. intros H. by destruct l. Qed.

Lemma proper_reads v : proper v -> reads v.
Proof.
  induction v as [|[]|s|s|vs IH|ms IH] using value_ind'; intros Hp fuel rest Hf Hr;
    (destruct fuel as [|fuel]; [cbn in Hf; lia|]); try reflexivity.
  - by apply parse_Num.
  - cbn [Marshal quote app parse skip]. unfold quote. cbn [app parse skip]. change (is_space dquote) with false. cbn iota.
    unfold dquote at 1. cbn iota. rewrite <- app_assoc. cbn [app]. by rewrite string_lit_Str.
  - rewrite rounds_Arr in Hf. apply proper_Arr in Hp. cbn [Marshal app parse skip].
    change (is_space "["%byte) with false. cbn iota. rewrite <- app_assoc. cbn [app].
    destruct vs as [|v vs]; [reflexivity|].
    assert (Forall (fun v => proper v /\ reads v) (v :: vs)) as Hall.
    { rewrite Forall_forall in IH, Hp |- *. auto. }
    pose proof (reads_elements (v :: vs) ltac:(done) Hall fuel rest ltac:(lia)) as E.
    assert (starts (commas (map Marshal (v :: vs)) ++ "]"%byte :: rest)) as Hst.
    { apply commas_starts, starts_Marshal. by apply Forall_cons in Hp as [Hp _]. }
    destruct (commas _ ++ _) as [|b l]; [done|]. pose proof (skip_starts (b :: l) [] Hst) as Hsk.
    rewrite app_nil_r in Hsk. rewrite Hsk, E. destruct Hst as (_ & Hb & _). destruct b; done.
  - rewrite rounds_Obj in Hf. apply proper_Obj in Hp. cbn [Marshal app parse skip].
    change (is_space "{"%byte) with false. cbn iota. rewrite <- app_assoc. cbn [app].
    destruct ms as [|m ms]; [reflexivity|].
    assert (Forall (fun m => Valid m.1 = true /\ reads m.2) (m :: ms)) as Hall.
    { rewrite Forall_forall in IH, Hp |- *. intros x Hx. destruct (Hp x Hx). auto. }
    pose proof (reads_members (m :: ms) ltac:(done) Hall fuel rest ltac:(lia)) as E.
    assert (starts (commas (map (fun m => quote m.1 ++ ":"%byte :: Marshal m.2) (m :: ms)) ++ "}"%byte :: rest)) as Hst.
    { by apply commas_starts. }
    destruct (commas _ ++ _) as [|b l]; [done|]. pose proof (skip_starts (b :: l) [] Hst) as Hsk.
    rewrite app_nil_r in Hsk. rewrite Hsk, E. destruct Hst as (_ & _ & Hb). destruct b; done.
Qed.

Lemma length_commas l : (foldr (fun x n => length x + n) 0 l <= length (commas l))%nat /\
  (length l <= S (length (commas l) - foldr (fun x n => length x + n) 0 l))%nat.
Proof.
  induction l as [|x [|y l] IH]; cbn [commas foldr length] in *; [lia..|]. rewrite length_app. cbn [length]. lia.
Qed.

Lemma rounds_all_le {A} (f : A -> nat) (g : A -> list byte) l : Forall (fun a => f a <= 2 * length (g a))%nat l ->
  (rounds_all (map f l) <= 2 * length (commas (map g l)) + 1)%nat.
Proof.
  intros H. pose proof (length_commas (map g l)) as [H1 H2]. rewrite length_map in H2.
  assert (rounds_all (map f l) <= length l + 2 * foldr (fun x n => length x + n) 0 (map g l))%nat; [|lia].
  clear H1 H2. induction H as [|a l Ha _ IH]; cbn [rounds_all map foldr length] in *; [lia|]. fold (rounds_all (map f l)). lia.
Qed.

Lemma rounds_le v : proper v -> (rounds v <= 2 * length (Marshal v))%nat.
Proof.
  induction v as [|[]|s|s|vs IH|ms IH] using value_ind'; intros Hp; try (cbn; lia).
  - destruct (number_head s _ Hp) as (b & t & -> & _). cbn. lia.
  - rewrite rounds_Arr. apply proper_Arr in Hp. cbn [Marshal length]. rewrite length_app. cbn [length].
    assert (Forall (fun a => rounds a <= 2 * length (Marshal a))%nat vs) as H by (rewrite Forall_forall in *; auto).
    pose proof (rounds_all_le _ _ _ H). lia.
  - rewrite rounds_Obj. apply proper_Obj in Hp. cbn [Marshal length]. rewrite length_app. cbn [length].
    assert (Forall (fun m => rounds m.2 <= 2 * length (quote m.1 ++ ":"%byte :: Marshal m.2))%nat ms) as H.
    { rewrite Forall_forall in *. intros m Hm. destruct (Hp m Hm) as [_ Hp']. specialize (IH m Hm Hp').
      rewrite length_app. cbn [length]. lia. }
    pose proof (rounds_all_le _ _ _ H). lia.
Qed.

(** A value that is written as JSON and decoded again is the same, when
    its strings are UTF-8, whatever follows it that is not part of a
    number. *)
Lemma Decode_Marshal v rest : proper v -> stops rest -> Decode (Marshal v ++ rest) = Ret v.
Proof.
  intros Hp Hr. unfold Decode. pose proof (starts_Marshal v Hp) as Hst. rewrite skip_starts by done.
  rewrite (proper_reads v Hp); [|rewrite length_app; pose proof (rounds_le v Hp); lia|done].
  by destruct (Marshal v).
Qed.

Definition sample : value := Obj [(text "token", Str (Byte.xe2 :: Byte.x80 :: Byte.xa8 :: text "<&>")); (text "n", Num (text "-1.5e3"));
  (text "l", Arr [Arr []; Null; Str [Byte.x00; dquote]])].
Lemma Decode_Marshal_witness : proper sample /\ Decode (Marshal sample ++ text " tail") = Ret sample.
Proof.
  assert (proper sample) as Hp by (cbn; repeat split; reflexivity).
  split; [exact Hp|]. apply Decode_Marshal; [exact Hp|]. repeat split; discriminate.
Defined.

(** A string that is not UTF-8 comes back changed. *)
Example bad_utf8 : Decode (Marshal (Str [Byte.xff; "a"%byte])) = Ret (Str (replacement ++ ["a"%byte])).
Proof. reflexivity. Qed.
