(* ===== verification/KeyLock.v ===== *)
(** Locks by key (pkg/keylock/keylock.go): a map from keys to inner mutexes
    under one RWMutex. The parts of [Lock] and [Unlock] between two
    operations on the RWMutex or an inner mutex are atomic steps; threads
    interleave step by step, with [Clean] at any time between. *)
From stdpp Require Import base list gmap strings.
From Stdlib Require Import ZArith Lia.
From S2P Require Import Prelude.

(** [innerLock]: how many threads use it, and the state of its [sync.Mutex]. *)
Record innerLock := mkInnerLock { count : Z; locked : bool }.
Definition newInnerLock : innerLock := mkInnerLock 0 false.
Definition add (il : innerLock) : innerLock := mkInnerLock (i64 (count il + 1)) (locked il).
Definition done (il : innerLock) : innerLock := mkInnerLock (i64 (count il - 1)) (locked il).
Definition set_locked (b : bool) (il : innerLock) : innerLock := mkInnerLock (count il) b.

(** The inner locks are allocated one behind the other and a pointer is a
    position; an inner lock that was deleted from the map may still be in
    use. *)
Record KeyLock := mkKeyLock { heap : list innerLock; locks : gmap string nat }.
Definition NewKeyLock : KeyLock := mkKeyLock [] ∅.
Definition at_lock (p : nat) (f : innerLock -> innerLock) (l : KeyLock) : KeyLock :=
  mkKeyLock (alter f p (heap l)) (locks l).

(** [Lock], between [RLock] and [RUnlock]. *)
Definition Lock_lookup (key : string) (l : KeyLock) : KeyLock * option nat :=
  match locks l !! key with
  | Some p => (at_lock p add l, Some p)
  | None => (l, None)
  end.
(** [Lock], between [mutex.Lock] and [mutex.Unlock]. *)
Definition Lock_insert (key : string) (l : KeyLock) : KeyLock * nat :=
  match locks l !! key with
  | Some p => (at_lock p add l, p)
  | None => let p := length (heap l) in
      (at_lock p add (mkKeyLock (heap l ++ [newInnerLock]) (<[key := p]> (locks l))), p)
  end.
(** [Unlock], between [RLock] and [RUnlock]. *)
Definition Unlock_lookup (key : string) (l : KeyLock) : KeyLock * option nat :=
  match locks l !! key with
  | Some p => (at_lock p done l, Some p)
  | None => (l, None)
  end.
Definition idle (l : KeyLock) (p : nat) : bool :=
  match heap l !! p with Some il => bool_decide (count il = 0) | None => false end.
Definition Clean (l : KeyLock) : KeyLock :=
  mkKeyLock (heap l) (filter (fun kp => idle l kp.2 = false) (locks l)).

(** * Threads

    Where a thread is: outside, between the two lookups of [Lock], before
    [keyLock.Lock()], behind [Lock] (the pointer is not used again: [Unlock]
    looks the key up), before [keyLock.Unlock()]. *)
Inductive pc :=
  | Idle
  | Missed (key : string)
  | Waiting (key : string) (p : nat)
  | Holding (key : string) (p : nat)
  | Releasing (p : nat).

Record world := mkWorld { kl : KeyLock; threads : list pc }.
Definition init (n : nat) : world := mkWorld NewKeyLock (replicate n Idle).

(** What the scheduler lets happen next: a thread outside calls [Lock], a
    thread inside takes its next step, a thread that holds a key calls
    [Unlock] with it, the clean loop ticks. *)
Inductive event := CallLock (t : nat) (key : string) | Resume (t : nat) | CallUnlock (t : nat) | CleanTick.

(** [Blocked]: not possible now. [Fatal]: unlock of an unlocked mutex, which
    Go's runtime aborts on. *)
Inductive result := Blocked | Next (w : world) | Fatal.

Definition goto (t : nat) (s : pc) (l : KeyLock) (w : world) : world := mkWorld l (<[t := s]> (threads w)).

Definition exec (e : event) (w : world) : result :=
  match e with
  | CleanTick => Next (mkWorld (Clean (kl w)) (threads w))
  | CallLock t key =>
      match threads w !! t with
      | Some Idle =>
          let '(l, r) := Lock_lookup key (kl w) in
          Next (goto t (match r with Some p => Waiting key p | None => Missed key end) l w)
      | _ => Blocked
      end
  | CallUnlock t =>
      match threads w !! t with
      | Some (Holding key _) =>
          let '(l, r) := Unlock_lookup key (kl w) in
          Next (goto t (match r with Some p => Releasing p | None => Idle end) l w)
      | _ => Blocked
      end
  | Resume t =>
      match threads w !! t with
      | Some (Missed key) => let '(l, p) := Lock_insert key (kl w) in Next (goto t (Waiting key p) l w)
      | Some (Waiting key p) =>
          match heap (kl w) !! p with
          | Some il => if locked il then Blocked else Next (goto t (Holding key p) (at_lock p (set_locked true) (kl w)) w)
          | None => Blocked
          end
      | Some (Releasing p) =>
          match heap (kl w) !! p with
          | Some il => if locked il then Next (goto t Idle (at_lock p (set_locked false) (kl w)) w) else Fatal
          | None => Fatal
          end
      | _ => Blocked
      end
  end.

Fixpoint run (es : list event) (w : world) : result :=
  match es with
  | [] => Next w
  | e :: es' => match exec e w with Next w' => run es' w' | r => r end
  end.

(** * Counting threads *)
Fixpoint cnt (f : pc -> bool) (ths : list pc) : Z :=
  match ths with [] => 0 | s :: ths' => Z.b2z (f s) + cnt f ths' end.

(** The threads that [count] counts, and those that have locked the mutex. *)
Definition uses (p : nat) (s : pc) : bool :=
  match s with Waiting _ q | Holding _ q => bool_decide (q = p) | _ => false end.
Definition owns (p : nat) (s : pc) : bool :=
  match s with Holding _ q | Releasing q => bool_decide (q = p) | _ => false end.

Section Counting.
Context (f : pc -> bool).

Lemma cnt_bounds ths : 0 <= cnt f ths <= Z.of_nat (length ths).
Proof. induction ths as [|s ths IH]; cbn [cnt length]; [lia|]. destruct (f s); cbn; lia. Qed.

Lemma cnt_insert ths t a b : ths !! t = Some a ->
  cnt f (<[t := b]> ths) = cnt f ths - Z.b2z (f a) + Z.b2z (f b).
Proof.
  revert t. induction ths as [|s ths IH]; intros [|t] Ht; try discriminate; cbn in Ht.
  - injection Ht as ->. cbn. lia.
  - change (<[S t := b]> (s :: ths)) with (s :: <[t := b]> ths). cbn [cnt]. rewrite (IH _ Ht). lia.
Qed.

Lemma cnt_pos ths t a : ths !! t = Some a -> f a = true -> 1 <= cnt f ths.
Proof.
  revert t. induction ths as [|s ths IH]; intros [|t] Ht Hf; try discriminate; cbn in Ht |- *.
  - injection Ht as ->. rewrite Hf. cbn. pose proof (cnt_bounds ths). lia.
  - pose proof (IH _ Ht Hf). destruct (f s); cbn; lia.
Qed.

Lemma cnt_two ths t1 t2 a b : ths !! t1 = Some a -> ths !! t2 = Some b -> f a = true -> f b = true ->
  t1 <> t2 -> 2 <= cnt f ths.
Proof.
  revert t1 t2. induction ths as [|s ths IH]; intros [|t1] [|t2] H1 H2 Ha Hb Hne; try done; cbn in H1, H2 |- *.
  - injection H1 as ->. rewrite Ha. cbn. pose proof (cnt_pos _ _ _ H2 Hb). lia.
  - injection H2 as ->. rewrite Hb. cbn. pose proof (cnt_pos _ _ _ H1 Ha). lia.
  - pose proof (IH _ _ H1 H2 Ha Hb ltac:(congruence)). destruct (f s); cbn; lia.
Qed.

Lemma cnt_none ths : Forall (fun s => f s = false) ths -> cnt f ths = 0.
Proof. induction 1 as [|s ths Hs _ IH]; [done|]. cbn [cnt]. rewrite Hs, IH. reflexivity. Qed.

Lemma cnt_some ths : 0 < cnt f ths -> exists t s, ths !! t = Some s /\ f s = true.
Proof.
  induction ths as [|s ths IH]; cbn [cnt]; [lia|]. destruct (f s) eqn:E.
  - intros _. by exists O, s.
  - cbn [Z.b2z]. rewrite Z.add_0_l. intros (t & s' & Ht & Hs)%IH. by exists (S t), s'.
Qed.
End Counting.

(** * The invariant

    [count] counts the threads between [add] and [done], a mutex is locked
    exactly when one thread has locked it, and the lock a thread uses is the
    one its key maps to. *)
Definition placed (l : KeyLock) (s : pc) : Prop :=
  match s with
  | Waiting k p | Holding k p => locks l !! k = Some p
  | Releasing p => (p < length (heap l))%nat
  | _ => True
  end.

Record ok (w : world) : Prop := mkOk {
  ok_count p il : heap (kl w) !! p = Some il -> count il = cnt (uses p) (threads w);
  ok_owner p il : heap (kl w) !! p = Some il -> Z.b2z (locked il) = cnt (owns p) (threads w);
  ok_placed : Forall (placed (kl w)) (threads w);
  ok_map k p : locks (kl w) !! k = Some p -> (p < length (heap (kl w)))%nat;
  ok_small : Z.of_nat (length (threads w)) < 2 ^ 63
}.

Lemma init_ok n : Z.of_nat n < 2 ^ 63 -> ok (init n).
Proof.
  intros Hn. split; cbn; [done..| |done|].
  - by apply Forall_replicate.
  - by rewrite length_replicate.
Qed.

Section Steps.
Context (w : world) (Hok : ok w).

Lemma placed_at t s : threads w !! t = Some s -> placed (kl w) s.
Proof. intros Ht. exact (Forall_lookup_1 _ _ _ _ (ok_placed w Hok) Ht). Qed.

(** A thread moves on and the lock it moves on counts it accordingly. *)
Lemma step_ok t a b p f il : threads w !! t = Some a -> heap (kl w) !! p = Some il ->
  count (f il) = count il - Z.b2z (uses p a) + Z.b2z (uses p b) ->
  Z.b2z (locked (f il)) = Z.b2z (locked il) - Z.b2z (owns p a) + Z.b2z (owns p b) ->
  (forall q, q <> p -> uses q a = uses q b /\ owns q a = owns q b) ->
  placed (kl w) b -> ok (goto t b (at_lock p f (kl w)) w).
Proof.
  intros Ht Hp Hc Hl Hq Hb. destruct Hok as [Kc Ko Kp Km Ks].
  split; cbn [goto kl threads at_lock heap locks].
  - intros q jl Hj. rewrite (cnt_insert _ _ _ _ _ Ht). destruct (decide (q = p)) as [->|Hne].
    + rewrite list_lookup_alter_eq, Hp in Hj. injection Hj as <-. rewrite <- (Kc _ _ Hp). exact Hc.
    + rewrite list_lookup_alter_ne in Hj by congruence. destruct (Hq q Hne) as [-> _].
      rewrite (Kc _ _ Hj). lia.
  - intros q jl Hj. rewrite (cnt_insert _ _ _ _ _ Ht). destruct (decide (q = p)) as [->|Hne].
    + rewrite list_lookup_alter_eq, Hp in Hj. injection Hj as <-. rewrite <- (Ko _ _ Hp). exact Hl.
    + rewrite list_lookup_alter_ne in Hj by congruence. destruct (Hq q Hne) as [_ ->].
      rewrite (Ko _ _ Hj). lia.
  - apply Forall_insert.
    + eapply Forall_impl; [exact Kp|]. intros []; cbn; try done. by rewrite length_alter.
    + destruct b; cbn in Hb |- *; try done. by rewrite length_alter.
  - intros k q Hk. rewrite length_alter. by eapply Km.
  - by rewrite length_insert.
Qed.

(** A thread moves on without a lock. *)
Lemma quiet_ok t a b : threads w !! t = Some a ->
  (forall q, uses q a = uses q b /\ owns q a = owns q b) -> placed (kl w) b -> ok (goto t b (kl w) w).
Proof.
  intros Ht Hq Hb. destruct Hok as [Kc Ko Kp Km Ks]. split; cbn [goto kl threads].
  - intros q jl Hj. rewrite (cnt_insert _ _ _ _ _ Ht), (Kc _ _ Hj). destruct (Hq q) as [-> _]. lia.
  - intros q jl Hj. rewrite (cnt_insert _ _ _ _ _ Ht), (Ko _ _ Hj). destruct (Hq q) as [_ ->]. lia.
  - by apply Forall_insert.
  - done.
  - by rewrite length_insert.
Qed.

(** A fresh lock for a key that has none. *)
Definition alloc (key : string) : world :=
  mkWorld (mkKeyLock (heap (kl w) ++ [newInnerLock]) (<[key := length (heap (kl w))]> (locks (kl w)))) (threads w).

Lemma pointer_small t s : threads w !! t = Some s ->
  uses (length (heap (kl w))) s = false /\ owns (length (heap (kl w))) s = false.
Proof.
  intros Ht. pose proof (placed_at _ _ Ht) as Hp.
  destruct s as [| |k p|k p|p]; cbn in Hp |- *; try done;
    try apply (ok_map w Hok) in Hp; rewrite bool_decide_eq_false_2 by lia; done.
Qed.

Lemma alloc_ok key : locks (kl w) !! key = None -> ok (alloc key).
Proof.
  intros Hk. split; cbn [alloc kl threads heap locks].
  - intros q jl [Hj|[Hq Hj]]%lookup_app_Some; [by apply (ok_count w Hok)|].
    apply list_lookup_singleton_Some in Hj as [Hq0 <-]. symmetry. apply cnt_none, Forall_lookup.
    intros t s Ht. replace q with (length (heap (kl w))) by lia. by eapply pointer_small.
  - intros q jl [Hj|[Hq Hj]]%lookup_app_Some; [by apply (ok_owner w Hok)|].
    apply list_lookup_singleton_Some in Hj as [Hq0 <-]. symmetry. apply cnt_none, Forall_lookup.
    intros t s Ht. replace q with (length (heap (kl w))) by lia. by eapply pointer_small.
  - eapply Forall_impl; [apply (ok_placed w Hok)|].
    intros [| |k p|k p|p]; cbn; try done; try (intros Hp; rewrite lookup_insert_ne by congruence; done).
    rewrite length_app. lia.
  - intros k p. rewrite length_app. destruct (decide (k = key)) as [->|Hne].
    + rewrite lookup_insert_eq. intros [= <-]. cbn. lia.
    + rewrite lookup_insert_ne by congruence. intros Hp%(ok_map w Hok). lia.
  - apply (ok_small w Hok).
Qed.

Lemma add_count t a p il : threads w !! t = Some a -> uses p a = false -> heap (kl w) !! p = Some il ->
  count (add il) = count il + 1.
Proof.
  intros Ht Ha Hp. cbn. apply wrapS_id; [lia|]. rewrite (ok_count w Hok _ _ Hp).
  pose proof (cnt_bounds (uses p) (<[t := Waiting EmptyString p]> (threads w))) as Hb.
  rewrite (cnt_insert _ _ _ _ _ Ht), Ha, length_insert in Hb. cbn in Hb. rewrite bool_decide_eq_true_2 in Hb by done.
  pose proof (cnt_bounds (uses p) (threads w)). pose proof (ok_small w Hok). unfold inS. cbn in *. lia.
Qed.

Lemma done_count t a p il : threads w !! t = Some a -> uses p a = true -> heap (kl w) !! p = Some il ->
  count (done il) = count il - 1.
Proof.
  intros Ht Ha Hp. cbn. apply wrapS_id; [lia|]. rewrite (ok_count w Hok _ _ Hp).
  pose proof (cnt_bounds (uses p) (threads w)). pose proof (cnt_pos (uses p) _ _ _ Ht Ha).
  pose proof (ok_small w Hok). unfold inS. lia.
Qed.

Lemma in_heap p : (p < length (heap (kl w)))%nat -> exists il, heap (kl w) !! p = Some il.
Proof. intros Hp. by apply lookup_lt_is_Some_2. Qed.

(** The second half of [Lock]'s lookups, for a key that has a lock. *)
Lemma enter_ok t a key p : threads w !! t = Some a -> a = Idle \/ a = Missed key -> locks (kl w) !! key = Some p ->
  ok (goto t (Waiting key p) (at_lock p add (kl w)) w).
Proof.
  intros Ht Ha Hk. destruct (in_heap p (ok_map w Hok _ _ Hk)) as [il Hp].
  assert (uses p a = false) as Hu by (destruct Ha as [-> | ->]; done).
  apply (step_ok t a _ p add il); try done.
  - rewrite (add_count t a p il) by done. rewrite Hu. cbn. rewrite bool_decide_eq_true_2 by done. cbn. lia.
  - destruct Ha as [-> | ->]; cbn; lia.
  - intros q Hq. destruct Ha as [-> | ->]; cbn; rewrite bool_decide_eq_false_2 by congruence; done.
Qed.
End Steps.

(** A lock is removed only when no thread uses it. *)
Lemma Clean_keeps w t k p : ok w -> threads w !! t = Some (Waiting k p) \/ threads w !! t = Some (Holding k p) ->
  locks (Clean (kl w)) !! k = Some p.
Proof.
  intros Hok Ht. assert (exists s, threads w !! t = Some s /\ uses p s = true /\ placed (kl w) s /\
    (placed (kl w) s = (locks (kl w) !! k = Some p))) as (s & Hs & Hu & Hp & Es).
  { destruct Ht as [Ht|Ht]; eexists; (split; [exact Ht|]);
      (split; [by apply bool_decide_eq_true_2|]); (split; [exact (placed_at w Hok _ _ Ht)|done]). }
  rewrite Es in Hp. cbn. apply map_lookup_filter_Some. split; [done|]. cbn. unfold idle.
  destruct (in_heap w p (ok_map w Hok _ _ Hp)) as [il Hil]. rewrite Hil.
  apply bool_decide_eq_false_2. rewrite (ok_count w Hok _ _ Hil).
  pose proof (cnt_pos (uses p) _ _ _ Hs Hu). lia.
Qed.

Lemma Clean_ok w : ok w -> ok (mkWorld (Clean (kl w)) (threads w)).
Proof.
  intros Hok. split; cbn [kl threads].
  - apply (ok_count w Hok).
  - apply (ok_owner w Hok).
  - apply Forall_lookup. intros t s Ht. pose proof (placed_at w Hok _ _ Ht) as Hp.
    destruct s; try done; eapply Clean_keeps; eauto.
  - intros k p Hk. cbn in Hk. apply map_lookup_filter_Some in Hk as [Hk _]. by apply (ok_map w Hok) in Hk.
  - apply (ok_small w Hok).
Qed.

(** A thread that has locked a mutex finds it locked. *)
Lemma owner_locked w t s p il : ok w -> threads w !! t = Some s -> owns p s = true ->
  heap (kl w) !! p = Some il -> locked il = true.
Proof.
  intros Hok Ht Hs Hp. pose proof (ok_owner w Hok _ _ Hp) as E. pose proof (cnt_pos (owns p) _ _ _ Ht Hs).
  destruct (locked il); [done|]. cbn in E. lia.
Qed.

Ltac bool_true := repeat rewrite (bool_decide_eq_true_2 (_ = _)) by done.
Ltac bool_false := repeat rewrite (bool_decide_eq_false_2 (_ = _)) by congruence.

(** Where a step of a thread leads to, under the invariant. *)
Lemma Resume_ok w t : ok w -> exec (Resume t) w <> Fatal /\ forall w', exec (Resume t) w = Next w' -> ok w'.
Proof.
  intros Hok. cbn [exec]. destruct (threads w !! t) as [[|key|key p|key p|p]|] eqn:Ht; try (split; discriminate).
  - unfold Lock_insert. destruct (locks (kl w) !! key) as [p|] eqn:Hk; cbn.
    + split; [discriminate|]. intros w' [= <-]. eapply enter_ok; eauto.
    + split; [discriminate|]. intros w' [= <-].
      apply (enter_ok (alloc w key) (alloc_ok w Hok key Hk) t (Missed key)); [done|auto|]. apply lookup_insert_eq.
  - pose proof (placed_at w Hok _ _ Ht) as Hp. destruct (in_heap w p (ok_map w Hok _ _ Hp)) as [il Hil]. rewrite Hil.
    destruct (locked il) eqn:Hl; (split; [discriminate|]); [discriminate|]. intros w' [= <-].
    apply (step_ok w Hok t _ _ p _ il Ht Hil); cbn; bool_true; rewrite ?Hl; cbn; [lia|lia| |done].
    intros q Hq. bool_false. done.
  - pose proof (placed_at w Hok _ _ Ht) as Hp. cbn in Hp. destruct (in_heap w p Hp) as [il Hil]. rewrite Hil.
    assert (locked il = true) as Hl by (eapply owner_locked; [done|exact Ht| |done]; cbn; by bool_true).
    rewrite Hl. split; [discriminate|]. intros w' [= <-].
    apply (step_ok w Hok t _ _ p _ il Ht Hil); cbn; bool_true; rewrite ?Hl; cbn; [lia|lia| |done].
    intros q Hq. bool_false. done.
Qed.

Lemma CallUnlock_spec w t key p : ok w -> threads w !! t = Some (Holding key p) ->
  exec (CallUnlock t) w = Next (goto t (Releasing p) (at_lock p done (kl w)) w).
Proof.
  intros Hok Ht. pose proof (placed_at w Hok _ _ Ht) as Hp. cbn in Hp. cbn. rewrite Ht. unfold Unlock_lookup. by rewrite Hp.
Qed.

Lemma exec_ok e w : ok w -> exec e w <> Fatal /\ forall w', exec e w = Next w' -> ok w'.
Proof.
  intros Hok. destruct e as [t key|t|t|].
  - cbn. destruct (threads w !! t) as [[]|] eqn:Ht; try (split; discriminate).
    unfold Lock_lookup. destruct (locks (kl w) !! key) as [p|] eqn:Hk; (split; [discriminate|]); intros w' [= <-].
    + eapply enter_ok; eauto.
    + by apply (quiet_ok w Hok t Idle).
  - by apply Resume_ok.
  - destruct (threads w !! t) as [[|key|key p|key p|p]|] eqn:Ht;
      try (cbn; rewrite Ht; split; discriminate).
    rewrite (CallUnlock_spec w t key p) by done. split; [discriminate|]. intros w' [= <-].
    pose proof (placed_at w Hok _ _ Ht) as Hp. cbn in Hp. pose proof (ok_map w Hok _ _ Hp) as Hlt.
    destruct (in_heap w p Hlt) as [il Hil].
    apply (step_ok w Hok t _ _ p _ il Ht Hil).
    + rewrite (done_count w Hok t (Holding key p) p il) by (try done; cbn; by bool_true). cbn. bool_true. cbn. lia.
    + cbn. lia.
    + intros q Hq. cbn. bool_false. done.
    + done.
  - split; [discriminate|]. intros w' [= <-]. by apply Clean_ok.
Qed.

Lemma run_ok es w : ok w -> run es w <> Fatal /\ forall w', run es w = Next w' -> ok w'.
Proof.
  revert w. induction es as [|e es IH]; intros w Hok; cbn.
  - split; [discriminate|]. by intros w' [= <-].
  - destruct (exec_ok e w Hok) as [H1 H2]. destruct (exec e w) as [|w1|] eqn:E; try (split; congruence).
    apply IH. by apply H2.
Qed.

(** * Progress

    The steps a thread has left until it is outside again, when it calls
    [Unlock] once it has the lock. *)
Definition left (s : pc) : nat :=
  match s with Idle => 0 | Releasing _ => 1 | Holding _ _ => 2 | Waiting _ _ => 3 | Missed _ => 4 end.
Fixpoint steps (ths : list pc) : nat := match ths with [] => O | s :: ths' => left s + steps ths' end.
Definition work (w : world) : nat := steps (threads w).
(** Steps that are not a new call of [Lock] or a tick of the clean loop. *)
Definition inside (e : event) : Prop := match e with Resume _ | CallUnlock _ => True | _ => False end.

Lemma steps_insert ths t a b : ths !! t = Some a -> left a = S (left b) -> steps ths = S (steps (<[t := b]> ths)).
Proof.
  revert t. induction ths as [|s ths IH]; intros [|t] Ht Hl; try discriminate; cbn in Ht.
  - injection Ht as ->. cbn. lia.
  - change (<[S t := b]> (s :: ths)) with (s :: <[t := b]> ths). cbn [steps]. rewrite (IH _ Ht Hl). lia.
Qed.

Lemma steps_zero ths : steps ths = O -> Forall (eq Idle) ths.
Proof. induction ths as [|[] ths IH]; cbn; intros E; try discriminate; constructor; auto. Qed.

Lemma steps_pos ths : steps ths <> O -> exists t s, ths !! t = Some s /\ s <> Idle.
Proof.
  induction ths as [|s ths IH]; cbn; [done|]. intros H. destruct (decide (left s = O)) as [E|E].
  - destruct IH as (t & s' & Ht & Hs); [lia|]. by exists (S t), s'.
  - exists O, s. split; [done|]. by intros ->.
Qed.

(** Every step inside is one step less. *)
Lemma inside_step w e w' : ok w -> inside e -> exec e w = Next w' -> work w = S (work w').
Proof.
  intros Hok He H. destruct e as [|t|t|]; try done; cbn [exec] in H.
  - destruct (threads w !! t) as [[|key|key p|key p|p]|] eqn:Ht; try discriminate.
    + destruct (Lock_insert key (kl w)) as [l p]. injection H as <-. by apply (steps_insert _ _ _ _ Ht).
    + destruct (heap (kl w) !! p) as [il|]; [|discriminate]. destruct (locked il); [discriminate|].
      injection H as <-. by apply (steps_insert _ _ _ _ Ht).
    + destruct (heap (kl w) !! p) as [il|]; [|discriminate]. destruct (locked il); [|discriminate].
      injection H as <-. by apply (steps_insert _ _ _ _ Ht).
  - destruct (threads w !! t) as [[|key|key p|key p|p]|] eqn:Ht; try discriminate.
    pose proof (CallUnlock_spec w t key p Hok Ht) as E. cbn [exec] in E. rewrite Ht in E. rewrite E in H.
    injection H as <-. by apply (steps_insert _ _ _ _ Ht).
Qed.

(** Somebody inside can always move: a thread that waits for a mutex waits
    for a thread that has locked it, and that one does not wait. *)
Lemma not_stuck w : ok w -> work w <> O -> exists e w', inside e /\ exec e w = Next w'.
Proof.
  intros Hok Hw.
  assert (forall t p s, threads w !! t = Some s -> owns p s = true -> exists e w', inside e /\ exec e w = Next w') as Howner.
  { intros t p s Ht Hs. destruct s as [|key|key q|key q|q]; try discriminate.
    - exists (CallUnlock t). eexists. split; [done|]. by eapply CallUnlock_spec.
    - apply bool_decide_eq_true in Hs as ->. exists (Resume t). cbn. rewrite Ht.
      pose proof (placed_at w Hok _ _ Ht) as Hp. cbn in Hp. destruct (in_heap w p Hp) as [il Hil]. rewrite Hil.
      rewrite (owner_locked w t (Releasing p) p il) by (try done; cbn; by apply bool_decide_eq_true_2). eauto. }
  destruct (steps_pos _ Hw) as (t & s & Ht & Hs). destruct s as [|key|key p|key p|p]; try done.
  - exists (Resume t). cbn. rewrite Ht. destruct (Lock_insert key (kl w)). eauto.
  - pose proof (placed_at w Hok _ _ Ht) as Hp. cbn in Hp.
    destruct (in_heap w p (ok_map w Hok _ _ Hp)) as [il Hil].
    destruct (locked il) eqn:Hl.
    + destruct (cnt_some (owns p) (threads w)) as (t' & s & Ht' & Hs').
      { rewrite <- (ok_owner w Hok _ _ Hil), Hl. done. }
      by eapply Howner.
    + exists (Resume t). cbn. rewrite Ht, Hil, Hl. eauto.
  - eapply (Howner t p); [exact Ht|]. cbn. by apply bool_decide_eq_true_2.
  - eapply (Howner t p); [exact Ht|]. cbn. by apply bool_decide_eq_true_2.
Qed.

Lemma inside_run es w w' : ok w -> Forall inside es -> run es w = Next w' -> work w = (length es + work w')%nat.
Proof.
  revert w. induction es as [|e es IH]; intros w Hok Hes; cbn.
  - by intros [= <-].
  - apply Forall_cons in Hes as [He Hes]. destruct (exec e w) as [|w1|] eqn:E; try discriminate. intros H.
    rewrite (inside_step w e w1) by done. cbn. f_equal. apply IH; [|done..].
    by destruct (exec_ok e w Hok) as [_ H1]; apply H1.
Qed.

Lemma can_finish w : ok w -> exists es w', Forall inside es /\ run es w = Next w' /\ work w' = O.
Proof.
  remember (work w) as n eqn:Hn. revert w Hn. induction n as [|n IH]; intros w Hn Hok.
  - by exists [], w.
  - destruct (not_stuck w Hok) as (e & w1 & He & E); [lia|]. pose proof (inside_step w e w1 Hok He E) as Hw.
    destruct (exec_ok e w Hok) as [_ H1]. destruct (IH w1 ltac:(lia) (H1 _ E)) as (es & w' & Hes & Hr & H0).
    exists (e :: es), w'. split; [by constructor|]. split; [|done]. cbn. by rewrite E.
Qed.

Lemma Clean_unused w : ok w -> work w = O -> locks (Clean (kl w)) = ∅.
Proof.
  intros Hok Hw. apply map_empty. intros k. cbn. apply map_lookup_filter_None. right. intros p Hk. cbn. unfold idle.
  destruct (in_heap w p (ok_map w Hok _ _ Hk)) as [il Hil]. rewrite Hil, (ok_count w Hok _ _ Hil), cnt_none; [done|].
  apply Forall_lookup. intros t s Ht. by rewrite <- (Forall_lookup_1 _ _ _ _ (steps_zero _ Hw) Ht).
Qed.

(** * What the locks promise *)

(** C5: whatever the scheduler does, with [Clean] at any time, two threads
    never hold the same key, and no unlocked mutex is unlocked. *)
Theorem Lock_excludes n es w : Z.of_nat n < 2 ^ 63 -> run es (init n) = Next w ->
  (forall t1 t2 key p1 p2, threads w !! t1 = Some (Holding key p1) -> threads w !! t2 = Some (Holding key p2) -> t1 = t2)
  /\ forall e, exec e w <> Fatal.
Proof.
  intros Hn Hr. destruct (run_ok es (init n) (init_ok n Hn)) as [_ Hok]. specialize (Hok _ Hr). split.
  - intros t1 t2 key p1 p2 H1 H2. destruct (decide (t1 = t2)) as [|Hne]; [done|exfalso].
    pose proof (placed_at w Hok _ _ H1) as K1. pose proof (placed_at w Hok _ _ H2) as K2. cbn in K1, K2.
    rewrite K1 in K2. injection K2 as <-. destruct (in_heap w p1 (ok_map w Hok _ _ K1)) as [il Hil].
    assert (owns p1 (Holding key p1) = true) as Ho by by apply bool_decide_eq_true_2.
    pose proof (cnt_two (owns p1) _ _ _ _ _ H1 H2 Ho Ho Hne).
    pose proof (ok_owner w Hok _ _ Hil) as E. destruct (locked il); cbn in E; lia.
  - intros e. by destruct (exec_ok e w Hok).
Qed.

(** C19: nobody waits forever: the threads inside can always go on without a
    new call of [Lock], each of their steps counts towards an end, and at the
    end everybody is outside and [Clean] leaves no lock behind. *)
Theorem Lock_progress n es w : Z.of_nat n < 2 ^ 63 -> run es (init n) = Next w ->
  (forall es' w', Forall inside es' -> run es' w = Next w' ->
     (length es' <= work w)%nat /\
     (length es' = work w <-> Forall (eq Idle) (threads w')) /\
     (length es' <> work w -> exists e w2, inside e /\ exec e w' = Next w2)) /\
  exists es' w', Forall inside es' /\ run es' w = Next w' /\ Forall (eq Idle) (threads w') /\
    locks (Clean (kl w')) = ∅.
Proof.
  intros Hn Hr. destruct (run_ok es (init n) (init_ok n Hn)) as [_ Hok]. specialize (Hok _ Hr). split.
  - intros es' w' He Hr'. pose proof (inside_run es' w w' Hok He Hr') as Hw.
    destruct (run_ok es' w Hok) as [_ Hok']. specialize (Hok' _ Hr'). split; [lia|]. split; [split|].
    + intros E. apply steps_zero. change (work w' = O). lia.
    + intros Hi. assert (work w' = O) as E; [|lia]. unfold work. induction Hi as [|s l <- _ IH]; [done|exact IH].
    + intros Hne. apply not_stuck; [done|lia].
  - destruct (can_finish w Hok) as (es' & w' & He & Hr' & H0). exists es', w'.
    destruct (run_ok es' w Hok) as [_ Hok']. specialize (Hok' _ Hr').
    repeat split; [done|done|by apply steps_zero|by apply Clean_unused].
Qed.

(** Three threads and a tick of the clean loop between the decrement of the
    count and the unlock of the mutex: thread 1 gets a new mutex while thread
    0 still has the old one to release. *)
Definition example_events : list event :=
  [CallLock 0 "k"; Resume 0; CallLock 2 "j"; Resume 0; CallUnlock 0; CleanTick; CallLock 1 "k"; Resume 1; Resume 1;
   Resume 0; Resume 2].
Definition example_world : world :=
  mkWorld (mkKeyLock [mkInnerLock 0 false; mkInnerLock 1 true; mkInnerLock 1 false] {["k" := 1%nat; "j" := 2%nat]})
    [Idle; Holding "k" 1; Waiting "j" 2].
Lemma Lock_excludes_witness : run example_events (init 3) = Next example_world /\
  (forall e, exec e example_world <> Fatal) /\ threads example_world !! 1%nat = Some (Holding "k" 1).
Proof.
  assert (run example_events (init 3) = Next example_world) as Hr by (vm_compute; reflexivity).
  split; [exact Hr|]. split; [|reflexivity].
  apply (Lock_excludes 3 example_events example_world ltac:(lia) Hr).
Defined.

Lemma Lock_progress_witness : exists es' w', run es' example_world = Next w' /\ Forall (eq Idle) (threads w') /\
  locks (Clean (kl w')) = ∅.
Proof.
  assert (run example_events (init 3) = Next example_world) as Hr by (vm_compute; reflexivity).
  destruct (Lock_progress 3 example_events example_world ltac:(lia) Hr) as [_ (es' & w' & _ & H)].
  exists es', w'. exact H.
Defined.
