(* ===== verification/Wire.v ===== *)
(** The byte codec of pkg/lmproto: [Encoder] (encoder.go) as functions on
    the accumulated buffer, [Decoder] (decoder.go) as a monad that consumes
    the unread bytes, and the round-trip interface between them. *)
From stdpp Require Import base list strings.
From Stdlib Require Import ZArith Lia Strings.Byte.
From S2P Require Import Prelude.

Declare Scope wire_scope.
Delimit Scope wire_scope with wire.
Notation "e |> f" := (f e) (at level 50, left associativity, only parsing) : wire_scope.
#[global] Open Scope wire_scope.

(** * Encoder

    [e] is the content of the encoder's [bytes.Buffer], whose writes never
    fail. *)

Definition encoder := list byte.
Definition NewEncoder : encoder := [].
Definition Bytes (e : encoder) : list byte := e.
Definition Len (e : encoder) : Z := zlen e.

Definition write (b : list byte) (e : encoder) : encoder := e ++ b.

Definition WriteByte (b : Z) (e : encoder) : encoder := write [byte_of_Z b] e.
Definition WriteInt (i : Z) (e : encoder) : encoder := WriteByte (u8 i) e.
Definition WriteUint8 (i : Z) (e : encoder) : encoder := WriteInt i e.

Definition WriteInt16 (i : Z) (e : encoder) : encoder :=
  write [byte_of_Z (Z.shiftr i 8); byte_of_Z (Z.land i 0xFF)] e.
Definition WriteUint16 (i : Z) (e : encoder) : encoder := WriteInt16 i e.

Definition WriteInt32 (i : Z) (e : encoder) : encoder :=
  write [byte_of_Z (Z.shiftr i 24); byte_of_Z (Z.shiftr i 16);
         byte_of_Z (Z.shiftr i 8); byte_of_Z (Z.land i 0xFF)] e.
Definition WriteUint32 (i : Z) (e : encoder) : encoder :=
  write [byte_of_Z (Z.shiftr i 24); byte_of_Z (Z.shiftr i 16);
         byte_of_Z (Z.shiftr i 8); byte_of_Z (Z.land i 0xFF)] e.

Definition WriteInt64 (i : Z) (e : encoder) : encoder :=
  write [byte_of_Z (Z.shiftr i 56); byte_of_Z (Z.shiftr i 48);
         byte_of_Z (Z.shiftr i 40); byte_of_Z (Z.shiftr i 32);
         byte_of_Z (Z.shiftr i 24); byte_of_Z (Z.shiftr i 16);
         byte_of_Z (Z.shiftr i 8); byte_of_Z (Z.land i 0xFF)] e.
Definition WriteUint64 (i : Z) (e : encoder) : encoder :=
  write [byte_of_Z (Z.shiftr i 56); byte_of_Z (Z.shiftr i 48);
         byte_of_Z (Z.shiftr i 40); byte_of_Z (Z.shiftr i 32);
         byte_of_Z (Z.shiftr i 24); byte_of_Z (Z.shiftr i 16);
         byte_of_Z (Z.shiftr i 8); byte_of_Z (Z.land i 0xFF)] e.

Definition WriteBytes (b : list byte) (e : encoder) : encoder := write b e.
Definition WriteBinary (b : list byte) (e : encoder) : encoder :=
  if decide (length b = 0%nat) then WriteInt16 0 e
  else write b (WriteInt16 (zlen b) e).
Definition WriteString (str : string) (e : encoder) : encoder :=
  WriteBinary (bytes_of_string str) e.
Definition WriteStringAll (str : string) (e : encoder) : encoder :=
  WriteBytes (bytes_of_string str) e.

(** [for v > 0 { digit := v % 0x80; v /= 0x80; ... }]: the loop divides a
    64-bit [int] by 128, so ten rounds always suffice ([variable_fuel]). *)
Fixpoint variable_loop (fuel : nat) (v : Z) (b : list byte) : option (list byte) :=
  match fuel with
  | O => if v >? 0 then None else Some b
  | S fuel' =>
      if v >? 0 then
        let digit := v mod 0x80 in
        let v' := v / 0x80 in
        let digit' := if v' >? 0 then Z.lor digit 0x80 else digit in
        variable_loop fuel' v' (b ++ [byte_of_Z digit'])
      else Some b
  end.
Definition variable_fuel : nat := 10.
Definition WriteVariable (v : Z) (e : encoder) : option encoder :=
  b ← variable_loop variable_fuel v []; Some (write b e).

(** * Decoder *)

Definition decoder (A : Type) : Type := list byte -> outcome (A * list byte).

#[export] Instance decoder_mret : MRet decoder := fun A a r => Ret (a, r).
#[export] Instance decoder_mbind : MBind decoder := fun A B f m r =>
  match m r with
  | Ret (a, r') => f a r'
  | Err e => Err e
  | Panic => Panic
  end.
#[export] Instance decoder_fmap : FMap decoder := fun A B f m =>
  m ≫= fun a => mret (f a).

(** [if x, err = dec.X(); err != nil { return errors.Wrap(err, msg) }] *)
Definition wrapD {A} (msg : string) (m : decoder A) : decoder A :=
  fun r => wrap msg (m r).

Definition failD {A} (e : error) : decoder A := fun _ => Err e.
Definition liftD {A} (m : outcome A) : decoder A := fun r => a ← m; Ret (a, r).

(** bytes.Reader.Read into a buffer of [n] bytes: EOF on an exhausted
    reader, otherwise as many bytes as there are, up to [n]. *)
Definition Read (n : nat) : decoder (list byte) := fun r =>
  match r with
  | [] => Err EOF
  | _ => Ret (take n r, drop n r)
  end.

(** The common shape [n, err := r.Read(b)], [n != len(b)] an error. *)
Definition ReadExpect (n : nat) : decoder (list byte) :=
  b ← Read n;
  if decide (length b = n) then mret b else failD (ErrExpect (zlen b) (Z.of_nat n)).

Definition byte_at (b : list byte) (i : nat) : Z :=
  match b !! i with Some x => Z_of_byte x | None => 0 end.

Definition Uint8 : decoder Z :=
  b ← ReadExpect 1; mret (byte_at b 0).

Definition Int16 : decoder Z :=
  b ← ReadExpect 2;
  mret (Z.lor (i16 (Z.shiftl (byte_at b 0) 8)) (byte_at b 1)).

Definition Uint16 : decoder Z := i ← Int16; mret (u16 i).

Definition Int32 : decoder Z :=
  b ← ReadExpect 4;
  mret (Z.lor (Z.lor (Z.lor (i32 (Z.shiftl (byte_at b 0) 24))
                            (i32 (Z.shiftl (byte_at b 1) 16)))
                     (i32 (Z.shiftl (byte_at b 2) 8)))
              (byte_at b 3)).

Definition Uint32 : decoder Z := i ← Int32; mret (u32 i).

Definition Int64 : decoder Z :=
  b ← ReadExpect 8;
  mret (Z.lor (Z.lor (Z.lor (Z.lor (Z.lor (Z.lor (Z.lor
          (i64 (Z.shiftl (byte_at b 0) 56)) (i64 (Z.shiftl (byte_at b 1) 48)))
          (i64 (Z.shiftl (byte_at b 2) 40))) (i64 (Z.shiftl (byte_at b 3) 32)))
          (i64 (Z.shiftl (byte_at b 4) 24))) (i64 (Z.shiftl (byte_at b 5) 16)))
          (i64 (Z.shiftl (byte_at b 6) 8))) (byte_at b 7)).

Definition Uint64 : decoder Z :=
  b ← ReadExpect 8;
  mret (Z.lor (Z.lor (Z.lor (Z.lor (Z.lor (Z.lor (Z.lor
          (u64 (Z.shiftl (byte_at b 0) 56)) (u64 (Z.shiftl (byte_at b 1) 48)))
          (u64 (Z.shiftl (byte_at b 2) 40))) (u64 (Z.shiftl (byte_at b 3) 32)))
          (u64 (Z.shiftl (byte_at b 4) 24))) (u64 (Z.shiftl (byte_at b 5) 16)))
          (u64 (Z.shiftl (byte_at b 6) 8))) (byte_at b 7)).

(** [make([]byte, size)]: a negative size panics. *)
Definition make_bytes (size : Z) : outcome (list byte) :=
  if size <? 0 then Panic else Ret (replicate (Z.to_nat size) Byte.x00).

(** The part of a buffer a read did not reach keeps its zero bytes. *)
Definition copy_into (buf b : list byte) : list byte :=
  take (length buf) b ++ drop (length b) buf.

(** [Decoder.Bytes]: a short read is not an error. *)
Definition DecBytes (num : Z) : decoder (list byte) :=
  buf ← liftD (make_bytes num);
  b ← Read (length buf);
  mret (copy_into buf b).

Definition Binary : decoder (list byte) :=
  size ← Int16;
  buf ← liftD (make_bytes size);
  if size =? 0 then mret buf
  else ReadExpect (Z.to_nat size).

Definition BinaryAll : decoder (list byte) := fun r =>
  if decide (length r = 0%nat) then Ret ([], r)
  else ReadExpect (length r) r.

Definition DecString : decoder string := buf ← Binary; mret (string_of_bytes buf).
Definition StringAll : decoder string := buf ← BinaryAll; mret (string_of_bytes buf).

(** [Variable]: each round consumes a byte, so the unread length bounds the
    rounds; [size] and [mul] wrap at 64 bits. *)
Fixpoint Variable_loop (size mul : Z) (r : list byte) : outcome (Z * list byte) :=
  match r with
  | [] => Err EOF
  | b :: r' =>
      let i := Z_of_byte b in
      let size' := u64 (size + u64 (Z.land i 0x7F * mul)) in
      if Z.land i 0x80 =? 0 then Ret (size', r')
      else Variable_loop size' (u64 (mul * 0x80)) r'
  end.
Definition DecVariable : decoder Z := Variable_loop 0 1.

(** * What each write appends *)

Definition str_image (b : list byte) : list byte := be 2 (zlen b) ++ b.
Definition put_string (s : string) : list byte := str_image (bytes_of_string s).

Lemma byte_of_Z_land z : byte_of_Z (Z.land z 0xFF) = byte_of_Z z.
Proof.
  change 0xFF with (Z.ones 8). rewrite Z.land_ones by lia.
  change (2 ^ 8) with 256. apply byte_of_Z_mod.
Qed.

Lemma WriteByte_app b e : WriteByte b e = e ++ be 1 b.
Proof. unfold WriteByte, write. cbn. rewrite Z.shiftr_0_r. reflexivity. Qed.

Lemma WriteUint8_app i e : WriteUint8 i e = e ++ be 1 i.
Proof.
  unfold WriteUint8, WriteInt, wrapU. rewrite WriteByte_app. cbn.
  rewrite !Z.shiftr_0_r. change (2 ^ 8) with 256. rewrite byte_of_Z_mod. reflexivity.
Qed.

Ltac write_image := intros; unfold write; rewrite byte_of_Z_land; cbn; rewrite Z.shiftr_0_r; reflexivity.

Lemma WriteInt16_app i e : WriteInt16 i e = e ++ be 2 i.
Proof. unfold WriteInt16. write_image. Qed.
Lemma WriteUint16_app i e : WriteUint16 i e = e ++ be 2 i.
Proof. apply WriteInt16_app. Qed.
Lemma WriteInt32_app i e : WriteInt32 i e = e ++ be 4 i.
Proof. unfold WriteInt32. write_image. Qed.
Lemma WriteUint32_app i e : WriteUint32 i e = e ++ be 4 i.
Proof. unfold WriteUint32. write_image. Qed.
Lemma WriteInt64_app i e : WriteInt64 i e = e ++ be 8 i.
Proof. unfold WriteInt64. write_image. Qed.
Lemma WriteUint64_app i e : WriteUint64 i e = e ++ be 8 i.
Proof. unfold WriteUint64. write_image. Qed.
Lemma WriteBytes_app b e : WriteBytes b e = e ++ b.
Proof. reflexivity. Qed.

Lemma WriteBinary_app b e : WriteBinary b e = e ++ str_image b.
Proof.
  unfold WriteBinary, str_image. destruct (decide _) as [H|H].
  - destruct b; [|discriminate]. rewrite WriteInt16_app, app_nil_r. reflexivity.
  - rewrite WriteInt16_app. unfold write. rewrite app_assoc. reflexivity.
Qed.

Lemma WriteString_app s e : WriteString s e = e ++ put_string s.
Proof. apply WriteBinary_app. Qed.

Create Rewrite HintDb wire.
#[export] Hint Rewrite WriteByte_app WriteUint8_app WriteInt16_app WriteUint16_app
  WriteInt32_app WriteUint32_app WriteInt64_app WriteUint64_app WriteBytes_app
  WriteBinary_app WriteString_app : wire.

(** * Reading back *)

Lemma Read_app n b r : length b = n -> n <> 0%nat -> Read n (b ++ r) = Ret (b, r).
Proof.
  intros <- Hn. unfold Read. destruct b as [|x b]; [done|]. cbn.
  rewrite take_app_length, drop_app_length. reflexivity.
Qed.

Lemma ReadExpect_app n b r : length b = n -> n <> 0%nat -> ReadExpect n (b ++ r) = Ret (b, r).
Proof.
  intros Hb Hn. unfold ReadExpect, mbind, decoder_mbind. rewrite Read_app by done.
  rewrite decide_True by done. reflexivity.
Qed.

Lemma wrapS_mul_pow w k b : 0 < w -> 0 <= k -> wrapS (w + k) (b * 2 ^ k) = wrapS w b * 2 ^ k.
Proof.
  intros. unfold wrapS. replace (w + k - 1) with ((w - 1) + k) by lia.
  rewrite !Z.pow_add_r by lia.
  rewrite <- Z.mul_add_distr_r, Zmult_mod_distr_r. lia.
Qed.

(** Signed and unsigned value of big-endian bytes: the leading byte carries
    the sign. *)
Definition sbe_val (l : list byte) : Z :=
  match l with [] => 0 | b :: l' => be_val (wrapS 8 (Z_of_byte b)) l' end.

Lemma be_val_acc acc l : be_val acc l = acc * 2 ^ (8 * zlen l) + be_val 0 l.
Proof.
  revert acc. induction l as [|b l IH]; intros acc; cbn [be_val].
  - unfold zlen. cbn. lia.
  - rewrite IH, (IH (0 * 256 + _)). unfold zlen. rewrite length_cons.
    replace (8 * Z.of_nat (S (length l))) with (8 * Z.of_nat (length l) + 8) by lia.
    rewrite Z.pow_add_r by lia. change (2 ^ 8) with 256. lia.
Qed.

Lemma be_val_bound l : 0 <= be_val 0 l < 2 ^ (8 * zlen l).
Proof.
  induction l as [|b l IH]; cbn [be_val]; [split; [lia|reflexivity]|].
  rewrite be_val_acc. unfold zlen in *. rewrite length_cons.
  replace (8 * Z.of_nat (S (length l))) with (8 * Z.of_nat (length l) + 8) by lia.
  rewrite Z.pow_add_r by lia. change (2 ^ 8) with 256.
  pose proof (Z_of_byte_range b). nia.
Qed.

Lemma sbe_val_wrap l : l <> [] -> sbe_val l = wrapS (8 * zlen l) (be_val 0 l).
Proof.
  destruct l as [|b l]; [done|intros _]. cbn [sbe_val be_val].
  rewrite be_val_acc, (be_val_acc (0 * 256 + _)).
  pose proof (be_val_bound l) as Hl. pose proof (Z_of_byte_range b) as Hb.
  set (k := 8 * zlen l) in *.
  assert (Hk : 0 <= k) by (unfold k, zlen; lia).
  replace (8 * zlen (b :: l)) with (8 + k) by (unfold k, zlen; rewrite length_cons; lia).
  replace (0 * 256 + Z_of_byte b) with (Z_of_byte b) by lia.
  unfold wrapS. replace (8 + k - 1) with (7 + k) by lia.
  rewrite !Z.pow_add_r by lia. change (2 ^ 8) with 256. change (2 ^ (8 - 1)) with 128. change (2 ^ 7) with 128.
  replace (Z_of_byte b * 2 ^ k + be_val 0 l + 128 * 2 ^ k)
    with (2 ^ k * (Z_of_byte b + 128) + be_val 0 l) by lia.
  replace (256 * 2 ^ k) with (2 ^ k * 256) by lia.
  rewrite Z.rem_mul_r by lia.
  replace ((2 ^ k * (Z_of_byte b + 128) + be_val 0 l) / 2 ^ k) with (Z_of_byte b + 128)
    by (apply Z.div_unique with (be_val 0 l); lia).
  replace ((2 ^ k * (Z_of_byte b + 128) + be_val 0 l) mod 2 ^ k) with (be_val 0 l)
    by (apply Z.mod_unique with (Z_of_byte b + 128); lia).
  lia.
Qed.

(** The or-chain of a signed (unsigned) decoder is the signed (unsigned)
    value of its bytes. *)
Ltac or_chain_step :=
  match goal with
  | |- context [Z.lor (?a * 2 ^ ?k1) (?b * 2 ^ ?k2)] =>
      change (a * 2 ^ k1) with (a * 2 ^ (k2 + 8)); rewrite (lor_byte a b k2) by lia
  | |- context [Z.lor (?a * 2 ^ 8) ?b] => rewrite (lor_low a b 8) by lia
  end.

Lemma wrapS_byte_shift w b k : 0 <= k -> 0 <= b < 256 -> 8 + k < w -> wrapS w (Z.shiftl b k) = b * 2 ^ k.
Proof.
  intros. rewrite Z.shiftl_mul_pow2 by lia. apply wrapS_id; [lia|].
  assert (2 ^ (8 + k) <= 2 ^ (w - 1)) by (apply Z.pow_le_mono_r; lia).
  rewrite Z.pow_add_r in * by lia. change (2 ^ 8) with 256 in *. unfold inS.
  assert (0 < 2 ^ k) by lia. nia.
Qed.

Lemma wrapS_top_byte_shift b k : 0 <= k -> wrapS (8 + k) (Z.shiftl b k) = wrapS 8 b * 2 ^ k.
Proof. intros. rewrite Z.shiftl_mul_pow2 by lia. apply wrapS_mul_pow; lia. Qed.

Lemma wrapU_byte_shift w b k : 0 <= k -> 0 <= b < 256 -> 8 + k <= w -> wrapU w (Z.shiftl b k) = b * 2 ^ k.
Proof.
  intros. rewrite Z.shiftl_mul_pow2 by lia. apply wrapU_id.
  assert (2 ^ (8 + k) <= 2 ^ w) by (apply Z.pow_le_mono_r; lia).
  rewrite Z.pow_add_r in * by lia. change (2 ^ 8) with 256 in *. unfold inU.
  assert (0 < 2 ^ k) by lia. nia.
Qed.

(** Bounds of every byte value of the goal. *)
Ltac byte_facts :=
  repeat match goal with
  | |- context [Z_of_byte ?x] =>
      lazymatch goal with
      | H : 0 <= Z_of_byte x < 256 |- _ => fail
      | _ => pose proof (Z_of_byte_range x)
      end
  end.

Lemma list_2 {A} (l : list A) : length l = 2%nat -> exists a b, l = [a; b].
Proof. intros H. do 3 (destruct l as [|? l]; try discriminate); eauto. Qed.
Lemma list_4 {A} (l : list A) : length l = 4%nat -> exists a b c d, l = [a; b; c; d].
Proof. intros H. do 5 (destruct l as [|? l]; try discriminate). repeat eexists. Qed.
Lemma list_8 {A} (l : list A) : length l = 8%nat ->
  exists a b c d e f g h, l = [a; b; c; d; e; f; g; h].
Proof. intros H. do 9 (destruct l as [|? l]; try discriminate). repeat eexists. Qed.

(** Run [ReadExpect] on a prefix of the right length and expose the bytes. *)
Ltac read_bytes Hb :=
  unfold mbind, decoder_mbind; rewrite ReadExpect_app by (rewrite ?Hb; done);
  unfold mret, decoder_mret, byte_at.
Ltac signed_bytes k := cbn [lookup list_lookup]; byte_facts;
  rewrite (wrapS_top_byte_shift _ k) by lia;
  rewrite ?(wrapS_byte_shift (8 + k)) by lia; repeat or_chain_step; reflexivity.

Lemma Uint8_bytes b r : Uint8 (b :: r) = Ret (Z_of_byte b, r).
Proof. reflexivity. Qed.

Lemma Int16_bytes b r : length b = 2%nat -> Int16 (b ++ r) = Ret (sbe_val b, r).
Proof.
  intros Hb. unfold Int16. read_bytes Hb. destruct (list_2 b Hb) as (? & ? & ->).
  signed_bytes 8.
Qed.

Lemma Int32_bytes b r : length b = 4%nat -> Int32 (b ++ r) = Ret (sbe_val b, r).
Proof.
  intros Hb. unfold Int32. read_bytes Hb. destruct (list_4 b Hb) as (? & ? & ? & ? & ->).
  signed_bytes 24.
Qed.

Lemma Int64_bytes b r : length b = 8%nat -> Int64 (b ++ r) = Ret (sbe_val b, r).
Proof.
  intros Hb. unfold Int64. read_bytes Hb.
  destruct (list_8 b Hb) as (? & ? & ? & ? & ? & ? & ? & ? & ->). signed_bytes 56.
Qed.

Lemma Uint64_bytes b r : length b = 8%nat -> Uint64 (b ++ r) = Ret (be_val 0 b, r).
Proof.
  intros Hb. unfold Uint64. read_bytes Hb.
  destruct (list_8 b Hb) as (? & ? & ? & ? & ? & ? & ? & ? & ->).
  cbn [lookup list_lookup]. byte_facts. rewrite ?(wrapU_byte_shift 64) by lia.
  repeat or_chain_step. reflexivity.
Qed.

(** ** What a decoder makes of an encoder's image *)

Lemma sbe_val_be n z : n <> 0%nat -> sbe_val (be n z) = wrapS (8 * Z.of_nat n) z.
Proof.
  intros Hn. rewrite sbe_val_wrap by (destruct n; done). rewrite zlen_be, be_val_be.
  rewrite Z.mul_0_l, Z.add_0_l. apply wrapS_wrapU. lia.
Qed.

Lemma Uint8_be z r : Uint8 (be 1 z ++ r) = Ret (u8 z, r).
Proof. cbn. rewrite Uint8_bytes, Z_of_byte_of_Z, Z.shiftr_0_r. reflexivity. Qed.
Lemma Int16_be z r : Int16 (be 2 z ++ r) = Ret (i16 z, r).
Proof. rewrite Int16_bytes by apply length_be. rewrite sbe_val_be by done. reflexivity. Qed.
Lemma Int32_be z r : Int32 (be 4 z ++ r) = Ret (i32 z, r).
Proof. rewrite Int32_bytes by apply length_be. rewrite sbe_val_be by done. reflexivity. Qed.
Lemma Int64_be z r : Int64 (be 8 z ++ r) = Ret (i64 z, r).
Proof. rewrite Int64_bytes by apply length_be. rewrite sbe_val_be by done. reflexivity. Qed.
Lemma Uint64_be z r : Uint64 (be 8 z ++ r) = Ret (u64 z, r).
Proof. rewrite Uint64_bytes by apply length_be. rewrite be_val_be. reflexivity. Qed.
Lemma Uint32_be z r : Uint32 (be 4 z ++ r) = Ret (u32 z, r).
Proof.
  unfold Uint32, mbind, decoder_mbind. rewrite Int32_be. unfold mret, decoder_mret.
  rewrite wrapU_wrapS by lia. reflexivity.
Qed.

(** [Binary] on a length-prefixed image: fine below 2^15, a panic from 2^15
    to 2^16 - 1, because the length is read back as a signed [int16]. *)
Lemma Binary_image b r : zlen b < 2 ^ 15 -> Binary (str_image b ++ r) = Ret (b, r).
Proof.
  intros Hb. pose proof (zlen_nonneg b). unfold Binary, str_image. rewrite <- app_assoc.
  unfold mbind, decoder_mbind. rewrite Int16_be.
  rewrite wrapS_id; [|lia|unfold inS; lia].
  unfold liftD, make_bytes. rewrite (proj2 (Z.ltb_ge _ _)) by lia. cbn [mbind outcome_bind].
  destruct (Z.eqb_spec (zlen b) 0) as [E|E].
  - destruct b; [|unfold zlen in E; cbn in E; lia]. reflexivity.
  - unfold zlen in *. rewrite Nat2Z.id. apply ReadExpect_app; lia.
Qed.

Lemma Binary_image_panic b r : 2 ^ 15 <= zlen b < 2 ^ 16 -> Binary (str_image b ++ r) = Panic.
Proof.
  intros Hb. unfold Binary, str_image. rewrite <- app_assoc.
  unfold mbind, decoder_mbind. rewrite Int16_be.
  unfold liftD, make_bytes, wrapS. change (2 ^ (16 - 1)) with (2 ^ 15).
  replace (zlen b + 2 ^ 15) with ((zlen b - 2 ^ 15) + 1 * 2 ^ 16) by lia.
  rewrite Z_mod_plus_full, Z.mod_small by lia.
  rewrite (proj2 (Z.ltb_lt _ _)) by lia. reflexivity.
Qed.

Lemma DecString_image s r :
  zlen (bytes_of_string s) < 2 ^ 15 -> DecString (str_image (bytes_of_string s) ++ r) = Ret (s, r).
Proof.
  intros Hs. unfold DecString, mbind, decoder_mbind. rewrite Binary_image by done.
  unfold mret, decoder_mret. rewrite string_of_bytes_of_string. reflexivity.
Qed.

Lemma BinaryAll_all b : BinaryAll b = Ret (b, []).
Proof.
  unfold BinaryAll. destruct (decide _) as [H|H].
  - destruct b; [reflexivity|discriminate].
  - rewrite <- (app_nil_r b) at 2. apply ReadExpect_app; done.
Qed.

(** * The round-trip interface

    [RoundTrip get put ok]: [get] reads back what [put] appended, in front
    of any further bytes, for the values that satisfy [ok]. A decoder that
    is a sequence of reads runs through an image with [wire_bind]. *)

Class RoundTrip {A} (get : decoder A) (put : A -> list byte) (ok : A -> Prop) : Prop :=
  round_trip a r : ok a -> get (put a ++ r) = Ret (a, r).

Definition short (s : string) : Prop := zlen (bytes_of_string s) < 2 ^ 15.

#[export] Instance rt_Uint8 : RoundTrip Uint8 (be 1) (inU 8).
Proof. intros a r H. rewrite Uint8_be, wrapU_id by done. reflexivity. Qed.
#[export] Instance rt_Int32 : RoundTrip Int32 (be 4) (inS 32).
Proof. intros a r H. rewrite Int32_be, wrapS_id by (done || lia). reflexivity. Qed.
#[export] Instance rt_Uint32 : RoundTrip Uint32 (be 4) (inU 32).
Proof. intros a r H. rewrite Uint32_be, wrapU_id by done. reflexivity. Qed.
#[export] Instance rt_Int64 : RoundTrip Int64 (be 8) (inS 64).
Proof. intros a r H. rewrite Int64_be, wrapS_id by (done || lia). reflexivity. Qed.
#[export] Instance rt_Uint64 : RoundTrip Uint64 (be 8) (inU 64).
Proof. intros a r H. rewrite Uint64_be, wrapU_id by done. reflexivity. Qed.
#[export] Instance rt_DecString : RoundTrip DecString put_string short.
Proof. intros a r H. apply DecString_image, H. Qed.
#[export] Instance rt_Binary : RoundTrip Binary str_image (fun b => zlen b < 2 ^ 15).
Proof. intros a r H. apply Binary_image, H. Qed.
#[export] Instance rt_wrapD {A} msg get put ok :
  @RoundTrip A get put ok -> RoundTrip (wrapD msg get) put ok.
Proof. intros H a r Ha. unfold wrapD. rewrite round_trip by done. reflexivity. Qed.

Lemma wire_bind {A B} (get : decoder A) put ok `{!RoundTrip get put ok}
    (k : A -> decoder B) a r :
  ok a -> (get ≫= k) (put a ++ r) = k a r.
Proof. intros H. unfold mbind, decoder_mbind. rewrite round_trip by done. reflexivity. Qed.

Lemma wire_payload {B} msg (k : list byte -> decoder B) b :
  (wrapD msg BinaryAll ≫= k) b = k b [].
Proof. unfold mbind, decoder_mbind, wrapD. rewrite BinaryAll_all. reflexivity. Qed.

Lemma decoder_ret_bind {A B} (a : A) (k : A -> decoder B) r : (mret a ≫= k) r = k a r.
Proof. reflexivity. Qed.

Lemma decoder_bind_assoc {A B C} (m : decoder A) (f : A -> decoder B) (k : B -> decoder C) r :
  ((m ≫= f) ≫= k) r = (m ≫= fun a => f a ≫= k) r.
Proof. unfold mbind, decoder_mbind. destruct (m r) as [[]| |]; reflexivity. Qed.

(** Turn an encoder pipeline into its image, and run a decoder through it. *)
Ltac to_image :=
  unfold Bytes, NewEncoder; autorewrite with wire; rewrite <- ?app_assoc, ?app_nil_l.

Ltac wire_step :=
  lazymatch goal with
  | |- context [mbind ?k (wrapD ?m BinaryAll) ?b] => rewrite (wire_payload m k b)
  | |- context [mbind ?k (mret ?a) ?b] => rewrite (decoder_ret_bind a k b)
  | |- context [mbind ?k (mbind ?f ?m) ?b] => rewrite (decoder_bind_assoc m f k b)
  | |- context [mbind ?k ?g (_ ++ _)] => erewrite (wire_bind g _ _ k) by eauto with wire_ok
  end; cbv beta.

Create HintDb wire_ok.
#[export] Hint Extern 1 (inU 32 (u32 _)) => apply wrapU_range; lia : wire_ok.
#[export] Hint Extern 1 (inU 8 (u8 _)) => apply wrapU_range; lia : wire_ok.
