(* ===== verification/Frames.v ===== *)
(** The packets of pkg/lmproto: the fixed header flags and enumerations of
    common.go, one Module per packet file with its record, encoder and
    decoder, and the [Frame] sum they form. *)
From stdpp Require Import base list strings pretty.
From Stdlib Require Import ZArith Lia Strings.Byte.
From S2P Require Import Prelude Wire.

(** * common.go *)

(** [PacketType] is a [uint8]: a header nibble may hold a type with no name. *)
Abbreviation PacketType := Z.
Definition Reserved : PacketType := 0.
Definition CONNECT : PacketType := 1.
Definition CONNACK : PacketType := 2.
Definition SEND : PacketType := 3.
Definition SENDACK : PacketType := 4.
Definition RECV : PacketType := 5.
Definition RECVACK : PacketType := 6.
Definition PING : PacketType := 7.
Definition PONG : PacketType := 8.
Definition DISCONNECT : PacketType := 9.

Definition PacketType_String (p : PacketType) : string :=
  if p =? CONNECT then "CONNECT"
  else if p =? CONNACK then "CONNACK"
  else if p =? SEND then "SEND"
  else if p =? SENDACK then "SENDACK"
  else if p =? RECV then "RECV"
  else if p =? RECVACK then "RECVACK"
  else if p =? PING then "PING"
  else if p =? PONG then "PONG"
  else if p =? DISCONNECT then "DISCONNECT"
  else "UNKNOWN".

Abbreviation ReasonCode := Z.
Definition ReasonError : ReasonCode := 0.
Definition ReasonSuccess : ReasonCode := 1.
Definition ReasonAuthFail : ReasonCode := 2.
Definition ReasonSubscriberNotExist : ReasonCode := 3.
Definition ReasonInBlacklist : ReasonCode := 4.
Definition ReasonChannelNotExist : ReasonCode := 5.
Definition ReasonUserNotOnNode : ReasonCode := 6.
Definition ReasonSenderOffline : ReasonCode := 7.
Definition ReasonMsgKeyError : ReasonCode := 8.
Definition ReasonPayloadDecodeError : ReasonCode := 9.
Definition ReasonForwardSendPacketError : ReasonCode := 10.
Definition ReasonNotAllowSend : ReasonCode := 11.

Definition ReasonCode_Byte (r : ReasonCode) : Z := u8 r.

Abbreviation DeviceFlag := Z.
Definition APP : DeviceFlag := 0.
Definition WEB : DeviceFlag := 1.
Definition SYSTEM : DeviceFlag := 2.
Abbreviation DeviceLevel := Z.
Definition DeviceLevelSlave : DeviceLevel := 0.
Definition DeviceLevelMaster : DeviceLevel := 1.
Definition DeviceFlag_ToUint8 (r : DeviceFlag) : Z := u8 r.

Record Framer := mkFramer {
  f_PacketType : PacketType;
  f_RemainingLength : Z;
  f_NoPersist : bool;
  f_RedDot : bool;
  f_SyncOnce : bool;
  f_DUP : bool
}.

Definition encodeBool (b : bool) : Z := if b then 1 else 0.

(** [ToFixHeaderUint8(f)], with [f]'s packet type given: the types that embed
    [Framer] override [GetPacketType]. The shift of the [PacketType] is on
    [uint8]. *)
Definition ToFixHeaderUint8 (packetType : PacketType) (f : Framer) : Z :=
  let typeAndFlags :=
    Z.lor (Z.lor (Z.lor (Z.shiftl (encodeBool (f_DUP f)) 3)
                        (Z.shiftl (encodeBool (f_SyncOnce f)) 2))
                 (Z.shiftl (encodeBool (f_RedDot f)) 1))
          (encodeBool (f_NoPersist f)) in
  u8 (Z.lor (u8 (Z.shiftl packetType 4)) typeAndFlags).

Definition FramerFromUint8 (v : Z) : Framer := {|
  f_PacketType := Z.shiftr v 4;
  f_RemainingLength := 0;
  f_NoPersist := Z.land v 0x01 >? 0;
  f_RedDot := Z.land (Z.shiftr v 1) 0x01 >? 0;
  f_SyncOnce := Z.land (Z.shiftr v 2) 0x01 >? 0;
  f_DUP := Z.land (Z.shiftr v 3) 0x01 >? 0
|}.

Definition set_RemainingLength (f : Framer) (n : Z) : Framer :=
  mkFramer (f_PacketType f) n (f_NoPersist f) (f_RedDot f) (f_SyncOnce f) (f_DUP f).

Record Setting := mkSetting { Receipt : bool }.
Definition Setting_ToUint8 (s : Setting) : Z := u8 (Z.shiftl (encodeBool (Receipt s)) 7).
Definition SettingFromUint8 (v : Z) : Setting :=
  mkSetting (Z.land (Z.shiftr v 7) 0x01 >? 0).

(** An optional field: read when the version has it, the zero value otherwise. *)
Definition readIf {A} (c : bool) (zero : A) (m : decoder A) : decoder A :=
  if c then m else mret zero.
Definition writeIf (c : bool) (w : encoder -> encoder) (e : encoder) : encoder :=
  if c then w e else e.

(** * connect.go *)
Module Connect.
Record ConnectPacket := mkConnectPacket {
  framer : Framer;
  Version : Z;
  ClientKey : string;
  DeviceID : string;
  deviceFlag : DeviceFlag;
  ClientTimestamp : Z;
  UID : string;
  Token : string
}.

Definition decodeConnect (fr : Framer) : decoder ConnectPacket :=
  version ← wrapD "解码version失败！" Uint8;
  clientKey ← readIf (version >? 2) "" (wrapD "解码ClientKey失败！" DecString);
  flag ← wrapD "解码DeviceFlag失败！" Uint8;
  deviceID ← wrapD "解码DeviceId失败！" DecString;
  ts ← wrapD "解码ClientTimestamp失败！" Int64;
  uid ← wrapD "解码UID失败！" DecString;
  token ← wrapD "解码Token失败！" DecString;
  mret (mkConnectPacket fr version clientKey deviceID flag ts uid token).

Definition encodeConnect (p : ConnectPacket) : list byte :=
  Bytes (NewEncoder
    |> WriteUint8 (Version p)
    |> writeIf (Version p >? 2) (WriteString (ClientKey p))
    |> WriteUint8 (DeviceFlag_ToUint8 (deviceFlag p))
    |> WriteString (DeviceID p)
    |> WriteInt64 (ClientTimestamp p)
    |> WriteString (UID p)
    |> WriteString (Token p)).

(** Field widths, and strings short enough for the signed length prefix. *)
Record ok (p : ConnectPacket) : Prop := {
  ok_Version : inU 8 (Version p);
  ok_ClientKey : short (ClientKey p);
  ok_deviceFlag : inU 8 (deviceFlag p);
  ok_DeviceID : short (DeviceID p);
  ok_ClientTimestamp : inS 64 (ClientTimestamp p);
  ok_UID : short (UID p);
  ok_Token : short (Token p)
}.

(** What survives the wire: the header as decoded, and [ClientKey] only
    from version 3 on. *)
Definition on_wire (fr : Framer) (p : ConnectPacket) : ConnectPacket :=
  mkConnectPacket fr (Version p) (if Version p >? 2 then ClientKey p else "")
    (DeviceID p) (deviceFlag p) (ClientTimestamp p) (UID p) (Token p).
End Connect.

(** * connack.go *)
Module Connack.
Record ConnackPacket := mkConnackPacket {
  framer : Framer;
  ServerKey : string;
  Salt : string;
  TimeDiff : Z;
  reasonCode : ReasonCode
}.

Definition encodeConnack (p : ConnackPacket) (version : Z) : list byte :=
  Bytes (NewEncoder
    |> writeIf (version >? 2) (fun e => e |> WriteString (ServerKey p) |> WriteString (Salt p))
    |> WriteInt64 (TimeDiff p)
    |> WriteByte (ReasonCode_Byte (reasonCode p))).

Definition decodeConnack (fr : Framer) (version : Z) : decoder ConnackPacket :=
  serverKey ← readIf (version >? 2) "" (wrapD "解码ServerKey失败！" DecString);
  salt ← readIf (version >? 2) "" (wrapD "解码Salt失败！" DecString);
  timeDiff ← wrapD "解码TimeDiff失败！" Int64;
  code ← wrapD "解码ReasonCode失败！" Uint8;
  mret (mkConnackPacket fr serverKey salt timeDiff code).

Record ok (p : ConnackPacket) : Prop := {
  ok_ServerKey : short (ServerKey p);
  ok_Salt : short (Salt p);
  ok_TimeDiff : inS 64 (TimeDiff p);
  ok_reasonCode : inU 8 (reasonCode p)
}.

Definition on_wire (fr : Framer) (version : Z) (p : ConnackPacket) : ConnackPacket :=
  mkConnackPacket fr (if version >? 2 then ServerKey p else "")
    (if version >? 2 then Salt p else "") (TimeDiff p) (reasonCode p).
End Connack.

(** * send.go *)
Module Send.
Record SendPacket := mkSendPacket {
  framer : Framer;
  setting : Setting;
  MsgKey : string;
  ClientSeq : Z;
  ClientMsgNo : string;
  ChannelID : string;
  ChannelType : Z;
  Payload : list byte
}.

Definition SendPacket_VerityString (s : SendPacket) : string :=
  pretty (ClientSeq s) +:+ ClientMsgNo s +:+ ChannelID s +:+ pretty (ChannelType s)
    +:+ string_of_bytes (Payload s).

Definition decodeSend (fr : Framer) (version : Z) : decoder SendPacket :=
  receipt ← readIf (version >? 3) false
    (v ← wrapD "解码消息设置失败！" Uint8; mret (Z.land (Z.shiftr v 7) 0x01 >? 0));
  msgKey ← readIf (version >? 2) "" (wrapD "解码MsgKey失败！" DecString);
  clientSeq ← wrapD "解码ClientSeq失败！" Uint32;
  clientMsgNo ← readIf (version >? 1) "" (wrapD "解码ClientMsgNo失败！" DecString);
  channelID ← wrapD "解码ChannelId失败！" DecString;
  channelType ← wrapD "解码ChannelType失败！" Uint8;
  payload ← wrapD "解码payload失败！" BinaryAll;
  mret (mkSendPacket fr (mkSetting receipt) msgKey (u64 clientSeq) clientMsgNo
          channelID channelType payload).

Definition encodeSend (p : SendPacket) (version : Z) : list byte :=
  Bytes (NewEncoder
    |> writeIf (version >? 3) (WriteByte (u8 (Z.shiftl (encodeBool (Receipt (setting p))) 7)))
    |> writeIf (version >? 2) (WriteString (MsgKey p))
    |> WriteUint32 (u32 (ClientSeq p))
    |> writeIf (version >? 1) (WriteString (ClientMsgNo p))
    |> WriteString (ChannelID p)
    |> WriteUint8 (ChannelType p)
    |> WriteBytes (Payload p)).

Record ok (p : SendPacket) : Prop := {
  ok_MsgKey : short (MsgKey p);
  ok_ClientMsgNo : short (ClientMsgNo p);
  ok_ChannelID : short (ChannelID p);
  ok_ChannelType : inU 8 (ChannelType p)
}.

(** The client sequence number travels in its low 32 bits. *)
Definition on_wire (fr : Framer) (version : Z) (p : SendPacket) : SendPacket :=
  mkSendPacket fr (mkSetting ((version >? 3) && Receipt (setting p)))
    (if version >? 2 then MsgKey p else "") (u32 (ClientSeq p))
    (if version >? 1 then ClientMsgNo p else "") (ChannelID p) (ChannelType p) (Payload p).
End Send.

(** * sendack.go *)
Module Sendack.
Record SendackPacket := mkSendackPacket {
  framer : Framer;
  MessageID : Z;
  MessageSeq : Z;
  ClientSeq : Z;
  ClientMsgNo : string;
  reasonCode : ReasonCode
}.

Definition decodeSendack (fr : Framer) : decoder SendackPacket :=
  clientSeq ← wrapD "解码ClientSeq失败！" Uint32;
  messageID ← wrapD "解码MessageId失败！" Int64;
  messageSeq ← wrapD "解码MessageSeq失败！" Uint32;
  code ← wrapD "解码ChannelType失败！" Uint8;
  mret (mkSendackPacket fr messageID messageSeq (u64 clientSeq) "" code).

Definition encodeSendack (p : SendackPacket) : list byte :=
  Bytes (NewEncoder
    |> WriteUint32 (u32 (ClientSeq p))
    |> WriteInt64 (MessageID p)
    |> WriteUint32 (MessageSeq p)
    |> WriteUint8 (ReasonCode_Byte (reasonCode p))).

Record ok (p : SendackPacket) : Prop := {
  ok_MessageID : inS 64 (MessageID p);
  ok_MessageSeq : inU 32 (MessageSeq p);
  ok_reasonCode : inU 8 (reasonCode p)
}.

(** [ClientMsgNo] is not on the wire. *)
Definition on_wire (fr : Framer) (p : SendackPacket) : SendackPacket :=
  mkSendackPacket fr (MessageID p) (MessageSeq p) (u32 (ClientSeq p)) "" (reasonCode p).
End Sendack.

(** * recv.go *)
Module Recv.
Record RecvPacket := mkRecvPacket {
  framer : Framer;
  setting : Setting;
  MsgKey : string;
  MessageID : Z;
  MessageSeq : Z;
  ClientMsgNo : string;
  Timestamp : Z;
  FromUID : string;
  ChannelID : string;
  ChannelType : Z;
  Payload : list byte
}.

Definition RecvPacket_VerityString (r : RecvPacket) : string :=
  pretty (MessageID r) +:+ pretty (MessageSeq r) +:+ ClientMsgNo r +:+ pretty (Timestamp r)
    +:+ FromUID r +:+ ChannelID r +:+ pretty (ChannelType r)
    +:+ string_of_bytes (Payload r).

Definition decodeRecv (fr : Framer) (version : Z) : decoder RecvPacket :=
  receipt ← readIf (version >? 3) false
    (v ← wrapD "解码消息设置失败！" Uint8; mret (Z.land (Z.shiftr v 7) 0x01 >? 0));
  msgKey ← readIf (version >? 2) "" (wrapD "解码MsgKey失败！" DecString);
  messageID ← wrapD "解码MessageId失败！" Int64;
  messageSeq ← wrapD "解码MessageSeq失败！" Uint32;
  clientMsgNo ← readIf (version >? 1) "" (wrapD "解码ClientMsgNo失败！" DecString);
  timestamp ← wrapD "解码Timestamp失败！" Int32;
  channelID ← wrapD "解码ChannelId失败！" DecString;
  channelType ← wrapD "解码ChannelType失败！" Uint8;
  fromUID ← wrapD "解码FromUID失败！" DecString;
  payload ← wrapD "解码payload失败！" BinaryAll;
  mret (mkRecvPacket fr (mkSetting receipt) msgKey messageID messageSeq clientMsgNo
          timestamp fromUID channelID channelType payload).

Definition encodeRecv (p : RecvPacket) (version : Z) : list byte :=
  Bytes (NewEncoder
    |> writeIf (version >? 3) (WriteByte (u8 (Z.shiftl (encodeBool (Receipt (setting p))) 7)))
    |> writeIf (version >? 2) (WriteString (MsgKey p))
    |> WriteInt64 (MessageID p)
    |> WriteUint32 (MessageSeq p)
    |> writeIf (version >? 1) (WriteString (ClientMsgNo p))
    |> WriteInt32 (Timestamp p)
    |> WriteString (ChannelID p)
    |> WriteUint8 (ChannelType p)
    |> WriteString (FromUID p)
    |> WriteBytes (Payload p)).

Record ok (p : RecvPacket) : Prop := {
  ok_MsgKey : short (MsgKey p);
  ok_MessageID : inS 64 (MessageID p);
  ok_MessageSeq : inU 32 (MessageSeq p);
  ok_ClientMsgNo : short (ClientMsgNo p);
  ok_Timestamp : inS 32 (Timestamp p);
  ok_FromUID : short (FromUID p);
  ok_ChannelID : short (ChannelID p);
  ok_ChannelType : inU 8 (ChannelType p)
}.

Definition on_wire (fr : Framer) (version : Z) (p : RecvPacket) : RecvPacket :=
  mkRecvPacket fr (mkSetting ((version >? 3) && Receipt (setting p)))
    (if version >? 2 then MsgKey p else "") (MessageID p) (MessageSeq p)
    (if version >? 1 then ClientMsgNo p else "") (Timestamp p) (FromUID p)
    (ChannelID p) (ChannelType p) (Payload p).
End Recv.

(** * recvack.go *)
Module Recvack.
Record RecvackPacket := mkRecvackPacket {
  framer : Framer;
  MessageID : Z;
  MessageSeq : Z
}.

Definition decodeRecvack (fr : Framer) : decoder RecvackPacket :=
  messageID ← wrapD "解码MessageId失败！" Int64;
  messageSeq ← wrapD "解码MessageSeq失败！" Uint32;
  mret (mkRecvackPacket fr messageID messageSeq).

Definition encodeRecvack (p : RecvackPacket) : list byte :=
  Bytes (NewEncoder |> WriteInt64 (MessageID p) |> WriteUint32 (MessageSeq p)).

Record ok (p : RecvackPacket) : Prop := {
  ok_MessageID : inS 64 (MessageID p);
  ok_MessageSeq : inU 32 (MessageSeq p)
}.

Definition on_wire (fr : Framer) (p : RecvackPacket) : RecvackPacket :=
  mkRecvackPacket fr (MessageID p) (MessageSeq p).
End Recvack.

(** * disconnect.go *)
Module Disconnect.
Record DisconnectPacket := mkDisconnectPacket {
  framer : Framer;
  reasonCode : ReasonCode;
  Reason : string
}.

Definition decodeDisConnect (fr : Framer) : decoder DisconnectPacket :=
  code ← wrapD "解码reasonCode失败！" Uint8;
  reason ← wrapD "解码reason失败！" DecString;
  mret (mkDisconnectPacket fr code reason).

Definition encodeDisConnect (p : DisconnectPacket) : list byte :=
  Bytes (NewEncoder |> WriteUint8 (ReasonCode_Byte (reasonCode p)) |> WriteString (Reason p)).

Record ok (p : DisconnectPacket) : Prop := {
  ok_reasonCode : inU 8 (reasonCode p);
  ok_Reason : short (Reason p)
}.

Definition on_wire (fr : Framer) (p : DisconnectPacket) : DisconnectPacket :=
  mkDisconnectPacket fr (reasonCode p) (Reason p).
End Disconnect.

(** * Frames: the packet structs behind the [Frame] interface *)

Inductive Frame :=
  | FConnect (p : Connect.ConnectPacket)
  | FConnack (p : Connack.ConnackPacket)
  | FSend (p : Send.SendPacket)
  | FSendack (p : Sendack.SendackPacket)
  | FRecv (p : Recv.RecvPacket)
  | FRecvack (p : Recvack.RecvackPacket)
  | FPing
  | FPong
  | FDisconnect (p : Disconnect.DisconnectPacket).

Definition GetPacketType (f : Frame) : PacketType :=
  match f with
  | FConnect _ => CONNECT
  | FConnack _ => CONNACK
  | FSend _ => SEND
  | FSendack _ => SENDACK
  | FRecv _ => RECV
  | FRecvack _ => RECVACK
  | FPing => PING
  | FPong => PONG
  | FDisconnect _ => DISCONNECT
  end.

Definition zeroFramer : Framer := mkFramer 0 0 false false false false.

(** The embedded [Framer] of a packet; ping and pong embed none. *)
Definition frame_framer (f : Frame) : Framer :=
  match f with
  | FConnect p => Connect.framer p
  | FConnack p => Connack.framer p
  | FSend p => Send.framer p
  | FSendack p => Sendack.framer p
  | FRecv p => Recv.framer p
  | FRecvack p => Recvack.framer p
  | FDisconnect p => Disconnect.framer p
  | FPing | FPong => zeroFramer
  end.

Definition frame_ok (f : Frame) : Prop :=
  match f with
  | FConnect p => Connect.ok p
  | FConnack p => Connack.ok p
  | FSend p => Send.ok p
  | FSendack p => Sendack.ok p
  | FRecv p => Recv.ok p
  | FRecvack p => Recvack.ok p
  | FDisconnect p => Disconnect.ok p
  | FPing | FPong => True
  end.

(** The packet a peer that speaks [version] gets, with header [fr]. *)
Definition frame_on_wire (fr : Framer) (version : Z) (f : Frame) : Frame :=
  match f with
  | FConnect p => FConnect (Connect.on_wire fr p)
  | FConnack p => FConnack (Connack.on_wire fr version p)
  | FSend p => FSend (Send.on_wire fr version p)
  | FSendack p => FSendack (Sendack.on_wire fr p)
  | FRecv p => FRecv (Recv.on_wire fr version p)
  | FRecvack p => FRecvack (Recvack.on_wire fr p)
  | FDisconnect p => FDisconnect (Disconnect.on_wire fr p)
  | FPing => FPing
  | FPong => FPong
  end.

(** * Header flags *)

Lemma ToFixHeaderUint8_eq t f : inU 4 t ->
  ToFixHeaderUint8 t f =
    t * 16 + encodeBool (f_DUP f) * 8 + encodeBool (f_SyncOnce f) * 4
      + encodeBool (f_RedDot f) * 2 + encodeBool (f_NoPersist f).
Proof.
  intros Ht. unfold inU in Ht. change (2 ^ 4) with 16 in Ht.
  assert (t = 0 \/ t = 1 \/ t = 2 \/ t = 3 \/ t = 4 \/ t = 5 \/ t = 6 \/ t = 7 \/ t = 8 \/ t = 9
    \/ t = 10 \/ t = 11 \/ t = 12 \/ t = 13 \/ t = 14 \/ t = 15) as Hc by lia.
  unfold ToFixHeaderUint8, encodeBool.
  repeat (destruct Hc as [-> | Hc]); subst; destruct (f_DUP f), (f_SyncOnce f), (f_RedDot f), (f_NoPersist f);
    reflexivity.
Qed.

Lemma FramerFromUint8_ToFix t f : inU 4 t ->
  FramerFromUint8 (ToFixHeaderUint8 t f) =
    mkFramer t 0 (f_NoPersist f) (f_RedDot f) (f_SyncOnce f) (f_DUP f).
Proof.
  intros Ht. pose proof Ht as Ht'. unfold inU in Ht. change (2 ^ 4) with 16 in Ht.
  assert (t = 0 \/ t = 1 \/ t = 2 \/ t = 3 \/ t = 4 \/ t = 5 \/ t = 6 \/ t = 7 \/ t = 8 \/ t = 9
    \/ t = 10 \/ t = 11 \/ t = 12 \/ t = 13 \/ t = 14 \/ t = 15) as Hc by lia.
  rewrite ToFixHeaderUint8_eq by done. unfold encodeBool.
  repeat (destruct Hc as [-> | Hc]); subst; destruct (f_DUP f), (f_SyncOnce f), (f_RedDot f), (f_NoPersist f);
    reflexivity.
Qed.

(** Conversely a header byte is rebuilt from the framer read from it. *)
Lemma ToFix_FramerFromUint8 v : inU 8 v ->
  ToFixHeaderUint8 (f_PacketType (FramerFromUint8 v)) (FramerFromUint8 v) = v.
Proof.
  intros Hv. unfold inU in Hv. change (2 ^ 8) with 256 in Hv.
  rewrite <- (Z2Nat.id v) by lia.
  assert (Z.to_nat v < 256)%nat as Hn by lia. revert Hn. generalize (Z.to_nat v) as n.
  intros n Hn. do 256 (destruct n as [|n]; [reflexivity|]). lia.
Qed.

Lemma Setting_roundtrip s : SettingFromUint8 (Setting_ToUint8 s) = s.
Proof. destruct s as [[]]; reflexivity. Qed.

Lemma PacketType_nibble f : inU 4 (GetPacketType f).
Proof. destruct f; split; vm_compute; congruence. Qed.

(** * Round trips of the packet bodies *)

Lemma DeviceFlag_ToUint8_id r : inU 8 r -> DeviceFlag_ToUint8 r = r.
Proof. apply wrapU_id. Qed.
Lemma ReasonCode_Byte_id r : inU 8 r -> ReasonCode_Byte r = r.
Proof. apply wrapU_id. Qed.

#[export] Hint Resolve Connect.ok_Version Connect.ok_ClientKey Connect.ok_deviceFlag
  Connect.ok_DeviceID Connect.ok_ClientTimestamp Connect.ok_UID Connect.ok_Token
  Connack.ok_ServerKey Connack.ok_Salt Connack.ok_TimeDiff Connack.ok_reasonCode
  Send.ok_MsgKey Send.ok_ClientMsgNo Send.ok_ChannelID Send.ok_ChannelType
  Sendack.ok_MessageID Sendack.ok_MessageSeq Sendack.ok_reasonCode
  Recv.ok_MsgKey Recv.ok_MessageID Recv.ok_MessageSeq Recv.ok_ClientMsgNo Recv.ok_Timestamp
  Recv.ok_FromUID Recv.ok_ChannelID Recv.ok_ChannelType
  Recvack.ok_MessageID Recvack.ok_MessageSeq
  Disconnect.ok_reasonCode Disconnect.ok_Reason : wire_ok.
#[export] Hint Extern 5 (inU 8 _) => progress rewrite ?DeviceFlag_ToUint8_id, ?ReasonCode_Byte_id : wire_ok.

Ltac case_versions :=
  repeat match goal with
  | |- context [?v >? ?k] => destruct (v >? k) eqn:?
  end; cbn [writeIf readIf andb].

Lemma decode_encode_Connect fr p : Connect.ok p ->
  Connect.decodeConnect fr (Connect.encodeConnect p) = Ret (Connect.on_wire fr p, []).
Proof.
  intros Hok. rewrite <- (app_nil_r (Connect.encodeConnect p)).
  unfold Connect.encodeConnect, Connect.decodeConnect, Connect.on_wire.
  rewrite DeviceFlag_ToUint8_id by eauto with wire_ok.
  case_versions; to_image; wire_step; rewrite Heqb; cbn [readIf]; repeat wire_step; reflexivity.
Qed.

Lemma decode_encode_Connack fr v p : Connack.ok p ->
  Connack.decodeConnack fr v (Connack.encodeConnack p v) = Ret (Connack.on_wire fr v p, []).
Proof.
  intros Hok. rewrite <- (app_nil_r (Connack.encodeConnack p v)).
  unfold Connack.encodeConnack, Connack.decodeConnack, Connack.on_wire.
  rewrite ReasonCode_Byte_id by eauto with wire_ok.
  case_versions; to_image; repeat wire_step; reflexivity.
Qed.

Lemma receipt_bit b : (Z.land (Z.shiftr (u8 (Z.shiftl (encodeBool b) 7)) 7) 0x01 >? 0) = b.
Proof. destruct b; reflexivity. Qed.

Lemma u64_u32 z : u64 (u32 z) = u32 z.
Proof. apply wrapU_id. pose proof (wrapU_range 32 z). unfold inU in *. lia. Qed.

Lemma decode_encode_Send fr v p : Send.ok p ->
  Send.decodeSend fr v (Send.encodeSend p v) = Ret (Send.on_wire fr v p, []).
Proof.
  intros Hok. unfold Send.encodeSend, Send.decodeSend, Send.on_wire.
  case_versions; to_image; repeat wire_step;
    rewrite ?receipt_bit, u64_u32; reflexivity.
Qed.

Lemma decode_encode_Sendack fr p : Sendack.ok p ->
  Sendack.decodeSendack fr (Sendack.encodeSendack p) = Ret (Sendack.on_wire fr p, []).
Proof.
  intros Hok. rewrite <- (app_nil_r (Sendack.encodeSendack p)).
  unfold Sendack.encodeSendack, Sendack.decodeSendack, Sendack.on_wire.
  rewrite ReasonCode_Byte_id by eauto with wire_ok.
  to_image; repeat wire_step. rewrite u64_u32. reflexivity.
Qed.

Lemma decode_encode_Recv fr v p : Recv.ok p ->
  Recv.decodeRecv fr v (Recv.encodeRecv p v) = Ret (Recv.on_wire fr v p, []).
Proof.
  intros Hok. unfold Recv.encodeRecv, Recv.decodeRecv, Recv.on_wire.
  case_versions; to_image; repeat wire_step;
    rewrite ?receipt_bit; reflexivity.
Qed.

Lemma decode_encode_Recvack fr p : Recvack.ok p ->
  Recvack.decodeRecvack fr (Recvack.encodeRecvack p) = Ret (Recvack.on_wire fr p, []).
Proof.
  intros Hok. rewrite <- (app_nil_r (Recvack.encodeRecvack p)).
  unfold Recvack.encodeRecvack, Recvack.decodeRecvack, Recvack.on_wire.
  to_image; repeat wire_step. reflexivity.
Qed.

Lemma decode_encode_Disconnect fr p : Disconnect.ok p ->
  Disconnect.decodeDisConnect fr (Disconnect.encodeDisConnect p) = Ret (Disconnect.on_wire fr p, []).
Proof.
  intros Hok. rewrite <- (app_nil_r (Disconnect.encodeDisConnect p)).
  unfold Disconnect.encodeDisConnect, Disconnect.decodeDisConnect, Disconnect.on_wire.
  rewrite ReasonCode_Byte_id by eauto with wire_ok.
  to_image; repeat wire_step. reflexivity.
Qed.
