(* ===== verification/Ids.v ===== *)
(** Hashes and channel ids: [HashCrc32] and [GetSlotNum] (pkg/util/hash.go,
    pkg/util/bitmap.go), and the ids of conversations between two users
    (internal/lim/common.go). *)
From stdpp Require Import base list strings pretty.
From Stdlib Require Import ZArith Lia Ascii Strings.Byte.
From S2P Require Import Prelude Keys Wire Frames.

(** [crc32.ChecksumIEEE]: the reflected polynomial, bit by bit. *)
Definition crc_bit (c : Z) : Z :=
  if Z.odd c then Z.lxor (Z.shiftr c 1) 0xEDB88320 else Z.shiftr c 1.
Definition crc_byte (c : Z) (b : byte) : Z := Nat.iter 8 crc_bit (Z.lxor c (Z_of_byte b)).
Definition ChecksumIEEE (l : list byte) : Z := Z.lxor (foldl crc_byte 0xFFFFFFFF l) 0xFFFFFFFF.

Definition HashCrc32 (str : string) : Z := ChecksumIEEE (bytes_of_string str).

(** The slot of a key; no slots is a division by zero. *)
Definition GetSlotNum (slotCount : Z) (v : string) : outcome Z :=
  if u32 slotCount =? 0 then Panic else Ret (HashCrc32 v mod u32 slotCount).

Definition ChannelTypePerson : Z := 1.
Definition ChannelTypeGroup : Z := 2.

Definition at_sign : ascii := "@".
Definition Sprintf_at (a b : string) : string := a +:+ String at_sign b.

Definition GetFakeChannelIDWith (fromUID toUID : string) : string :=
  if HashCrc32 fromUID >? HashCrc32 toUID then Sprintf_at fromUID toUID else Sprintf_at toUID fromUID.

Definition GetFakeChannelID (p : Recv.RecvPacket) : string :=
  if negb (Recv.ChannelType p =? ChannelTypePerson) then Recv.ChannelID p
  else GetFakeChannelIDWith (Recv.FromUID p) (Recv.ChannelID p).

Definition GetOtherSideUIDByFakeChannelID (uid fakeChannelID : string) : string :=
  match Split fakeChannelID at_sign with
  | [a; b] => if bool_decide (uid = a) then b else a
  | _ => EmptyString
  end.

(** [Options.IsFakeChannel]. *)
Definition IsFakeChannel (channelID : string) : bool := Contains channelID at_sign.

Example crc_check : HashCrc32 "123456789" = 0xCBF43926.
Proof. vm_compute. reflexivity. Qed.

Lemma fake_cases a b : GetFakeChannelIDWith a b = Sprintf_at a b \/ GetFakeChannelIDWith a b = Sprintf_at b a.
Proof. unfold GetFakeChannelIDWith. destruct (_ >? _); auto. Qed.

Lemma fake_is_fake a b : IsFakeChannel (GetFakeChannelIDWith a b) = true.
Proof.
  unfold IsFakeChannel. destruct (fake_cases a b) as [->| ->]; unfold Sprintf_at; rewrite Contains_app; cbn;
    apply orb_true_r.
Qed.

Lemma fake_split a b : avoids at_sign a -> avoids at_sign b ->
  Split (GetFakeChannelIDWith a b) at_sign = [a; b] \/ Split (GetFakeChannelIDWith a b) at_sign = [b; a].
Proof.
  intros Ha Hb. destruct (fake_cases a b) as [->| ->]; unfold Sprintf_at; [left|right];
    rewrite Split_app, Split_avoids by done; reflexivity.
Qed.

Lemma fake_symmetric a b : HashCrc32 a <> HashCrc32 b -> GetFakeChannelIDWith a b = GetFakeChannelIDWith b a.
Proof.
  intros Hne. unfold GetFakeChannelIDWith. rewrite !Z.gtb_ltb.
  destruct (Z.ltb_spec (HashCrc32 b) (HashCrc32 a)), (Z.ltb_spec (HashCrc32 a) (HashCrc32 b)); lia || done.
Qed.

(** The channel of two users is one channel for both of them and tells
    who the other side is, provided the users' names have no @ in them and
    their hashes differ; different pairs of users have different
    channels, whatever the hashes. *)
Theorem fake_channel_of_pair a b : avoids at_sign a -> avoids at_sign b ->
  (HashCrc32 a <> HashCrc32 b -> GetFakeChannelIDWith a b = GetFakeChannelIDWith b a) /\
  GetOtherSideUIDByFakeChannelID a (GetFakeChannelIDWith a b) = b /\
  GetOtherSideUIDByFakeChannelID b (GetFakeChannelIDWith a b) = a /\
  (forall c d, avoids at_sign c -> avoids at_sign d -> GetFakeChannelIDWith a b = GetFakeChannelIDWith c d ->
     [a; b] ≡ₚ [c; d]).
Proof.
  intros Ha Hb. split; [apply fake_symmetric|]. unfold GetOtherSideUIDByFakeChannelID.
  split; [|split].
  - destruct (fake_split a b Ha Hb) as [->| ->]; case_bool_decide; congruence.
  - destruct (fake_split a b Ha Hb) as [->| ->]; case_bool_decide; congruence.
  - intros c d Hc Hd E. destruct (fake_split a b Ha Hb) as [E1|E1], (fake_split c d Hc Hd) as [E2|E2];
      rewrite E, E2 in E1; injection E1 as -> ->; solve [done|apply perm_swap].
Qed.

(** Two users whose names have the same hash have two channels, one for
    each direction, so that neither sees the other's messages in his own. *)
Theorem fake_channel_collision : exists a b, a <> b /\ avoids at_sign a /\ avoids at_sign b /\
  GetFakeChannelIDWith a b <> GetFakeChannelIDWith b a.
Proof.
  exists "plumless", "buckeroo". split; [discriminate|]. split; [|split];
    [apply Contains_avoids; reflexivity..|]. vm_compute. discriminate.
Qed.

Lemma fake_channel_of_pair_witness : avoids at_sign "alice" /\ avoids at_sign "bob" /\
  GetFakeChannelIDWith "alice" "bob" = GetFakeChannelIDWith "bob" "alice" /\
  GetOtherSideUIDByFakeChannelID "alice" (GetFakeChannelIDWith "alice" "bob") = "bob".
Proof.
  assert (avoids at_sign "alice" /\ avoids at_sign "bob") as [Ha Hb] by (split; apply Contains_avoids; reflexivity).
  destruct (fake_channel_of_pair "alice" "bob" Ha Hb) as (Hs & Ho & _).
  split; [exact Ha|]. split; [exact Hb|]. split; [|exact Ho]. apply Hs. vm_compute. discriminate.
Defined.
