(* ===== verification/Protocol.v ===== *)
(** pkg/lmproto/protocol.go: the fixed header with its variable-length
    remaining length, [EncodePacket], and the two decoders, [DecodePacket] on
    a buffer and [DecodePacketWithConn] on a stream. *)
From stdpp Require Import base list strings.
From Stdlib Require Import ZArith Lia Strings.Byte.
From S2P Require Import Prelude Wire Frames.

Definition LatestVersion : Z := 4.
Definition MaxRemaingLength : Z := 1024 * 1024.

(** * Remaining length *)

(** [encodeVariable]: the [uint32] is divided by 128 in each round, so the
    fuel never runs out ([encodeVariable_total]). *)
Definition encodeVariable (size : Z) : list byte :=
  default [] (variable_loop variable_fuel size []).

(** [decodeLength]: at most four rounds (multiplier 0, 7, 14, 21); reading past
    the end of [data] panics. The second component counts [offset + 1]. *)
Fixpoint decodeLength_loop (fuel : nat) (rLength multiplier : Z) (offset : nat)
    (data : list byte) : outcome (Z * Z) :=
  if multiplier <? 27 then
    match fuel, data !! offset with
    | S fuel', Some b =>
        let digit := Z_of_byte b in
        let rLength' := Z.lor rLength (u32 (Z.shiftl (Z.land digit 127) multiplier)) in
        if Z.land digit 128 =? 0 then Ret (rLength', u32 (Z.of_nat offset + 1))
        else decodeLength_loop fuel' rLength' (multiplier + 7) (S offset) data
    | _, _ => Panic
    end
  else Ret (rLength, u32 (Z.of_nat offset + 1)).
Definition decodeLength (data : list byte) : outcome (Z * Z) :=
  decodeLength_loop 4 0 0 0 data.

(** [decodeLengthWithConn]: the error of [io.ReadFull] is ignored, so past the
    end of the stream the one-byte buffer keeps its last value. *)
Fixpoint decodeLengthWithConn_loop (fuel : nat) (rLength multiplier b : Z)
    (r : list byte) : Z * list byte :=
  match fuel with
  | O => (rLength, r)
  | S fuel' =>
      let '(digit, r') := match r with [] => (b, []) | x :: r' => (Z_of_byte x, r') end in
      let rLength' := Z.lor rLength (u32 (Z.shiftl (Z.land digit 127) multiplier)) in
      if Z.land digit 128 =? 0 then (rLength', r')
      else decodeLengthWithConn_loop fuel' rLength' (multiplier + 7) digit r'
  end.
Definition decodeLengthWithConn (r : list byte) : Z * list byte :=
  decodeLengthWithConn_loop 4 0 0 0 r.

(** * Framer *)

Definition isPingPong (t : PacketType) : bool := (t =? PING) || (t =? PONG).

Definition encodeFramer (f : Frame) (remainingLength : Z) : list byte :=
  if isPingPong (GetPacketType f) then [byte_of_Z (u8 (Z.shiftl (GetPacketType f) 4))]
  else byte_of_Z (ToFixHeaderUint8 (GetPacketType f) (frame_framer f))
         :: encodeVariable remainingLength.

Definition decodeFramer (data : list byte) : outcome (Framer * Z) :=
  match data with
  | [] => Panic
  | typeAndFlags :: rest =>
      let p := FramerFromUint8 (Z_of_byte typeAndFlags) in
      if negb (isPingPong (f_PacketType p)) then
        '(n, k) ← decodeLength rest;
        Ret (set_RemainingLength p n, k)
      else Ret (p, 0)
  end.

(** [io.ReadFull] into a buffer of [n] bytes. *)
Definition ReadFull (n : nat) : decoder (list byte) := fun r =>
  if decide (n = 0%nat) then Ret ([], r)
  else if decide (length r = 0%nat) then Err EOF
  else if decide (length r < n)%nat then Err ErrUnexpectedEOF
  else Ret (take n r, drop n r).

Definition decodeFramerWithConn : decoder Framer :=
  b ← ReadFull 1;
  let p := FramerFromUint8 (byte_at b 0) in
  if negb (isPingPong (f_PacketType p)) then
    (fun r => let '(n, r') := decodeLengthWithConn r in Ret (set_RemainingLength p n, r'))
      : decoder Framer
  else mret p.

(** * Dispatch on the packet type *)

Definition packetDecodeMap (t : PacketType) (fr : Framer) (version : Z) : option (decoder Frame) :=
  if t =? CONNECT then Some (FConnect <$> Connect.decodeConnect fr)
  else if t =? CONNACK then Some (FConnack <$> Connack.decodeConnack fr version)
  else if t =? SEND then Some (FSend <$> Send.decodeSend fr version)
  else if t =? SENDACK then Some (FSendack <$> Sendack.decodeSendack fr)
  else if t =? RECV then Some (FRecv <$> Recv.decodeRecv fr version)
  else if t =? RECVACK then Some (FRecvack <$> Recvack.decodeRecvack fr)
  else if t =? DISCONNECT then Some (FDisconnect <$> Disconnect.decodeDisConnect fr)
  else None.

(** The encoder registered for the dynamic type of the frame. *)
Definition packetEncodeMap (f : Frame) (version : Z) : option (list byte) :=
  match f with
  | FConnect p => Some (Connect.encodeConnect p)
  | FConnack p => Some (Connack.encodeConnack p version)
  | FSend p => Some (Send.encodeSend p version)
  | FSendack p => Some (Sendack.encodeSendack p)
  | FRecv p => Some (Recv.encodeRecv p version)
  | FRecvack p => Some (Recvack.encodeRecvack p)
  | FDisconnect p => Some (Disconnect.encodeDisConnect p)
  | FPing | FPong => None
  end.

Definition unsupported (t : PacketType) : error :=
  ErrMsg ("不支持对[" +:+ PacketType_String t +:+ "]包的解码！").
Definition decode_failed (t : PacketType) : string :=
  "解码包[" +:+ PacketType_String t +:+ "]失败！".

(** * EncodePacket *)

Definition EncodePacket (f : Frame) (version : Z) : outcome (list byte) :=
  if negb (GetPacketType f =? PING) && negb (GetPacketType f =? PONG) then
    match packetEncodeMap f version with
    | None => Err (ErrMsg ("不支持对[" +:+ PacketType_String (GetPacketType f) +:+ "]包的编码！"))
    | Some bodyBytes =>
        let headerBytes := encodeFramer f (u32 (zlen bodyBytes)) in
        Ret (Bytes (NewEncoder |> WriteBytes headerBytes |> WriteBytes bodyBytes))
    end
  else Ret (Bytes (NewEncoder |> WriteBytes (encodeFramer f 0))).

(** * DecodePacket

    [(frame, n, err)]: [Ret (None, 0)] is the [nil, 0, nil] of a packet that
    is not complete yet. *)

Definition DecodePacket (data : list byte) (version : Z) : outcome (option Frame * Z) :=
  '(framer, remainingLengthLength) ← decodeFramer data;
  if f_PacketType framer =? PING then Ret (Some FPing, 1)
  else if f_PacketType framer =? PONG then Ret (Some FPong, 1)
  else if f_RemainingLength framer >? MaxRemaingLength then Err (ErrMsg "消息超出最大限制")
  else
    let msgLen := f_RemainingLength framer + 1 + remainingLengthLength in
    if zlen data <? msgLen then Ret (None, 0)
    else
      let body := drop (Z.to_nat (1 + remainingLengthLength)) (take (Z.to_nat msgLen) data) in
      match packetDecodeMap (f_PacketType framer) framer version with
      | None => Err (unsupported (f_PacketType framer))
      | Some decodeFunc =>
          '(frame, _) ← wrap (decode_failed (f_PacketType framer)) (decodeFunc body);
          Ret (Some frame, 1 + remainingLengthLength + f_RemainingLength framer)
      end.

(** * DecodePacketWithConn

    The unread part of the connection is threaded; an oversized packet
    panics. *)

Definition DecodePacketWithConn (version : Z) : decoder Frame :=
  framer ← decodeFramerWithConn;
  if f_PacketType framer =? PING then mret FPing
  else if f_PacketType framer =? PONG then mret FPong
  else if f_RemainingLength framer >? MaxRemaingLength then liftD Panic
  else
    body ← ReadFull (Z.to_nat (f_RemainingLength framer));
    match packetDecodeMap (f_PacketType framer) framer version with
    | None => failD (unsupported (f_PacketType framer))
    | Some decodeFunc =>
        '(frame, _) ← liftD (wrap (decode_failed (f_PacketType framer)) (decodeFunc body));
        mret frame
    end.

(** * The remaining-length code *)

Fixpoint varint (fuel : nat) (v : Z) : list byte :=
  match fuel with
  | O => []
  | S fuel' =>
      if v >? 0 then
        byte_of_Z (v mod 128 + if v / 128 >? 0 then 128 else 0) :: varint fuel' (v / 128)
      else []
  end.

Lemma lor_bit7 x : 0 <= x < 128 -> Z.lor x 0x80 = x + 128.
Proof. intros. rewrite Z.lor_comm. change 0x80 with (1 * 2 ^ 7). rewrite lor_low by lia. lia. Qed.

Lemma variable_loop_varint fuel v acc : 0 <= v < 128 ^ Z.of_nat fuel ->
  variable_loop fuel v acc = Some (acc ++ varint fuel v).
Proof.
  revert v acc. induction fuel as [|fuel IH]; intros v acc Hv; cbn [variable_loop varint].
  - change (128 ^ Z.of_nat 0) with 1 in Hv.
    replace (v >? 0) with false by (symmetry; lia). rewrite app_nil_r. reflexivity.
  - destruct (v >? 0) eqn:E; [|rewrite app_nil_r; reflexivity].
    change 0x80 with 128. rewrite lor_bit7 by (apply Z.mod_pos_bound; lia).
    replace (Z.of_nat (S fuel)) with (Z.of_nat fuel + 1) in Hv by lia.
    rewrite Z.pow_add_r in Hv by lia.
    rewrite IH by (split; [apply Z.div_pos; lia|apply Z.div_lt_upper_bound; lia]).
    rewrite <- app_assoc. destruct (v / 128 >? 0); cbn; rewrite ?Z.add_0_r; reflexivity.
Qed.

(** Fuel: ten rounds cover every value of a 64-bit [int]. *)
Lemma variable_loop_total v : 0 <= v < 2 ^ 63 -> is_Some (variable_loop variable_fuel v []).
Proof.
  intros Hv. unfold variable_fuel. rewrite variable_loop_varint; [eauto|].
  change (128 ^ Z.of_nat 10) with (2 ^ 70). lia.
Qed.

Lemma encodeVariable_varint v : 0 <= v < 2 ^ 32 -> encodeVariable v = varint 10 v.
Proof.
  intros Hv. unfold encodeVariable, variable_fuel.
  rewrite variable_loop_varint; [reflexivity|]. change (128 ^ Z.of_nat 10) with (2 ^ 70). lia.
Qed.

Lemma varint_fuel f g v : 0 <= v < 128 ^ Z.of_nat f -> (f <= g)%nat -> varint g v = varint f v.
Proof.
  revert g v. induction f as [|f IH]; intros g v Hv Hg.
  - change (128 ^ Z.of_nat 0) with 1 in Hv. assert (v = 0) as -> by lia. destruct g; reflexivity.
  - destruct g as [|g]; [lia|]. cbn [varint]. destruct (v >? 0) eqn:E; [|reflexivity].
    f_equal. apply IH; [|lia].
    replace (Z.of_nat (S f)) with (Z.of_nat f + 1) in Hv by lia.
    rewrite Z.pow_add_r in Hv by lia.
    split; [apply Z.div_pos; lia|apply Z.div_lt_upper_bound; lia].
Qed.

Lemma land_127 b : Z.land (Z_of_byte b) 127 = Z_of_byte b mod 128.
Proof. destruct b; reflexivity. Qed.
Lemma land_128 b : (Z.land (Z_of_byte b) 128 =? 0) = (Z_of_byte b <? 128).
Proof. destruct b; reflexivity. Qed.

(** The digit of one round: its low bits and its continuation bit. *)
Lemma digit_low v (c : bool) : Z.land (Z_of_byte (byte_of_Z (v mod 128 + if c then 128 else 0))) 127 = v mod 128.
Proof.
  rewrite land_127, Z_of_byte_of_Z. pose proof (Z.mod_pos_bound v 128).
  rewrite (Z.mod_small (_ + _)) by (destruct c; lia).
  destruct c; rewrite ?Z.add_0_r, ?Zmod_mod; [|reflexivity].
  rewrite <- (Z.mul_1_l 128) at 2. rewrite Z_mod_plus_full. apply Zmod_mod.
Qed.
Lemma digit_more v (c : bool) :
  (Z.land (Z_of_byte (byte_of_Z (v mod 128 + if c then 128 else 0))) 128 =? 0) = negb c.
Proof.
  rewrite land_128, Z_of_byte_of_Z. pose proof (Z.mod_pos_bound v 128).
  rewrite Z.mod_small by (destruct c; lia). destruct c; cbn; lia.
Qed.

Lemma lor_digit r x m : 0 <= m <= 21 -> 0 <= r < 2 ^ m -> 0 <= x < 128 ->
  Z.lor r (u32 (Z.shiftl x m)) = r + x * 2 ^ m /\ r + x * 2 ^ m < 2 ^ (m + 7).
Proof.
  intros Hm Hr Hx. rewrite Z.shiftl_mul_pow2 by lia.
  assert (2 ^ m <= 2 ^ 21) by (apply Z.pow_le_mono_r; lia).
  rewrite wrapU_id by (unfold inU; nia).
  rewrite Z.lor_comm, lor_low by lia. rewrite Z.pow_add_r by lia. split; [lia|nia].
Qed.

(** One round of any of the length decoders on the code of [v]: the digit it
    reads, whether it goes on, and the accumulator it is left with. *)
Lemma varint_step f v rLen off :
  (off + S f = 4)%nat -> 0 < v < 128 ^ Z.of_nat (S f) -> 0 <= rLen < 2 ^ (7 * Z.of_nat off) ->
  exists d rLen',
    varint (S f) v = d :: varint f (v / 128) /\
    (Z.land (Z_of_byte d) 128 =? 0) = (v / 128 =? 0) /\
    Z.lor rLen (u32 (Z.shiftl (Z.land (Z_of_byte d) 127) (7 * Z.of_nat off))) = rLen' /\
    0 <= v / 128 < 128 ^ Z.of_nat f /\
    0 <= rLen' < 2 ^ (7 * Z.of_nat (S off)) /\
    rLen' + v / 128 * 2 ^ (7 * Z.of_nat (S off)) = rLen + v * 2 ^ (7 * Z.of_nat off).
Proof.
  intros Hoff Hv Hr. cbn [varint]. replace (v >? 0) with true by lia.
  eexists _, _. split; [reflexivity|]. rewrite digit_low, digit_more.
  pose proof (Z.mod_pos_bound v 128 ltac:(lia)) as Hx.
  pose proof (Z.div_mod v 128 ltac:(lia)) as Hdm. pose proof (Z.div_pos v 128 ltac:(lia)) as Hp.
  assert (v / 128 < 128 ^ Z.of_nat f).
  { apply Z.div_lt_upper_bound; [lia|]. replace (Z.of_nat (S f)) with (Z.of_nat f + 1) in Hv by lia.
    rewrite Z.pow_add_r in Hv by lia. lia. }
  split; [lia|]. split; [reflexivity|].
  destruct (lor_digit rLen (v mod 128) (7 * Z.of_nat off)) as [-> Hlt]; [lia..|].
  replace (7 * Z.of_nat (S off)) with (7 * Z.of_nat off + 7) by lia.
  split; [lia|]. split; [nia|]. rewrite Z.pow_add_r by lia. change (2 ^ 7) with 128. nia.
Qed.

Lemma varint_zero f : varint f 0 = [].
Proof. destruct f; reflexivity. Qed.

Lemma drop_cons_lookup {A} (l : list A) n x r : drop n l = x :: r -> l !! n = Some x /\ drop (S n) l = r.
Proof.
  intros H. split.
  - rewrite <- (Nat.add_0_r n), <- lookup_drop, H. reflexivity.
  - rewrite <- Nat.add_1_r, <- drop_drop, H. reflexivity.
Qed.

Lemma decodeLength_loop_varint f v rLen off data r :
  (off + f = 4)%nat -> 0 < v < 128 ^ Z.of_nat f -> 0 <= rLen < 2 ^ (7 * Z.of_nat off) ->
  drop off data = varint f v ++ r ->
  decodeLength_loop f rLen (7 * Z.of_nat off) off data =
    Ret (rLen + v * 2 ^ (7 * Z.of_nat off), Z.of_nat off + zlen (varint f v)).
Proof.
  revert v rLen off. induction f as [|f IH]; intros v rLen off Hoff Hv Hr Hd.
  { change (128 ^ Z.of_nat 0) with 1 in Hv. lia. }
  destruct (varint_step f v rLen off) as (d & rLen' & Hvar & Hmore & Hlor & Hv' & Hr' & Hval); [done..|].
  rewrite Hvar in *. apply drop_cons_lookup in Hd as [Hd0 Hd].
  cbn [decodeLength_loop]. rewrite (proj2 (Z.ltb_lt _ _)) by lia. rewrite Hd0. cbv zeta.
  rewrite Hlor, Hmore. autorewrite with go. destruct (Z.eqb_spec (v / 128) 0) as [Hz|Hz].
  - rewrite Hz, varint_zero in *. rewrite wrapU_id by (unfold inU; lia). rewrite zlen_nil. do 2 f_equal; lia.
  - replace (7 * Z.of_nat off + 7) with (7 * Z.of_nat (S off)) by lia.
    rewrite (IH (v / 128)) by (done || lia). do 2 f_equal; lia.
Qed.

(** Four digits are enough below 2^28. *)
Lemma encodeVariable_4 v : 0 < v < 2 ^ 28 -> encodeVariable v = varint 4 v.
Proof.
  intros Hv. rewrite encodeVariable_varint by lia. apply varint_fuel; [|lia].
  change (128 ^ Z.of_nat 4) with (2 ^ 28). lia.
Qed.

Lemma decodeLength_encodeVariable v r : 0 < v < 2 ^ 28 ->
  decodeLength (encodeVariable v ++ r) = Ret (v, zlen (encodeVariable v)).
Proof.
  intros Hv. rewrite encodeVariable_4 by done.
  unfold decodeLength. change 0 with (7 * Z.of_nat 0) at 2.
  rewrite (decodeLength_loop_varint 4 v 0 0 _ r); [f_equal; f_equal; lia|done| |done|done].
  change (128 ^ Z.of_nat 4) with (2 ^ 28). lia.
Qed.

Lemma decodeLengthWithConn_loop_varint f v rLen off b r :
  (off + f = 4)%nat -> 0 < v < 128 ^ Z.of_nat f -> 0 <= rLen < 2 ^ (7 * Z.of_nat off) ->
  decodeLengthWithConn_loop f rLen (7 * Z.of_nat off) b (varint f v ++ r) =
    (rLen + v * 2 ^ (7 * Z.of_nat off), r).
Proof.
  revert v rLen off b. induction f as [|f IH]; intros v rLen off b Hoff Hv Hr.
  { change (128 ^ Z.of_nat 0) with 1 in Hv. lia. }
  destruct (varint_step f v rLen off) as (d & rLen' & -> & Hmore & Hlor & Hv' & Hr' & Hval); [done..|].
  cbn [app decodeLengthWithConn_loop]. rewrite Hlor, Hmore.
  destruct (Z.eqb_spec (v / 128) 0) as [Hz|Hz].
  - rewrite Hz, varint_zero in *. f_equal. lia.
  - replace (7 * Z.of_nat off + 7) with (7 * Z.of_nat (S off)) by lia.
    rewrite (IH (v / 128)) by (done || lia). f_equal. lia.
Qed.

Lemma decodeLengthWithConn_encodeVariable v r : 0 < v < 2 ^ 28 ->
  decodeLengthWithConn (encodeVariable v ++ r) = (v, r).
Proof.
  intros Hv. rewrite encodeVariable_4 by done.
  unfold decodeLengthWithConn. change 0 with (7 * Z.of_nat 0) at 2.
  rewrite (decodeLengthWithConn_loop_varint 4 v 0 0); [f_equal; lia|done| |done].
  change (128 ^ Z.of_nat 4) with (2 ^ 28). lia.
Qed.

(** * Round trip of whole packets *)

(** The body of a frame (empty for ping and pong). *)
Definition body (f : Frame) (version : Z) : list byte :=
  match packetEncodeMap f version with Some b => b | None => [] end.

(** The header a peer decodes in front of the body of [f]. *)
Definition wire_framer (f : Frame) (version : Z) : Framer :=
  let fr := frame_framer f in
  mkFramer (GetPacketType f) (zlen (body f version)) (f_NoPersist fr) (f_RedDot fr)
    (f_SyncOnce fr) (f_DUP fr).

Lemma packetDecode_encode f version fr : frame_ok f -> isPingPong (GetPacketType f) = false ->
  exists d, packetDecodeMap (GetPacketType f) fr version = Some d /\
    d (body f version) = Ret (frame_on_wire fr version f, []).
Proof.
  intros Hok Hp. destruct f; try discriminate Hp; cbn [frame_ok] in Hok; eexists; (split; [reflexivity|]);
    unfold body; cbn [packetEncodeMap];
    unfold fmap, decoder_fmap, mbind, decoder_mbind;
    first [ rewrite decode_encode_Connect by done | rewrite decode_encode_Connack by done
          | rewrite decode_encode_Send by done | rewrite decode_encode_Sendack by done
          | rewrite decode_encode_Recv by done | rewrite decode_encode_Recvack by done
          | rewrite decode_encode_Disconnect by done ]; reflexivity.
Qed.

(** No packet body is empty, so the remaining length is never zero and
    [encodeVariable] always writes at least one byte. *)
Lemma body_nonempty f version : isPingPong (GetPacketType f) = false -> 0 < zlen (body f version).
Proof.
  intros Hp. destruct f; try discriminate Hp; unfold body; cbn [packetEncodeMap];
    unfold Connect.encodeConnect, Connack.encodeConnack, Send.encodeSend, Sendack.encodeSendack,
      Recv.encodeRecv, Recvack.encodeRecvack, Disconnect.encodeDisConnect;
    case_versions; to_image; unfold zlen; rewrite !length_app, ?length_be; lia.
Qed.

Lemma wire_framer_decode f version : isPingPong (GetPacketType f) = false ->
  set_RemainingLength (FramerFromUint8 (ToFixHeaderUint8 (GetPacketType f) (frame_framer f)))
    (zlen (body f version)) = wire_framer f version.
Proof. intros _. rewrite FramerFromUint8_ToFix by apply PacketType_nibble. reflexivity. Qed.

Lemma ToFix_byte t f : inU 4 t ->
  Z_of_byte (byte_of_Z (ToFixHeaderUint8 t f)) = ToFixHeaderUint8 t f.
Proof.
  intros Ht. rewrite Z_of_byte_of_Z. apply Z.mod_small. apply (wrapU_range 8). lia.
Qed.

(** The bytes of an encoded packet: header byte, length code, body. *)
Lemma EncodePacket_eq f version : isPingPong (GetPacketType f) = false ->
  zlen (body f version) < 2 ^ 32 ->
  EncodePacket f version =
    Ret (byte_of_Z (ToFixHeaderUint8 (GetPacketType f) (frame_framer f))
           :: encodeVariable (zlen (body f version)) ++ body f version).
Proof.
  intros Hp Hb. pose proof Hp as Hp'. unfold EncodePacket, encodeFramer. rewrite Hp.
  unfold isPingPong in Hp. apply orb_false_iff in Hp as [-> ->]. cbn [negb andb].
  pose proof (zlen_nonneg (body f version)) as Hn.
  unfold body in *. destruct (packetEncodeMap f version) as [b|] eqn:E.
  - rewrite wrapU_id by (unfold inU; lia). reflexivity.
  - destruct f; discriminate E || discriminate Hp'.
Qed.

Lemma frame_cases f : f = FPing \/ f = FPong \/ isPingPong (GetPacketType f) = false.
Proof. destruct f; auto. Qed.

Lemma decodeFramer_encoded f version rest : isPingPong (GetPacketType f) = false ->
  zlen (body f version) < 2 ^ 28 ->
  decodeFramer (byte_of_Z (ToFixHeaderUint8 (GetPacketType f) (frame_framer f))
                  :: encodeVariable (zlen (body f version)) ++ rest) =
    Ret (wire_framer f version, zlen (encodeVariable (zlen (body f version)))).
Proof.
  intros Hp Hb. pose proof (body_nonempty f version Hp) as Hpos.
  pose proof (wire_framer_decode f version Hp) as Hw.
  unfold decodeFramer. rewrite ToFix_byte by apply PacketType_nibble.
  replace (f_PacketType (FramerFromUint8 _)) with (GetPacketType f)
    by (rewrite FramerFromUint8_ToFix by apply PacketType_nibble; reflexivity).
  rewrite Hp. cbn [negb]. rewrite decodeLength_encodeVariable by lia.
  cbn [mbind outcome_bind]. rewrite Hw. reflexivity.
Qed.

Lemma isPingPong_false t : isPingPong t = false -> (t =? PING) = false /\ (t =? PONG) = false.
Proof. apply orb_false_iff. Qed.

(** A packet the protocol carries: field widths respected, and a body within
    [MaxRemaingLength]. *)
Definition sendable (version : Z) (f : Frame) : Prop :=
  frame_ok f /\ zlen (body f version) <= MaxRemaingLength.

(** The packet the peer gets for [f]. *)
Definition received (version : Z) (f : Frame) : Frame :=
  frame_on_wire (wire_framer f version) version f.

Lemma Max_lt_28 z : z <= MaxRemaingLength -> z < 2 ^ 28.
Proof. unfold MaxRemaingLength. lia. Qed.

Lemma DecodePacket_encoded version f data rest : sendable version f ->
  EncodePacket f version = Ret data ->
  DecodePacket (data ++ rest) version = Ret (Some (received version f), zlen data).
Proof.
  intros [Hok Hlen] He. destruct (frame_cases f) as [->|[->|Hp]];
    [injection He as <-; reflexivity..|].
  pose proof (Max_lt_28 _ Hlen). rewrite EncodePacket_eq in He by (done || lia). injection He as <-.
  set (b := body f version) in *. set (ev := encodeVariable (zlen b)).
  unfold DecodePacket. cbn [app]. rewrite <- app_assoc.
  unfold ev, b. rewrite decodeFramer_encoded by (fold b; done || lia). fold b. fold ev.
  cbn [mbind outcome_bind wire_framer f_PacketType f_RemainingLength].
  destruct (isPingPong_false _ Hp) as [-> ->]. fold b.
  replace (zlen b >? MaxRemaingLength) with false by lia.
  set (h := byte_of_Z _). pose proof (zlen_nonneg ev) as Hev. pose proof (zlen_nonneg b) as Hb.
  rewrite (proj2 (Z.ltb_ge _ _)) by (autorewrite with go; pose proof (zlen_nonneg rest); lia).
  change (h :: ev ++ b ++ rest) with ((h :: ev) ++ b ++ rest).
  rewrite (slice_mid _ _ (h :: ev)) by (rewrite length_cons; unfold zlen; lia).
  destruct (packetDecode_encode f version (wire_framer f version) Hok Hp) as (d & Hd & Hdb).
  fold b in Hdb. rewrite Hd, Hdb. cbn. do 2 f_equal. autorewrite with go. lia.
Qed.

Lemma EncodePacket_total version f : sendable version f -> is_Ret (EncodePacket f version).
Proof.
  intros [_ Hlen]. destruct (frame_cases f) as [->|[->|Hp]]; [eexists; reflexivity..|].
  pose proof (Max_lt_28 _ Hlen). rewrite EncodePacket_eq by (done || lia). eexists; reflexivity.
Qed.

Lemma decodeFramerWithConn_cons x r :
  decodeFramerWithConn (x :: r) =
    let p := FramerFromUint8 (Z_of_byte x) in
    if negb (isPingPong (f_PacketType p)) then
      let '(n, r') := decodeLengthWithConn r in Ret (set_RemainingLength p n, r')
    else Ret (p, r).
Proof.
  unfold decodeFramerWithConn, mbind, decoder_mbind.
  change (ReadFull 1 (x :: r)) with (@Ret (list byte * list byte) ([x], drop 0 r)).
  cbv beta iota zeta. rewrite drop_0. change (byte_at [x] 0) with (Z_of_byte x).
  destruct (negb _); reflexivity.
Qed.

Lemma decodeFramerWithConn_encoded f version rest : isPingPong (GetPacketType f) = false ->
  zlen (body f version) < 2 ^ 28 ->
  decodeFramerWithConn (byte_of_Z (ToFixHeaderUint8 (GetPacketType f) (frame_framer f))
                  :: encodeVariable (zlen (body f version)) ++ rest) =
    Ret (wire_framer f version, rest).
Proof.
  intros Hp Hb. pose proof (body_nonempty f version Hp) as Hpos.
  pose proof (wire_framer_decode f version Hp) as Hw.
  rewrite decodeFramerWithConn_cons, ToFix_byte by apply PacketType_nibble. cbv zeta.
  replace (f_PacketType (FramerFromUint8 _)) with (GetPacketType f)
    by (rewrite FramerFromUint8_ToFix by apply PacketType_nibble; reflexivity).
  rewrite Hp. cbn [negb]. rewrite decodeLengthWithConn_encodeVariable by lia.
  rewrite Hw. reflexivity.
Qed.

Lemma ReadFull_app b r : ReadFull (length b) (b ++ r) = Ret (b, r).
Proof.
  unfold ReadFull. destruct (decide _) as [E|E].
  - destruct b; [reflexivity|discriminate].
  - rewrite decide_False by (rewrite length_app; lia).
    rewrite decide_False by (rewrite length_app; lia).
    rewrite take_app_length, drop_app_length. reflexivity.
Qed.

(** The bytes of a successful encoding. *)
Definition encodedOf (o : outcome (list byte)) : list byte :=
  match o with Ret d => d | _ => [] end.

(** A SEND packet to run the theorems on. *)
Definition send_example : Frame :=
  FSend (Send.mkSendPacket (mkFramer SEND 0 false true false false) (mkSetting true) "key" 7
    "no-1" "alice" 1 (bytes_of_string "hi")).

Lemma send_example_sendable : sendable 4 send_example.
Proof. split; [constructor; vm_compute; intuition congruence|vm_compute; congruence]. Qed.

Lemma ping_sendable version : sendable version FPing.
Proof. split; [exact I|vm_compute; congruence]. Qed.

(** C11: encoding a packet succeeds, and decoding the bytes, whatever follows
    them in the buffer, gives the packet back (the fields its protocol
    version puts on the wire, under the decoded header) and consumes exactly
    the encoded bytes. *)
Theorem DecodePacket_EncodePacket version f rest : sendable version f ->
  exists data, EncodePacket f version = Ret data /\
    DecodePacket (data ++ rest) version = Ret (Some (received version f), zlen data).
Proof.
  intros Hs. destruct (EncodePacket_total version f Hs) as [data Hd].
  exists data. eauto using DecodePacket_encoded.
Qed.

Lemma DecodePacket_EncodePacket_witness :
  exists data, EncodePacket send_example 4 = Ret data /\
    DecodePacket (data ++ [x00]) 4 = Ret (Some (received 4 send_example), zlen data).
Proof. exact (DecodePacket_EncodePacket 4 send_example [x00] send_example_sendable). Defined.

Lemma DecodePacketWithConn_encoded version f data rest :
  sendable version f -> EncodePacket f version = Ret data ->
  DecodePacketWithConn version (data ++ rest) = Ret (received version f, rest).
Proof.
  intros [Hok Hlen] He. destruct (frame_cases f) as [->|[->|Hp]];
    [injection He as <-; reflexivity..|].
  pose proof (Max_lt_28 _ Hlen). rewrite EncodePacket_eq in He by (done || lia). injection He as <-.
  unfold DecodePacketWithConn, mbind at 1, decoder_mbind at 1. cbn [app]. rewrite <- app_assoc.
  rewrite decodeFramerWithConn_encoded by (done || lia).
  cbn [wire_framer f_PacketType f_RemainingLength]. destruct (isPingPong_false _ Hp) as [-> ->].
  replace (zlen (body f version) >? MaxRemaingLength) with false by lia.
  rewrite to_nat_zlen. unfold mbind at 1, decoder_mbind at 1. rewrite ReadFull_app.
  destruct (packetDecode_encode f version (wire_framer f version) Hok Hp) as (d & Hd & Hdb).
  rewrite Hd. unfold mbind, decoder_mbind, liftD. rewrite Hdb. reflexivity.
Qed.

(** The stream decoder of the client reads the same packet and leaves
    exactly the bytes after it. *)
Theorem DecodePacketWithConn_EncodePacket version f data rest :
  sendable version f -> EncodePacket f version = Ret data ->
  DecodePacketWithConn version (data ++ rest) = Ret (received version f, rest).
Proof. apply DecodePacketWithConn_encoded. Qed.

Lemma DecodePacketWithConn_EncodePacket_witness :
  DecodePacketWithConn 4 (encodedOf (EncodePacket send_example 4) ++ [x00]) =
    Ret (received 4 send_example, [x00]).
Proof.
  exact (DecodePacketWithConn_EncodePacket 4 send_example _ [x00] send_example_sendable eq_refl).
Defined.

(** * Bounds on what a decoder consumes *)

Lemma decodeLength_loop_bounds fuel rLen m off data n k :
  decodeLength_loop fuel rLen m off data = Ret (n, k) -> 0 <= rLen ->
  0 <= n /\ 0 <= k.
Proof.
  revert rLen m off. induction fuel as [|fuel IH]; intros rLen m off; cbn [decodeLength_loop].
  - destruct (m <? 27); [discriminate|]. intros [= <- <-] Hr.
    pose proof (wrapU_range 32 (Z.of_nat off + 1)). unfold inU in *. lia.
  - destruct (m <? 27); [destruct (data !! off); [|discriminate]|];
      pose proof (wrapU_range 32 (Z.of_nat off + 1) ltac:(lia)) as Hk; unfold inU in Hk.
    + intros H Hr.
      assert (0 <= Z.lor rLen (u32 (Z.shiftl (Z.land (Z_of_byte b) 127) m))).
      { apply Z.lor_nonneg. split; [lia|]. apply (wrapU_range 32). lia. }
      destruct (_ =? 0); [injection H as <- <-; lia|]. eapply IH; eauto.
    + intros [= <- <-] Hr. lia.
Qed.

(** a successful [DecodePacket] consumes at least one byte and no more
    than the buffer holds. *)
Theorem DecodePacket_consumed data version f n :
  DecodePacket data version = Ret (Some f, n) -> 1 <= n <= zlen data.
Proof.
  unfold DecodePacket. intros H. apply bind_Ret in H as ([fr k] & Hfr & H).
  assert (1 <= zlen data /\ 0 <= f_RemainingLength fr /\ 0 <= k) as (Hd & Hn & Hk).
  { destruct data as [|x rest]; [discriminate|]. cbn [decodeFramer] in Hfr. cbv zeta in Hfr.
    rewrite zlen_cons. pose proof (zlen_nonneg rest).
    destruct (negb _).
    - apply bind_Ret in Hfr as ([n' k'] & Hl & [= <- <-]). cbn.
      apply decodeLength_loop_bounds in Hl; [|lia]. lia.
    - injection Hfr as <- <-. cbn. lia. }
  destruct (_ =? PING); [injection H as <- <-; lia|].
  destruct (_ =? PONG); [injection H as <- <-; lia|].
  destruct (_ >? _); [discriminate|].
  destruct (zlen data <? _) eqn:E; [discriminate|]. zbool.
  destruct (packetDecodeMap _ _ _); [|discriminate].
  apply bind_Ret in H as ([f' r'] & _ & [= <- <-]). lia.
Qed.

Lemma DecodePacket_consumed_witness : 1 <= 28 <= zlen (encodedOf (EncodePacket send_example 4)).
Proof.
  exact (DecodePacket_consumed (encodedOf (EncodePacket send_example 4)) 4 _ 28 eq_refl).
Defined.

(** * Strings of 2^15 bytes and more

    [WriteBinary] writes an unsigned 16-bit length, [Binary] reads a signed
    one and makes a slice of that length. *)

(** A DISCONNECT packet whose reason is longer than the decoder's signed
    length allows. *)
Definition disconnect (code : Z) (reason : string) : Frame :=
  FDisconnect (Disconnect.mkDisconnectPacket (mkFramer DISCONNECT 0 false false false false) code reason).

Lemma decodeDisConnect_panic fr code reason :
  2 ^ 15 <= zlen (bytes_of_string reason) < 2 ^ 16 ->
  Disconnect.decodeDisConnect fr (body (disconnect code reason) 4) = Panic.
Proof.
  intros Hl. unfold disconnect, body, packetEncodeMap, Disconnect.encodeDisConnect, Disconnect.decodeDisConnect.
  to_image. cbn [Disconnect.reasonCode Disconnect.Reason]. unfold mbind, decoder_mbind.
  unfold wrapD at 1. rewrite Uint8_be. cbn [wrap].
  unfold wrapD, DecString, mbind, decoder_mbind.
  unfold put_string. rewrite <- (app_nil_r (str_image _)), Binary_image_panic by done. reflexivity.
Qed.

(** A packet with a string of 2^15 up to 2^16-1 bytes is encoded without
    complaint, and the bytes make [DecodePacket] panic. *)
Theorem DecodePacket_long_string_panics version code reason :
  2 ^ 15 <= zlen (bytes_of_string reason) < 2 ^ 16 ->
  exists data, EncodePacket (disconnect code reason) version = Ret data /\
    DecodePacket data version = Panic.
Proof.
  intros Hl. set (f := disconnect code reason).
  assert (0 < zlen (body f version) < 2 ^ 17) as Hb.
  { pose proof (body_nonempty f version eq_refl). split; [done|].
    unfold f, disconnect, body, packetEncodeMap, Disconnect.encodeDisConnect. to_image.
    cbn [Disconnect.Reason]. unfold put_string, str_image, zlen in *. rewrite !length_app, !length_be. lia. }
  eexists. split; [apply EncodePacket_eq; [reflexivity|lia]|].
  unfold DecodePacket. rewrite decodeFramer_encoded by (reflexivity || lia).
  pose proof (decodeDisConnect_panic (wire_framer f version) code reason Hl) as Hp.
  change (body (disconnect code reason) 4) with (body f version) in Hp.
  set (b := body f version) in *. set (ev := encodeVariable (zlen b)).
  cbn [mbind outcome_bind]. cbv beta iota.
  change (f_PacketType (wire_framer f version)) with DISCONNECT.
  change (f_RemainingLength (wire_framer f version)) with (zlen b).
  change (DISCONNECT =? PING) with false. change (DISCONNECT =? PONG) with false. cbv iota.
  replace (zlen b >? MaxRemaingLength) with false by (unfold MaxRemaingLength; lia).
  set (h := byte_of_Z _). pose proof (zlen_nonneg ev).
  rewrite (proj2 (Z.ltb_ge _ _)) by (autorewrite with go; lia).
  replace (h :: ev ++ b) with ((h :: ev) ++ b ++ []) by (rewrite app_nil_r; reflexivity).
  rewrite (slice_mid _ _ (h :: ev)) by (rewrite length_cons; unfold zlen; lia).
  change (packetDecodeMap DISCONNECT (wire_framer f version) version)
    with (Some (FDisconnect <$> Disconnect.decodeDisConnect (wire_framer f version))).
  unfold fmap, decoder_fmap, mbind, decoder_mbind. rewrite Hp. reflexivity.
Qed.

Lemma DecodePacket_long_string_panics_witness :
  2 ^ 15 <= zlen (bytes_of_string (string_of_bytes (replicate (Z.to_nat 33000) x61))) < 2 ^ 16 /\
  exists data, EncodePacket (disconnect 0 (string_of_bytes (replicate (Z.to_nat 33000) x61))) 4 = Ret data /\
    DecodePacket data 4 = Panic.
Proof.
  assert (2 ^ 15 <= zlen (bytes_of_string (string_of_bytes (replicate (Z.to_nat 33000) x61))) < 2 ^ 16)
    as H by (vm_compute; split; congruence).
  split; [exact H|]. exact (DecodePacket_long_string_panics 4 0 _ H).
Defined.
