(* ===== verification/Unpack.v ===== *)
(** Splitting the inbound byte stream of a connection into packets:
    [limUnpacket] (internal/lim/packet.go), which keeps the complete packets
    of the read buffer, and the loop of [LiMao.OnPacket]
    (internal/lim/limao.go), which decodes them. *)
From stdpp Require Import base list strings.
From Stdlib Require Import ZArith Lia Strings.Byte.
From S2P Require Import Prelude Wire Frames Protocol.

Module Unpacker.

(** lim's own [decodeLength]: bounds-checked, [false] when the length code
    is cut short. *)
Fixpoint lim_decodeLength_loop (fuel : nat) (rLength multiplier : Z) (offset : nat)
    (data : list byte) : Z * Z * bool :=
  if multiplier <? 27 then
    match fuel, data !! offset with
    | S fuel', Some b =>
        let digit := Z_of_byte b in
        let rLength' := Z.lor rLength (u32 (Z.shiftl (Z.land digit 127) multiplier)) in
        if Z.land digit 128 =? 0 then (rLength', Z.of_nat (S offset), true)
        else lim_decodeLength_loop fuel' rLength' (multiplier + 7) (S offset) data
    | _, _ => (0, 0, false)
    end
  else (rLength, Z.of_nat offset, true).
Definition lim_decodeLength (data : list byte) : Z * Z * bool :=
  lim_decodeLength_loop 4 0 0 0 data.

(** The loop of [limUnpacket]; every round that goes on moves [offset], so
    the length of the buffer bounds the rounds. *)
Fixpoint limUnpacket_loop (fuel : nat) (buff : list byte) (offset : nat)
    (packetData : list byte) : list byte :=
  match fuel, buff !! offset with
  | S fuel', Some typeAndFlags =>
      let packetType := Z.shiftr (Z_of_byte typeAndFlags) 4 in
      if (packetType =? PING) || (packetType =? PONG) then
        limUnpacket_loop fuel' buff (S offset) (packetData ++ [typeAndFlags])
      else
        let '(reminLen, readSize, has) := lim_decodeLength (drop (S offset) buff) in
        if negb has then packetData
        else
          let dataEnd := Z.of_nat offset + readSize + reminLen + 1 in
          if zlen buff >=? dataEnd then
            let data := drop offset (take (Z.to_nat dataEnd) buff) in
            limUnpacket_loop fuel' buff (Z.to_nat dataEnd) (packetData ++ data)
          else packetData
  | _, _ => packetData
  end.

(** [limUnpacket c]: the packets handed to [OnPacket] ([None] for a nil
    slice) and what [c.ShiftN] leaves in the read buffer. *)
Definition limUnpacket (buff : list byte) : option (list byte) * list byte :=
  if zlen buff <=? 0 then (None, buff)
  else
    let packetData := limUnpacket_loop (length buff) buff 0 [] in
    if zlen packetData >? 0 then (Some packetData, drop (length packetData) buff)
    else (None, buff).

(** Connection status (internal/lim/common.go). *)
Inductive ConnStatus := ConnStatusNoAuth | ConnStatusAuthed.

(** What the decoding loop of [OnPacket] comes to: the packets to handle (a
    nil packet is [None]), a closed connection, a run-time panic, or more
    rounds than the fuel allows. *)
Inductive on_packet :=
  | Packets (l : list (option Frame))
  | Closed
  | Crashed
  | Running.

Fixpoint OnPacket_loop (fuel : nat) (status : ConnStatus) (version : Z) (data : list byte)
    (offset : nat) (packets : list (option Frame)) : on_packet :=
  if decide (offset < length data)%nat then
    match fuel with
    | O => Running
    | S fuel' =>
        match DecodePacket (drop offset data) version with
        | Panic => Crashed
        | Err _ => Closed
        | Ret (packet, size) =>
            let packets' := packets ++ [packet] in
            let offset' := (offset + Z.to_nat size)%nat in
            match status with
            | ConnStatusNoAuth =>
                match packet with
                | None => Crashed
                | Some f =>
                    if negb (GetPacketType f =? CONNECT) then Closed
                    else OnPacket_loop fuel' status version data offset' packets'
                end
            | ConnStatusAuthed => OnPacket_loop fuel' status version data offset' packets'
            end
        end
    end
  else Packets packets.

(** Every round consumes a byte when the packets are complete, so the length
    of the data is fuel enough ([OnPacket_of_encoded]). *)
Definition OnPacket (status : ConnStatus) (version : Z) (data : list byte) : on_packet :=
  OnPacket_loop (length data) status version data 0 [].

End Unpacker.
Import Unpacker.

(** * The two length decoders *)

Lemma lim_decodeLength_loop_varint f v rLen off data r :
  (off + f = 4)%nat -> 0 < v < 128 ^ Z.of_nat f -> 0 <= rLen < 2 ^ (7 * Z.of_nat off) ->
  drop off data = varint f v ++ r ->
  lim_decodeLength_loop f rLen (7 * Z.of_nat off) off data =
    (rLen + v * 2 ^ (7 * Z.of_nat off), Z.of_nat off + zlen (varint f v), true).
Proof.
  revert v rLen off. induction f as [|f IH]; intros v rLen off Hoff Hv Hr Hd.
  { change (128 ^ Z.of_nat 0) with 1 in Hv. lia. }
  destruct (varint_step f v rLen off) as (d & rLen' & Hvar & Hmore & Hlor & Hv' & Hr' & Hval); [done..|].
  rewrite Hvar in *. apply drop_cons_lookup in Hd as [Hd0 Hd].
  cbn [lim_decodeLength_loop]. rewrite (proj2 (Z.ltb_lt _ _)) by lia. rewrite Hd0. cbv zeta.
  rewrite Hlor, Hmore. autorewrite with go. destruct (Z.eqb_spec (v / 128) 0) as [Hz|Hz].
  - rewrite Hz, varint_zero in *. rewrite zlen_nil. do 2 f_equal; lia.
  - replace (7 * Z.of_nat off + 7) with (7 * Z.of_nat (S off)) by lia.
    rewrite (IH (v / 128)) by (done || lia). do 2 f_equal; lia.
Qed.

Lemma lim_decodeLength_encodeVariable v r : 0 < v < 2 ^ 28 ->
  lim_decodeLength (encodeVariable v ++ r) = (v, zlen (encodeVariable v), true).
Proof.
  intros Hv. rewrite encodeVariable_4 by done.
  unfold lim_decodeLength. change 0 with (7 * Z.of_nat 0) at 2.
  rewrite (lim_decodeLength_loop_varint 4 v 0 0 _ r); [do 2 f_equal; lia|done| |done|done].
  change (128 ^ Z.of_nat 4) with (2 ^ 28). lia.
Qed.

(** A length code cut short is reported as such. *)
Lemma lim_decodeLength_loop_cut f v rLen off data k :
  (off + f = 4)%nat -> 0 < v < 128 ^ Z.of_nat f -> 0 <= rLen < 2 ^ (7 * Z.of_nat off) ->
  drop off data = take k (varint f v) -> (k < length (varint f v))%nat ->
  lim_decodeLength_loop f rLen (7 * Z.of_nat off) off data = (0, 0, false).
Proof.
  revert v rLen off k. induction f as [|f IH]; intros v rLen off k Hoff Hv Hr Hd Hk.
  { change (128 ^ Z.of_nat 0) with 1 in Hv. lia. }
  destruct (varint_step f v rLen off) as (d & rLen' & Hvar & Hmore & Hlor & Hv' & Hr' & Hval); [done..|].
  rewrite Hvar in *. cbn [lim_decodeLength_loop]. rewrite (proj2 (Z.ltb_lt _ _)) by lia.
  destruct k as [|k].
  - rewrite (lookup_ge_None_2 data off); [reflexivity|].
    apply (f_equal length) in Hd. rewrite length_drop in Hd. cbn in Hd. lia.
  - cbn [take] in Hd. apply drop_cons_lookup in Hd as [Hd0 Hd]. rewrite Hd0. cbv zeta.
    rewrite Hlor, Hmore. cbn [length] in Hk. destruct (Z.eqb_spec (v / 128) 0) as [Hz|Hz].
    + rewrite Hz, varint_zero in Hk. cbn in Hk. lia.
    + replace (7 * Z.of_nat off + 7) with (7 * Z.of_nat (S off)) by lia.
      apply (IH (v / 128) rLen' (S off) k); (done || lia).
Qed.

(** * Encoded packets and their framing *)

Definition encoded (version : Z) (f : Frame) : list byte :=
  encodedOf (EncodePacket f version).
Definition stream (version : Z) (fs : list Frame) : list byte := concat (encoded version <$> fs).

(** The three parts of an encoded packet that is not a ping or pong. *)
Lemma encoded_parts version f : sendable version f -> isPingPong (GetPacketType f) = false ->
  exists h, encoded version f = h :: encodeVariable (zlen (body f version)) ++ body f version /\
    Z.shiftr (Z_of_byte h) 4 = GetPacketType f /\ 0 < zlen (body f version) < 2 ^ 28.
Proof.
  intros [Hok Hlen] Hp. apply Max_lt_28 in Hlen. pose proof (body_nonempty f version Hp).
  unfold encoded. rewrite EncodePacket_eq by (done || lia).
  eexists. split; [reflexivity|]. split; [|lia].
  rewrite ToFix_byte by apply PacketType_nibble.
  change (f_PacketType (FramerFromUint8 (ToFixHeaderUint8 (GetPacketType f) (frame_framer f))) = GetPacketType f).
  rewrite FramerFromUint8_ToFix by apply PacketType_nibble. reflexivity.
Qed.

Lemma encoded_nonempty version f : sendable version f -> encoded version f <> [].
Proof.
  intros Hs. destruct (frame_cases f) as [->|[->|Hp]]; [discriminate..|].
  destruct (encoded_parts version f Hs Hp) as (h & -> & _). discriminate.
Qed.

Lemma limUnpacket_loop_packet fuel version f pre rest acc : sendable version f ->
  limUnpacket_loop (S fuel) (pre ++ encoded version f ++ rest) (length pre) acc =
    limUnpacket_loop fuel (pre ++ encoded version f ++ rest)
      (length pre + length (encoded version f)) (acc ++ encoded version f).
Proof.
  intros Hs. cbn [limUnpacket_loop].
  rewrite lookup_app_r by lia. rewrite Nat.sub_diag.
  destruct (frame_cases f) as [->|[->|Hp]]; [cbn; f_equal; lia..|].
  destruct (encoded_parts version f Hs Hp) as (h & He & Ht & Hb).
  set (b := body f version) in *. set (ev := encodeVariable (zlen b)) in *.
  rewrite He. cbn [app lookup list_lookup]. rewrite Ht.
  destruct (isPingPong_false _ Hp) as [-> ->]. cbn [orb].
  replace (drop (S (length pre)) (pre ++ h :: (ev ++ b) ++ rest)) with (ev ++ b ++ rest)
    by (rewrite drop_app_ge by lia; replace (S (length pre) - length pre)%nat with 1%nat by lia;
        cbn; rewrite drop_0, app_assoc; reflexivity).
  unfold ev at 1. rewrite lim_decodeLength_encodeVariable by lia. fold ev. cbn [negb].
  replace (zlen _ >=? _) with true
    by (symmetry; autorewrite with go; pose proof (zlen_nonneg rest); unfold zlen in *; lia).
  change (h :: (ev ++ b) ++ rest) with ((h :: ev ++ b) ++ rest).
  rewrite slice_mid; [|done|rewrite length_cons, length_app; unfold zlen; lia].
  f_equal. rewrite length_cons, length_app. unfold zlen. lia.
Qed.

Lemma limUnpacket_loop_cut fuel version f pre k acc : sendable version f ->
  (k < length (encoded version f))%nat ->
  limUnpacket_loop fuel (pre ++ take k (encoded version f)) (length pre) acc = acc.
Proof.
  intros Hs Hk. destruct fuel as [|fuel]; [reflexivity|]. cbn [limUnpacket_loop].
  rewrite lookup_app_r by lia. rewrite Nat.sub_diag.
  destruct (frame_cases f) as [->|[->|Hp]];
    [cbn in Hk; assert (k = 0)%nat as -> by lia; reflexivity..|].
  destruct (encoded_parts version f Hs Hp) as (h & He & Ht & Hb). rewrite He in *.
  set (b := body f version) in *.
  destruct k as [|k]; [reflexivity|]. cbn [take lookup list_lookup]. rewrite Ht.
  destruct (isPingPong_false _ Hp) as [-> ->]. cbn [orb]. cbn [length] in Hk.
  replace (drop (S (length pre)) (pre ++ h :: take k (encodeVariable (zlen b) ++ b)))
    with (take k (encodeVariable (zlen b) ++ b))
    by (rewrite drop_app_ge by lia; replace (S (length pre) - length pre)%nat with 1%nat by lia;
        cbn; rewrite drop_0; reflexivity).
  rewrite length_app in Hk.
  destruct (decide (k < length (encodeVariable (zlen b)))%nat) as [Hc|Hc].
  - rewrite take_app_le by lia. rewrite encodeVariable_4 in * by lia.
    unfold lim_decodeLength. change 0 with (7 * Z.of_nat 0) at 2.
    rewrite (lim_decodeLength_loop_cut 4 (zlen b) 0 0 _ k); [reflexivity|done| |done|done|done].
    change (128 ^ Z.of_nat 4) with (2 ^ 28). lia.
  - rewrite take_app_ge by lia. rewrite lim_decodeLength_encodeVariable by lia. cbn [negb].
    replace (zlen _ >=? _) with false; [reflexivity|].
    symmetry. autorewrite with go.
    set (ev := encodeVariable (zlen b)) in *. clearbody ev.
    assert (zlen (take (k - length ev) b) < zlen b) by (unfold zlen; rewrite length_take; lia).
    change (Z.of_nat (length pre)) with (zlen pre). lia.
Qed.

Lemma limUnpacket_loop_stream fuel version fs g k pre acc :
  Forall (sendable version) fs -> sendable version g -> (k < length (encoded version g))%nat ->
  (length fs <= fuel)%nat ->
  limUnpacket_loop fuel (pre ++ stream version fs ++ take k (encoded version g)) (length pre) acc =
    acc ++ stream version fs.
Proof.
  intros Hfs Hg Hk. revert fuel pre acc. induction Hfs as [|f fs Hf Hfs IH]; intros fuel pre acc Hfuel.
  - cbn. rewrite app_nil_r. apply limUnpacket_loop_cut; done.
  - destruct fuel as [|fuel]; [cbn in Hfuel; lia|]. cbn in Hfuel.
    unfold stream. cbn [fmap list_fmap concat]. fold (stream version fs).
    rewrite <- app_assoc, limUnpacket_loop_packet by done.
    rewrite <- length_app, app_assoc, IH by lia. rewrite <- app_assoc. reflexivity.
Qed.

Lemma length_stream version fs : Forall (sendable version) fs -> (length fs <= length (stream version fs))%nat.
Proof.
  induction 1 as [|f fs Hf _ IH]; [reflexivity|]. unfold stream in *. cbn. rewrite length_app.
  pose proof (encoded_nonempty version f Hf). destruct (encoded version f); [done|]. cbn. lia.
Qed.

Lemma zlen_pos {A} (l : list A) : l <> [] -> 0 < zlen l.
Proof. destruct l; [done|]. rewrite zlen_cons. pose proof (zlen_nonneg l). lia. Qed.

(** C12: fed any number of encoded packets and the beginning of one more, the
    unpacker hands over exactly the complete packets and leaves the
    beginning of the next one in the read buffer. *)
Theorem limUnpacket_stream version fs g k :
  Forall (sendable version) fs -> sendable version g -> (k < length (encoded version g))%nat ->
  fs <> [] ->
  limUnpacket (stream version fs ++ take k (encoded version g)) =
    (Some (stream version fs), take k (encoded version g)).
Proof.
  intros Hfs Hg Hk Hne. pose proof (length_stream version fs Hfs) as Hl.
  assert (0 < zlen (stream version fs)) as Hpos by (unfold zlen; destruct fs; [done|]; cbn [length] in Hl; lia).
  unfold limUnpacket. rewrite (proj2 (Z.leb_gt _ _))
    by (autorewrite with go; pose proof (zlen_nonneg (take k (encoded version g))); lia).
  pose proof (limUnpacket_loop_stream (length (stream version fs ++ take k (encoded version g)))
    version fs g k [] [] Hfs Hg Hk) as Hloop.
  cbn [app length] in Hloop. rewrite Hloop by (rewrite length_app; lia).
  replace (zlen (stream version fs) >? 0) with true by lia.
  rewrite drop_app_length. reflexivity.
Qed.

Lemma limUnpacket_stream_witness :
  limUnpacket (stream 4 [send_example; FPing] ++ take 5 (encoded 4 send_example)) =
    (Some (stream 4 [send_example; FPing]), take 5 (encoded 4 send_example)).
Proof.
  apply limUnpacket_stream; [|exact send_example_sendable|vm_compute; lia|discriminate].
  repeat (apply Forall_cons; split); auto using send_example_sendable, ping_sendable.
Defined.

Lemma DecodePacket_stream version f rest : sendable version f ->
  DecodePacket (encoded version f ++ rest) version =
    Ret (Some (received version f), zlen (encoded version f)).
Proof.
  intros Hs. destruct (EncodePacket_total version f Hs) as [d He].
  unfold encoded. rewrite He. apply DecodePacket_encoded; done.
Qed.

(** Which packets a connection may carry before it is authenticated. *)
Definition admitted (status : ConnStatus) (f : Frame) : Prop :=
  match status with ConnStatusNoAuth => GetPacketType f = CONNECT | ConnStatusAuthed => True end.

Lemma GetPacketType_received version f : GetPacketType (received version f) = GetPacketType f.
Proof. destruct f; reflexivity. Qed.

Lemma OnPacket_loop_stream fuel status version fs pre acc :
  Forall (sendable version) fs -> Forall (admitted status) fs -> (length fs <= fuel)%nat ->
  OnPacket_loop fuel status version (pre ++ stream version fs) (length pre) acc =
    Packets (acc ++ (Some ∘ received version <$> fs)).
Proof.
  intros Hfs Had. revert fuel pre acc. induction fs as [|f fs IH]; intros fuel pre acc Hfuel.
  - destruct fuel; cbn [OnPacket_loop]; (rewrite decide_False by (cbn; rewrite app_nil_r; lia));
      cbn; rewrite app_nil_r; reflexivity.
  - apply Forall_cons in Hfs as [Hf Hfs]. apply Forall_cons in Had as [Ha Had].
    destruct fuel as [|fuel]; [cbn in Hfuel; lia|]. cbn [length] in Hfuel.
    pose proof (zlen_pos _ (encoded_nonempty version f Hf)) as Hpos. unfold zlen in Hpos.
    unfold stream. cbn [fmap list_fmap concat OnPacket_loop]. fold (stream version fs).
    rewrite decide_True by (rewrite !length_app; lia).
    rewrite drop_app_length, DecodePacket_stream by done. rewrite to_nat_zlen, app_assoc, <- length_app.
    rewrite GetPacketType_received. rewrite IH by (done || lia).
    rewrite <- app_assoc. cbn [app fmap list_fmap].
    destruct status; [|reflexivity]. cbn in Ha. rewrite Ha. reflexivity.
Qed.

(** C15: [OnPacket] on a sequence of encoded packets the connection may carry
    (only CONNECT before authentication) ends, and handles exactly these
    packets in order. *)
Theorem OnPacket_of_encoded status version fs :
  Forall (sendable version) fs -> Forall (admitted status) fs ->
  OnPacket status version (stream version fs) = Packets (Some ∘ received version <$> fs).
Proof.
  intros Hfs Had.
  apply (OnPacket_loop_stream _ status version fs [] []); auto using length_stream.
Qed.

Lemma OnPacket_of_encoded_witness :
  OnPacket ConnStatusAuthed 4 (stream 4 [send_example; FPing]) =
    Packets [Some (received 4 send_example); Some FPing].
Proof.
  apply (OnPacket_of_encoded ConnStatusAuthed 4 [send_example; FPing]);
    repeat (apply Forall_cons; split); auto using send_example_sendable, ping_sendable; exact I.
Defined.

(** * Length codes of four continuation digits

    lim's [decodeLength] reads four bytes of such a code, lmproto's reports
    five: the unpacker then hands over a packet one byte shorter than
    [DecodePacket] wants. *)

Definition overlong : list byte := byte_of_Z <$> [0x10; 0x80; 0x80; 0x80; 0x80].

Lemma OnPacket_overlong_running fuel version off acc : (off = 0)%nat ->
  OnPacket_loop fuel ConnStatusAuthed version overlong off acc = Running.
Proof.
  intros ->. revert acc. induction fuel as [|fuel IH]; intros acc; [reflexivity|].
  cbn [OnPacket_loop]. change (DecodePacket (drop 0 overlong) version) with
    (@Ret (option Frame * Z) (None, 0)).
  cbn. apply IH.
Qed.

(** C25: the five bytes 10 80 80 80 80 pass the unpacker as a complete packet,
    and then crash [OnPacket] on a connection that is not authenticated and
    keep it looping, for any number of rounds, on one that is. *)
Theorem overlong_length_hangs version fuel :
  limUnpacket overlong = (Some overlong, []) /\
  OnPacket ConnStatusNoAuth version overlong = Crashed /\
  OnPacket_loop fuel ConnStatusAuthed version overlong 0 [] = Running.
Proof.
  split; [reflexivity|]. split; [reflexivity|]. apply OnPacket_overlong_running. reflexivity.
Qed.
