(* ===== verification/Typing.v ===== *)
(** What comes out of the decoders of pkg/lmproto, whatever bytes go in:
    numbers within the width of their Go types, strings short enough to be
    sent again, nothing in fields the protocol version does not have. *)
From stdpp Require Import base list strings pretty.
From Stdlib Require Import ZArith Lia Strings.Byte.
From S2P Require Import Prelude Wire Frames Protocol.

(** [Typed get size ok]: what [get] returns is [ok], and was read from [size]
    bytes. *)
Class Typed {A} (get : decoder A) (size : A -> Z) (ok : A -> Prop) : Prop :=
  typed r a r' : get r = Ret (a, r') -> ok a /\ zlen r = size a + zlen r'.

Lemma ReadExpect_Ret n r b r' : ReadExpect n r = Ret (b, r') -> length b = n /\ r = b ++ r'.
Proof.
  unfold ReadExpect, mbind, decoder_mbind, Read. destruct r as [|x r]; [done|].
  destruct (decide _) as [Hl|]; [|done]. intros [= <- <-]. by rewrite take_drop.
Qed.

Lemma decoder_bind_Ret {A B} (m : decoder A) (k : A -> decoder B) r b r' :
  (m ≫= k) r = Ret (b, r') -> exists a r1, m r = Ret (a, r1) /\ k a r1 = Ret (b, r').
Proof. unfold mbind, decoder_mbind. destruct (m r) as [[a r1]| |]; [eauto|done..]. Qed.

(** A reader of [n] bytes that makes a number of them. *)
Lemma typed_number {A} n (get : decoder A) (ok : A -> Prop) :
  (forall b r', length b = n -> forall a r1, get (b ++ r') = Ret (a, r1) -> ok a /\ r1 = r') ->
  (forall r, (length r < n)%nat -> forall a r1, get r <> Ret (a, r1)) ->
  Typed get (fun _ => Z.of_nat n) ok.
Proof.
  intros Hget Hshort r a r' E. destruct (decide (length r < n)%nat) as [Hl|Hl]; [by destruct (Hshort r Hl a r')|].
  rewrite <- (take_drop n r) in E. apply Hget in E as [Hok ->]; [|rewrite length_take; lia].
  split; [done|]. unfold zlen. rewrite length_drop. lia.
Qed.

Lemma ReadExpect_short n r b r' : (length r < n)%nat -> ReadExpect n r <> Ret (b, r').
Proof. intros Hl [<- ->]%ReadExpect_Ret. rewrite length_app in Hl. lia. Qed.

(** A read that is one [ReadExpect] first fails on fewer bytes. *)
Ltac number_short :=
  intros r Hl a r1 E; apply decoder_bind_Ret in E as (b & r2 & E & _); by destruct (ReadExpect_short _ _ _ _ Hl E).

#[export] Instance typed_Uint8 : Typed Uint8 (fun _ => 1) (inU 8).
Proof.
  apply (typed_number 1); [|number_short]. intros [|x [|]] r' [=] a r1 E. cbn [app] in E. rewrite Uint8_bytes in E.
  injection E as <- <-. split; [apply Z_of_byte_range|done].
Qed.
#[export] Instance typed_Int16 : Typed Int16 (fun _ => 2) (inS 16).
Proof.
  apply (typed_number 2); [|number_short]. intros b r' Hb a r1 E. rewrite Int16_bytes in E by done.
  injection E as <- <-. split; [|done]. rewrite sbe_val_wrap by (by destruct b). unfold zlen. rewrite Hb. by apply wrapS_range.
Qed.
#[export] Instance typed_Int32 : Typed Int32 (fun _ => 4) (inS 32).
Proof.
  apply (typed_number 4); [|number_short]. intros b r' Hb a r1 E. rewrite Int32_bytes in E by done.
  injection E as <- <-. split; [|done]. rewrite sbe_val_wrap by (by destruct b). unfold zlen. rewrite Hb. by apply wrapS_range.
Qed.
#[export] Instance typed_Int64 : Typed Int64 (fun _ => 8) (inS 64).
Proof.
  apply (typed_number 8); [|number_short]. intros b r' Hb a r1 E. rewrite Int64_bytes in E by done.
  injection E as <- <-. split; [|done]. rewrite sbe_val_wrap by (by destruct b). unfold zlen. rewrite Hb. by apply wrapS_range.
Qed.
#[export] Instance typed_Uint32 : Typed Uint32 (fun _ => 4) (inU 32).
Proof.
  intros r a r' (i & r1 & Ei & [= <- <-])%decoder_bind_Ret. split; [by apply wrapU_range|]. by apply typed in Ei as [_ ?].
Qed.

#[export] Instance typed_Binary : Typed Binary (fun b => 2 + zlen b) (fun b => zlen b < 2 ^ 15).
Proof.
  intros r b r' (size & r1 & Es & E)%decoder_bind_Ret. apply typed in Es as [Hs Hl]. unfold inS in Hs.
  apply decoder_bind_Ret in E as (buf & r2 & Eb & E). unfold liftD, make_bytes in Eb.
  destruct (size <? 0) eqn:Eneg; [done|]. injection Eb as <- <-. zbool.
  destruct (size =? 0) eqn:E0; zbool.
  - injection E as <- <-. subst size. change (replicate (Z.to_nat 0) Byte.x00) with (@nil byte).
    rewrite zlen_nil. split; [done|lia].
  - apply ReadExpect_Ret in E as [Hb ->]. rewrite zlen_app in Hl. unfold zlen in *. split; lia.
Qed.
#[export] Instance typed_DecString : Typed DecString (fun s => 2 + zlen (bytes_of_string s)) short.
Proof.
  intros r s r' (b & r1 & Eb & [= <- <-])%decoder_bind_Ret. apply typed in Eb as [Hb Hl].
  unfold short. by rewrite bytes_of_string_of_bytes.
Qed.
#[export] Instance typed_BinaryAll : Typed BinaryAll zlen (fun _ => True).
Proof.
  intros r b r'. unfold BinaryAll. case_decide as H0.
  - intros [= <- <-]. split; [done|]. apply nil_length_inv in H0. by subst.
  - intros [_ ->]%ReadExpect_Ret. split; [done|]. by rewrite zlen_app.
Qed.
#[export] Instance typed_wrapD {A} msg (get : decoder A) size ok : Typed get size ok -> Typed (wrapD msg get) size ok.
Proof.
  intros H r a r' E. apply H. unfold wrapD, wrap in E. by destruct (get r).
Qed.

(** A field some versions do not have: then it is the zero value, and takes
    no bytes. *)
#[export] Instance typed_readIf {A} (c : bool) (zero : A) (get : decoder A) size ok : Typed get size ok ->
  Typed (readIf c zero get) (fun a => if c then size a else 0) (fun a => if c then ok a else a = zero).
Proof. intros H r a r' E. destruct c; [by apply H|]. by injection E as <- <-. Qed.

(** The byte with the receipt bit. *)
#[export] Instance typed_receipt msg :
  Typed (v ← wrapD msg Uint8; mret (Z.land (Z.shiftr v 7) 0x01 >? 0)) (fun _ => 1) (fun _ => True).
Proof.
  intros r a r' (v & r1 & Ev & [= <- <-])%decoder_bind_Ret. apply typed in Ev as [_ ?]. done.
Qed.

(** Go through the fields of a packet. *)
Ltac fields :=
  repeat lazymatch goal with
  | |- (_ ≫= _) _ = Ret _ -> _ =>
      let a := fresh "a" in let r := fresh "r" in let Ea := fresh "Ea" in let E := fresh "E" in
      let Hok := fresh "Hok" in let Hl := fresh "Hl" in
      intros E; apply decoder_bind_Ret in E as (a & r & Ea & E); apply typed in Ea as [Hok Hl]; revert E
  end; intros [= <- <-].

(** * Packets

    A frame with another header; a frame all of whose fields the version has
    (the others are zero). *)
Definition with_framer (fr : Framer) (f : Frame) : Frame :=
  match f with
  | FConnect p => FConnect (Connect.mkConnectPacket fr (Connect.Version p) (Connect.ClientKey p) (Connect.DeviceID p)
      (Connect.deviceFlag p) (Connect.ClientTimestamp p) (Connect.UID p) (Connect.Token p))
  | FConnack p => FConnack (Connack.mkConnackPacket fr (Connack.ServerKey p) (Connack.Salt p) (Connack.TimeDiff p)
      (Connack.reasonCode p))
  | FSend p => FSend (Send.mkSendPacket fr (Send.setting p) (Send.MsgKey p) (Send.ClientSeq p) (Send.ClientMsgNo p)
      (Send.ChannelID p) (Send.ChannelType p) (Send.Payload p))
  | FSendack p => FSendack (Sendack.mkSendackPacket fr (Sendack.MessageID p) (Sendack.MessageSeq p) (Sendack.ClientSeq p)
      (Sendack.ClientMsgNo p) (Sendack.reasonCode p))
  | FRecv p => FRecv (Recv.mkRecvPacket fr (Recv.setting p) (Recv.MsgKey p) (Recv.MessageID p) (Recv.MessageSeq p)
      (Recv.ClientMsgNo p) (Recv.Timestamp p) (Recv.FromUID p) (Recv.ChannelID p) (Recv.ChannelType p) (Recv.Payload p))
  | FRecvack p => FRecvack (Recvack.mkRecvackPacket fr (Recvack.MessageID p) (Recvack.MessageSeq p))
  | FDisconnect p => FDisconnect (Disconnect.mkDisconnectPacket fr (Disconnect.reasonCode p) (Disconnect.Reason p))
  | FPing => FPing
  | FPong => FPong
  end.
Definition of_version (version : Z) (f : Frame) : Prop := forall fr, frame_on_wire fr version f = with_framer fr f.

(** What a decoder of packets makes of a body: a frame with the header it was
    given, within its types, that takes no more bytes than were read. *)
Definition decodes (version : Z) (fr : Framer) (t : PacketType) (d : decoder Frame) : Prop :=
  forall r f r', d r = Ret (f, r') ->
    GetPacketType f = t /\ frame_framer f = fr /\ frame_ok f /\ of_version version f /\ zlen (body f version) <= zlen r.

Lemma fmap_decoder_Ret {A B} (g : A -> B) (m : decoder A) r b r' :
  (g <$> m) r = Ret (b, r') -> exists a, m r = Ret (a, r') /\ b = g a.
Proof.
  unfold fmap, decoder_fmap. intros (a & r1 & Ha & [= <- <-])%decoder_bind_Ret. eauto.
Qed.

Lemma zlen_put_string s : zlen (put_string s) = 2 + zlen (bytes_of_string s).
Proof. unfold put_string, str_image. by rewrite zlen_app, zlen_be. Qed.
Lemma zlen_str_image b : zlen (str_image b) = 2 + zlen b.
Proof. unfold str_image. by rewrite zlen_app, zlen_be. Qed.

(** Runs a packet's decoder: its fields, for each choice of those the version
    has, with their types and sizes. *)
Ltac packet :=
  intros r f r' (p & E & ->)%fmap_decoder_Ret; revert E;
  unfold Connect.decodeConnect, Connack.decodeConnack, Send.decodeSend, Sendack.decodeSendack, Recv.decodeRecv,
    Recvack.decodeRecvack, Disconnect.decodeDisConnect; fields;
  repeat match goal with H : context [if ?c then _ else _] |- _ => destruct c eqn:? end; subst;
  (split; [done|split; [done|split; [split; cbn; done|]]]).
(** The fields that are not there are zero; the size of the body. *)
Ltac packet_end :=
  split;
  [ intros fr'; cbn [frame_on_wire with_framer];
    unfold Connect.on_wire, Connack.on_wire, Send.on_wire, Sendack.on_wire, Recv.on_wire, Recvack.on_wire, Disconnect.on_wire;
    cbn [Connect.Version Connect.ClientKey Connect.DeviceID Connect.deviceFlag Connect.ClientTimestamp Connect.UID
      Connect.Token Connack.ServerKey Connack.Salt Connack.TimeDiff Connack.reasonCode Send.setting Send.MsgKey
      Send.ClientSeq Send.ClientMsgNo Send.ChannelID Send.ChannelType Send.Payload Sendack.MessageID Sendack.MessageSeq
      Sendack.ClientSeq Sendack.ClientMsgNo Sendack.reasonCode Recv.setting Recv.MsgKey Recv.MessageID Recv.MessageSeq
      Recv.ClientMsgNo Recv.Timestamp Recv.FromUID Recv.ChannelID Recv.ChannelType Recv.Payload Recvack.MessageID
      Recvack.MessageSeq Disconnect.reasonCode Disconnect.Reason Receipt];
    repeat match goal with H : (_ >? _) = _ |- _ => rewrite H end; cbn [andb];
    rewrite ?u64_u32, ?(wrapU_id 64), ?(wrapU_id 32) by (unfold inU in *; lia); done
  | unfold body, packetEncodeMap, Connect.encodeConnect, Connack.encodeConnack, Send.encodeSend, Sendack.encodeSendack,
      Recv.encodeRecv, Recvack.encodeRecvack, Disconnect.encodeDisConnect;
    cbn [Connect.Version]; repeat match goal with H : (_ >? _) = _ |- _ => rewrite H end; cbn [writeIf];
    to_image; rewrite ?zlen_app, ?zlen_put_string, ?zlen_be;
    cbn [Connect.ClientKey Connect.DeviceID Connect.UID Connect.Token Connack.ServerKey Connack.Salt Send.MsgKey
      Send.ClientMsgNo Send.ChannelID Send.Payload Recv.MsgKey Recv.ClientMsgNo Recv.FromUID Recv.ChannelID Recv.Payload
      Disconnect.Reason];
    repeat match goal with H : _ = _ + zlen ?r |- _ =>
      lazymatch goal with H' : 0 <= zlen r |- _ => fail | _ => pose proof (zlen_nonneg r) end end; lia ].

Lemma decodes_Connect version fr : decodes version fr CONNECT (FConnect <$> Connect.decodeConnect fr).
Proof. packet; packet_end. Qed.
Lemma decodes_Connack version fr : decodes version fr CONNACK (FConnack <$> Connack.decodeConnack fr version).
Proof. packet; packet_end. Qed.
Lemma decodes_Send version fr : decodes version fr SEND (FSend <$> Send.decodeSend fr version).
Proof. packet; packet_end. Qed.
Lemma decodes_Sendack version fr : decodes version fr SENDACK (FSendack <$> Sendack.decodeSendack fr).
Proof. packet; packet_end. Qed.
Lemma decodes_Recv version fr : decodes version fr RECV (FRecv <$> Recv.decodeRecv fr version).
Proof. packet; packet_end. Qed.
Lemma decodes_Recvack version fr : decodes version fr RECVACK (FRecvack <$> Recvack.decodeRecvack fr).
Proof. packet; packet_end. Qed.
Lemma decodes_Disconnect version fr : decodes version fr DISCONNECT (FDisconnect <$> Disconnect.decodeDisConnect fr).
Proof. packet; packet_end. Qed.

Lemma packetDecodeMap_typed t fr version d : packetDecodeMap t fr version = Some d -> decodes version fr t d.
Proof.
  unfold packetDecodeMap.
  repeat match goal with |- context [?a =? ?b] => destruct (Z.eqb_spec a b) as [->|] end; intros [= <-].
  - apply decodes_Connect.
  - apply decodes_Connack.
  - apply decodes_Send.
  - apply decodes_Sendack.
  - apply decodes_Recv.
  - apply decodes_Recvack.
  - apply decodes_Disconnect.
Qed.

Lemma decodeFramer_lengths data fr k : decodeFramer data = Ret (fr, k) -> 0 <= f_RemainingLength fr /\ 0 <= k.
Proof.
  destruct data as [|x rest]; [done|]. cbn [decodeFramer]. cbv zeta. destruct (negb _).
  - intros ([n k'] & Hl & [= <- <-])%bind_Ret. cbn. apply decodeLength_loop_bounds in Hl; lia.
  - intros [= <- <-]. cbn. lia.
Qed.


(** A RECVACK with two bytes behind its fields. *)
Definition padded_recvack : list byte := byte_of_Z <$> [0x60; 14; 0; 0; 0; 0; 0; 0; 0; 9; 0; 0; 0; 5; 1; 2].

