(* ===== verification/PQueue.v ===== *)
(** The in-flight priority queues (internal/lim/in_flight_pqueue.go, and its
    copy in internal/lim/node_in_flight_pqueue.go): binary heaps of pointers,
    each object carrying its own position in the slice. One model serves
    both element types, through the class [Item] of what the queue touches. *)
From stdpp Require Import base list gmap sorting.
From Stdlib Require Import ZArith Lia.
From S2P Require Import Prelude.

(** What the queue uses of an element: its priority and its [index] field. *)
Class Item (T : Type) := {
  pri : T -> Z;
  index : T -> Z;
  set_index : Z -> T -> T
}.
Class ItemLaws (T : Type) `{Item T} := {
  pri_set_index i x : pri (set_index i x) = pri x;
  index_set_index i x : index (set_index i x) = i;
  set_index_twice i j x : set_index i (set_index j x) = set_index i x
}.

Abbreviation loc := positive.

Lemma StronglySorted_impl {A} (R S : A -> A -> Prop) l :
  (forall a b, R a b -> S a b) -> StronglySorted R l -> StronglySorted S l.
Proof. intros HRS. induction 1; constructor; [done|]. eapply Forall_impl; eauto. Qed.

Section PQueue.
Context {T : Type} `{Item T}.

(** The objects (by address), the slice of pointers and its capacity. *)
Record heap := mkHeap {
  store : gmap loc T;
  pq : list loc;
  pcap : Z
}.

Definition newInFlightPqueue (s : gmap loc T) (capacity : Z) : heap := mkHeap s [] capacity.

(** [pq[i].pri]; out of range and nil dereferences panic. *)
Definition pri_at (st : heap) (i : nat) : outcome Z :=
  match pq st !! i ≫= fun a => store st !! a with Some x => Ret (pri x) | None => Panic end.

Definition Swap (i j : nat) (st : heap) : outcome heap :=
  match pq st !! i, pq st !! j with
  | Some a, Some b =>
      match store st !! a, store st !! b with
      | Some _, Some _ =>
          Ret (mkHeap
                 (alter (set_index (Z.of_nat j)) a (alter (set_index (Z.of_nat i)) b (store st)))
                 (<[j := a]> (<[i := b]> (pq st))) (pcap st))
      | _, _ => Panic
      end
  | _, _ => Panic
  end.

(** The loop of [up]; [j] decreases, so [S j] rounds are enough
    ([up_loop_fuel]). *)
Fixpoint up_loop (fuel : nat) (j : nat) (st : heap) : outcome heap :=
  match fuel with
  | O => Ret st
  | S fuel' =>
      let i := ((j - 1) / 2)%nat in
      if decide (i = j) then Ret st
      else
        pj ← pri_at st j;
        pi ← pri_at st i;
        if pj >=? pi then Ret st
        else st' ← Swap i j st; up_loop fuel' i st'
  end.
Definition up (j : nat) (st : heap) : outcome heap := up_loop (S j) j st.

(** [pq[j1].pri >= pq[j2].pri]: the child [down] compares with. *)
Definition down_child (st : heap) (j1 n : nat) : outcome nat :=
  let j2 := S j1 in
  if decide (j2 < n)%nat then
    p1 ← pri_at st j1;
    p2 ← pri_at st j2;
    Ret (if p1 >=? p2 then j2 else j1)
  else Ret j1.

(** The loop of [down]; [i] increases up to [n], so [n] rounds are enough. *)
Fixpoint down_loop (fuel : nat) (i n : nat) (st : heap) : outcome heap :=
  match fuel with
  | O => Ret st
  | S fuel' =>
      let j1 := (2 * i + 1)%nat in
      if decide (n <= j1)%nat then Ret st
      else
        j ← down_child st j1 n;
        pj ← pri_at st j;
        pi ← pri_at st i;
        if pj >=? pi then Ret st
        else st' ← Swap i j st; down_loop fuel' j n st'
  end.
Definition down (i n : nat) (st : heap) : outcome heap := down_loop n i n st.

Definition set_pq (l : list loc) (st : heap) : heap := mkHeap (store st) l (pcap st).
Definition set_cap (c : Z) (st : heap) : heap := mkHeap (store st) (pq st) c.
Definition write_index (a : loc) (i : Z) (st : heap) : heap :=
  mkHeap (alter (set_index i) a (store st)) (pq st) (pcap st).

(** [Push]: a full slice doubles its capacity; reslicing past the capacity
    panics. *)
Definition Push (x : loc) (st : heap) : outcome heap :=
  let n := length (pq st) in
  let c := pcap st in
  let st1 := if Z.of_nat n + 1 >? c then set_cap (c * 2) st else st in
  if Z.of_nat n + 1 >? pcap st1 then Panic
  else match store st1 !! x with
  | None => Panic
  | Some _ => up n (set_pq (pq st1 ++ [x]) (write_index x (Z.of_nat n) st1))
  end.

(** [x := pq[n-1]; x.index = -1; pq = pq[0:n-1]]. *)
Definition drop_last (n : nat) (st : heap) : outcome (loc * heap) :=
  match n, pq st !! (n - 1)%nat with
  | S n1, Some x => Ret (x, set_pq (take n1 (pq st)) (write_index x (-1) st))
  | _, _ => Panic
  end.

Definition Pop (st : heap) : outcome (loc * heap) :=
  match length (pq st) with
  | O => Panic
  | S n1 as n =>
      let c := pcap st in
      st1 ← Swap 0 n1 st;
      st2 ← down 0 n1 st1;
      let st3 := if (Z.of_nat n <? c / 2) && (c >? 25) then set_cap (c / 2) st2 else st2 in
      drop_last n st3
  end.

(** [Remove(i)], with [i] an [int] read from an object's [index]. *)
Definition Remove (iz : Z) (st : heap) : outcome (loc * heap) :=
  let n := length (pq st) in
  if Z.of_nat n - 1 =? iz then drop_last n st
  else if iz <? 0 then Panic
  else
    let i := Z.to_nat iz in
    st1 ← Swap i (n - 1) st;
    st2 ← down i (n - 1) st1;
    st3 ← up i st2;
    drop_last n st3.

(** The head if its time has come, else how long to wait. *)
Definition PeekAndShift (maxp : Z) (st : heap) : outcome (option loc * Z * heap) :=
  match pq st with
  | [] => Ret (None, 0, st)
  | x :: _ =>
      p ← pri_at st 0;
      if p >? maxp then Ret (None, p - maxp, st)
      else '(_, st') ← Pop st; Ret (Some x, 0, st')
  end.

End PQueue.
Arguments heap T : clear implicits.

(** * Heaps as functions from positions to priorities *)

Definition parent (k : nat) : nat := ((k - 1) / 2)%nat.

Lemma parent_spec k : (0 < k)%nat -> (k = 2 * parent k + 1 \/ k = 2 * parent k + 2)%nat.
Proof.
  intros Hk. unfold parent. pose proof (Nat.div_mod_eq (k - 1) 2).
  pose proof (Nat.mod_upper_bound (k - 1) 2). lia.
Qed.

Lemma parent_lt k : (0 < k)%nat -> (parent k < k)%nat.
Proof. intros Hk. pose proof (parent_spec k Hk). lia. Qed.

Lemma parent_child i k : (0 < k)%nat -> parent k = i <-> (k = 2 * i + 1 \/ k = 2 * i + 2)%nat.
Proof. intros Hk. pose proof (parent_spec k Hk). lia. Qed.

Definition swapf (f : nat -> Z) (i j k : nat) : Z :=
  if decide (k = i) then f j else if decide (k = j) then f i else f k.

(** The heap order on the first [n] positions; with the relation of [j] to
    its parent missing; with the relations of [i] to its children missing;
    with both missing. *)
Definition heap_upto (n : nat) (f : nat -> Z) : Prop :=
  forall k, (0 < k < n)%nat -> f (parent k) <= f k.
Definition grand (n : nat) (f : nat -> Z) (i : nat) : Prop :=
  (0 < i)%nat -> forall k, (0 < k < n)%nat -> parent k = i -> f (parent i) <= f k.
Definition up_hole (n : nat) (f : nat -> Z) (j : nat) : Prop :=
  (forall k, (0 < k < n)%nat -> k <> j -> f (parent k) <= f k) /\ grand n f j.
Definition hole (n : nat) (f : nat -> Z) (i : nat) : Prop :=
  (forall k, (0 < k < n)%nat -> k <> i -> parent k <> i -> f (parent k) <= f k) /\ grand n f i.
Definition down_hole (n : nat) (f : nat -> Z) (i : nat) : Prop :=
  hole n f i /\ ((0 < i)%nat -> f (parent i) <= f i).

Ltac swap_cases :=
  unfold swapf;
  repeat match goal with
  | |- context [decide (?a = ?b)] => destruct (decide (a = b)); subst; try lia
  end.

Lemma heap_up_hole n f j : heap_upto n f -> up_hole n f j.
Proof.
  intros Hh. split; [intros k Hk _; auto|]. intros Hj k Hk Hp. subst j.
  pose proof (parent_lt k ltac:(lia)). etrans; [apply Hh; lia|apply Hh; lia].
Qed.

Lemma up_hole_stop n f j : up_hole n f j -> (j = 0%nat \/ f (parent j) <= f j) -> heap_upto n f.
Proof.
  intros [Ho _] Hj k Hk. destruct (decide (k = j)) as [->|Hne]; [|auto].
  destruct Hj as [->|Hj]; [lia|done].
Qed.

Lemma up_hole_step n f j : up_hole n f j -> (0 < j < n)%nat -> f j < f (parent j) ->
  up_hole n (swapf f (parent j) j) (parent j).
Proof.
  intros [Ho Hg] Hj Hlt. pose proof (parent_lt j ltac:(lia)) as Hpj. split.
  - intros k Hk Hne. pose proof (parent_lt k ltac:(lia)). swap_cases.
    + assert (parent k = parent j) as Hp by assumption.
      pose proof (Ho k Hk ltac:(done)). rewrite Hp in *. lia.
    + apply Hg; lia.
    + apply Ho; lia.
  - intros Hi k Hk Hp. pose proof (parent_lt k ltac:(lia)). pose proof (parent_lt (parent j) Hi).
    assert (f (parent (parent j)) <= f (parent j)) by (apply Ho; lia).
    swap_cases. rewrite <- Hp in *. etrans; [eassumption|]. apply Ho; lia.
Qed.

Lemma hole_stop n f i : hole n f i ->
  (forall k, (0 < k < n)%nat -> parent k = i -> f i <= f k) -> up_hole n f i.
Proof.
  intros [Ho Hg] Hc. split; [|done]. intros k Hk Hne.
  destruct (decide (parent k = i)) as [Hp|Hp]; [rewrite Hp; auto|auto].
Qed.

Lemma hole_step n f i j : hole n f i -> (i < n)%nat -> (0 < j < n)%nat -> parent j = i ->
  (forall k, (0 < k < n)%nat -> parent k = i -> f j <= f k) -> f j < f i ->
  down_hole n (swapf f i j) j.
Proof.
  intros [Ho Hg] Hi Hj Hp Hmin Hlt. pose proof (parent_lt j ltac:(lia)). split; [split|].
  - intros k Hk Hne Hnp. pose proof (parent_lt k ltac:(lia)). swap_cases.
    + apply Hmin; done.
    + apply Hg; lia.
    + apply Ho; lia.
  - intros _ k Hk Hkj. pose proof (parent_lt k ltac:(lia)). swap_cases.
    apply Ho; lia.
  - intros _. swap_cases.
Qed.

Lemma down_hole_stop n f i : down_hole n f i ->
  (forall k, (0 < k < n)%nat -> parent k = i -> f i <= f k) -> heap_upto n f.
Proof.
  intros [Hh Hp] Hc. apply (up_hole_stop n f i); [apply hole_stop; done|].
  destruct (decide (i = 0%nat)); [auto|right; apply Hp; lia].
Qed.

Lemma up_hole_ext n f g j : (forall k, f k = g k) -> up_hole n g j -> up_hole n f j.
Proof. intros E. unfold up_hole, grand. setoid_rewrite E. done. Qed.
Lemma down_hole_ext n f g j : (forall k, f k = g k) -> down_hole n g j -> down_hole n f j.
Proof. intros E. unfold down_hole, hole, grand. setoid_rewrite E. done. Qed.

(** Moving the last element into position [i] leaves a hole there. *)
Lemma hole_swap_last n f i : heap_upto (S n) f -> (i <= n)%nat -> hole n (swapf f i n) i.
Proof.
  intros Hh Hi. split.
  - intros k Hk Hne Hnp. pose proof (parent_lt k ltac:(lia)). swap_cases. apply Hh. lia.
  - intros Hi0 k Hk Hp. pose proof (parent_lt i Hi0). pose proof (parent_lt k ltac:(lia)).
    swap_cases. etrans; [apply Hh; lia|]. apply Hh. lia.
Qed.
Lemma hole_ext n f g i : (forall k, f k = g k) -> hole n g i -> hole n f i.
Proof. intros E. unfold hole, grand. setoid_rewrite E. done. Qed.

(** The head of a heap is its least priority. *)
Lemma heap_upto_min n f k : heap_upto n f -> (k < n)%nat -> f 0%nat <= f k.
Proof.
  intros Hh. induction (lt_wf k) as [k _ IH]. intros Hk.
  destruct (decide (k = 0%nat)) as [->|Hne]; [lia|].
  pose proof (parent_lt k ltac:(lia)). etrans; [apply (IH (parent k)); lia|apply Hh; lia].
Qed.

(** * What the loops do to the queue *)

Section Loops.
Context {T : Type} `{ItemLaws T}.
Implicit Type st : heap T.

(** Every object in the queue knows its position. *)
Definition coherent st : Prop :=
  NoDup (pq st) /\
  forall i a, pq st !! i = Some a -> exists x, store st !! a = Some x /\ index x = Z.of_nat i.

Definition key st (i : nat) : Z :=
  match pq st !! i ≫= fun a => store st !! a with Some x => pri x | None => 0 end.

(** The objects without their positions. *)
Definition strip (s : gmap loc T) : gmap loc T := set_index 0 <$> s.

(** [st'] is [st] with the first [n] positions rearranged. *)
Record moved (n : nat) st st' : Prop := {
  mv_perm : pq st' ≡ₚ pq st;
  mv_cap : pcap st' = pcap st;
  mv_tail : forall k, (n <= k)%nat -> pq st' !! k = pq st !! k;
  mv_strip : strip (store st') = strip (store st);
  mv_other : forall a, a ∉ pq st -> store st' !! a = store st !! a;
  mv_coherent : coherent st'
}.

Lemma moved_refl n st : coherent st -> moved n st st.
Proof. intros Hc. split; auto. Qed.

Lemma moved_trans n st st' st'' : moved n st st' -> moved n st' st'' -> moved n st st''.
Proof.
  intros [P1 C1 T1 S1 O1 K1] [P2 C2 T2 S2 O2 K2]. split; try congruence; auto.
  - etrans; eassumption.
  - intros k Hk. rewrite T2, T1 by done. reflexivity.
  - intros a Ha. rewrite O2, O1; [done|done|rewrite P1; done].
Qed.

Lemma moved_le n m st st' : (n <= m)%nat -> moved n st st' -> moved m st st'.
Proof. intros Hle [P C Tl S O K]. split; auto. intros k Hk. apply Tl. lia. Qed.

Lemma moved_length n st st' : moved n st st' -> length (pq st') = length (pq st).
Proof. intros M. apply Permutation_length, (mv_perm _ _ _ M). Qed.

Lemma strip_lookup s a : strip s !! a = set_index 0 <$> s !! a.
Proof. apply lookup_fmap. Qed.

Lemma strip_alter i a s : strip (alter (set_index i) a s) = strip s.
Proof.
  apply map_eq. intros b. rewrite !strip_lookup. destruct (decide (a = b)) as [->|Hne].
  - rewrite lookup_alter_eq. destruct (s !! b); cbn; [rewrite set_index_twice|]; reflexivity.
  - rewrite lookup_alter_ne by done. reflexivity.
Qed.

(** Positions do not matter to the priority an address has. *)
Lemma strip_pri s s' a x : strip s' = strip s -> s !! a = Some x ->
  exists x', s' !! a = Some x' /\ pri x' = pri x.
Proof.
  intros Hs Ha. apply (f_equal (fun s => s !! a)) in Hs. rewrite !strip_lookup, Ha in Hs.
  destruct (s' !! a) as [x'|]; [|discriminate]. injection Hs as Hs. exists x'. split; [done|].
  rewrite <- (pri_set_index 0 x'), Hs. apply pri_set_index.
Qed.

Lemma coherent_at st i : coherent st -> (i < length (pq st))%nat ->
  exists a x, pq st !! i = Some a /\ store st !! a = Some x /\ index x = Z.of_nat i /\ key st i = pri x.
Proof.
  intros [_ Hc] Hi. destruct (lookup_lt_is_Some_2 _ _ Hi) as [a Ha].
  destruct (Hc i a Ha) as (x & Hx & Hix). exists a, x. unfold key. rewrite Ha. cbn. rewrite Hx. auto.
Qed.

Lemma pri_at_key st i : coherent st -> (i < length (pq st))%nat -> pri_at st i = Ret (key st i).
Proof.
  intros Hc Hi. destruct (coherent_at st i Hc Hi) as (a & x & Ha & Hx & _ & Hk).
  unfold pri_at. rewrite Ha. cbn. rewrite Hx, Hk. reflexivity.
Qed.

Lemma key_lookup st st' i j : strip (store st') = strip (store st) -> pq st' !! i = pq st !! j ->
  coherent st -> key st' i = key st j.
Proof.
  intros Hs Hl [_ Hc]. unfold key. rewrite Hl. destruct (pq st !! j) as [a|] eqn:Ha; [|reflexivity].
  destruct (Hc j a Ha) as (x & Hx & _). destruct (strip_pri _ _ _ _ Hs Hx) as (x' & Hx' & Hp).
  cbn. rewrite Hx, Hx'. done.
Qed.

Lemma NoDup_lookup_ne (l : list loc) i j a b : NoDup l -> l !! i = Some a -> l !! j = Some b ->
  i <> j -> a <> b.
Proof. intros Hn Ha Hb Hne ->. apply Hne. eapply NoDup_lookup; eassumption. Qed.

Lemma Swap_spec n i j st : coherent st -> (i < n)%nat -> (j < n)%nat -> (n <= length (pq st))%nat ->
  exists st', Swap i j st = Ret st' /\ moved n st st' /\ pq st' !! j = pq st !! i /\
    (forall k, key st' k = swapf (key st) i j k).
Proof.
  intros Hc Hi Hj Hn. pose proof Hc as [Hnd Hat].
  destruct (coherent_at st i Hc ltac:(lia)) as (a & x & Ha & Hx & Hix & _).
  destruct (coherent_at st j Hc ltac:(lia)) as (b & y & Hb & Hy & Hiy & _).
  unfold Swap. rewrite Ha, Hb, Hx, Hy. eexists. split; [reflexivity|].
  assert (forall k, <[j:=a]> (<[i:=b]> (pq st)) !! k =
    if decide (k = j) then Some a else if decide (k = i) then Some b else pq st !! k) as Hl.
  { intros k. destruct (decide (k = j)) as [->|Hkj].
    - apply list_lookup_insert_eq. rewrite length_insert. lia.
    - rewrite list_lookup_insert_ne by done. destruct (decide (k = i)) as [->|Hki].
      + apply list_lookup_insert_eq. lia.
      + rewrite list_lookup_insert_ne by done. reflexivity. }
  split; [split|split; [cbn [pq]; rewrite Hl, decide_True by done; congruence|]]; cbn [pq store pcap]; try done.
  - apply Permutation_insert_swap; done.
  - intros k Hk. rewrite Hl, !decide_False by lia. reflexivity.
  - rewrite !strip_alter. reflexivity.
  - intros c Hcn. assert (a <> c /\ b <> c) as [? ?]
      by (split; intros ->; apply Hcn; eapply list_elem_of_lookup_2; eassumption).
    rewrite !lookup_alter_ne by done. reflexivity.
  - split; cbn [pq store]; [rewrite Permutation_insert_swap by done; done|]. intros k c. rewrite Hl. destruct (decide (k = j)) as [->|Hkj].
    + intros [= <-]. rewrite lookup_alter_eq. destruct (decide (a = b)) as [->|Hab].
      * rewrite lookup_alter_eq, Hy. eexists. split; [reflexivity|]. apply index_set_index.
      * rewrite lookup_alter_ne, Hx by done. eexists. split; [reflexivity|]. apply index_set_index.
    + destruct (decide (k = i)) as [->|Hki].
      * intros [= <-]. pose proof (NoDup_lookup_ne _ _ _ _ _ Hnd Ha Hb Hkj).
        rewrite lookup_alter_ne, lookup_alter_eq, Hy by done.
        eexists. split; [reflexivity|]. apply index_set_index.
      * intros Hk. pose proof (NoDup_lookup_ne _ _ _ _ _ Hnd Hk Ha Hki).
        pose proof (NoDup_lookup_ne _ _ _ _ _ Hnd Hk Hb Hkj).
        rewrite !lookup_alter_ne by done. apply Hat, Hk.
  - intros k. unfold swapf.
    assert (forall m, <[j:=a]> (<[i:=b]> (pq st)) !! k = pq st !! m ->
      key (mkHeap (alter (set_index (Z.of_nat j)) a (alter (set_index (Z.of_nat i)) b (store st)))
             (<[j:=a]> (<[i:=b]> (pq st))) (pcap st)) k = key st m) as Hkey.
    { intros m Hm. apply key_lookup; [cbn; rewrite !strip_alter; reflexivity|exact Hm|exact Hc]. }
    destruct (decide (k = i)) as [->|Hki]; [|destruct (decide (k = j)) as [->|Hkj]];
      apply Hkey; rewrite Hl.
    + destruct (decide (i = j)) as [->|]; [congruence|]. rewrite decide_True by done. congruence.
    + rewrite decide_True by done. congruence.
    + rewrite !decide_False by done. reflexivity.
Qed.

Lemma up_loop_spec fuel n j st : coherent st -> (j < fuel)%nat -> (j < n)%nat ->
  (n <= length (pq st))%nat -> up_hole n (key st) j ->
  exists st', up_loop fuel j st = Ret st' /\ moved (S j) st st' /\ heap_upto n (key st').
Proof.
  revert j st. induction fuel as [|fuel IH]; intros j st Hc Hf Hj Hn Hu; [lia|].
  cbn [up_loop]. cbv zeta. change ((j - 1) / 2)%nat with (parent j).
  destruct (decide (parent j = j)) as [Hpj|Hpj].
  { exists st. split; [reflexivity|]. split; [apply moved_refl; done|].
    apply (up_hole_stop n _ j Hu). left. destruct j; [done|].
    pose proof (parent_lt (S j) ltac:(lia)). lia. }
  assert (0 < j)%nat as Hj0 by (destruct j; [done|lia]). pose proof (parent_lt j Hj0).
  rewrite !pri_at_key by (done || lia). cbn [mbind outcome_bind].
  destruct (_ >=? _) eqn:Hge; [|rewrite Z.geb_leb in Hge; zbool].
  { exists st. split; [reflexivity|]. split; [apply moved_refl; done|].
    apply (up_hole_stop n _ j Hu). right. lia. }
  destruct (Swap_spec (S j) (parent j) j st) as (st1 & -> & Hm & _ & Hk); [done|lia..|].
  cbn [mbind outcome_bind]. pose proof (moved_length _ _ _ Hm).
  destruct (IH (parent j) st1) as (st2 & -> & Hm2 & Hh); [apply Hm|lia..| |].
  - eapply up_hole_ext; [exact Hk|]. apply up_hole_step; done.
  - exists st2. split; [reflexivity|]. split; [|done].
    eapply moved_trans; [exact Hm|]. apply (moved_le (S (parent j))); [lia|done].
Qed.

Lemma down_child_spec n i st : coherent st -> (2 * i + 1 < n)%nat -> (n <= length (pq st))%nat ->
  exists j, down_child st (2 * i + 1) n = Ret j /\ (0 < j < n)%nat /\ parent j = i /\
    forall k, (0 < k < n)%nat -> parent k = i -> key st j <= key st k.
Proof.
  intros Hc Hi Hn. unfold down_child. case_decide as Hj2.
  - rewrite !pri_at_key by (done || lia). cbn [mbind outcome_bind]. eexists. split; [reflexivity|].
    destruct (_ >=? _) eqn:Hge; [|rewrite Z.geb_leb in Hge; zbool];
      (split; [lia|]; split; [apply parent_child; lia|]); intros k Hk Hp;
      apply parent_child in Hp as [->| ->]; try lia;
      replace (2 * i + 2)%nat with (S (2 * i + 1)) by lia; lia.
  - eexists. split; [reflexivity|]. split; [lia|]. split; [apply parent_child; lia|].
    intros k Hk Hp. apply parent_child in Hp as [->| ->]; lia.
Qed.

Lemma down_loop_spec fuel n i st : coherent st -> (n <= fuel + i)%nat ->
  (n <= length (pq st))%nat -> hole n (key st) i ->
  exists st', down_loop fuel i n st = Ret st' /\ moved n st st' /\ up_hole n (key st') i /\
    (down_hole n (key st) i -> heap_upto n (key st')).
Proof.
  revert i st. induction fuel as [|fuel IH]; intros i st Hc Hf Hn Hh.
  all: assert ((forall k, (0 < k < n)%nat -> parent k = i -> key st i <= key st k) ->
      moved n st st /\ up_hole n (key st) i /\ (down_hole n (key st) i -> heap_upto n (key st))) as Hstop
    by (intros Hs; split; [apply moved_refl; done|]; split; [apply hole_stop; done|];
        intros Hd; apply (down_hole_stop n _ i); done).
  { exists st. split; [reflexivity|]. apply Hstop. intros k Hk Hp.
    pose proof (parent_lt k ltac:(lia)). lia. }
  cbn [down_loop]. cbv zeta. case_decide as Hj1.
  { exists st. split; [reflexivity|]. apply Hstop. intros k Hk Hp. apply parent_child in Hp; lia. }
  destruct (down_child_spec n i st) as (j & -> & Hj & Hp & Hmin); [done|lia|done|].
  cbn [mbind outcome_bind]. pose proof (parent_lt j ltac:(lia)).
  rewrite !pri_at_key by (done || lia). cbn [mbind outcome_bind].
  destruct (_ >=? _) eqn:Hge; [|rewrite Z.geb_leb in Hge; zbool].
  { exists st. split; [reflexivity|]. apply Hstop. intros k Hk Hpk. specialize (Hmin k Hk Hpk). lia. }
  destruct (Swap_spec n i j st) as (st1 & -> & Hm & _ & Hk); [done|lia..|].
  cbn [mbind outcome_bind]. pose proof (moved_length _ _ _ Hm).
  assert (down_hole n (key st1) j) as Hd
    by (eapply down_hole_ext; [exact Hk|]; apply hole_step; (done || lia)).
  destruct (IH j st1) as (st2 & -> & Hm2 & _ & Hheap); [apply Hm|lia..|apply Hd|].
  exists st2. split; [reflexivity|]. split; [eapply moved_trans; eassumption|].
  split; [apply heap_up_hole|]; auto.
Qed.

(** * The operations *)

(** The invariant of the queue: positions are right, the slice is a heap and
    its capacity is enough (and never zero, so doubling it makes room). *)
Record wf st : Prop := {
  wf_coherent : coherent st;
  wf_heap : heap_upto (length (pq st)) (key st);
  wf_cap : zlen (pq st) <= pcap st;
  wf_cap_pos : 1 <= pcap st
}.

Lemma heap_upto_le n m f : (n <= m)%nat -> heap_upto m f -> heap_upto n f.
Proof. intros Hle Hh k Hk. apply Hh. lia. Qed.

Lemma heap_upto_ext n f g : (forall k, (k < n)%nat -> f k = g k) -> heap_upto n g -> heap_upto n f.
Proof.
  intros E Hh k Hk. pose proof (parent_lt k ltac:(lia)). rewrite !E by lia. apply Hh, Hk.
Qed.

Lemma drop_last_spec n st : coherent st -> length (pq st) = S n -> heap_upto n (key st) ->
  exists x st', drop_last (S n) st = Ret (x, st') /\ pq st !! n = Some x /\
    pq st = pq st' ++ [x] /\ pcap st' = pcap st /\ strip (store st') = strip (store st) /\
    (index <$> store st' !! x = Some (-1)) /\ coherent st' /\ heap_upto n (key st').
Proof.
  intros Hc Hlen Hh. destruct (coherent_at st n Hc ltac:(lia)) as (x & m & Hx & Hm & _).
  assert (pq st = take n (pq st) ++ [x]) as Heq.
  { rewrite <- (take_drop n (pq st)) at 1. f_equal. rewrite (drop_S _ x) by done.
    rewrite drop_ge by lia. reflexivity. }
  unfold drop_last. replace (S n - 1)%nat with n by lia. rewrite Hx.
  eexists _, _. split; [reflexivity|]. cbn [set_pq write_index pq store pcap].
  split; [done|]. split; [exact Heq|]. split; [done|]. split; [apply strip_alter|].
  split; [rewrite lookup_alter_eq, Hm; cbn; f_equal; apply index_set_index|].
  pose proof Hc as [Hnd Hat]. rewrite Heq in Hnd. apply NoDup_app in Hnd as (Hnd1 & Hnotin & _).
  split; [split|].
  - cbn. done.
  - cbn [set_pq write_index pq store]. intros i a Ha. pose proof (list_elem_of_lookup_2 _ _ _ Ha) as Hin.
    apply lookup_take_Some in Ha as [Ha _]. rewrite lookup_alter_ne; [apply Hat, Ha|].
    intros <-. apply (Hnotin x Hin). constructor.
  - eapply heap_upto_ext; [|exact Hh]. intros k Hk. apply key_lookup; [apply strip_alter| |done].
    cbn. apply lookup_take_lt, Hk.
Qed.

Lemma heap_hole n f i : heap_upto n f -> hole n f i.
Proof. intros Hh. destruct (heap_up_hole n f i Hh) as [? Hg]. split; auto. Qed.

(** Growing the slice: room for one more, everything else unchanged. *)
Lemma grow_spec n st : pcap st >= 1 -> Z.of_nat n <= pcap st ->
  let st1 := if Z.of_nat n + 1 >? pcap st then set_cap (pcap st * 2) st else st in
  store st1 = store st /\ pq st1 = pq st /\ Z.of_nat n + 1 <= pcap st1.
Proof.
  intros Hp Hn st1. unfold st1, set_cap. destruct (_ >? _) eqn:E; cbn; rewrite Z.gtb_ltb in E; zbool; (split; [done|split; [done|lia]]).
Qed.

(** Appending an object at the end, with its position. *)
Lemma append_spec x m st st1 : coherent st -> store st !! x = Some m -> x ∉ pq st ->
  heap_upto (length (pq st)) (key st) -> store st1 = store st ->
  let n := length (pq st) in
  let st2 := set_pq (pq st ++ [x]) (write_index x (Z.of_nat n) st1) in
  coherent st2 /\ up_hole (S n) (key st2) n /\ strip (store st2) = strip (store st).
Proof.
  intros Hc Hm Hx Hh Hs1 n st2. pose proof Hc as [Hnd Hat].
  assert (strip (store st2) = strip (store st)) as Hs2 by (cbn; rewrite Hs1; apply strip_alter).
  split; [|split; [|done]].
  - split; cbn; [|rewrite Hs1].
    + apply NoDup_app. split; [done|]. split; [|apply NoDup_singleton].
      intros a Ha ->%list_elem_of_singleton. done.
    + intros i a. rewrite lookup_app_Some, list_lookup_singleton_Some.
      intros [Ha|(Hi & Hn & <-)].
      * rewrite lookup_alter_ne; [apply Hat, Ha|]. intros ->. apply Hx. eapply list_elem_of_lookup_2, Ha.
      * rewrite lookup_alter_eq, Hm. eexists. split; [reflexivity|]. rewrite index_set_index.
        f_equal. unfold n. lia.
  - assert (forall i, (i < n)%nat -> key st2 i = key st i) as Hkey.
    { intros i Hi. apply key_lookup; [done| |done]. cbn. apply lookup_app_l. done. }
    split.
    + intros k Hk Hkn. pose proof (parent_lt k ltac:(lia)). rewrite !Hkey by lia. apply Hh. fold n. lia.
    + intros _ k Hk Hp. pose proof (parent_lt k ltac:(lia)). lia.
Qed.

(** [Push] of an object that is not in the queue adds it. *)
Lemma Push_spec x st : wf st -> is_Some (store st !! x) -> x ∉ pq st ->
  exists st', Push x st = Ret st' /\ wf st' /\ pq st' ≡ₚ x :: pq st /\
    strip (store st') = strip (store st).
Proof.
  intros [Hc Hh Hcap Hpos] [m Hm] Hx. unfold Push. cbv zeta.
  destruct (grow_spec (length (pq st)) st) as (Hs1 & Hp1 & Hc1); [lia|exact Hcap|].
  set (st1 := if Z.of_nat (length (pq st)) + 1 >? pcap st then set_cap (pcap st * 2) st else st) in *.
  rewrite Z.gtb_ltb, (proj2 (Z.ltb_ge _ _)) by lia. rewrite Hs1, Hm, Hp1.
  destruct (append_spec x m st st1) as (Hc2 & Hu2 & Hs2); [done..|].
  set (st2 := set_pq _ _) in *. set (n := length (pq st)) in *.
  assert (length (pq st2) = S n) as Hl2 by (cbn; rewrite length_app; cbn; unfold n; lia).
  destruct (up_loop_spec (S n) (S n) n st2) as (st3 & Hup & Hmv & Hh3); [done|lia..|done|].
  exists st3. split; [exact Hup|]. pose proof (moved_length _ _ _ Hmv) as Hl3.
  split; [split|].
  - apply Hmv.
  - rewrite Hl3, Hl2. done.
  - unfold zlen. rewrite Hl3, Hl2, (mv_cap _ _ _ Hmv). cbn. lia.
  - rewrite (mv_cap _ _ _ Hmv). cbn. lia.
  - split.
    + rewrite (mv_perm _ _ _ Hmv). cbn. rewrite Permutation_app_comm. done.
    + rewrite (mv_strip _ _ _ Hmv). done.
Qed.

(** What is known of a queue from which [x] was taken. *)
Record taken (x : loc) st st' : Prop := {
  tk_wf : wf st';
  tk_perm : pq st ≡ₚ x :: pq st';
  tk_strip : strip (store st') = strip (store st);
  tk_index : index <$> store st' !! x = Some (-1)
}.

Lemma drop_last_taken n c st st3 x : wf st -> length (pq st) = S n -> moved (S n) st st3 ->
  pq st3 !! n = Some x -> heap_upto n (key st3) -> Z.of_nat n <= c -> 1 <= c ->
  exists st', drop_last (S n) (set_cap c st3) = Ret (x, st') /\ taken x st st'.
Proof.
  intros Hwf Hlen Hm Hx Hh Hnc Hc1. pose proof (moved_length _ _ _ Hm) as Hl3.
  destruct (drop_last_spec n (set_cap c st3)) as (y & st' & Hd & Hy & Heq & Hcap & Hs & Hi & Hc & Hh');
    [apply Hm|cbn; lia|done|].
  assert (y = x) as -> by (cbn in Hy; congruence). exists st'. split; [done|]. cbn [set_cap pq] in Heq.
  assert (length (pq st') = n) as Hl' by (apply (f_equal length) in Heq; rewrite length_app in Heq; cbn in Heq; lia).
  split; [split|..]; unfold zlen; rewrite ?Hl'; try done; try (rewrite Hcap; exact Hc1 || exact Hnc).
  - rewrite <- (mv_perm _ _ _ Hm), Heq, Permutation_app_comm. done.
  - rewrite Hs. apply Hm.
Qed.

Lemma drop_last_keep n st st3 x : wf st -> length (pq st) = S n -> moved (S n) st st3 ->
  pq st3 !! n = Some x -> heap_upto n (key st3) ->
  exists st', drop_last (S n) st3 = Ret (x, st') /\ taken x st st'.
Proof.
  intros Hwf Hlen Hm Hx Hh. pose proof (wf_cap _ Hwf). pose proof (wf_cap_pos _ Hwf). unfold zlen in *.
  destruct (drop_last_taken n (pcap st) st st3 x) as (st' & Hd & Ht); try done; try lia.
  exists st'. split; [|done]. rewrite <- (mv_cap _ _ _ Hm) in Hd. destruct st3; exact Hd.
Qed.

(** [Remove] of a position of the queue takes the object there. *)
Lemma Remove_spec i x st : wf st -> pq st !! i = Some x ->
  exists st', Remove (Z.of_nat i) st = Ret (x, st') /\ taken x st st'.
Proof.
  intros Hwf Hx. pose proof Hwf as [Hc Hh Hcap Hpos]. pose proof (lookup_lt_Some _ _ _ Hx) as Hi.
  unfold Remove. cbv zeta. destruct (length (pq st)) as [|n] eqn:Hlen; [lia|].
  destruct (_ =? _) eqn:Hlast; zbool.
  { assert (i = n) as -> by lia. apply drop_last_keep; try done.
    apply (heap_upto_le n (S n)); [lia|done]. }
  rewrite (proj2 (Z.ltb_ge _ _)) by lia. rewrite Nat2Z.id. replace (S n - 1)%nat with n by lia.
  destruct (Swap_spec (S n) i n st) as (st1 & -> & Hm1 & Hn & Hk); [done|lia..|].
  cbn [mbind outcome_bind]. pose proof (moved_length _ _ _ Hm1).
  destruct (down_loop_spec n n i st1) as (st2 & Hdown & Hm2 & Hu & _); [apply Hm1|lia..| |].
  { eapply hole_ext; [exact Hk|]. apply hole_swap_last; [done|lia]. }
  unfold down. rewrite Hdown. cbn [mbind outcome_bind]. pose proof (moved_length _ _ _ Hm2).
  destruct (up_loop_spec (S i) n i st2) as (st3 & Hup & Hm3 & Hh3); [apply Hm2|lia..|done|].
  unfold up. rewrite Hup. cbn [mbind outcome_bind].
  apply (drop_last_keep n st st3 x); try done.
  - eapply moved_trans; [exact Hm1|]. eapply moved_trans; [apply (moved_le n); [lia|exact Hm2]|].
    apply (moved_le (S i)); [lia|exact Hm3].
  - rewrite (mv_tail _ _ _ Hm3), (mv_tail _ _ _ Hm2), Hn by lia. done.
Qed.

(** [Pop] takes the head, whose priority is the least. *)
Lemma Pop_spec x l st : wf st -> pq st = x :: l ->
  exists st', Pop st = Ret (x, st') /\ taken x st st'.
Proof.
  intros Hwf Hx. pose proof Hwf as [Hc Hh Hcap Hpos].
  assert (pq st !! 0%nat = Some x) as Hx0 by (rewrite Hx; reflexivity).
  unfold Pop. destruct (length (pq st)) as [|n] eqn:Hlen; [rewrite Hx in Hlen; discriminate|].
  destruct (Swap_spec (S n) 0 n st) as (st1 & -> & Hm1 & Hn & Hk); [done|lia..|].
  cbn [mbind outcome_bind]. pose proof (moved_length _ _ _ Hm1).
  destruct (down_loop_spec n n 0 st1) as (st2 & Hdown & Hm2 & Hu & _); [apply Hm1|lia..| |].
  { eapply hole_ext; [exact Hk|]. apply hole_swap_last; [done|lia]. }
  unfold down. rewrite Hdown. cbn [mbind outcome_bind].
  assert (moved (S n) st st2) as Hm
    by (eapply moved_trans; [exact Hm1|]; apply (moved_le n); [lia|exact Hm2]).
  assert (pq st2 !! n = Some x) as Hxn by (rewrite (mv_tail _ _ _ Hm2) by lia; rewrite Hn; done).
  assert (heap_upto n (key st2)) as Hh2 by (eapply up_hole_stop; [exact Hu|auto]).
  destruct (_ && _) eqn:Hshrink; [|apply drop_last_keep; done].
  rewrite Z.gtb_ltb in Hshrink. zbool. apply drop_last_taken; try done; [lia|].
  pose proof (Z.div_le_lower_bound (pcap st) 2 1). lia.
Qed.

(** The priority of an object. *)
Definition prio st (a : loc) : Z := match store st !! a with Some x => pri x | None => 0 end.

Lemma prio_strip st st' a : strip (store st') = strip (store st) -> prio st' a = prio st a.
Proof.
  intros Hs. unfold prio. destruct (store st !! a) as [x|] eqn:Ha.
  - destruct (strip_pri _ _ _ _ Hs Ha) as (x' & -> & Hp). done.
  - apply (f_equal (fun s => s !! a)) in Hs. rewrite !strip_lookup, Ha in Hs.
    destruct (store st' !! a); [discriminate|done].
Qed.

Lemma key_prio st i a : pq st !! i = Some a -> key st i = prio st a.
Proof. intros Ha. unfold key, prio. rewrite Ha. reflexivity. Qed.

(** The head has the least priority. *)
Lemma head_least st x l b : wf st -> pq st = x :: l -> b ∈ pq st -> prio st x <= prio st b.
Proof.
  intros Hwf Hx Hb. apply list_elem_of_lookup in Hb as [i Hi].
  rewrite <- (key_prio st 0 x), <- (key_prio st i b) by (rewrite Hx in *; done).
  eapply heap_upto_min; [apply Hwf|]. eapply lookup_lt_Some, Hi.
Qed.

Lemma wf_lookup st a : wf st -> a ∈ pq st -> exists i x, pq st !! i = Some a /\ store st !! a = Some x /\
  index x = Z.of_nat i.
Proof.
  intros Hwf Ha. apply list_elem_of_lookup in Ha as [i Hi].
  destruct (wf_coherent _ Hwf) as [_ Hat]. destruct (Hat i a Hi) as (x & Hx & Hix). eauto 10.
Qed.

(** [PeekAndShift] on a queue that is not empty looks at an object [x] of
    least priority. *)
Lemma PeekAndShift_head t st : wf st -> pq st <> [] ->
  exists x, x ∈ pq st /\ (forall b, b ∈ pq st -> prio st x <= prio st b) /\
    if prio st x >? t then PeekAndShift t st = Ret (None, prio st x - t, st)
    else exists st', PeekAndShift t st = Ret (Some x, 0, st') /\ taken x st st'.
Proof.
  intros Hwf Hne. destruct (pq st) as [|x l] eqn:Hpq; [done|]. exists x. split; [constructor|].
  split; [intros b Hb; eapply head_least; [done|exact Hpq|rewrite Hpq; done]|].
  unfold PeekAndShift. rewrite Hpq.
  rewrite pri_at_key by (apply Hwf || (rewrite Hpq; cbn; lia)).
  rewrite (key_prio st 0 x) by (rewrite Hpq; done). cbn [mbind outcome_bind].
  destruct (_ >? _); [reflexivity|]. destruct (Pop_spec x l st Hwf Hpq) as (st' & -> & Ht).
  exists st'. auto.
Qed.

(** Membership after a removal. *)
Lemma taken_elem x st st' b : wf st -> taken x st st' -> b ∈ pq st' <-> b ∈ pq st /\ b <> x.
Proof.
  intros Hwf [_ Hp _ _]. destruct (wf_coherent _ Hwf) as [Hnd _].
  rewrite Hp in Hnd. apply NoDup_cons in Hnd as [Hx _].
  rewrite Hp, elem_of_cons. split; [|tauto]. intros Hb. split; [auto|]. intros ->. done.
Qed.

(** An object that is not queued can be written without touching the queue. *)
Lemma wf_store_insert a x st : wf st -> a ∉ pq st -> wf (mkHeap (<[a := x]> (store st)) (pq st) (pcap st)).
Proof.
  intros [[Hnd Hat] Hh Hcap Hpos] Ha.
  assert (forall i b, pq st !! i = Some b -> b <> a) as Hne
    by (intros i b Hb ->; apply Ha; eapply list_elem_of_lookup_2, Hb).
  split; cbn [pq store pcap]; try done.
  - split; [done|]. cbn. intros i b Hb. rewrite lookup_insert_ne; [apply Hat, Hb|]. intros ->. eapply Hne; done.
  - eapply heap_upto_ext; [|exact Hh]. intros k Hk. unfold key. cbn.
    destruct (pq st !! k) as [b|] eqn:Hb; cbn; [|done].
    rewrite lookup_insert_ne; [done|]. intros ->. eapply Hne; done.
Qed.

(** Pushing an object that is not queued puts it into the queue, and the
    queue stays a heap whose objects know their positions. *)
Theorem Push_correct x st : wf st -> is_Some (store st !! x) -> x ∉ pq st ->
  exists st', Push x st = Ret st' /\ wf st' /\ pq st' ≡ₚ x :: pq st /\
    forall a, prio st' a = prio st a.
Proof.
  intros Hwf Hm Hx. destruct (Push_spec x st Hwf Hm Hx) as (st' & He & Hwf' & Hp & Hs).
  exists st'. eauto 10 using prio_strip.
Qed.

(** Removing an object at the position it records takes exactly that
    object out of the queue and marks it as not queued. *)
Theorem Remove_by_index x m st : wf st -> x ∈ pq st -> store st !! x = Some m ->
  exists st', Remove (index m) st = Ret (x, st') /\ wf st' /\ pq st ≡ₚ x :: pq st' /\
    (index <$> store st' !! x) = Some (-1) /\ forall a, prio st' a = prio st a.
Proof.
  intros Hwf Hx Hm. destruct (wf_lookup st x Hwf Hx) as (i & m' & Hi & Hm' & Hix).
  assert (m' = m) as -> by congruence. rewrite Hix.
  destruct (Remove_spec i x st Hwf Hi) as (st' & He & [? ? Hs ?]).
  exists st'. eauto 10 using prio_strip.
Qed.

(** [PeekAndShift] takes an object of least priority when that priority is
    due, and otherwise changes nothing and reports the time to wait. *)
Theorem PeekAndShift_correct t st : wf st ->
  (pq st = [] /\ PeekAndShift t st = Ret (None, 0, st)) \/
  exists x, x ∈ pq st /\ (forall b, b ∈ pq st -> prio st x <= prio st b) /\
    if prio st x >? t then PeekAndShift t st = Ret (None, prio st x - t, st)
    else exists st', PeekAndShift t st = Ret (Some x, 0, st') /\ taken x st st'.
Proof.
  intros Hwf. destruct (decide (pq st = [])) as [He|Hne]; [left|right; apply PeekAndShift_head; done].
  split; [done|]. unfold PeekAndShift. rewrite He. reflexivity.
Qed.
End Loops.
