(* ===== verification/Model.v ===== *)
(** The data the storage and the server share: [db.Message] with its log
    encoding (internal/db/model.go), [Conversation] and
    [NodeInFlightDataModel] (internal/db/db.go), the server's [Message]
    (internal/lim/message.go) and [NodeInFlightData]. *)
From stdpp Require Import base list strings pretty.
From Stdlib Require Import ZArith Lia Strings.Byte.
From S2P Require Import Prelude Wire Frames PQueue.

(** * internal/db *)
Module Db.
Record Message := mkMessage {
  Header : Z;
  AppliIndex : Z;
  Version : Z;
  Setting : Z;
  MessageID : Z;
  MessageSeq : Z;
  ClientMsgNo : string;
  Timestamp : Z;
  FromUID : string;
  QueueUID : string;
  ChannelID : string;
  ChannelType : Z;
  Payload : list byte
}.

(** [int64(m.MessageSeq)]. *)
Definition Offset (m : Message) : Z := MessageSeq m.
Definition GetAppliIndex (m : Message) : Z := AppliIndex m.

Definition MarshalMessage (m : Message) : list byte :=
  Bytes (NewEncoder
    |> WriteByte (Header m)
    |> WriteUint8 (Version m)
    |> WriteByte (Setting m)
    |> WriteInt64 (MessageID m)
    |> WriteUint32 (MessageSeq m)
    |> WriteString (ClientMsgNo m)
    |> WriteInt32 (Timestamp m)
    |> WriteString (FromUID m)
    |> WriteString (QueueUID m)
    |> WriteString (ChannelID m)
    |> WriteUint8 (ChannelType m)
    |> WriteBytes (Payload m)).

(** [UnmarshalMessage(data, m)] writes every field but [AppliIndex]. *)
Definition UnmarshalMessage (appliIndex : Z) : decoder Message :=
  header ← Uint8;
  version ← Uint8;
  setting ← Uint8;
  messageID ← Int64;
  messageSeq ← Uint32;
  clientMsgNo ← DecString;
  timestamp ← Int32;
  fromUID ← DecString;
  queueUID ← DecString;
  channelID ← DecString;
  channelType ← Uint8;
  payload ← BinaryAll;
  mret (mkMessage header appliIndex version setting messageID messageSeq clientMsgNo timestamp
    fromUID queueUID channelID channelType payload).

Definition Encode (m : Message) : outcome (list byte) := Ret (MarshalMessage m).
Definition Decode (appliIndex : Z) (data : list byte) : outcome Message :=
  '(m, _) ← UnmarshalMessage appliIndex data; Ret m.

Definition set_AppliIndex (i : Z) (m : Message) : Message :=
  mkMessage (Header m) i (Version m) (Setting m) (MessageID m) (MessageSeq m) (ClientMsgNo m)
    (Timestamp m) (FromUID m) (QueueUID m) (ChannelID m) (ChannelType m) (Payload m).

(** Field values within their Go types, strings the decoder can read back. *)
Record ok (m : Message) : Prop := {
  ok_Header : inU 8 (Header m);
  ok_Version : inU 8 (Version m);
  ok_Setting : inU 8 (Setting m);
  ok_MessageID : inS 64 (MessageID m);
  ok_MessageSeq : inU 32 (MessageSeq m);
  ok_ClientMsgNo : short (ClientMsgNo m);
  ok_Timestamp : inS 32 (Timestamp m);
  ok_FromUID : short (FromUID m);
  ok_QueueUID : short (QueueUID m);
  ok_ChannelID : short (ChannelID m);
  ok_ChannelType : inU 8 (ChannelType m)
}.

Record Conversation := mkConversation {
  UID : string;
  cChannelID : string;
  cChannelType : Z;
  UnreadCount : Z;
  cTimestamp : Z;
  LastMsgSeq : Z;
  LastClientMsgNo : string;
  LastMsgID : Z;
  cVersion : Z
}.

(** The request of the node-to-node call (protobuf message). *)
Record ForwardRecvPacketReq := mkForwardRecvPacketReq {
  ReqNo : string;
  Users : list string;
  ReqMessage : list byte;
  ReqFromDeviceFlag : Z
}.

Record NodeInFlightDataModel := mkNodeInFlightDataModel {
  No : string;
  NodeID : Z;
  Req : ForwardRecvPacketReq
}.
End Db.

#[export] Hint Resolve Db.ok_Header Db.ok_Version Db.ok_Setting Db.ok_MessageID Db.ok_MessageSeq
  Db.ok_ClientMsgNo Db.ok_Timestamp Db.ok_FromUID Db.ok_QueueUID Db.ok_ChannelID
  Db.ok_ChannelType : wire_ok.

(** * internal/lim *)
Module Lim.
(** [Message] embeds [RecvPacket]; [index] and [pri] belong to the retry
    queue. *)
Record Message := mkMessage {
  RecvPacket : Recv.RecvPacket;
  ToUID : string;
  Subscribers : list string;
  fromDeviceFlag : Z;
  toClientID : Z;
  m_index : Z;
  m_pri : Z
}.

Definition set_m_index (i : Z) (m : Message) : Message :=
  mkMessage (RecvPacket m) (ToUID m) (Subscribers m) (fromDeviceFlag m) (toClientID m) i (m_pri m).
Definition set_m_pri (p : Z) (m : Message) : Message :=
  mkMessage (RecvPacket m) (ToUID m) (Subscribers m) (fromDeviceFlag m) (toClientID m) (m_index m) p.

Record NodeInFlightData := mkNodeInFlightData {
  NodeInFlightDataModel : Db.NodeInFlightDataModel;
  n_pri : Z;
  n_index : Z
}.
Definition set_n_index (i : Z) (d : NodeInFlightData) : NodeInFlightData :=
  mkNodeInFlightData (NodeInFlightDataModel d) (n_pri d) i.
Definition set_n_pri (p : Z) (d : NodeInFlightData) : NodeInFlightData :=
  mkNodeInFlightData (NodeInFlightDataModel d) p (n_index d).
End Lim.

#[export] Instance Message_Item : Item Lim.Message :=
  {| pri := Lim.m_pri; index := Lim.m_index; set_index := Lim.set_m_index |}.
#[export] Instance Message_ItemLaws : ItemLaws Lim.Message.
Proof. split; reflexivity. Qed.

#[export] Instance NodeInFlightData_Item : Item Lim.NodeInFlightData :=
  {| pri := Lim.n_pri; index := Lim.n_index; set_index := Lim.set_n_index |}.
#[export] Instance NodeInFlightData_ItemLaws : ItemLaws Lim.NodeInFlightData.
Proof. split; reflexivity. Qed.

(** * The log encoding of messages *)

Lemma Unmarshal_Marshal m appliIndex : Db.ok m ->
  Db.UnmarshalMessage appliIndex (Db.MarshalMessage m) = Ret (Db.set_AppliIndex appliIndex m, []).
Proof.
  intros Hok. unfold Db.MarshalMessage, Db.UnmarshalMessage.
  to_image. repeat wire_step. unfold mbind, decoder_mbind. rewrite BinaryAll_all. reflexivity.
Qed.

(** A log record gives back the message it was made of; the index of the
    applied raft entry is not part of it and keeps the reader's value. *)
Theorem Decode_Encode_Message m appliIndex : Db.ok m ->
  exists data, Db.Encode m = Ret data /\
    Db.Decode appliIndex data = Ret (Db.set_AppliIndex appliIndex m).
Proof.
  intros Hok. eexists. split; [reflexivity|]. unfold Db.Decode.
  rewrite Unmarshal_Marshal by done. reflexivity.
Qed.

Definition message_example : Db.Message :=
  Db.mkMessage 3 9 1 128 77 5 "no-1" 1600000000 "alice" "" "g1" 2 (bytes_of_string "hi").

Lemma message_example_ok : Db.ok message_example.
Proof. constructor; vm_compute; intuition congruence. Qed.

Lemma Decode_Encode_Message_witness :
  exists data, Db.Encode message_example = Ret data /\
    Db.Decode 0 data = Ret (Db.set_AppliIndex 0 message_example).
Proof. exact (Decode_Encode_Message message_example 0 message_example_ok). Defined.
