(* ===== verification/Encodings.v ===== *)
(** The encodings of the standard library that the program uses:
    encoding/base64 ([StdEncoding]), encoding/hex and crypto/md5, with
    [util.MD5] (pkg/util/md5.go), which puts the last two together. *)
From stdpp Require Import base list strings.
From Stdlib Require Import ZArith Lia Strings.Byte.
From S2P Require Import Prelude.

(** * Base64 *)

(** The characters as bytes, in the order of their values. *)
Definition alphabet : list byte :=
  bytes_of_string "ABCDEFGHIJKLMNOPQRSTUVWXYZabcdefghijklmnopqrstuvwxyz0123456789+/".
Definition pad_char : byte := Byte.x3d.

Definition enc64 (v : Z) : byte := nth (Z.to_nat (Z.land v 0x3F)) alphabet Byte.x00.

Fixpoint index_of (b : byte) (l : list byte) : option Z :=
  match l with
  | [] => None
  | x :: l' => if decide (x = b) then Some 0 else Z.succ <$> index_of b l'
  end.
Definition dec64 (b : byte) : option Z := index_of b alphabet.

(** Three bytes are four characters; one or two left over are padded. *)
Fixpoint encode64 (l : list byte) : list byte :=
  match l with
  | [] => []
  | [a] =>
      let val := Z.shiftl (Z_of_byte a) 16 in
      [enc64 (Z.shiftr val 18); enc64 (Z.shiftr val 12); pad_char; pad_char]
  | [a; b] =>
      let val := Z.lor (Z.shiftl (Z_of_byte a) 16) (Z.shiftl (Z_of_byte b) 8) in
      [enc64 (Z.shiftr val 18); enc64 (Z.shiftr val 12); enc64 (Z.shiftr val 6); pad_char]
  | a :: b :: c :: l' =>
      let val := Z.lor (Z.lor (Z.shiftl (Z_of_byte a) 16) (Z.shiftl (Z_of_byte b) 8)) (Z_of_byte c) in
      enc64 (Z.shiftr val 18) :: enc64 (Z.shiftr val 12) :: enc64 (Z.shiftr val 6) :: enc64 val :: encode64 l'
  end.
Definition base64_EncodeToString (l : list byte) : string := string_of_bytes (encode64 l).

Definition CorruptInputError : error := ErrMsg "illegal base64 data".

(** Padding is for the last four characters only; bits that are left over are
    not looked at. *)
Fixpoint decode64 (l : list byte) : outcome (list byte) :=
  match l with
  | [] => Ret []
  | c0 :: c1 :: c2 :: c3 :: l' =>
      match dec64 c0, dec64 c1 with
      | Some v0, Some v1 =>
          let val1 := Z.lor (Z.shiftl v0 18) (Z.shiftl v1 12) in
          if decide (c2 = pad_char) then
            if decide (c3 = pad_char /\ l' = []) then Ret [byte_of_Z (Z.shiftr val1 16)] else Err CorruptInputError
          else
            match dec64 c2 with
            | None => Err CorruptInputError
            | Some v2 =>
                let val2 := Z.lor val1 (Z.shiftl v2 6) in
                if decide (c3 = pad_char) then
                  if decide (l' = []) then Ret [byte_of_Z (Z.shiftr val2 16); byte_of_Z (Z.shiftr val2 8)]
                  else Err CorruptInputError
                else
                  match dec64 c3 with
                  | None => Err CorruptInputError
                  | Some v3 =>
                      let val := Z.lor val2 v3 in
                      rest ← decode64 l';
                      Ret (byte_of_Z (Z.shiftr val 16) :: byte_of_Z (Z.shiftr val 8) :: byte_of_Z val :: rest)
                  end
            end
      | _, _ => Err CorruptInputError
      end
  | _ => Err CorruptInputError
  end.

(** The decoder skips line ends. *)
Definition is_newline (b : byte) : bool := bool_decide (b = Byte.x0a) || bool_decide (b = Byte.x0d).
Definition base64_DecodeString (s : string) : outcome (list byte) :=
  decode64 (filter (fun b => is_newline b = false) (bytes_of_string s)).

(** [DecodedLen], which is the capacity of the slice [DecodeString] returns. *)
Definition base64_DecodedLen (s : string) : Z := zlen (bytes_of_string s) / 4 * 3.

(** ** Decoding undoes encoding *)
Lemma dec64_enc64 v : 0 <= v < 64 -> dec64 (enc64 v) = Some v /\ enc64 v <> pad_char /\ is_newline (enc64 v) = false.
Proof.
  intros Hv. rewrite <- (Z2Nat.id v) by lia. assert (Z.to_nat v < 64)%nat as Hn by lia.
  generalize dependent (Z.to_nat v). intros n Hn. clear v Hv.
  do 64 (destruct n as [|n]; [vm_compute; repeat split; congruence|]). lia.
Qed.

Lemma enc64_land v : enc64 v = enc64 (v mod 64).
Proof. unfold enc64. change 0x3F with (Z.ones 6). rewrite !Z.land_ones by lia. change (2 ^ 6) with 64. by rewrite Zmod_mod. Qed.

Lemma dec64_enc v : dec64 (enc64 v) = Some (v mod 64) /\ enc64 v <> pad_char /\ is_newline (enc64 v) = false.
Proof. rewrite enc64_land. apply dec64_enc64, Z.mod_pos_bound. lia. Qed.

Lemma lor_shiftl a b k : 0 <= k -> 0 <= b < 2 ^ k -> Z.lor (Z.shiftl a k) b = a * 2 ^ k + b.
Proof. intros Hk Hb. rewrite Z.shiftl_mul_pow2 by done. by apply lor_low. Qed.

(** The bytes and their characters as numbers. *)
Lemma val3 a b c : 0 <= b < 256 -> 0 <= c < 256 ->
  Z.lor (Z.lor (Z.shiftl a 16) (Z.shiftl b 8)) c = a * 65536 + b * 256 + c.
Proof.
  intros Hb Hc. rewrite (Z.shiftl_mul_pow2 b) by lia. rewrite (lor_shiftl a) by lia.
  replace (a * 2 ^ 16 + b * 2 ^ 8) with (Z.shiftl (a * 256 + b) 8) by (rewrite Z.shiftl_mul_pow2; lia).
  rewrite lor_shiftl by lia. lia.
Qed.

Lemma val2 v0 v1 : 0 <= v1 < 64 -> Z.lor (Z.shiftl v0 18) (Z.shiftl v1 12) = v0 * 2 ^ 18 + v1 * 2 ^ 12.
Proof. intros H1. rewrite (Z.shiftl_mul_pow2 v1) by lia. rewrite lor_shiftl by lia. lia. Qed.

Lemma val3' v0 v1 v2 : 0 <= v1 < 64 -> 0 <= v2 < 64 ->
  Z.lor (Z.lor (Z.shiftl v0 18) (Z.shiftl v1 12)) (Z.shiftl v2 6) = v0 * 2 ^ 18 + v1 * 2 ^ 12 + v2 * 2 ^ 6.
Proof.
  intros H1 H2. rewrite val2 by done. rewrite (Z.shiftl_mul_pow2 v2) by lia.
  replace (v0 * 2 ^ 18 + v1 * 2 ^ 12) with (Z.shiftl (v0 * 64 + v1) 12) by (rewrite Z.shiftl_mul_pow2; lia).
  rewrite lor_shiftl by lia. rewrite ?Z.shiftl_mul_pow2 by lia. lia.
Qed.

Lemma val4 v0 v1 v2 v3 : 0 <= v1 < 64 -> 0 <= v2 < 64 -> 0 <= v3 < 64 ->
  Z.lor (Z.lor (Z.lor (Z.shiftl v0 18) (Z.shiftl v1 12)) (Z.shiftl v2 6)) v3 =
  v0 * 2 ^ 18 + v1 * 2 ^ 12 + v2 * 2 ^ 6 + v3.
Proof.
  intros H1 H2 H3. rewrite val3' by done.
  replace (v0 * 2 ^ 18 + v1 * 2 ^ 12 + v2 * 2 ^ 6) with (Z.shiftl (v0 * 4096 + v1 * 64 + v2) 6)
    by (rewrite Z.shiftl_mul_pow2; lia).
  rewrite lor_shiftl by lia. rewrite ?Z.shiftl_mul_pow2 by lia. lia.
Qed.

Lemma byte_of_Z_is z b : z mod 256 = Z_of_byte b -> byte_of_Z z = b.
Proof.
  intros E. rewrite <- (byte_of_Z_of_byte b). unfold byte_of_Z at 1 2. rewrite E.
  rewrite (Z.mod_small (Z_of_byte b)) by apply Z_of_byte_range. done.
Qed.

(** Every byte that [encode64] writes is in the alphabet, or pads. *)
Lemma encode64_no_newline l : filter (fun b => is_newline b = false) (encode64 l) = encode64 l.
Proof.
  apply filter_all. intros b. assert (forall v, is_newline (enc64 v) = false) as He by (intros v; apply dec64_enc).
  assert (is_newline pad_char = false) as Hp by reflexivity. revert b.
  assert (forall n l, (length l <= n)%nat -> forall b, b ∈ encode64 l -> is_newline b = false) as Hn; [|eauto].
  induction n as [|n IH]; intros l' Hl b Hb.
  - destruct l'; [inversion Hb|cbn in Hl; lia].
  - destruct l' as [|x [|y [|z r]]]; cbn [encode64] in Hb; [inversion Hb|..];
      rewrite ?elem_of_cons in Hb; destruct_or? Hb; subst; auto; try (by inversion Hb).
    apply (IH r); [cbn in Hl; lia|done].
Qed.

Lemma dec64_pad : dec64 pad_char = None.
Proof. reflexivity. Qed.

Ltac dec64_step := rewrite (proj1 (dec64_enc _)).
Ltac not_pad := rewrite (decide_False (P := enc64 _ = pad_char)) by apply (proj2 (dec64_enc _)).
Ltac mods := repeat split; apply Z.mod_pos_bound; lia.

Lemma decode64_encode64 l : decode64 (encode64 l) = Ret l.
Proof.
  assert (forall n l, (length l <= n)%nat -> decode64 (encode64 l) = Ret l) as Hn; [|eauto].
  clear l. induction n as [|n IH]; intros l Hl; [by destruct l; [|cbn in Hl; lia]|].
  destruct l as [|a [|b [|c r]]]; [done|..]; cbn [encode64 decode64]; repeat dec64_step.
  - pose proof (Z_of_byte_range a). rewrite (decide_True (P := pad_char = pad_char)) by done.
    rewrite decide_True by done. repeat f_equal. apply byte_of_Z_is. rewrite val2 by mods.
    rewrite !Z.shiftl_mul_pow2, !Z.shiftr_div_pow2 by lia. Z.to_euclidean_division_equations. lia.
  - pose proof (Z_of_byte_range a). pose proof (Z_of_byte_range b). not_pad.
    rewrite (decide_True (P := pad_char = pad_char)) by done. rewrite decide_True by done. rewrite val3' by mods.
    assert (Z.lor (Z.shiftl (Z_of_byte a) 16) (Z.shiftl (Z_of_byte b) 8) = Z_of_byte a * 65536 + Z_of_byte b * 256) as ->
      by (rewrite (Z.shiftl_mul_pow2 (Z_of_byte b)) by lia; rewrite lor_shiftl by lia; lia).
    rewrite !Z.shiftr_div_pow2 by lia.
    do 2 f_equal; [|f_equal]; apply byte_of_Z_is; Z.to_euclidean_division_equations; lia.
  - pose proof (Z_of_byte_range a). pose proof (Z_of_byte_range b). pose proof (Z_of_byte_range c). do 2 not_pad.
    rewrite val4 by mods. rewrite val3 by done. rewrite IH by (cbn in Hl; lia).
    cbn [mbind outcome_bind]. rewrite !Z.shiftr_div_pow2 by lia.
    f_equal. f_equal; [|f_equal; [|f_equal]]; apply byte_of_Z_is; Z.to_euclidean_division_equations; lia.
Qed.

Lemma Decode_Encode l : base64_DecodeString (base64_EncodeToString l) = Ret l.
Proof.
  unfold base64_DecodeString, base64_EncodeToString. rewrite bytes_of_string_of_bytes, encode64_no_newline.
  apply decode64_encode64.
Qed.

Lemma length_encode64 l : zlen (encode64 l) = 4 * ((zlen l + 2) / 3).
Proof.
  assert (forall n l, (length l <= n)%nat -> zlen (encode64 l) = 4 * ((zlen l + 2) / 3)) as Hn; [|eauto].
  clear l. induction n as [|n IH]; intros l Hl; [by destruct l; [|cbn in Hl; lia]|].
  destruct l as [|a [|b [|c r]]]; [done..|]. cbn [encode64]. unfold zlen in *. cbn [length] in *.
  specialize (IH r ltac:(lia)). Z.to_euclidean_division_equations. lia.
Qed.

(** * Hexadecimal *)
Definition hextable : list byte := bytes_of_string "0123456789abcdef".
Definition hex_digit (v : Z) : byte := nth (Z.to_nat (Z.land v 0x0F)) hextable Byte.x00.
Definition hex_EncodeToString (l : list byte) : string :=
  string_of_bytes (l ≫= fun b => [hex_digit (Z.shiftr (Z_of_byte b) 4); hex_digit (Z_of_byte b)]).

(** * MD5 (RFC 1321) *)
Definition md5_K : list Z :=
  [0xd76aa478; 0xe8c7b756; 0x242070db; 0xc1bdceee; 0xf57c0faf; 0x4787c62a;
   0xa8304613; 0xfd469501; 0x698098d8; 0x8b44f7af; 0xffff5bb1; 0x895cd7be;
   0x6b901122; 0xfd987193; 0xa679438e; 0x49b40821; 0xf61e2562; 0xc040b340;
   0x265e5a51; 0xe9b6c7aa; 0xd62f105d; 0x2441453; 0xd8a1e681; 0xe7d3fbc8;
   0x21e1cde6; 0xc33707d6; 0xf4d50d87; 0x455a14ed; 0xa9e3e905; 0xfcefa3f8;
   0x676f02d9; 0x8d2a4c8a; 0xfffa3942; 0x8771f681; 0x6d9d6122; 0xfde5380c;
   0xa4beea44; 0x4bdecfa9; 0xf6bb4b60; 0xbebfbc70; 0x289b7ec6; 0xeaa127fa;
   0xd4ef3085; 0x4881d05; 0xd9d4d039; 0xe6db99e5; 0x1fa27cf8; 0xc4ac5665;
   0xf4292244; 0x432aff97; 0xab9423a7; 0xfc93a039; 0x655b59c3; 0x8f0ccc92;
   0xffeff47d; 0x85845dd1; 0x6fa87e4f; 0xfe2ce6e0; 0xa3014314; 0x4e0811a1;
   0xf7537e82; 0xbd3af235; 0x2ad7d2bb; 0xeb86d391].
Definition md5_s : list Z :=
  concat (repeat [7; 12; 17; 22] 4 ++ repeat [5; 9; 14; 20] 4 ++ repeat [4; 11; 16; 23] 4 ++ repeat [6; 10; 15; 21] 4).

Definition not32 (x : Z) : Z := Z.lxor x 0xFFFFFFFF.
Definition rotl32 (x n : Z) : Z := Z.lor (u32 (Z.shiftl x n)) (Z.shiftr x (32 - n)).
Definition le_word (l : list byte) : Z := foldr (fun b acc => Z_of_byte b + 256 * acc) 0 l.
Fixpoint le_bytes (n : nat) (z : Z) : list byte :=
  match n with
  | O => []
  | S n' => byte_of_Z z :: le_bytes n' (Z.shiftr z 8)
  end.

Record md5_state := mkMd5 { md5_a : Z; md5_b : Z; md5_c : Z; md5_d : Z }.
Definition md5_init : md5_state := mkMd5 0x67452301 0xefcdab89 0x98badcfe 0x10325476.

Definition md5_round (block : list Z) (st : md5_state) (i : nat) : md5_state :=
  let '(mkMd5 a b c d) := st in
  let '(f, g) :=
    if (i <? 16)%nat then (Z.lor (Z.land b c) (Z.land (not32 b) d), i)
    else if (i <? 32)%nat then (Z.lor (Z.land d b) (Z.land (not32 d) c), ((5 * i + 1) mod 16)%nat)
    else if (i <? 48)%nat then (Z.lxor b (Z.lxor c d), ((3 * i + 5) mod 16)%nat)
    else (Z.lxor c (Z.lor b (not32 d)), ((7 * i) mod 16)%nat) in
  let x := u32 (f + a + nth i md5_K 0 + nth g block 0) in
  mkMd5 d (u32 (b + rotl32 x (nth i md5_s 0))) b c.

Definition md5_block (st : md5_state) (bytes : list byte) : md5_state :=
  let block := map (fun i => le_word (take 4 (drop (4 * i) bytes))) (seq 0 16) in
  let st' := foldl (md5_round block) st (seq 0 64) in
  mkMd5 (u32 (md5_a st + md5_a st')) (u32 (md5_b st + md5_b st')) (u32 (md5_c st + md5_c st')) (u32 (md5_d st + md5_d st')).

Fixpoint md5_blocks (n : nat) (st : md5_state) (bytes : list byte) : md5_state :=
  match n with
  | O => st
  | S n' => md5_blocks n' (md5_block st (take 64 bytes)) (drop 64 bytes)
  end.

Definition md5_padded (l : list byte) : list byte :=
  l ++ Byte.x80 :: repeat Byte.x00 (Z.to_nat ((55 - zlen l) mod 64)) ++ le_bytes 8 (8 * zlen l).
Definition md5_Sum (l : list byte) : list byte :=
  let p := md5_padded l in
  let st := md5_blocks (length p / 64) md5_init p in
  le_bytes 4 (md5_a st) ++ le_bytes 4 (md5_b st) ++ le_bytes 4 (md5_c st) ++ le_bytes 4 (md5_d st).

Definition MD5 (str : string) : string := hex_EncodeToString (md5_Sum (bytes_of_string str)).

Lemma length_MD5 str : length (bytes_of_string (MD5 str)) = 32%nat.
Proof. unfold MD5, hex_EncodeToString. rewrite bytes_of_string_of_bytes. unfold md5_Sum. cbn zeta. reflexivity. Qed.

Example MD5_empty : MD5 "" = "d41d8cd98f00b204e9800998ecf8427e"%string.
Proof. vm_compute. reflexivity. Qed.
Example MD5_abc : MD5 "message digest" = "f96b697d7cb7938d525a2f31aaf161d0"%string.
Proof. vm_compute. reflexivity. Qed.
Example MD5_long :
  MD5 "12345678901234567890123456789012345678901234567890123456789012345678901234567890" =
  "57edf4a22be3c955ac49da2e2107b67a"%string.
Proof. vm_compute. reflexivity. Qed.
Example base64_hello : base64_EncodeToString (bytes_of_string "hello") = "aGVsbG8="%string.
Proof. vm_compute. reflexivity. Qed.
