(* ===== verification/JsonTypes.v ===== *)
(** [util.ToJSON] and [util.ReadJSONByByte] (pkg/util/common.go) at the types
    the program stores or sends: strings, numbers, slices, maps of strings,
    [db.Message] and [db.Conversation]. *)
From Stdlib Require Import ZArith Lia Strings.Byte Strings.Ascii Strings.String.
From stdpp Require Import base list strings pretty.
From S2P Require Import Prelude Keys Strconv Json Encodings Wire Frames PQueue Model.

(** The value a type is written as, and what is read into a fresh variable
    of the type. *)
Class Jsonable (A : Type) := { toJSON : A -> value; fromJSON : value -> outcome A }.
(** What is written is read back, for the elements of [json_ok]. *)
Class JsonLaws (A : Type) `{Jsonable A} := {
  json_ok : A -> Prop;
  toJSON_proper a : json_ok a -> proper (toJSON a);
  fromJSON_toJSON a : json_ok a -> fromJSON (toJSON a) = Ret a
}.

Definition ToJSON {A} `{Jsonable A} (obj : A) : string := string_of_bytes (Marshal (toJSON obj)).
Definition ReadJSONByByte {A} `{Jsonable A} (body : list byte) : outcome A := v ← Decode body; fromJSON v.

Lemma ReadJSON_ToJSON {A} `{JsonLaws A} (a : A) : json_ok a -> ReadJSONByByte (bytes_of_string (ToJSON a)) = Ret a.
Proof.
  intros Ha. unfold ReadJSONByByte, ToJSON. rewrite bytes_of_string_of_bytes.
  pose proof (Decode_Marshal (toJSON a) [] (toJSON_proper a Ha) I) as E. rewrite app_nil_r in E. rewrite E.
  by apply fromJSON_toJSON.
Qed.

Lemma ToJSON_nonempty {A} `{JsonLaws A} (a : A) : json_ok a -> ToJSON a <> EmptyString.
Proof.
  intros Ha E. pose proof (starts_Marshal (toJSON a) (toJSON_proper a Ha)) as Hs. unfold ToJSON in E.
  apply (f_equal bytes_of_string) in E. rewrite bytes_of_string_of_bytes in E. by rewrite E in Hs.
Qed.

(** [UnmarshalTypeError]; [null] leaves a variable as it is. *)
Definition TypeError : error := ErrMsg "json: cannot unmarshal value".

(** ** Strings and numbers *)
Definition utf8 (s : string) : Prop := Valid (bytes_of_string s) = true.
#[export] Instance string_Jsonable : Jsonable string := {|
  toJSON s := Str (bytes_of_string s);
  fromJSON v := match v with Str s => Ret (string_of_bytes s) | Null => Ret EmptyString | _ => Err TypeError end
|}.
#[export] Instance string_JsonLaws : JsonLaws string.
Proof. refine {| json_ok := utf8 |}. - done. - intros s _. cbn. by rewrite string_of_bytes_of_string. Defined.

Definition num (z : Z) : value := Num (bytes_of_string (pretty z)).
(** A number of [w] bits, signed or not. *)
Definition asInt (w : Z) (v : value) : outcome Z :=
  match v with
  | Num s => match ParseIntW w (string_of_bytes s) with Some z => Ret z | None => Err TypeError end
  | Null => Ret 0
  | _ => Err TypeError
  end.
Definition asUint (w : Z) (v : value) : outcome Z :=
  match v with
  | Num s => match ParseUintW w (string_of_bytes s) with Some z => Ret z | None => Err TypeError end
  | Null => Ret 0
  | _ => Err TypeError
  end.

Lemma asInt_num w z : inS w z -> asInt w (num z) = Ret z.
Proof. intros H. cbn. by rewrite string_of_bytes_of_string, ParseIntW_pretty. Qed.
Lemma asUint_num w z : inU w z -> asUint w (num z) = Ret z.
Proof. intros H. cbn. by rewrite string_of_bytes_of_string, ParseUintW_pretty. Qed.

Lemma digits_all l : Forall (fun b => digit b = true) l -> digits l = (l, []).
Proof. induction 1 as [|b l Hb _ IH]; [done|]. cbn. by rewrite Hb, IH. Qed.

Lemma digit_char (d : N) : (d < 10)%N -> exists b, Ascii.byte_of_ascii (pretty_N_char d) = b /\ digit b = true /\
  ((0 < d)%N -> b <> "0"%byte).
Proof.
  intros Hd. assert (d = 0 \/ d = 1 \/ d = 2 \/ d = 3 \/ d = 4 \/ d = 5 \/ d = 6 \/ d = 7 \/ d = 8 \/ d = 9)%N as H by lia.
  repeat (destruct H as [->|H]; [eexists; split; [reflexivity|]; split; [reflexivity|]; intros; try discriminate; lia|]).
  subst. eexists. split; [reflexivity|]. split; [reflexivity|discriminate].
Qed.

Lemma pretty_go_digits x s : Forall (fun b => digit b = true) (bytes_of_string s) ->
  Forall (fun b => digit b = true) (bytes_of_string (pretty_N_go x s)).
Proof.
  revert s. induction (N.lt_wf_0 x) as [x _ IH]; intros s Hs.
  assert (x = 0 \/ 0 < x)%N as [->|?] by lia; [done|].
  rewrite pretty_N_go_step by done. apply IH; [by apply N.div_lt|]. cbn. constructor; [|exact Hs].
  by destruct (digit_char (x `mod` 10) ltac:(by apply N.mod_lt)) as (b & <- & Hb & _).
Qed.

Lemma pretty_N_digits (n : N) : Forall (fun b => digit b = true) (bytes_of_string (pretty n)).
Proof. unfold pretty, pretty_N. case_decide; [by repeat constructor|]. by apply pretty_go_digits. Qed.

(** A printed natural number is an integer part of the grammar. *)
Lemma number_pretty_N (n : N) : int_part (bytes_of_string (pretty n)) = Some (bytes_of_string (pretty n), []).
Proof.
  pose proof (pretty_N_digits n) as Hall.
  destruct (pretty_N_cases n) as [[_ ->]|(d & t & Hd & E)]; [done|]. rewrite E in Hall |- *.
  change (bytes_of_string (String (pretty_N_char d) t)) with (Ascii.byte_of_ascii (pretty_N_char d) :: bytes_of_string t) in *.
  destruct (digit_char d ltac:(lia)) as (b & Eb & Hb & H0). rewrite Eb in Hall |- *.
  assert (forall l, int_part (b :: l) = digits1 (b :: l)) as -> by (intros l; specialize (H0 ltac:(lia)); destruct b; done).
  unfold digits1. rewrite digits_all by done. done.
Qed.

Lemma number_pretty (z : Z) : number (bytes_of_string (pretty z)) = Some (bytes_of_string (pretty z), []).
Proof.
  assert (forall n : N, number (bytes_of_string (pretty n)) = Some (bytes_of_string (pretty n), [])) as HN.
  { intros n. pose proof (number_pretty_N n) as E. destruct (pretty_N_first n) as (c & t & Hp & Hm & _).
    rewrite Hp in E |- *. unfold number.
    assert (sign_part (bytes_of_string (String c t)) = ([], bytes_of_string (String c t))) as ->.
    { cbn. destruct c as [[] [] [] [] [] [] [] []]; try done; congruence. }
    rewrite E. cbn. by rewrite app_nil_r. }
  destruct z as [|p|p]; [done|exact (HN (N.pos p))|].
  change (pretty (Z.neg p)) with (String "-" (pretty (N.pos p))).
  change (bytes_of_string (String "-" (pretty (N.pos p)))) with ("-"%byte :: bytes_of_string (pretty (N.pos p))).
  unfold number. cbn [sign_part]. rewrite number_pretty_N. cbn. by rewrite app_nil_r.
Qed.

Lemma num_proper z : proper (num z).
Proof. apply number_pretty. Qed.

(** [int64] elements, as in a slice of message ids. *)
#[export] Instance int64_Jsonable : Jsonable Z := {| toJSON := num; fromJSON := asInt 64 |}.
#[export] Instance int64_JsonLaws : JsonLaws Z.
Proof. refine {| json_ok := inS 64 |}. - intros. apply num_proper. - apply asInt_num. Defined.

(** ** Slices

    A nil slice is written [null] and an empty one [[]]; both are read as no
    elements, and a slice without elements stands for both here. *)
Fixpoint collect {A B} (f : A -> outcome B) (l : list A) : outcome (list B) :=
  match l with [] => Ret [] | a :: l' => b ← f a; bs ← collect f l'; Ret (b :: bs) end.

#[export] Instance list_Jsonable {A} `{Jsonable A} : Jsonable (list A) := {|
  toJSON l := Arr (toJSON <$> l);
  fromJSON v := match v with Arr vs => collect fromJSON vs | Null => Ret [] | _ => Err TypeError end
|}.
#[export] Instance list_JsonLaws {A} `{JsonLaws A} : JsonLaws (list A).
Proof.
  refine {| json_ok := Forall json_ok |}.
  - intros l Hl. apply proper_Arr, Forall_fmap. eapply Forall_impl; [exact Hl|]. intros a. apply toJSON_proper.
  - intros l Hl. change (collect fromJSON (toJSON <$> l) = Ret l). induction Hl as [|a l Ha _ IH]; [done|].
    rewrite fmap_cons. cbn [collect]. rewrite fromJSON_toJSON by done. cbn [mbind outcome_bind]. by rewrite IH.
Defined.

(** ** Objects

    The members of an object that belong to a field: its name, in upper or
    lower case; a later one overrides an earlier one, and [null] changes
    nothing. (Go also folds two letters outside of ASCII.) *)
Definition lower (b : byte) : byte := if byte_in 65 90 b then byte_of_Z (Z_of_byte b + 32) else b.
Definition fold_eq (a b : list byte) : bool := bool_decide (map lower a = map lower b).

Section Fields.
Context {A : Type} (name : string) (as_ : value -> outcome A).
Fixpoint field_from (old : A) (ms : list (list byte * value)) : outcome A :=
  match ms with
  | [] => Ret old
  | (k, v) :: ms' =>
      if fold_eq k (bytes_of_string name) then
        match v with Null => field_from old ms' | _ => a ← as_ v; field_from a ms' end
      else field_from old ms'
  end.
End Fields.
Definition field {A} (name : string) (as_ : value -> outcome A) (zero : A) (ms : list (list byte * value)) : outcome A :=
  field_from name as_ zero ms.

(** [map[string]string] as a list of entries. *)
Definition asMap (v : value) : outcome (list (string * string)) :=
  match v with
  | Obj ms => collect (fun m => s ← fromJSON m.2; Ret (string_of_bytes m.1, s)) ms
  | Null => Ret []
  | _ => Err TypeError
  end.
(** [m[key]]: the last entry, or the zero value. *)
Fixpoint map_get (key : string) (m : list (string * string)) : string :=
  match m with
  | [] => EmptyString
  | (k, v) :: m' =>
      if bool_decide (k = key) && negb (bool_decide (key ∈ m'.*1)) then v else map_get key m'
  end.

Definition member (name : string) (v : value) : list byte * value := (bytes_of_string name, v).

(** [[]byte] is written in base64. *)
Definition bytes_value (l : list byte) : value := Str (bytes_of_string (base64_EncodeToString l)).
Definition asBytes (v : value) : outcome (list byte) :=
  match v with
  | Str s => base64_DecodeString (string_of_bytes s)
  | Null => Ret []
  | _ => Err TypeError
  end.
Definition asString (v : value) : outcome string := fromJSON v.

Lemma field_hit {A} name (as_ : value -> outcome A) old k v ms a :
  fold_eq k (bytes_of_string name) = true -> v <> Null -> as_ v = Ret a ->
  field_from name as_ old ((k, v) :: ms) = field_from name as_ a ms.
Proof. intros Hk Hv Ha. cbn [field_from]. rewrite Hk. destruct v; [done|..]; by rewrite Ha. Qed.
Lemma field_miss {A} name (as_ : value -> outcome A) old k v ms :
  fold_eq k (bytes_of_string name) = false -> field_from name as_ old ((k, v) :: ms) = field_from name as_ old ms.
Proof. intros Hk. cbn [field_from]. by rewrite Hk. Qed.

Lemma valid_ascii l : Forall (fun b => Z_of_byte b < 0x80) l -> Valid l = true.
Proof.
  unfold Valid. generalize (Nat.le_refl (length l)). generalize (length l) at 2 3. intros n Hn Hl. revert n Hn.
  induction Hl as [|b l Hb _ IH]; intros [|n] Hn; cbn [length] in Hn; try done; [lia|].
  cbn [valid_loop]. rewrite rune_len_ascii by done. cbn [drop]. apply IH. lia.
Qed.

Lemma utf8_pretty (z : Z) : 0 <= z -> utf8 (pretty z).
Proof.
  intros Hz. rewrite pretty_nonneg by done. apply valid_ascii. eapply Forall_impl; [apply pretty_N_digits|].
  intros b Hb. unfold digit, byte_in in Hb. lia.
Qed.

Lemma enc64_ascii v : Z_of_byte (enc64 v) < 0x80.
Proof.
  rewrite enc64_land. pose proof (Z.mod_pos_bound v 64 ltac:(lia)) as Hb. rewrite <- (Z2Nat.id (v mod 64)) by lia.
  assert (Z.to_nat (v mod 64) < 64)%nat as Hn by lia. generalize dependent (Z.to_nat (v mod 64)). intros n Hn.
  do 64 (destruct n as [|n]; [vm_compute; reflexivity|]). lia.
Qed.

Lemma encode64_ascii l : Forall (fun b => Z_of_byte b < 0x80) (encode64 l).
Proof.
  assert (forall n l, (length l <= n)%nat -> Forall (fun b => Z_of_byte b < 0x80) (encode64 l)) as Hn; [|eauto].
  clear l. induction n as [|n IH]; intros l Hl; [destruct l; [constructor|cbn in Hl; lia]|].
  destruct l as [|a [|b [|c r]]]; cbn [encode64]; [constructor|..];
    repeat first [apply Forall_cons; split; [first [apply enc64_ascii|vm_compute; reflexivity]|]]; try constructor.
  apply IH. cbn in Hl. lia.
Qed.

Lemma bytes_value_proper l : proper (bytes_value l).
Proof. cbn. unfold base64_EncodeToString. rewrite bytes_of_string_of_bytes. apply valid_ascii, encode64_ascii. Qed.
Lemma asBytes_value l : asBytes (bytes_value l) = Ret l.
Proof. cbn. rewrite string_of_bytes_of_string. apply Decode_Encode. Qed.
Lemma asString_text s : asString (Str (bytes_of_string s)) = Ret s.
Proof. cbn. by rewrite string_of_bytes_of_string. Qed.
Lemma text_proper s : utf8 s -> proper (Str (bytes_of_string s)).
Proof. done. Qed.

Definition string_value (s : string) : value := Str (bytes_of_string s).

(** The field that comes first, by kind. *)
Section Hits.
Context (name : string) (ms : list (list byte * value)) (k : list byte) (Hk : fold_eq k (bytes_of_string name) = true).
Lemma hit_int w old z : inS w z -> field_from name (asInt w) old ((k, num z) :: ms) = field_from name (asInt w) z ms.
Proof. intros Hz. by apply field_hit; [|done|apply asInt_num]. Qed.
Lemma hit_uint w old z : inU w z -> field_from name (asUint w) old ((k, num z) :: ms) = field_from name (asUint w) z ms.
Proof. intros Hz. by apply field_hit; [|done|apply asUint_num]. Qed.
Lemma hit_string old s : field_from name asString old ((k, string_value s) :: ms) = field_from name asString s ms.
Proof. apply field_hit; [done|done|apply asString_text]. Qed.
Lemma hit_bytes old l : field_from name asBytes old ((k, bytes_value l) :: ms) = field_from name asBytes l ms.
Proof. apply field_hit; [done|done|apply asBytes_value]. Qed.
End Hits.

Lemma bind_eq {A B} (m : outcome A) (f : A -> outcome B) a r : m = Ret a -> f a = r -> (m ≫= f) = r.
Proof. by intros ->. Qed.

(** Reads the next field of a struct that was just written. *)
Ltac same_name := vm_compute; reflexivity.
Ltac read_field :=
  eapply bind_eq;
  [ unfold field; repeat rewrite field_miss by same_name;
    first [ rewrite hit_uint by first [done|same_name] | rewrite hit_int by first [done|same_name]
          | rewrite hit_string by same_name | rewrite hit_bytes by same_name ];
    repeat rewrite field_miss by same_name; reflexivity
  | cbv beta ].

(** ** [db.Message] and [db.Conversation]

    A JSON [null] for a pointer to one of these, which the program never
    writes, is taken for an error. *)
Definition message_members (m : Db.Message) : list (list byte * value) :=
  [
    member "Header" (num (Db.Header m)); member "AppliIndex" (num (Db.AppliIndex m));
    member "Version" (num (Db.Version m)); member "Setting" (num (Db.Setting m));
    member "MessageID" (num (Db.MessageID m)); member "MessageSeq" (num (Db.MessageSeq m));
    member "ClientMsgNo" (string_value (Db.ClientMsgNo m)); member "Timestamp" (num (Db.Timestamp m));
    member "FromUID" (string_value (Db.FromUID m)); member "QueueUID" (string_value (Db.QueueUID m));
    member "ChannelID" (string_value (Db.ChannelID m)); member "ChannelType" (num (Db.ChannelType m));
    member "Payload" (bytes_value (Db.Payload m))].
Definition read_message (ms : list (list byte * value)) : outcome Db.Message :=
        header ← field "Header" (asUint 8) 0 ms;
  appliIndex ← field "AppliIndex" (asUint 64) 0 ms;
        version ← field "Version" (asUint 8) 0 ms;
        setting ← field "Setting" (asUint 8) 0 ms;
        messageID ← field "MessageID" (asInt 64) 0 ms;
        messageSeq ← field "MessageSeq" (asUint 32) 0 ms;
        clientMsgNo ← field "ClientMsgNo" asString EmptyString ms;
        timestamp ← field "Timestamp" (asInt 32) 0 ms;
        fromUID ← field "FromUID" asString EmptyString ms;
        queueUID ← field "QueueUID" asString EmptyString ms;
        channelID ← field "ChannelID" asString EmptyString ms;
        channelType ← field "ChannelType" (asUint 8) 0 ms;
        payload ← field "Payload" asBytes [] ms;
        Ret (Db.mkMessage header appliIndex version setting messageID messageSeq clientMsgNo timestamp
               fromUID queueUID channelID channelType payload).
#[export] Instance Message_Jsonable : Jsonable Db.Message := {|
  toJSON m := Obj (message_members m);
  fromJSON v := match v with Obj ms => read_message ms | _ => Err TypeError end
|}.

(** Field values within their Go types, strings that are UTF-8. *)
Definition message_ok (m : Db.Message) : Prop :=
  (inU 8 (Db.Header m) /\ inU 64 (Db.AppliIndex m) /\ inU 8 (Db.Version m) /\ inU 8 (Db.Setting m)) /\
  (inS 64 (Db.MessageID m) /\ inU 32 (Db.MessageSeq m) /\ inS 32 (Db.Timestamp m) /\ inU 8 (Db.ChannelType m)) /\
  utf8 (Db.ClientMsgNo m) /\ utf8 (Db.FromUID m) /\ utf8 (Db.QueueUID m) /\ utf8 (Db.ChannelID m).

Lemma message_proper m : message_ok m -> Forall (fun e => Valid e.1 = true /\ proper e.2) (message_members m).
Proof.
  intros (_ & _ & ? & ? & ? & ?). unfold message_members, member.
  repeat (apply Forall_cons; split); try apply List.Forall_nil;
    (split; [same_name|]); first [apply num_proper|apply bytes_value_proper|by apply text_proper].
Qed.

Lemma read_message_members m : message_ok m -> read_message (message_members m) = Ret m.
Proof.
  intros ((? & ? & ? & ?) & (? & ? & ? & ?) & _). unfold read_message, message_members, member.
  do 13 read_field. by destruct m.
Qed.

#[export] Instance Message_JsonLaws : JsonLaws Db.Message.
Proof.
  refine {| json_ok := message_ok |}.
  - intros m Hm. apply proper_Obj, message_proper, Hm.
  - intros m Hm. apply (read_message_members m Hm).
Defined.

Definition conversation_members (c : Db.Conversation) : list (list byte * value) :=
  [ member "UID" (string_value (Db.UID c)); member "ChannelID" (string_value (Db.cChannelID c));
    member "ChannelType" (num (Db.cChannelType c)); member "UnreadCount" (num (Db.UnreadCount c));
    member "Timestamp" (num (Db.cTimestamp c)); member "LastMsgSeq" (num (Db.LastMsgSeq c));
    member "LastClientMsgNo" (string_value (Db.LastClientMsgNo c)); member "LastMsgID" (num (Db.LastMsgID c));
    member "Version" (num (Db.cVersion c))].
Definition read_conversation (ms : list (list byte * value)) : outcome Db.Conversation :=
  uid ← field "UID" asString EmptyString ms;
  channelID ← field "ChannelID" asString EmptyString ms;
  channelType ← field "ChannelType" (asUint 8) 0 ms;
  unreadCount ← field "UnreadCount" (asInt 64) 0 ms;
  timestamp ← field "Timestamp" (asInt 64) 0 ms;
  lastMsgSeq ← field "LastMsgSeq" (asUint 32) 0 ms;
  lastClientMsgNo ← field "LastClientMsgNo" asString EmptyString ms;
  lastMsgID ← field "LastMsgID" (asInt 64) 0 ms;
  version ← field "Version" (asInt 64) 0 ms;
  Ret (Db.mkConversation uid channelID channelType unreadCount timestamp lastMsgSeq lastClientMsgNo lastMsgID version).
#[export] Instance Conversation_Jsonable : Jsonable Db.Conversation := {|
  toJSON c := Obj (conversation_members c);
  fromJSON v := match v with Obj ms => read_conversation ms | _ => Err TypeError end
|}.

Definition conversation_ok (c : Db.Conversation) : Prop :=
  (inU 8 (Db.cChannelType c) /\ inS 64 (Db.UnreadCount c) /\ inS 64 (Db.cTimestamp c) /\ inU 32 (Db.LastMsgSeq c) /\
   inS 64 (Db.LastMsgID c) /\ inS 64 (Db.cVersion c)) /\
  utf8 (Db.UID c) /\ utf8 (Db.cChannelID c) /\ utf8 (Db.LastClientMsgNo c).

Lemma conversation_proper c : conversation_ok c ->
  Forall (fun e => Valid e.1 = true /\ proper e.2) (conversation_members c).
Proof.
  intros (_ & ? & ? & ?). unfold conversation_members, member.
  repeat (apply Forall_cons; split); try apply List.Forall_nil;
    (split; [same_name|]); first [apply num_proper|by apply text_proper].
Qed.

Lemma read_conversation_members c : conversation_ok c -> read_conversation (conversation_members c) = Ret c.
Proof.
  intros ((? & ? & ? & ? & ? & ?) & _). unfold read_conversation, conversation_members, member.
  do 9 read_field. by destruct c.
Qed.

#[export] Instance Conversation_JsonLaws : JsonLaws Db.Conversation.
Proof.
  refine {| json_ok := conversation_ok |}.
  - intros c Hc. apply proper_Obj, conversation_proper, Hc.
  - intros c Hc. apply (read_conversation_members c Hc).
Defined.
