(* ===== verification/Queues.v ===== *)
(** The two retry queues: [RetryQueue] (internal/lim/retry_queue.go) for
    packets a client has not acknowledged, and [NodeInFlightQueue]
    (internal/lim/node_in_flight_pqueue.go, [startDeliveryNodeData] of
    internal/lim/delivery.go) for requests to other nodes. Both keep the
    in-flight objects in a map by key and in a priority queue by time. *)
From stdpp Require Import base list gmap strings pretty sorting.
From Stdlib Require Import ZArith Lia.
From S2P Require Import Prelude Keys Wire Frames PQueue Model.

(** What the queues use of an object beyond its place in the heap. *)
Class Queued (T : Type) := {
  qkey : T -> string;
  set_pri : Z -> T -> T
}.
Class QueuedLaws (T : Type) `{Item T, Queued T} := {
  queued_item :: ItemLaws T;
  qkey_set_index i x : qkey (set_index i x) = qkey x;
  qkey_set_pri p x : qkey (set_pri p x) = qkey x;
  index_set_pri p x : index (set_pri p x) = index x;
  pri_set_pri p x : pri (set_pri p x) = p
}.

Definition ErrNotInFlight : error := ErrMsg "ID not in flight".

Section InFlight.
Context {T : Type} `{Item T, Queued T}.

Record inflight := mkInflight {
  inFlightPQ : heap T;
  inFlightMessages : gmap string loc
}.

Definition with_PQ (h : heap T) (st : inflight) : inflight := mkInflight h (inFlightMessages st).
Definition with_Messages (m : gmap string loc) (st : inflight) : inflight := mkInflight (inFlightPQ st) m.
Definition deref (a : loc) (st : inflight) : outcome T :=
  match store (inFlightPQ st) !! a with Some x => Ret x | None => Panic end.

(** [pushInFlightMessage]: an entry that is there already is kept. *)
Definition pushInFlight (a : loc) (st : inflight) : outcome inflight :=
  msg ← deref a st;
  match inFlightMessages st !! qkey msg with
  | Some _ => Ret st
  | None => Ret (with_Messages (<[qkey msg := a]> (inFlightMessages st)) st)
  end.

Definition addToInFlightPQ (a : loc) (st : inflight) : outcome inflight :=
  h ← Push a (inFlightPQ st); Ret (with_PQ h st).

(** [startInFlightTimeout]: [deadline] is the time the call reads plus the
    configured timeout, in nanoseconds. *)
Definition startInFlightTimeout (deadline : Z) (a : loc) (st : inflight) : outcome inflight :=
  msg ← deref a st;
  let h := inFlightPQ st in
  let st1 := with_PQ (mkHeap (<[a := set_pri deadline msg]> (store h)) (pq h) (pcap h)) st in
  st2 ← pushInFlight a st1;
  addToInFlightPQ a st2.

Definition popInFlight (key : string) (st : inflight) : outcome (loc * inflight) :=
  match inFlightMessages st !! key with
  | None => Err ErrNotInFlight
  | Some a => Ret (a, with_Messages (delete key (inFlightMessages st)) st)
  end.

Definition removeFromInFlightPQ (a : loc) (st : inflight) : outcome inflight :=
  msg ← deref a st;
  if index msg =? -1 then Ret st
  else '(_, h) ← Remove (index msg) (inFlightPQ st); Ret (with_PQ h st).

(** [finishMessage] returns the state with its error: a missing key changes
    nothing. *)
Definition finishInFlight (key : string) (st : inflight) : outcome inflight :=
  '(a, st1) ← popInFlight key st;
  removeFromInFlightPQ a st1.

(** One object taken off the queue and out of the map: [None] when the loop
    breaks. *)
Definition processStep (t : Z) (st : inflight) : outcome (option loc * inflight) :=
  '(msg, _, h) ← PeekAndShift t (inFlightPQ st);
  let st1 := with_PQ h st in
  match msg with
  | None => Ret (None, st1)
  | Some a =>
      m ← deref a st1;
      match popInFlight (qkey m) st1 with
      | Err _ => Ret (None, st1)
      | Panic => Panic
      | Ret (_, st2) => Ret (Some a, st2)
      end
  end.

End InFlight.
Arguments inflight T : clear implicits.

#[export] Instance Message_Queued : Queued Lim.Message := {|
  qkey m := Sprintf_d_d (Recv.MessageID (Lim.RecvPacket m)) (Lim.toClientID m);
  set_pri := Lim.set_m_pri
|}.

#[export] Instance NodeInFlightData_Queued : Queued Lim.NodeInFlightData := {|
  qkey d := Db.No (Lim.NodeInFlightDataModel d);
  set_pri := Lim.set_n_pri
|}.

(** * RetryQueue *)
Module RetryQueue.

Definition NewRetryQueue (s : gmap loc Lim.Message) : inflight Lim.Message :=
  mkInflight (newInFlightPqueue s 1024) ∅.

Definition popInFlightMessage (clientID messageID : Z) (st : inflight Lim.Message) :
    outcome (loc * inflight Lim.Message) :=
  popInFlight (Sprintf_d_d messageID clientID) st.

Definition finishMessage (clientID messageID : Z) (st : inflight Lim.Message) :
    outcome (inflight Lim.Message) :=
  '(a, st1) ← popInFlightMessage clientID messageID st;
  removeFromInFlightPQ a st1.

(** The loop of [processInFlightQueue]; every round takes an object off the
    queue, so one round more than its length is enough. [startDeliveryMsg]
    only submits the message to a goroutine pool: the messages submitted are
    the result. *)
Fixpoint processInFlightQueue_loop (fuel : nat) (t : Z) (st : inflight Lim.Message)
    (out : list loc) : outcome (list loc * inflight Lim.Message) :=
  match fuel with
  | O => Ret (out, st)
  | S fuel' =>
      '(r, st1) ← processStep t st;
      match r with
      | None => Ret (out, st1)
      | Some a => processInFlightQueue_loop fuel' t st1 (out ++ [a])
      end
  end.
Definition processInFlightQueue (t : Z) (st : inflight Lim.Message) :
    outcome (list loc * inflight Lim.Message) :=
  processInFlightQueue_loop (S (length (pq (inFlightPQ st)))) t st [].

End RetryQueue.

(** * NodeInFlightQueue *)
Module NodeInFlightQueue.

Definition NewNodeInFlightQueue (s : gmap loc Lim.NodeInFlightData) : inflight Lim.NodeInFlightData :=
  mkInflight (newInFlightPqueue s 1024) ∅.

Definition finishMessage (no : string) (st : inflight Lim.NodeInFlightData) :
    outcome (inflight Lim.NodeInFlightData) :=
  finishInFlight no st.

(** [startDeliveryNodeData]: the object goes back into the queue with a new
    deadline, and out of it again when the remote call ([ok]) succeeds. The
    caller of [finishMessage] drops its error, which leaves the state alone. *)
Definition startDeliveryNodeData (deadline : Z) (ok : bool) (a : loc)
    (st : inflight Lim.NodeInFlightData) : outcome (inflight Lim.NodeInFlightData) :=
  st1 ← startInFlightTimeout deadline a st;
  d ← deref a st1;
  if negb ok then Ret st1
  else match finishMessage (qkey d) st1 with
       | Err _ => Ret st1
       | r => r
       end.

(** The loop of [processInFlightQueue], which delivers as it goes: [calls]
    lists, for each delivery, the new deadline and whether the remote call
    succeeds; the result says whether the loop ended within these calls. *)
Fixpoint processInFlightQueue (calls : list (Z * bool)) (t : Z)
    (st : inflight Lim.NodeInFlightData) (out : list loc) :
    outcome (bool * list loc * inflight Lim.NodeInFlightData) :=
  '(r, st1) ← processStep t st;
  match r with
  | None => Ret (true, out, st1)
  | Some a =>
      match calls with
      | [] => Ret (false, out, st1)
      | (deadline, ok) :: calls' =>
          st2 ← startDeliveryNodeData deadline ok a st1;
          processInFlightQueue calls' t st2 (out ++ [a])
      end
  end.

(** [Start]: the data saved by the last run are queued again, as new objects
    at the addresses [locs]. *)
Fixpoint Start_load (deadline : Z) (saved : list (loc * Db.NodeInFlightDataModel))
    (st : inflight Lim.NodeInFlightData) : outcome (inflight Lim.NodeInFlightData) :=
  match saved with
  | [] => Ret st
  | (a, model) :: saved' =>
      let h := inFlightPQ st in
      let d := Lim.mkNodeInFlightData model 0 0 in
      let st1 := with_PQ (mkHeap (<[a := d]> (store h)) (pq h) (pcap h)) st in
      st2 ← startInFlightTimeout deadline a st1;
      Start_load deadline saved' st2
  end.

(** [Stop] saves the values of [infFlights], a map no method writes. *)
Definition Stop (infFlights : gmap string Lim.NodeInFlightData) : option (list Db.NodeInFlightDataModel) :=
  let datas := (fun kv => Lim.NodeInFlightDataModel (snd kv)) <$> map_to_list infFlights in
  if decide (0 < length datas)%nat then Some datas else None.

End NodeInFlightQueue.

#[export] Instance Message_QueuedLaws : QueuedLaws Lim.Message.
Proof. split; try reflexivity. apply _. Qed.
#[export] Instance NodeInFlightData_QueuedLaws : QueuedLaws Lim.NodeInFlightData.
Proof. split; try reflexivity. apply _. Qed.

(** * The invariant of a queue *)

Section InFlightSpec.
Context {T : Type} `{QueuedLaws T}.
Implicit Type st : inflight T.

(** The key of the object at an address. *)
Definition key_of st (a : loc) : option string := qkey <$> store (inFlightPQ st) !! a.

(** The map holds exactly the queued objects, each under its key; an object
    that is not queued says so. *)
Record in_flight_ok st : Prop := {
  if_wf : wf (inFlightPQ st);
  if_map k a : inFlightMessages st !! k = Some a <-> a ∈ pq (inFlightPQ st) /\ key_of st a = Some k
}.

Lemma strip_key (s s' : gmap loc T) a : strip s' = strip s -> qkey <$> s' !! a = qkey <$> s !! a.
Proof.
  intros Hs. apply (f_equal (fun s => s !! a)) in Hs. rewrite !strip_lookup in Hs.
  destruct (s !! a) as [x|], (s' !! a) as [x'|]; try discriminate; [|done].
  injection Hs as Hs. cbn. f_equal.
  rewrite <- (qkey_set_index 0 x'), Hs. apply qkey_set_index.
Qed.

Lemma queued_key st a : in_flight_ok st -> a ∈ pq (inFlightPQ st) ->
  exists m, deref a st = Ret m /\ store (inFlightPQ st) !! a = Some m /\
    inFlightMessages st !! qkey m = Some a.
Proof.
  intros [Hwf Hmap] Ha. destruct (wf_lookup _ a Hwf Ha) as (i & m & _ & Hm & _).
  exists m. unfold deref. rewrite Hm. split; [done|]. split; [done|].
  apply Hmap. split; [done|]. unfold key_of. rewrite Hm. reflexivity.
Qed.

(** Taking an object out of the queue and its key out of the map. *)
Lemma take_ok st x k h : in_flight_ok st -> key_of st x = Some k -> taken x (inFlightPQ st) h ->
  in_flight_ok (mkInflight h (delete k (inFlightMessages st))).
Proof.
  intros [Hwf Hmap] Hk Ht. split; cbn [inFlightPQ inFlightMessages]; [apply Ht|].
  intros k' a. rewrite lookup_delete_Some, Hmap. unfold key_of in *. cbn [inFlightPQ].
  rewrite (strip_key _ _ a (tk_strip _ _ _ Ht)), (taken_elem x _ h a Hwf Ht).
  split.
  - intros (Hne & Ha & Hka). split; [|done]. split; [done|]. intros ->. congruence.
  - intros ([Ha Hne] & Hka). split; [|done]. intros <-. apply Hne.
    assert (inFlightMessages st !! k = Some a) as Hin1 by (apply Hmap; done).
    assert (inFlightMessages st !! k = Some x) as Hin2.
    { apply Hmap. split; [|done]. destruct Ht as [_ Hp _ _]. rewrite Hp. constructor. }
    congruence.
Qed.

(** One step of the processing loop. *)
Lemma processStep_spec t st : in_flight_ok st ->
  (processStep t st = Ret (None, st) /\
     forall b, b ∈ pq (inFlightPQ st) -> prio (inFlightPQ st) b > t) \/
  exists x k st', processStep t st = Ret (Some x, st') /\ in_flight_ok st' /\
    taken x (inFlightPQ st) (inFlightPQ st') /\ key_of st x = Some k /\
    inFlightMessages st' = delete k (inFlightMessages st) /\
    prio (inFlightPQ st) x <= t /\
    forall b, b ∈ pq (inFlightPQ st) -> prio (inFlightPQ st) x <= prio (inFlightPQ st) b.
Proof.
  intros Hok. pose proof (if_wf _ Hok) as Hwf. unfold processStep.
  destruct (decide (pq (inFlightPQ st) = [])) as [He|Hne].
  { left. unfold PeekAndShift. rewrite He. destruct st. split; [reflexivity|].
    intros b Hb. apply not_elem_of_nil in Hb. done. }
  destruct (PeekAndShift_head t _ Hwf Hne) as (x & Hx & Hmin & Hpeek).
  destruct (_ >? _) eqn:E; rewrite Z.gtb_ltb in E; zbool.
  - left. rewrite Hpeek. destruct st. split; [reflexivity|]. intros b Hb.
    specialize (Hmin b Hb). cbn in *. lia.
  - right. destruct Hpeek as (h & -> & Ht). cbn [mbind outcome_bind].
    destruct (queued_key st x Hok Hx) as (m & _ & Hm & Hin).
    pose proof (strip_key _ _ x (tk_strip _ _ _ Ht)) as Hkey. rewrite Hm in Hkey.
    destruct (store h !! x) as [m'|] eqn:Hm'; [|discriminate]. injection Hkey as Hkey.
    unfold deref. cbn [inFlightPQ with_PQ]. rewrite Hm'. cbn [mbind outcome_bind].
    unfold popInFlight. cbn [inFlightMessages with_PQ]. rewrite Hkey, Hin. cbn [with_PQ with_Messages inFlightPQ].
    assert (key_of st x = Some (qkey m)) as Hkx by (unfold key_of; rewrite Hm; reflexivity).
    exists x, (qkey m). eexists. split; [reflexivity|]. cbn [inFlightPQ inFlightMessages].
    split; [eapply take_ok; eassumption|]. auto 10.
Qed.

(** [finishMessage] on a key in flight. *)
Lemma finish_spec st k a : in_flight_ok st -> inFlightMessages st !! k = Some a ->
  exists st', finishInFlight k st = Ret st' /\ in_flight_ok st' /\
    taken a (inFlightPQ st) (inFlightPQ st') /\
    inFlightMessages st' = delete k (inFlightMessages st).
Proof.
  intros Hok Hk. pose proof (if_wf _ Hok) as Hwf.
  pose proof (proj1 (if_map _ Hok k a) Hk) as [Ha Hka].
  destruct (wf_lookup _ a Hwf Ha) as (i & m & Hi & Hm & Hix).
  unfold finishInFlight, popInFlight. rewrite Hk. cbn [mbind outcome_bind].
  unfold removeFromInFlightPQ, deref. cbn [with_Messages inFlightPQ]. rewrite Hm.
  cbn [mbind outcome_bind]. rewrite Hix. rewrite (proj2 (Z.eqb_neq _ _)) by lia.
  destruct (Remove_spec i a _ Hwf Hi) as (h & -> & Ht). cbn [mbind outcome_bind with_PQ inFlightMessages].
  eexists. split; [reflexivity|]. cbn [inFlightPQ inFlightMessages].
  split; [eapply take_ok; eassumption|]. auto.
Qed.

(** A new object in the store, not queued yet. *)
Lemma in_flight_store a m st : in_flight_ok st -> a ∉ pq (inFlightPQ st) ->
  in_flight_ok (with_PQ (mkHeap (<[a := m]> (store (inFlightPQ st))) (pq (inFlightPQ st)) (pcap (inFlightPQ st))) st).
Proof.
  intros [Hwf Hmap] Ha. split; [by apply wf_store_insert|]. intros k b. cbn [with_PQ inFlightMessages inFlightPQ pq].
  rewrite Hmap. unfold key_of. cbn [with_PQ inFlightPQ store].
  split; intros [Hb Hk]; (split; [done|]); rewrite lookup_insert_ne in * by (intros ->; done); done.
Qed.

(** [startInFlightTimeout] of an object that is not in flight. *)
Lemma start_spec deadline a m st : in_flight_ok st -> a ∉ pq (inFlightPQ st) ->
  store (inFlightPQ st) !! a = Some m -> inFlightMessages st !! qkey m = None ->
  exists st', startInFlightTimeout deadline a st = Ret st' /\ in_flight_ok st' /\
    pq (inFlightPQ st') ≡ₚ a :: pq (inFlightPQ st) /\ prio (inFlightPQ st') a = deadline /\
    (forall b, b <> a -> prio (inFlightPQ st') b = prio (inFlightPQ st) b) /\
    (forall b, key_of st' b = key_of st b) /\
    strip (store (inFlightPQ st')) = strip (<[a := set_pri deadline m]> (store (inFlightPQ st))) /\
    inFlightMessages st' = <[qkey m := a]> (inFlightMessages st).
Proof.
  intros [Hwf Hmap] Ha Hm Hk. unfold startInFlightTimeout, deref. rewrite Hm. cbn [mbind outcome_bind].
  unfold pushInFlight, deref. cbn [with_PQ inFlightPQ store inFlightMessages].
  rewrite lookup_insert_eq. cbn [mbind outcome_bind]. rewrite qkey_set_pri, Hk. cbn [mbind outcome_bind].
  unfold addToInFlightPQ. cbn [with_Messages inFlightPQ].
  set (m1 := set_pri deadline m). set (h1 := mkHeap _ _ _). cbn [with_PQ inFlightPQ].
  destruct (Push_spec a h1) as (h & -> & Hwf' & Hp & Hs);
    [apply wf_store_insert; done|unfold h1; cbn; rewrite lookup_insert_eq; eauto|done|].
  exists (mkInflight h (<[qkey m := a]> (inFlightMessages st))). split; [reflexivity|].
  assert (forall b, qkey <$> store h !! b = qkey <$> store (inFlightPQ st) !! b) as Hkey.
  { intros b. rewrite (strip_key _ _ b Hs). unfold h1. cbn. destruct (decide (a = b)) as [<-|Hne].
    - rewrite lookup_insert_eq, Hm. unfold m1. cbn. rewrite qkey_set_pri. reflexivity.
    - rewrite lookup_insert_ne by done. reflexivity. }
  split; [split; cbn [inFlightPQ inFlightMessages]; [done|]|].
  - intros k b. unfold key_of. cbn [inFlightPQ]. rewrite Hkey, Hp, elem_of_cons, lookup_insert_Some, Hmap.
    unfold key_of. split.
    + intros [[<- <-]|[Hne [Hb Hkb]]]; [rewrite Hm; auto|auto].
    + intros [[->|Hb] Hkb].
      * left. rewrite Hm in Hkb. injection Hkb as <-. auto.
      * right. split; [|auto]. intros <-.
        assert (inFlightMessages st !! qkey m = Some b) by (apply Hmap; auto). congruence.
  - cbn [inFlightPQ]. split; [exact Hp|]. split; [|split; [|split; [|split; [exact Hs|done]]]].
    + rewrite (prio_strip _ _ a Hs). unfold prio, h1. cbn. rewrite lookup_insert_eq. apply pri_set_pri.
    + intros b Hb. rewrite (prio_strip _ _ b Hs). unfold prio, h1. cbn. rewrite lookup_insert_ne by done. done.
    + intros b. unfold key_of. apply Hkey.
Qed.

(** The objects whose time has come. *)
Definition due (t : Z) st : list loc :=
  filter (fun a => prio (inFlightPQ st) a <= t) (pq (inFlightPQ st)).

Lemma taken_prio x st st' b : taken x (inFlightPQ st) (inFlightPQ st') ->
  prio (inFlightPQ st') b = prio (inFlightPQ st) b.
Proof. intros Ht. apply prio_strip, Ht. Qed.

Lemma due_nil t st : (forall b, b ∈ pq (inFlightPQ st) -> prio (inFlightPQ st) b > t) -> due t st = [].
Proof.
  intros Hb. unfold due. apply elem_of_nil_inv. intros b [Hle Hin]%list_elem_of_filter.
  specialize (Hb b Hin). lia.
Qed.

(** Taking a due object removes it from the due ones, and from them only. *)
Lemma due_taken t x st st' : taken x (inFlightPQ st) (inFlightPQ st') ->
  prio (inFlightPQ st) x <= t -> due t st ≡ₚ x :: due t st'.
Proof.
  intros Ht Hx. unfold due. rewrite (tk_perm _ _ _ Ht) at 1.
  rewrite filter_cons_True by done. constructor.
  erewrite (list_filter_iff _ (fun a => prio (inFlightPQ st') a <= t)); [done|].
  intros b. rewrite (taken_prio x st st') by done. done.
Qed.
End InFlightSpec.

(** * What the retry queue delivers *)

Section Retry.
Implicit Type st : inflight Lim.Message.
Import RetryQueue.

(** The loop hands over the due messages in the order of their deadlines. *)
Lemma process_loop_spec fuel t st out0 : in_flight_ok st ->
  (length (pq (inFlightPQ st)) < fuel)%nat ->
  exists out st', processInFlightQueue_loop fuel t st out0 = Ret (out0 ++ out, st') /\
    in_flight_ok st' /\ pq (inFlightPQ st) ≡ₚ out ++ pq (inFlightPQ st') /\
    (forall a, prio (inFlightPQ st') a = prio (inFlightPQ st) a) /\
    (forall a, a ∈ out -> prio (inFlightPQ st) a <= t) /\
    (forall b, b ∈ pq (inFlightPQ st') -> prio (inFlightPQ st) b > t) /\
    StronglySorted (fun a b => prio (inFlightPQ st) a <= prio (inFlightPQ st) b) out.
Proof.
  revert st out0. induction fuel as [|fuel IH]; intros st out0 Hok Hfuel; [lia|].
  cbn [processInFlightQueue_loop].
  destruct (processStep_spec t st Hok) as [[-> Hlate]|(x & k & st1 & -> & Hok1 & Ht & Hk & Hmap & Hdue & Hmin)];
    cbn [mbind outcome_bind].
  - exists [], st. rewrite app_nil_r. split; [done|]. split; [done|]. split; [done|]. split; [done|].
    split; [|split; [done|constructor]]. intros a Ha. apply not_elem_of_nil in Ha. done.
  - pose proof (tk_perm _ _ _ Ht) as Hp.
    assert (forall b, prio (inFlightPQ st1) b = prio (inFlightPQ st) b) as Hprio
      by (intros b; apply (taken_prio x); done).
    destruct (IH st1 (out0 ++ [x])) as (out & st2 & -> & Hok2 & Hp2 & Hpr2 & Hd2 & Hl2 & Hs2); [done| |].
    { apply Permutation_length in Hp. cbn in Hp. lia. }
    setoid_rewrite Hprio in Hpr2. setoid_rewrite Hprio in Hd2. setoid_rewrite Hprio in Hl2.
    exists (x :: out), st2. rewrite <- app_assoc. split; [done|]. split; [done|].
    split; [rewrite Hp, Hp2; done|]. split; [done|].
    split; [intros a [->|Ha]%elem_of_cons; auto|]. split; [done|].
    constructor.
    + eapply StronglySorted_impl; [|exact Hs2]. intros a b Hab. cbn in Hab. rewrite !Hprio in Hab. done.
    + apply Forall_forall. intros b Hb. apply Hmin. rewrite Hp, Hp2. set_solver.
Qed.

(** C16: a tick of the retry queue hands over exactly the messages whose
    deadline has passed, earliest first, takes them out of the map and of
    the queue, and leaves the others in both. *)
Theorem processInFlightQueue_due t st : in_flight_ok st ->
  exists out st', processInFlightQueue t st = Ret (out, st') /\ in_flight_ok st' /\
    pq (inFlightPQ st) ≡ₚ out ++ pq (inFlightPQ st') /\
    (forall a, a ∈ out -> prio (inFlightPQ st) a <= t) /\
    (forall b, b ∈ pq (inFlightPQ st') -> prio (inFlightPQ st) b > t) /\
    StronglySorted (fun a b => prio (inFlightPQ st) a <= prio (inFlightPQ st) b) out.
Proof.
  intros Hok. destruct (process_loop_spec (S (length (pq (inFlightPQ st)))) t st [] Hok)
    as (out & st' & Hout & ? & ? & _ & ?); [lia|]. exists out, st'. auto.
Qed.

(** C17: an acknowledgement of a message in flight takes it out, so that no
    later tick hands it over; one of a message that is not in flight is an
    error. *)
Theorem finishMessage_acknowledges clientID messageID st : in_flight_ok st ->
  match inFlightMessages st !! Sprintf_d_d messageID clientID with
  | None => finishMessage clientID messageID st = Err ErrNotInFlight
  | Some a =>
      exists st', finishMessage clientID messageID st = Ret st' /\ in_flight_ok st' /\
        pq (inFlightPQ st) ≡ₚ a :: pq (inFlightPQ st') /\
        forall t out st'', processInFlightQueue t st' = Ret (out, st'') -> a ∉ out
  end.
Proof.
  intros Hok. destruct (_ !! _) as [a|] eqn:Hk.
  - destruct (finish_spec st _ a Hok Hk) as (st' & He & Hok' & Ht & _).
    exists st'. split; [exact He|]. split; [done|]. split; [apply Ht|].
    intros t out st'' Hp Ha. unfold processInFlightQueue in Hp.
    destruct (process_loop_spec (S (length (pq (inFlightPQ st')))) t st' [] Hok')
      as (out' & st1 & Hout & _ & Hperm & _); [lia|].
    rewrite Hp in Hout. injection Hout as -> ->.
    assert (a ∈ pq (inFlightPQ st')) as Hin by (rewrite Hperm; set_solver).
    apply (taken_elem a _ _ a (if_wf _ Hok) Ht) in Hin. tauto.
  - unfold finishMessage, popInFlightMessage, popInFlight. rewrite Hk. reflexivity.
Qed.

(** Putting a message in flight keeps the queue in order; it waits there
    until the deadline given. *)
Theorem startInFlightTimeout_waits deadline a m st : in_flight_ok st ->
  a ∉ pq (inFlightPQ st) -> store (inFlightPQ st) !! a = Some m ->
  inFlightMessages st !! qkey m = None ->
  exists st', startInFlightTimeout deadline a st = Ret st' /\ in_flight_ok st' /\
    pq (inFlightPQ st') ≡ₚ a :: pq (inFlightPQ st) /\
    inFlightMessages st' !! qkey m = Some a /\
    forall t out st'', processInFlightQueue t st' = Ret (out, st'') -> a ∈ out <-> deadline <= t.
Proof.
  intros Hok Ha Hm Hk. destruct (start_spec deadline a m st Hok Ha Hm Hk)
    as (st' & He & Hok' & Hp & Hd & _ & _ & _ & Hmap).
  exists st'. split; [done|]. split; [done|]. split; [done|].
  split; [rewrite Hmap; apply lookup_insert_eq|]. intros t out st'' Hproc.
  unfold processInFlightQueue in Hproc.
  destruct (process_loop_spec (S (length (pq (inFlightPQ st')))) t st' [] Hok')
    as (out' & st1 & Hout & _ & Hperm & _ & Hle & Hgt & _); [lia|].
  rewrite Hproc in Hout. injection Hout as -> ->. split.
  - intros Hin. rewrite <- Hd. apply Hle, Hin.
  - intros Hlate. assert (a ∈ out' ++ pq (inFlightPQ st1)) as [|Hin]%elem_of_app
      by (rewrite <- Hperm, Hp; constructor); [done|].
    specialize (Hgt a Hin). lia.
Qed.
End Retry.

(** * What the node queue delivers *)

Section Nodes.
Implicit Type st : inflight Lim.NodeInFlightData.
Import NodeInFlightQueue.

(** One delivery: the object waits again with its new deadline when the call
    failed, and is gone when it succeeded. *)
Lemma delivery_stored deadline ok x m st : in_flight_ok st -> x ∉ pq (inFlightPQ st) ->
  store (inFlightPQ st) !! x = Some m -> inFlightMessages st !! qkey m = None ->
  exists st', startDeliveryNodeData deadline ok x st = Ret st' /\ in_flight_ok st' /\
    pq (inFlightPQ st') ≡ₚ (if ok then pq (inFlightPQ st) else x :: pq (inFlightPQ st)) /\
    prio (inFlightPQ st') x = deadline /\
    (forall b, b <> x -> prio (inFlightPQ st') b = prio (inFlightPQ st) b) /\
    strip (store (inFlightPQ st')) = strip (<[x := set_pri deadline m]> (store (inFlightPQ st))) /\
    inFlightMessages st' = if ok then inFlightMessages st else <[qkey m := x]> (inFlightMessages st).
Proof.
  intros Hok Hx Hm Hfree.
  destruct (start_spec deadline x m st Hok Hx Hm Hfree)
    as (st1 & Hs & Hok1 & Hp1 & Hd1 & Hb1 & Hkey1 & Hstrip1 & Hmap1).
  unfold startDeliveryNodeData. rewrite Hs. cbn [mbind outcome_bind].
  destruct (queued_key st1 x Hok1) as (m1 & -> & Hm1 & Hin1); [rewrite Hp1; constructor|].
  assert (qkey m1 = qkey m) as Ek by (specialize (Hkey1 x); unfold key_of in Hkey1; rewrite Hm1, Hm in Hkey1; by injection Hkey1).
  cbn [mbind outcome_bind]. destruct ok; cbn [negb].
  - destruct (finish_spec st1 (qkey m1) x Hok1 Hin1) as (st2 & He & Hok2 & Ht & Hmap2).
    unfold finishMessage. rewrite He. exists st2. split; [done|]. split; [done|].
    split; [apply (Permutation_cons_inv (a := x)); rewrite <- Hp1; symmetry; apply Ht|].
    split; [|split; [intros b Hb|]]; try (rewrite (taken_prio x st1 st2) by done; auto).
    split; [by rewrite (tk_strip _ _ _ Ht)|]. rewrite Hmap2, Hmap1, Ek. by apply delete_insert_id.
  - exists st1. auto 10.
Qed.

Lemma delivery_spec deadline ok x k st : in_flight_ok st -> x ∉ pq (inFlightPQ st) ->
  key_of st x = Some k -> inFlightMessages st !! k = None ->
  exists st', startDeliveryNodeData deadline ok x st = Ret st' /\ in_flight_ok st' /\
    pq (inFlightPQ st') ≡ₚ (if ok then pq (inFlightPQ st) else x :: pq (inFlightPQ st)) /\
    prio (inFlightPQ st') x = deadline /\
    forall b, b <> x -> prio (inFlightPQ st') b = prio (inFlightPQ st) b.
Proof.
  intros Hok Hx Hk Hfree. unfold key_of in Hk.
  destruct (store (inFlightPQ st) !! x) as [m|] eqn:Hm; [|discriminate]. injection Hk as <-.
  destruct (delivery_stored deadline ok x m st Hok Hx Hm Hfree) as (st1 & E & Hok1 & Hp & Hd & Hb & _).
  eauto 10.
Qed.

(** The objects of the failed deliveries. *)
Definition failed (out : list loc) (calls : list (Z * bool)) : list loc :=
  (fun p => fst p) <$> filter (fun p => negb (snd (snd p))) (zip out calls).

(** After a delivery the object is not due, and the others are as before. *)
Lemma due_redelivered t d (ok : bool) x st st' : x ∉ pq (inFlightPQ st) ->
  pq (inFlightPQ st') ≡ₚ (if ok then pq (inFlightPQ st) else x :: pq (inFlightPQ st)) ->
  prio (inFlightPQ st') x = d -> t < d ->
  (forall b, b <> x -> prio (inFlightPQ st') b = prio (inFlightPQ st) b) ->
  due t st' ≡ₚ due t st.
Proof.
  intros Hx Hp Hd Ht Hb. unfold due. rewrite Hp.
  assert (filter (fun a => prio (inFlightPQ st') a <= t) (pq (inFlightPQ st)) =
          filter (fun a => prio (inFlightPQ st) a <= t) (pq (inFlightPQ st))) as E.
  { apply filter_ext_in. intros b Hin. rewrite Hb; [done|]. intros ->. done. }
  destruct ok; [rewrite E; done|]. rewrite filter_cons_False by lia. rewrite E. done.
Qed.

Lemma node_loop_spec calls t st out0 : in_flight_ok st ->
  Forall (fun c => t < fst c) calls -> (length (due t st) <= length calls)%nat ->
  exists out st', processInFlightQueue calls t st out0 = Ret (true, out0 ++ out, st') /\
    in_flight_ok st' /\ out ≡ₚ due t st /\
    pq (inFlightPQ st') ++ due t st ≡ₚ pq (inFlightPQ st) ++ failed out calls /\
    forall b, b ∈ pq (inFlightPQ st') -> prio (inFlightPQ st') b > t.
Proof.
  revert st out0. induction calls as [|[d ok] calls IH]; intros st out0 Hok Hcalls Hlen;
    cbn [processInFlightQueue];
    destruct (processStep_spec t st Hok) as [[-> Hlate]|(x & k & st1 & -> & Hok1 & Ht & Hk & Hmap & Hdue & Hmin)];
    cbn [mbind outcome_bind].
  1,3: exists [], st; rewrite app_nil_r; rewrite (due_nil t st Hlate); unfold failed; cbn [zip zip_with filter list_filter fmap list_fmap];
    rewrite !app_nil_r; auto.
  - rewrite (due_taken t x st st1 Ht Hdue) in Hlen. cbn in Hlen. lia.
  - apply Forall_cons in Hcalls as [Hd Hcalls]. cbn [fst] in Hd.
    pose proof (due_taken t x st st1 Ht Hdue) as Hdt. rewrite Hdt in Hlen. cbn in Hlen.
    assert (key_of st1 x = Some k) as Hk1.
    { rewrite <- Hk. unfold key_of. apply strip_key, Ht. }
    assert (x ∉ pq (inFlightPQ st1)) as Hx1
      by (intros Hin; apply (taken_elem x _ _ x (if_wf _ Hok) Ht) in Hin; tauto).
    destruct (delivery_spec d ok x k st1 Hok1 Hx1 Hk1) as (st2 & -> & Hok2 & Hp2 & Hx2 & Hb2).
    { rewrite Hmap. apply lookup_delete_eq. }
    cbn [mbind outcome_bind].
    assert (due t st2 ≡ₚ due t st1) as Hdue2.
    { apply (due_redelivered t d ok x); done. }
    destruct (IH st2 (out0 ++ [x]) Hok2 Hcalls) as (out & st3 & -> & Hok3 & Hout & Hp3 & Hlate);
      [rewrite Hdue2; lia|].
    exists (x :: out), st3. rewrite <- app_assoc. split; [done|]. split; [done|].
    split; [rewrite Hout, Hdue2, Hdt; done|]. split; [|done].
    rewrite Hdt, <- Permutation_middle, <- Hdue2, Hp3, Hp2, (tk_perm _ _ _ Ht).
    unfold failed. cbn [zip zip_with]. rewrite filter_cons. cbn [snd]. destruct ok; cbn.
    + done.
    + rewrite Permutation_middle. done.
Qed.

(** A tick of the node queue, when new deadlines lie in the future,
    delivers each due request exactly once, puts exactly those whose call
    failed back, and ends with nothing due. *)
Theorem node_tick_delivers_due calls t st : in_flight_ok st ->
  Forall (fun c => t < fst c) calls -> (length (due t st) <= length calls)%nat ->
  exists out st', processInFlightQueue calls t st [] = Ret (true, out, st') /\ in_flight_ok st' /\
    out ≡ₚ due t st /\ pq (inFlightPQ st') ++ due t st ≡ₚ pq (inFlightPQ st) ++ failed out calls /\
    due t st' = [].
Proof.
  intros Hok Hc Hl. destruct (node_loop_spec calls t st [] Hok Hc Hl)
    as (out & st' & He & Hok' & Hout & Hp & Hlate).
  exists out, st'. do 4 (split; [done|]). apply due_nil, Hlate.
Qed.
End Nodes.

(** * Runs *)

Lemma new_ok {T} `{QueuedLaws T} (s : gmap loc T) : in_flight_ok (mkInflight (newInFlightPqueue s 1024) ∅).
Proof.
  split.
  - split; [split; [constructor|done]| |done|done]. intros k Hk. cbn in Hk. lia.
  - intros k a. cbn. split; [discriminate|]. intros [Ha _]. inversion Ha.
Qed.

(** The state a run ends in. *)
Definition state_of {T} `{Item T} (o : outcome (inflight T)) (st : inflight T) : inflight T :=
  match o with Ret s => s | _ => st end.

Definition retry_message (id to : Z) : Lim.Message :=
  Lim.mkMessage (Recv.mkRecvPacket (mkFramer 5 0 false true false false) (mkSetting false) "" id 1
    "no" 0 "alice" "g1" 2 []) "bob" [] 0 to 0 0.

(** Messages 1 and 2 go to one client under one message ID. *)
Definition retry_store : gmap loc Lim.Message :=
  {[ 1%positive := retry_message 7 1; 2%positive := retry_message 7 1;
     3%positive := retry_message 8 1; 4%positive := retry_message 9 1 ]}.
Definition retry_empty : inflight Lim.Message := RetryQueue.NewRetryQueue retry_store.
Definition retry_1 : inflight Lim.Message :=
  state_of (startInFlightTimeout 10 1%positive retry_empty) retry_empty.

Lemma retry_1_ok : in_flight_ok retry_1.
Proof.
  destruct (start_spec 10 1%positive (retry_message 7 1) retry_empty (new_ok _))
    as (st & He & Hok & _); [apply not_elem_of_nil|reflexivity|reflexivity|].
  unfold retry_1. rewrite He. exact Hok.
Qed.

(** The second copy and another message put in flight behind the first copy,
    and the first one acknowledged. *)
Definition duplicate_run : outcome (inflight Lim.Message) :=
  st1 ← startInFlightTimeout 20 2%positive retry_1;
  st2 ← startInFlightTimeout 30 3%positive st1;
  RetryQueue.finishMessage 1 7 st2.

(** A second copy of a message in flight (same message ID, same client)
    enters the priority queue but not the map; once the first copy is
    acknowledged, the second one breaks the loop of the tick that finds it
    due, and the message behind it, due as well, is not handed over. *)
Theorem duplicate_in_flight_breaks_tick :
  exists st st', duplicate_run = Ret st /\
    RetryQueue.processInFlightQueue 100 st = Ret ([], st') /\
    prio (inFlightPQ st) 3%positive = 30 /\ inFlightMessages st !! Sprintf_d_d 8 1 = Some 3%positive.
Proof. do 2 eexists. repeat (split; [vm_compute; reflexivity|]). vm_compute. reflexivity. Qed.

Lemma processInFlightQueue_due_witness :
  exists out st', RetryQueue.processInFlightQueue 100 retry_1 = Ret (out, st') /\ in_flight_ok st' /\
    pq (inFlightPQ retry_1) ≡ₚ out ++ pq (inFlightPQ st') /\
    (forall a, a ∈ out -> prio (inFlightPQ retry_1) a <= 100) /\
    (forall b, b ∈ pq (inFlightPQ st') -> prio (inFlightPQ retry_1) b > 100) /\
    StronglySorted (fun a b => prio (inFlightPQ retry_1) a <= prio (inFlightPQ retry_1) b) out.
Proof. exact (processInFlightQueue_due 100 retry_1 retry_1_ok). Defined.

Lemma finishMessage_acknowledges_witness :
  match inFlightMessages retry_1 !! Sprintf_d_d 7 1 with
  | None => RetryQueue.finishMessage 1 7 retry_1 = Err ErrNotInFlight
  | Some a =>
      exists st', RetryQueue.finishMessage 1 7 retry_1 = Ret st' /\ in_flight_ok st' /\
        pq (inFlightPQ retry_1) ≡ₚ a :: pq (inFlightPQ st') /\
        forall t out st'', RetryQueue.processInFlightQueue t st' = Ret (out, st'') -> a ∉ out
  end.
Proof. exact (finishMessage_acknowledges 1 7 retry_1 retry_1_ok). Defined.

Lemma startInFlightTimeout_waits_witness :
  exists st', startInFlightTimeout 30 3%positive retry_1 = Ret st' /\ in_flight_ok st' /\
    pq (inFlightPQ st') ≡ₚ 3%positive :: pq (inFlightPQ retry_1) /\
    inFlightMessages st' !! qkey (retry_message 8 1) = Some 3%positive /\
    forall t out st'', RetryQueue.processInFlightQueue t st' = Ret (out, st'') ->
      3%positive ∈ out <-> 30 <= t.
Proof.
  apply (startInFlightTimeout_waits 30 3%positive (retry_message 8 1) retry_1 retry_1_ok).
  - apply (bool_decide_unpack _). vm_compute. exact I.
  - vm_compute. reflexivity.
  - vm_compute. reflexivity.
Defined.

Lemma Push_correct_witness :
  exists st', Push 3%positive (inFlightPQ retry_1) = Ret st' /\ wf st' /\
    pq st' ≡ₚ 3%positive :: pq (inFlightPQ retry_1) /\
    forall a, prio st' a = prio (inFlightPQ retry_1) a.
Proof.
  apply (Push_correct 3%positive (inFlightPQ retry_1) (if_wf _ retry_1_ok)).
  - eexists. vm_compute. reflexivity.
  - apply (bool_decide_unpack _). vm_compute. exact I.
Defined.

Lemma Remove_by_index_witness :
  exists st', Remove 0 (inFlightPQ retry_1) = Ret (1%positive, st') /\ wf st' /\
    pq (inFlightPQ retry_1) ≡ₚ 1%positive :: pq st' /\
    (index <$> store st' !! 1%positive) = Some (-1) /\
    forall a, prio st' a = prio (inFlightPQ retry_1) a.
Proof.
  apply (Remove_by_index 1%positive (Lim.set_m_index 0 (Lim.set_m_pri 10 (retry_message 7 1)))
    (inFlightPQ retry_1) (if_wf _ retry_1_ok)).
  - apply (bool_decide_unpack _). vm_compute. exact I.
  - vm_compute. reflexivity.
Defined.

Lemma PeekAndShift_correct_witness :
  (pq (inFlightPQ retry_1) = [] /\ PeekAndShift 5 (inFlightPQ retry_1) = Ret (None, 0, inFlightPQ retry_1)) \/
  exists x, x ∈ pq (inFlightPQ retry_1) /\
    (forall b, b ∈ pq (inFlightPQ retry_1) -> prio (inFlightPQ retry_1) x <= prio (inFlightPQ retry_1) b) /\
    if prio (inFlightPQ retry_1) x >? 5
    then PeekAndShift 5 (inFlightPQ retry_1) = Ret (None, prio (inFlightPQ retry_1) x - 5, inFlightPQ retry_1)
    else exists st', PeekAndShift 5 (inFlightPQ retry_1) = Ret (Some x, 0, st') /\
      taken x (inFlightPQ retry_1) st'.
Proof. exact (PeekAndShift_correct 5 (inFlightPQ retry_1) (if_wf _ retry_1_ok)). Defined.

Definition node_data (no : string) : Lim.NodeInFlightData :=
  Lim.mkNodeInFlightData (Db.mkNodeInFlightDataModel no 1 (Db.mkForwardRecvPacketReq no [] [] 0)) 0 0.
Definition node_empty : inflight Lim.NodeInFlightData :=
  NodeInFlightQueue.NewNodeInFlightQueue {[ 1%positive := node_data "r1" ]}.
Definition node_1 : inflight Lim.NodeInFlightData :=
  state_of (startInFlightTimeout 10 1%positive node_empty) node_empty.

Lemma node_1_ok : in_flight_ok node_1.
Proof.
  destruct (start_spec 10 1%positive (node_data "r1") node_empty (new_ok _))
    as (st & He & Hok & _); [apply not_elem_of_nil|reflexivity|reflexivity|].
  unfold node_1. rewrite He. exact Hok.
Qed.

Lemma node_tick_delivers_due_witness :
  exists out st', NodeInFlightQueue.processInFlightQueue [(200, false)] 100 node_1 [] = Ret (true, out, st') /\
    in_flight_ok st' /\ out ≡ₚ due 100 node_1 /\
    pq (inFlightPQ st') ++ due 100 node_1 ≡ₚ pq (inFlightPQ node_1) ++ failed out [(200, false)] /\
    due 100 st' = [].
Proof.
  apply (node_tick_delivers_due [(200, false)] 100 node_1 node_1_ok).
  - constructor; [reflexivity|constructor].
  - apply (bool_decide_unpack _). vm_compute. exact I.
Defined.
