(* ===== verification/Index.v ===== *)
(** The offset index of a log segment (internal/db/index.go): 8-byte entries
    in a memory-mapped file, looked up by binary search. *)
From stdpp Require Import base list strings.
From Stdlib Require Import ZArith Lia Strings.Byte.
From S2P Require Import Prelude.

Module Index.

(** A file that may end in a hole: [fdata], then zeros up to [fsize]. The
    mapping of the index file is shared by everybody who maps it. *)
Record file := mkFile { fsize : Z; fdata : list byte }.

Definition Truncate (n : Z) (f : file) : file :=
  mkFile n (take (Z.to_nat (Z.min n (zlen (fdata f)))) (fdata f)).

(** [n] bytes of the mapping from [off]. *)
Definition mmap_slice (f : file) (off : Z) (n : nat) : list byte :=
  take n (drop (Z.to_nat off) (fdata f) ++ replicate n x00).

(** Writing [p] at [off] of the mapping. *)
Definition mmap_write (f : file) (off : Z) (p : list byte) : file :=
  let o := Z.to_nat off in
  mkFile (fsize f)
    (take o (fdata f ++ replicate o x00) ++ p ++ drop (o + length p) (fdata f)).

Record Entry := mkEntry { RelativeOffset : Z; Position : Z }.
Record OffsetPosition := mkOffsetPosition { Offset : Z; op_Position : Z }.

Record Index := mkIndex {
  position : Z;
  baseOffset : Z;
  totalSize : Z
}.

Definition entrySize : Z := 8.
Definition maxBytes : Z := 10 * 1024 * 1024.
Definition maxEntryNum : Z := maxBytes / entrySize.
Definition warmEntries : Z := 8192 / entrySize.

Definition roundDown (total factor : Z) : Z := factor * (total / factor).

(** [binary.Write]/[binary.Read] of an [Entry], big endian. *)
Definition encode_entry (e : Entry) : list byte := be 4 (RelativeOffset e) ++ be 4 (Position e).
Definition decode_entry (p : list byte) : Entry :=
  mkEntry (be_val 0 (take 4 p)) (be_val 0 (drop 4 p)).

Definition readAtPosition (idx : Index) (f : file) (pos : Z) : outcome (list byte) :=
  if position idx <? pos + entrySize then Err EOF
  else Ret (mmap_slice f pos (Z.to_nat entrySize)).

Definition readEntryAtPosition (idx : Index) (f : file) (pos : Z) : outcome Entry :=
  p ← readAtPosition idx f pos; Ret (decode_entry p).

Definition set_position (p : Z) (idx : Index) : Index := mkIndex p (baseOffset idx) (totalSize idx).

(** The loop of [resetPosistion]: the first entry with relative offset 0 is
    the first free one. Entries past [fdata] are zero, so one round more
    than its bytes is enough. *)
Fixpoint resetPosistion_loop (fuel : nat) (idx : Index) (f : file) (pos : Z) : outcome Z :=
  match fuel with
  | O => Ret pos
  | S fuel' =>
      if pos >=? totalSize idx then Ret pos
      else
        entry ← readEntryAtPosition idx f pos;
        if RelativeOffset entry =? 0 then Ret pos
        else resetPosistion_loop fuel' idx f (pos + entrySize)
  end.
Definition resetPosistion (idx : Index) (f : file) : outcome Index :=
  pos ← resetPosistion_loop (S (length (fdata f))) idx f 0;
  Ret (set_position pos idx).

(** [NewIndex]: the file is opened or created, its size is the first
    position, it is extended to [maxBytes] and mapped. An error panics. *)
Definition NewIndex (f : file) (base : Z) : outcome (Index * file) :=
  let '(pos, total) := if fsize f >? 0 then (fsize f, fsize f) else (0, 0) in
  let idx := mkIndex pos base total in
  let f1 := Truncate (roundDown maxBytes entrySize) f in
  match resetPosistion idx f1 with
  | Ret idx1 => Ret (idx1, f1)
  | _ => Panic
  end.

Definition writeAt (f : file) (p : list byte) (offset : Z) : outcome file :=
  if offset + entrySize >? maxBytes then Panic else Ret (mmap_write f offset p).

(** [Append]: a full index gives up silently. *)
Definition Append (idx : Index) (f : file) (offset pos : Z) : outcome (Index * file) :=
  let b := encode_entry (mkEntry (u32 (offset - baseOffset idx)) (u32 pos)) in
  if position idx >=? maxBytes then Ret (idx, f)
  else
    f' ← writeAt f b (position idx);
    Ret (set_position (position idx + entrySize) idx, f').

Definition parseEntry (idx : Index) (f : file) (mid : Z) : OffsetPosition :=
  let pos := mid * entrySize in
  let copyEnd := pos + entrySize in
  if copyEnd >? maxBytes then mkOffsetPosition (baseOffset idx) 0
  else
    let entry := decode_entry (mmap_slice f pos (Z.to_nat entrySize)) in
    mkOffsetPosition (baseOffset idx + RelativeOffset entry) (Position entry).

Definition compareIndexEntry (e : OffsetPosition) (target : Z) : Z :=
  if Offset e >? target then 1 else if Offset e <? target then -1 else 0.

(** The closure [binarySearch]; the range shrinks every round. *)
Fixpoint binarySearch_loop (fuel : nat) (idx : Index) (f : file) (entries target lo hi : Z) : Z * Z :=
  let fin := if lo =? entries - 1 then (lo, -1) else (lo, lo + 1) in
  match fuel with
  | O => fin
  | S fuel' =>
      if lo <? hi then
        let mid := Z.shiftr (lo + hi + 1) 1 in
        let compareResult := compareIndexEntry (parseEntry idx f mid) target in
        if compareResult >? 0 then binarySearch_loop fuel' idx f entries target lo (mid - 1)
        else if compareResult <? 0 then binarySearch_loop fuel' idx f entries target mid hi
        else (mid, mid)
      else fin
  end.
Definition binarySearch (idx : Index) (f : file) (entries target lo hi : Z) : Z * Z :=
  binarySearch_loop (Z.to_nat (hi - lo)) idx f entries target lo hi.

Definition indexSlotRangeFor (idx : Index) (f : file) (target : Z) : Z * Z :=
  let entries := position idx / entrySize in
  if entries =? 0 then (-1, -1)
  else
    let firstHotEntry := Z.max 0 (entries - 1 - warmEntries) in
    if compareIndexEntry (parseEntry idx f firstHotEntry) target <? 0 then
      binarySearch idx f entries target firstHotEntry (entries - 1)
    else if compareIndexEntry (parseEntry idx f 0) target >? 0 then (-1, 0)
    else binarySearch idx f entries target 0 firstHotEntry.

Definition Lookup (idx : Index) (f : file) (targetOffset : Z) : OffsetPosition :=
  let '(min, _) := indexSlotRangeFor idx f targetOffset in
  if min =? -1 then mkOffsetPosition (baseOffset idx) 0 else parseEntry idx f min.

Definition TruncateEntries (idx : Index) (number : Z) : outcome Index :=
  if number * entrySize >? position idx then Err (ErrMsg "bad truncate number")
  else Ret (set_position (number * entrySize) idx).

Definition IsFull (idx : Index) : bool := position idx >=? maxBytes.

Definition getRealOffset (idx : Index) (entry : Entry) : Z := RelativeOffset entry + baseOffset idx.

Definition ErrIndexCorrupt : error := ErrMsg "corrupt index file".

(** [SanityCheck] returns nil or an error. *)
Definition SanityCheck (idx : Index) (f : file) : outcome unit :=
  if position idx =? 0 then Ret tt
  else if negb (Z.rem (position idx) entrySize =? 0) then Err ErrIndexCorrupt
  else
    entry ← readEntryAtPosition idx f (position idx - entrySize);
    if getRealOffset idx entry <? baseOffset idx then Err ErrIndexCorrupt else Ret tt.

(** [Close] cuts the file back to the entries written. *)
Definition Close (idx : Index) (f : file) : file := Truncate (position idx) f.

End Index.
Import Index.

(** * Entries of an index *)

Definition entry_ok (e : Entry) : Prop := inU 32 (RelativeOffset e) /\ inU 32 (Position e).

(** [idx] over the mapped file [f] holds the entries [es]. *)
Record holds (idx : Index) (f : file) (es : list Entry) : Prop := {
  h_position : position idx = entrySize * zlen es;
  h_data : exists rest, fdata f = concat (encode_entry <$> es) ++ rest;
  h_size : fsize f = maxBytes;
  h_fits : entrySize * zlen es <= maxBytes;
  h_ok : Forall entry_ok es
}.

Lemma length_encode_entry e : length (encode_entry e) = 8%nat.
Proof. unfold encode_entry. rewrite length_app, !length_be. reflexivity. Qed.

Lemma be_val_id n z : inU (8 * Z.of_nat n) z -> be_val 0 (be n z) = z.
Proof. intros Hz. rewrite be_val_be, Z.mod_small by exact Hz. lia. Qed.

Lemma decode_encode_entry e : entry_ok e -> decode_entry (encode_entry e) = e.
Proof.
  intros [Hr Hp]. unfold decode_entry, encode_entry.
  rewrite (take_app_length' _ _ 4), (drop_app_length' _ _ 4) by (symmetry; apply length_be).
  rewrite !(be_val_id 4) by done. destruct e. reflexivity.
Qed.

Lemma length_concat_entries es : length (concat (encode_entry <$> es)) = (8 * length es)%nat.
Proof.
  induction es as [|e es IH]; [reflexivity|]. rewrite fmap_cons. cbn [concat length].
  rewrite length_app, length_encode_entry, IH. lia.
Qed.

Lemma concat_entries_slice es i e : es !! i = Some e ->
  take 8 (drop (8 * i) (concat (encode_entry <$> es))) = encode_entry e.
Proof.
  intros Hi. apply take_drop_middle in Hi. rewrite <- Hi, fmap_app, concat_app, fmap_cons. cbn [concat].
  assert (length (take i es) = i) as Hl.
  { apply (f_equal length) in Hi. rewrite length_app in Hi. cbn [length] in Hi.
    rewrite length_take in *. lia. }
  rewrite drop_app_ge by (rewrite length_concat_entries; lia).
  rewrite length_concat_entries, Hl, Nat.sub_diag, drop_0.
  rewrite take_app_le by (rewrite length_encode_entry; lia). apply take_ge. rewrite length_encode_entry. lia.
Qed.

Lemma mmap_slice_entry idx f es i e : holds idx f es -> es !! i = Some e ->
  mmap_slice f (8 * Z.of_nat i) 8 = encode_entry e.
Proof.
  intros H Hi. pose proof (lookup_lt_Some _ _ _ Hi) as Hlt. unfold mmap_slice.
  replace (Z.to_nat (8 * Z.of_nat i)) with (8 * i)%nat by lia.
  destruct (h_data _ _ _ H) as [rest ->].
  rewrite drop_app_le by (rewrite length_concat_entries; lia). rewrite <- app_assoc, take_app_le.
  - apply concat_entries_slice, Hi.
  - rewrite length_drop, length_concat_entries. lia.
Qed.

Lemma parseEntry_spec idx f es i e : holds idx f es -> es !! i = Some e ->
  parseEntry idx f (Z.of_nat i) = mkOffsetPosition (baseOffset idx + RelativeOffset e) (Position e).
Proof.
  intros H Hi. pose proof (lookup_lt_Some _ _ _ Hi) as Hlt. pose proof (h_fits _ _ _ H) as Hfits.
  unfold parseEntry, entrySize, zlen in *. rewrite Z.gtb_ltb, (proj2 (Z.ltb_ge _ _)) by lia.
  replace (Z.of_nat i * 8) with (8 * Z.of_nat i) by lia.
  change (Z.to_nat 8) with 8%nat. rewrite (mmap_slice_entry idx f es i e H Hi).
  rewrite decode_encode_entry; [done|]. eapply Forall_lookup_1; [apply H|exact Hi].
Qed.

(** * Binary search *)

(** The offset an entry stands for. *)
Definition real (idx : Index) (e : Entry) : Z := baseOffset idx + RelativeOffset e.

Definition increasing (es : list Entry) : Prop :=
  forall i j a b, (i < j)%nat -> es !! i = Some a -> es !! j = Some b ->
    RelativeOffset a < RelativeOffset b.

(** The entry with the largest offset that is not above [target]. *)
Definition floor_entry (idx : Index) (es : list Entry) (target : Z) : option Entry :=
  last (filter (fun e => real idx e <= target) es).

Lemma floor_entry_at idx es target r e : increasing es -> es !! r = Some e -> real idx e <= target ->
  (forall j a, es !! j = Some a -> (r < j)%nat -> real idx a > target) ->
  floor_entry idx es target = Some e.
Proof.
  intros Hinc Hr Hle Hgt. unfold floor_entry.
  rewrite <- (take_drop_middle es r e Hr), filter_app, filter_cons_True by done.
  assert (filter (fun e => real idx e <= target) (drop (S r) es) = []) as ->.
  { apply elem_of_nil_inv. intros a [Ha Hin]%list_elem_of_filter.
    apply list_elem_of_lookup in Hin as [j Hj]. rewrite lookup_drop in Hj.
    specialize (Hgt (S r + j)%nat a Hj). lia. }
  apply last_snoc.
Qed.

Lemma floor_entry_none idx es target :
  (forall j a, es !! j = Some a -> real idx a > target) -> floor_entry idx es target = None.
Proof.
  intros Hgt. unfold floor_entry.
  assert (filter (fun e => real idx e <= target) es = []) as ->; [|done].
  apply elem_of_nil_inv. intros a [Ha Hin]%list_elem_of_filter.
  apply list_elem_of_lookup in Hin as [j Hj]. specialize (Hgt j a Hj). lia.
Qed.

Lemma compare_spec idx f es i e target : holds idx f es -> es !! i = Some e ->
  compareIndexEntry (parseEntry idx f (Z.of_nat i)) target =
    if real idx e >? target then 1 else if real idx e <? target then -1 else 0.
Proof. intros H Hi. unfold compareIndexEntry. rewrite (parseEntry_spec idx f es i e H Hi). reflexivity. Qed.

Lemma last_app_r {A} (l1 l2 : list A) x : x ∈ l2 -> last (l1 ++ l2) = last l2.
Proof.
  intros Hx. destruct l2 as [|y l2] using rev_ind; [inversion Hx|]. rewrite app_assoc, !last_snoc. done.
Qed.

(** The floor is above every entry below the target. *)
Lemma floor_entry_max idx es target e e' : increasing es -> floor_entry idx es target = Some e ->
  e' ∈ es -> real idx e' <= target -> real idx e' <= real idx e.
Proof.
  intros Hinc Hfl [i Hi]%list_elem_of_lookup Hle. unfold floor_entry in Hfl.
  rewrite <- (take_drop i es), filter_app in Hfl.
  rewrite (last_app_r _ _ e') in Hfl.
  - apply last_Some_elem_of, list_elem_of_filter in Hfl as [_ Hin].
    apply list_elem_of_lookup in Hin as [j Hj]. rewrite lookup_drop in Hj.
    destruct j as [|j]; [rewrite Nat.add_0_r in Hj; assert (e = e') as -> by congruence; lia|].
    pose proof (Hinc i (i + S j)%nat e' e ltac:(lia) Hi Hj). unfold real. lia.
  - apply list_elem_of_filter. split; [done|]. rewrite (drop_S es e' i Hi). constructor.
Qed.

(** The search keeps the answer between [lo] and [hi]. *)
Lemma binarySearch_loop_spec fuel idx f es target (lo hi : nat) :
  holds idx f es -> increasing es -> (lo <= hi < length es)%nat -> (hi - lo <= fuel)%nat ->
  (forall e, es !! lo = Some e -> real idx e <= target) ->
  (forall j a, es !! j = Some a -> (hi < j)%nat -> real idx a > target) ->
  exists r e, fst (binarySearch_loop fuel idx f (zlen es) target (Z.of_nat lo) (Z.of_nat hi)) = Z.of_nat r /\
    es !! r = Some e /\ real idx e <= target /\
    forall j a, es !! j = Some a -> (r < j)%nat -> real idx a > target.
Proof.
  intros H Hinc. revert lo hi. induction fuel as [|fuel IH]; intros lo hi Hlh Hfuel Hlo Hhi;
    cbn [binarySearch_loop]; (destruct (lookup_lt_is_Some_2 es lo) as [e He]; [lia|]).
  { exists lo, e. split; [destruct (_ =? _); reflexivity|]. split; [done|]. split; [auto|].
    intros j a Hj Hlt. apply (Hhi j); [done|lia]. }
  destruct (_ <? _) eqn:Hlt; zbool.
  - set (m := (lo + (hi - lo + 1) / 2)%nat).
    assert (Z.shiftr (Z.of_nat lo + Z.of_nat hi + 1) 1 = Z.of_nat m) as ->.
    { rewrite Z.shiftr_div_pow2 by lia. change (2 ^ 1) with 2. unfold m. rewrite Nat2Z.inj_add, Nat2Z.inj_div.
      replace (Z.of_nat lo + Z.of_nat hi + 1) with (Z.of_nat lo * 2 + Z.of_nat (hi - lo + 1)) by lia.
      rewrite Z.div_add_l by lia. reflexivity. }
    assert (lo < m <= hi)%nat as Hm.
    { unfold m. pose proof (Nat.div_mod_eq (hi - lo + 1) 2). pose proof (Nat.mod_upper_bound (hi - lo + 1) 2). lia. }
    destruct (lookup_lt_is_Some_2 es m) as [a Ha]; [lia|].
    rewrite (compare_spec idx f es m a target H Ha), !Z.gtb_ltb.
    destruct (target <? real idx a) eqn:H1; [|destruct (real idx a <? target) eqn:H2]; zbool; cbn [Z.gtb Z.ltb Z.compare].
    + replace (Z.of_nat m - 1) with (Z.of_nat (m - 1)) by lia. apply IH; [lia|lia|done|].
      intros j b Hj Hjm. destruct (decide (j = m)) as [->|Hne]; [assert (b = a) as -> by congruence; lia|].
      assert (RelativeOffset a < RelativeOffset b) by (apply (Hinc m j); [lia|done..]). unfold real in *. lia.
    + apply IH; [lia|lia| |done]. intros b Hb. assert (b = a) as -> by congruence. lia.
    + exists m, a. split; [done|]. split; [done|]. split; [lia|]. intros j b Hj Hjm.
      assert (RelativeOffset a < RelativeOffset b) by (apply (Hinc m j); [lia|done..]). unfold real in *. lia.
  - assert (lo = hi) as -> by lia. exists hi, e. split; [destruct (_ =? _); reflexivity|]. auto.
Qed.

Lemma lookup_split {A} (l : list A) i x : l !! i = Some x ->
  exists l1 l2, l = l1 ++ x :: l2 /\ length l1 = i.
Proof.
  intros Hi. exists (take i l), (drop (S i) l). split; [symmetry; apply take_drop_middle, Hi|].
  rewrite length_take. apply lookup_lt_Some in Hi. lia.
Qed.

(** What [Lookup] returns when the floor of the target is [o]. *)
Definition found (idx : Index) (o : option Entry) : OffsetPosition :=
  match o with
  | Some e => mkOffsetPosition (real idx e) (Position e)
  | None => mkOffsetPosition (baseOffset idx) 0
  end.

Lemma search_found idx f es target (lo hi : nat) : holds idx f es -> increasing es ->
  (lo <= hi < length es)%nat ->
  (forall e, es !! lo = Some e -> real idx e <= target) ->
  (forall j a, es !! j = Some a -> (hi < j)%nat -> real idx a > target) ->
  (let '(min, _) := binarySearch idx f (zlen es) target (Z.of_nat lo) (Z.of_nat hi) in
   if min =? -1 then mkOffsetPosition (baseOffset idx) 0 else parseEntry idx f min) =
  found idx (floor_entry idx es target).
Proof.
  intros H Hinc Hlh Hlo Hhi. unfold binarySearch.
  destruct (binarySearch_loop_spec (Z.to_nat (Z.of_nat hi - Z.of_nat lo)) idx f es target lo hi)
    as (r & e & Hr & He & Hle & Hgt); [done|done|done|lia|done|done|].
  rewrite (floor_entry_at idx es target r e) by done.
  destruct (binarySearch_loop _ _ _ _ _ _ _) as [m k]. cbn [fst] in Hr. subst m.
  rewrite (proj2 (Z.eqb_neq _ _)) by lia. apply (parseEntry_spec idx f es r e H He).
Qed.

Lemma increasing_le es i j a b : increasing es -> (i <= j)%nat -> es !! i = Some a -> es !! j = Some b ->
  RelativeOffset a <= RelativeOffset b.
Proof.
  intros Hinc Hij Ha Hb. destruct (decide (i = j)) as [->|Hne]; [assert (a = b) as -> by congruence; lia|].
  pose proof (Hinc i j a b ltac:(lia) Ha Hb). lia.
Qed.

(** [Lookup] is the floor of the target among the entries. *)
Lemma Lookup_spec idx f es target : holds idx f es -> increasing es ->
  Lookup idx f target = found idx (floor_entry idx es target).
Proof.
  intros H Hinc. unfold Lookup, indexSlotRangeFor.
  assert (position idx / entrySize = zlen es) as ->.
  { rewrite (h_position _ _ _ H), Z.mul_comm. apply Z.div_mul. done. }
  destruct (_ =? _) eqn:Hz; zbool.
  { destruct es; [|rewrite zlen_cons in Hz; pose proof (zlen_nonneg es); lia]. reflexivity. }
  unfold zlen in Hz. change warmEntries with 1024. set (h := (length es - 1 - 1024)%nat).
  assert (Z.max 0 (zlen es - 1 - 1024) = Z.of_nat h) as -> by (unfold h, zlen; lia).
  destruct (lookup_lt_is_Some_2 es h) as [eh Heh]; [unfold h; lia|].
  destruct (lookup_lt_is_Some_2 es 0) as [e0 He0]; [lia|].
  pose proof (compare_spec idx f es h eh target H Heh) as Hch.
  pose proof (compare_spec idx f es 0 e0 target H He0) as Hc0. change (Z.of_nat 0) with 0 in Hc0.
  rewrite Hch, Hc0, !Z.gtb_ltb.
  destruct (target <? real idx eh) eqn:H1; [|destruct (real idx eh <? target) eqn:H2]; zbool;
    cbn [Z.ltb Z.compare].
  2: { replace (zlen es - 1) with (Z.of_nat (length es - 1)) by (unfold zlen; lia).
    apply search_found; [done|done|unfold h; lia|intros e ?; assert (e = eh) as -> by congruence; lia|].
    intros j a Hj Hlt. apply lookup_lt_Some in Hj. lia. }
  all: destruct (target <? real idx e0) eqn:H3; zbool; cbn [Z.ltb Z.compare].
  1, 3: cbn; rewrite floor_entry_none; [done|]; intros j a Hj;
    pose proof (increasing_le es 0 j e0 a Hinc ltac:(lia) He0 Hj); unfold real in *; lia.
  all: destruct (real idx e0 <? target) eqn:H4; zbool; cbn [Z.ltb Z.compare];
    apply (search_found idx f es target 0 h); try done; try (unfold h; lia);
    try (intros e ?; assert (e = e0) as -> by congruence; lia);
    intros j a Hj Hlt; pose proof (Hinc h j eh a Hlt Heh Hj); unfold real in *; lia.
Qed.

(** * Appending and reopening *)

(** The file has nothing after the entries. *)
Definition tight (f : file) (es : list Entry) : Prop := fdata f = concat (encode_entry <$> es).

Lemma Append_spec idx f es offset pos : holds idx f es -> tight f es -> zlen es < maxEntryNum ->
  let e := mkEntry (u32 (offset - baseOffset idx)) (u32 pos) in
  exists idx' f', Append idx f offset pos = Ret (idx', f') /\ holds idx' f' (es ++ [e]) /\
    tight f' (es ++ [e]) /\ baseOffset idx' = baseOffset idx.
Proof.
  intros H Ht Hroom e. unfold maxEntryNum, entrySize in Hroom.
  assert (entrySize * zlen es + entrySize <= maxBytes) as Hfit.
  { unfold entrySize in *. pose proof (Z.mul_div_le maxBytes 8 ltac:(lia)). lia. }
  unfold Append. rewrite (h_position _ _ _ H). rewrite Z.geb_leb, (proj2 (Z.leb_gt _ _)) by (unfold entrySize in *; lia).
  unfold writeAt. rewrite Z.gtb_ltb, (proj2 (Z.ltb_ge _ _)) by lia. cbn [mbind outcome_bind].
  eexists _, _. split; [reflexivity|].
  assert (Z.to_nat (entrySize * zlen es) = length (fdata f)) as Ho.
  { rewrite Ht, length_concat_entries. unfold entrySize, zlen. lia. }
  assert (tight (mmap_write f (entrySize * zlen es) (encode_entry e)) (es ++ [e])) as Ht'.
  { unfold tight, mmap_write. cbn [fdata]. rewrite Ho, take_app_length, drop_ge by lia.
    rewrite app_nil_r, fmap_app, concat_app, Ht. cbn [fmap list_fmap concat]. rewrite app_nil_r. reflexivity. }
  split; [split; cbn [set_position position]|split; [exact Ht'|done]].
  - rewrite zlen_app. change (zlen [e]) with 1. lia.
  - exists []. rewrite app_nil_r. exact Ht'.
  - apply H.
  - rewrite zlen_app. change (zlen [e]) with 1. lia.
  - apply Forall_app. split; [apply H|]. constructor; [|constructor].
    split; apply wrapU_range; lia.
Qed.

(** The reader finds the end of the entries again, by the size of a file that
    was closed or by the first zero entry of one that was not. *)
Lemma resetPosistion_loop_spec fuel idx f es i : tight f es -> Forall entry_ok es ->
  Forall (fun e => RelativeOffset e <> 0) es ->
  (totalSize idx = entrySize * zlen es \/ entrySize * zlen es < totalSize idx /\ (entrySize | totalSize idx)) ->
  totalSize idx <= position idx -> (i <= length es)%nat -> (length es - i < fuel)%nat ->
  resetPosistion_loop fuel idx f (entrySize * Z.of_nat i) = Ret (entrySize * zlen es).
Proof.
  intros Ht Hok Hnz Htot Hpos. revert i. induction fuel as [|fuel IH]; intros i Hi Hf; [lia|].
  cbn [resetPosistion_loop]. destruct (decide (i = length es)) as [->|Hne].
  - change (Z.of_nat (length es)) with (zlen es). destruct (_ >=? _) eqn:E; rewrite Z.geb_leb in E; zbool; [done|].
    unfold readEntryAtPosition, readAtPosition. destruct Htot as [|[Hlt [k Hk]]]; [lia|].
    rewrite (proj2 (Z.ltb_ge _ _)) by (unfold entrySize in *; lia). cbn [mbind outcome_bind].
    unfold mmap_slice. rewrite drop_ge by (rewrite Ht, length_concat_entries; unfold entrySize, zlen; lia).
    reflexivity.
  - rewrite Z.geb_leb, (proj2 (Z.leb_gt _ _)) by (unfold entrySize, zlen in *; lia).
    unfold readEntryAtPosition, readAtPosition.
    rewrite (proj2 (Z.ltb_ge _ _)) by (unfold entrySize, zlen in *; lia). cbn [mbind outcome_bind].
    destruct (lookup_lt_is_Some_2 es i) as [e He]; [lia|].
    change (Z.to_nat entrySize) with 8%nat. unfold mmap_slice.
    replace (Z.to_nat (entrySize * Z.of_nat i)) with (8 * i)%nat by (unfold entrySize; lia).
    rewrite Ht, take_app_le by (rewrite length_drop, length_concat_entries; lia).
    rewrite (concat_entries_slice es i e He), decode_encode_entry by (eapply Forall_lookup_1; eauto).
    pose proof (Forall_lookup_1 _ _ _ _ Hnz He) as Hn. cbv beta in Hn.
    rewrite (proj2 (Z.eqb_neq _ _)) by exact Hn.
    replace (entrySize * Z.of_nat i + entrySize) with (entrySize * Z.of_nat (S i)) by lia. apply IH; lia.
Qed.

Lemma Truncate_fdata n f : zlen (fdata f) <= n -> fdata (Truncate n f) = fdata f.
Proof. intros Hn. unfold Truncate. cbn [fdata]. apply take_ge. unfold zlen in *. lia. Qed.

Lemma NewIndex_spec f es base : tight f es -> Forall entry_ok es ->
  Forall (fun e => RelativeOffset e <> 0) es -> entrySize * zlen es <= maxBytes ->
  (fsize f = entrySize * zlen es \/ fsize f = maxBytes) ->
  exists idx f', NewIndex f base = Ret (idx, f') /\ holds idx f' es /\ tight f' es /\ baseOffset idx = base.
Proof.
  intros Ht Hok Hnz Hfit Hsize. pose proof (zlen_nonneg es) as Hz. unfold NewIndex.
  set (f1 := Truncate (roundDown maxBytes entrySize) f).
  assert (tight f1 es) as Ht1.
  { unfold tight, f1. rewrite Truncate_fdata; [exact Ht|]. rewrite Ht. unfold zlen in *.
    rewrite length_concat_entries. change (roundDown maxBytes entrySize) with maxBytes.
    unfold entrySize in Hfit. lia. }
  set (total := if fsize f >? 0 then fsize f else 0).
  assert (total = fsize f) as Htotal.
  { unfold total. destruct (fsize f >? 0) eqn:E; rewrite Z.gtb_ltb in E; zbool; [done|].
    clear f1 Ht1 Ht. unfold entrySize, maxBytes in *. lia. }
  assert ((if fsize f >? 0 then (fsize f, fsize f) else (0, 0)) = (total, total)) as ->
    by (unfold total; destruct (_ >? _); reflexivity).
  unfold resetPosistion.
  rewrite (resetPosistion_loop_spec _ _ _ es 0); try done.
  - cbn [mbind outcome_bind]. eexists _, f1. split; [reflexivity|]. split; [split|]; try done.
    + exists []. rewrite app_nil_r. exact Ht1.
  - cbn [totalSize]. rewrite Htotal. destruct Hsize as [->| ->]; [auto|].
    destruct (decide (entrySize * zlen es = maxBytes)); [auto|]. right. split; [lia|].
    exists (maxBytes / entrySize). reflexivity.
  - lia.
  - rewrite Ht1, length_concat_entries. lia.
Qed.

(** A run of [Append]s. *)
Fixpoint append_all (idx : Index) (f : file) (l : list (Z * Z)) : outcome (Index * file) :=
  match l with
  | [] => Ret (idx, f)
  | (offset, pos) :: l' => '(idx', f') ← Append idx f offset pos; append_all idx' f' l'
  end.

(** Offsets an index of base [base] can hold: above the base, in order. *)
Definition indexable (base : Z) (l : list (Z * Z)) : Prop :=
  Forall (fun p => base < fst p < base + 2 ^ 32 /\ inU 32 (snd p)) l /\
  (forall i j a b, (i < j)%nat -> l !! i = Some a -> l !! j = Some b -> fst a < fst b).

Definition entry_of (base : Z) (p : Z * Z) : Entry := mkEntry (u32 (fst p - base)) (u32 (snd p)).

Lemma append_all_spec l idx f es : holds idx f es -> tight f es ->
  zlen es + zlen l <= maxEntryNum ->
  exists idx' f', append_all idx f l = Ret (idx', f') /\
    holds idx' f' (es ++ (entry_of (baseOffset idx) <$> l)) /\
    tight f' (es ++ (entry_of (baseOffset idx) <$> l)) /\ baseOffset idx' = baseOffset idx.
Proof.
  revert idx f es. induction l as [|[offset pos] l IH]; intros idx f es H Ht Hroom.
  - exists idx, f. rewrite app_nil_r. auto.
  - rewrite zlen_cons in Hroom. pose proof (zlen_nonneg l).
    destruct (Append_spec idx f es offset pos H Ht) as (idx1 & f1 & He & H1 & Ht1 & Hb); [lia|].
    cbn [append_all]. rewrite He. cbn [mbind outcome_bind].
    destruct (IH idx1 f1 _ H1 Ht1) as (idx2 & f2 & -> & H2 & Ht2 & Hb2).
    { rewrite zlen_app. change (zlen [_]) with 1. lia. }
    rewrite Hb in *. rewrite <- app_assoc in *. exists idx2, f2. auto.
Qed.

Lemma entry_of_real base p : base < fst p < base + 2 ^ 32 /\ inU 32 (snd p) ->
  base + RelativeOffset (entry_of base p) = fst p /\ Position (entry_of base p) = snd p /\
  RelativeOffset (entry_of base p) <> 0 /\ entry_ok (entry_of base p).
Proof.
  intros [Hb Hp]. unfold entry_of, entry_ok. cbn [RelativeOffset Position].
  rewrite (wrapU_id 32 (fst p - base)) by (unfold inU; lia). rewrite (wrapU_id 32 (snd p)) by done.
  unfold inU in *. lia.
Qed.

Lemma indexable_entries base l : indexable base l ->
  Forall entry_ok (entry_of base <$> l) /\ Forall (fun e => RelativeOffset e <> 0) (entry_of base <$> l) /\
  increasing (entry_of base <$> l).
Proof.
  intros [Hf Hinc]. split; [|split].
  - apply Forall_fmap. eapply Forall_impl; [exact Hf|]. intros p Hp. apply entry_of_real, Hp.
  - apply Forall_fmap. eapply Forall_impl; [exact Hf|]. intros p Hp. apply entry_of_real, Hp.
  - intros i j a b Hij. rewrite !list_lookup_fmap_Some. intros (p & -> & Hp) (q & -> & Hq).
    destruct (entry_of_real base p (Forall_lookup_1 _ _ _ _ Hf Hp)) as [E1 _].
    destruct (entry_of_real base q (Forall_lookup_1 _ _ _ _ Hf Hq)) as [E2 _].
    pose proof (Hinc i j p q Hij Hp Hq). lia.
Qed.

(** The pair with the largest offset that is not above the target. *)
Definition floor_pair (l : list (Z * Z)) (target : Z) : option (Z * Z) :=
  last (filter (fun p => fst p <= target) l).

Lemma found_pairs idx base l target : indexable base l -> baseOffset idx = base ->
  found idx (floor_entry idx (entry_of base <$> l) target) =
    match floor_pair l target with
    | Some (offset, pos) => mkOffsetPosition offset pos
    | None => mkOffsetPosition base 0
    end.
Proof.
  intros [Hf _] Hb. unfold floor_entry, floor_pair. rewrite filter_map.
  rewrite (filter_ext_in _ (fun p => fst p <= target)).
  - rewrite fmap_last. destruct (last _) as [[offset pos]|] eqn:Hl; cbn; [|congruence].
    apply last_Some_elem_of in Hl. apply list_elem_of_filter in Hl as [_ Hin].
    rewrite Forall_forall in Hf. destruct (entry_of_real base _ (Hf _ Hin)) as (E1 & E2 & _).
    unfold real. cbn in *. rewrite Hb, E1, E2. reflexivity.
  - intros p Hp. rewrite Forall_forall in Hf. destruct (entry_of_real base _ (Hf _ Hp)) as (E1 & _).
    unfold real. rewrite Hb, E1. reflexivity.
Qed.

(** C26: an index filled with increasing offsets, and then opened again after
    it was closed ([Close]) or not (the process died), finds for every
    target the entry with the largest offset not above it, and the start
    of the segment below the first entry. *)
Theorem index_survives_reopen base l closed target : indexable base l -> zlen l <= maxEntryNum ->
  exists idx0 f0 idx f, NewIndex (mkFile 0 []) base = Ret (idx0, f0) /\
    append_all idx0 f0 l = Ret (idx, f) /\
    exists idx' f', NewIndex (if closed : bool then Close idx f else f) base = Ret (idx', f') /\
      Lookup idx' f' target =
        match floor_pair l target with
        | Some (offset, pos) => mkOffsetPosition offset pos
        | None => mkOffsetPosition base 0
        end.
Proof.
  intros Hl Hroom. destruct (NewIndex_spec (mkFile 0 []) [] base) as (idx0 & f0 & He0 & H0 & Ht0 & Hb0);
    [reflexivity|apply Forall_nil; exact I|apply Forall_nil; exact I|discriminate|left; reflexivity|].
  destruct (append_all_spec l idx0 f0 [] H0 Ht0) as (idx & f & He & H & Ht & Hb); [rewrite zlen_nil; lia|].
  exists idx0, f0, idx, f. split; [done|]. split; [done|]. rewrite Hb0 in *. cbn [app] in *.
  destruct (indexable_entries base l Hl) as (Hok & Hnz & Hinc).
  set (es := entry_of base <$> l) in *.
  destruct (NewIndex_spec (if closed then Close idx f else f) es base)
    as (idx' & f' & He' & H' & _ & Hb'); try done.
  - destruct closed; [|done]. unfold tight, Close. rewrite Truncate_fdata; [exact Ht|].
    rewrite (h_position _ _ _ H), Ht. unfold zlen. rewrite length_concat_entries. unfold entrySize. lia.
  - apply H.
  - destruct closed; [left; cbn; apply H|right; apply H].
  - exists idx', f'. split; [done|]. rewrite (Lookup_spec idx' f' es target H' Hinc).
    apply (found_pairs idx' base l target Hl Hb').
Qed.

Lemma index_survives_reopen_witness :
  exists idx0 f0 idx f, NewIndex (mkFile 0 []) 3 = Ret (idx0, f0) /\
    append_all idx0 f0 [(5, 100); (9, 300)] = Ret (idx, f) /\
    exists idx' f', NewIndex (if true then Close idx f else f) 3 = Ret (idx', f') /\
      Lookup idx' f' 7 = mkOffsetPosition 5 100.
Proof.
  apply (index_survives_reopen 3 [(5, 100); (9, 300)] true 7); [|discriminate].
  split.
  - repeat (apply Forall_cons; split; [cbn; unfold inU; lia|]). apply Forall_nil. exact I.
  - intros [|[|i]] [|[|j]] a b Hij Ha Hb; cbn in Ha, Hb; try lia; try discriminate; try (destruct j; discriminate).
    injection Ha as <-. injection Hb as <-. reflexivity.
Defined.
