(* ===== verification/Segment.v ===== *)
(** A log segment (internal/db/segment.go): records appended to a file, an
    index over them, reading by offset, and the check of the file at start. *)
From stdpp Require Import base list strings.
From Stdlib Require Import ZArith Lia Strings.Byte.
From S2P Require Import Prelude Wire Index Model.

(** * internal/db/common.go *)
Definition MagicNumber : list byte := [x15; x16].
Definition EndMagicNumber : list byte := [x03].
Definition LogVersion : list byte := [x01].
Definition OffsetSize : Z := 8.
Definition LogDataLenSize : Z := 4.
Definition AppliIndexSize : Z := 8.
Definition LogMaxSize : Z := 1024 * 1024.
Definition ErrorNotData : error := ErrMsg "no data".

(** The interface [ILog] of internal/db/model.go. [Decode] starts from the
    object the caller passes. *)
Class ILog (T : Type) := {
  Offset : T -> Z;
  GetAppliIndex : T -> Z;
  Encode : T -> outcome (list byte);
  Decode : T -> list byte -> outcome T
}.

#[export] Instance Message_ILog : ILog Db.Message := {|
  Offset := Db.Offset;
  GetAppliIndex := Db.GetAppliIndex;
  Encode := Db.Encode;
  Decode m data := Db.Decode (Db.AppliIndex m) data
|}.

(** [os.File.ReadAt] of [n] bytes. *)
Definition ReadAtFile (f : list byte) (n : nat) (off : Z) : outcome (list byte) :=
  if off <? 0 then Err (ErrMsg "negative offset")
  else if Z.of_nat n =? 0 then Ret []
  else if off + Z.of_nat n >? zlen f then Err EOF
  else Ret (take n (drop (Z.to_nat off) f)).

Module Segment.

(** The two files of a segment, shared by every [Segment] object opened on
    them. *)
Record files := mkFiles { logFile : list byte; indexFile : Index.file }.

Record Segment := mkSegment {
  baseOffset : Z;
  index : Index.Index;
  position : Z;
  bytesSinceLastIndexEntry : Z;
  totalSize : Z
}.

Definition indexIntervalBytes : Z := 4 * 1024.

(** [NewSegment]: the files are opened or created. *)
Definition NewSegment (base : Z) (fs : files) : outcome (Segment * files) :=
  '(idx, ifile) ← Index.NewIndex (indexFile fs) base;
  Ret (mkSegment base idx 0 0 (zlen (logFile fs)), mkFiles (logFile fs) ifile).

Definition logFixHeaderLen : Z :=
  zlen MagicNumber + zlen LogVersion + LogDataLenSize + OffsetSize + AppliIndexSize.
Definition logMinLen : Z := logFixHeaderLen + zlen EndMagicNumber.

Definition wrapLogData (offset appliIndex : Z) (data : list byte) : list byte :=
  MagicNumber ++ LogVersion ++ be 4 (u32 (zlen data)) ++ be 8 offset ++ be 8 appliIndex ++ data
    ++ EndMagicNumber.

Definition getFileSize (s : Segment) : Z := if position s =? 0 then totalSize s else position s.

(** [append]: the write goes to the end of the file. *)
Definition append (data : list byte) (s : Segment) (fs : files) : Segment * files :=
  (mkSegment (baseOffset s) (index s) (position s + zlen data) (bytesSinceLastIndexEntry s) (totalSize s),
   mkFiles (logFile fs ++ data) (indexFile fs)).

Definition set_index (idx : Index.Index) (s : Segment) : Segment :=
  mkSegment (baseOffset s) idx (position s) (bytesSinceLastIndexEntry s) (totalSize s).
Definition set_since (n : Z) (s : Segment) : Segment :=
  mkSegment (baseOffset s) (index s) (position s) n (totalSize s).
Definition set_pos (n : Z) (s : Segment) : Segment :=
  mkSegment (baseOffset s) (index s) n (bytesSinceLastIndexEntry s) (totalSize s).

Definition ErrTooLarge : error := ErrMsg "Log data is too large！can not exceed 1048576 byte".

Definition AppendLog {T} `{ILog T} (log : T) (s : Segment) (fs : files) : outcome (Z * Segment * files) :=
  data ← Encode log;
  if zlen data >? LogMaxSize then Err ErrTooLarge
  else
    let rec := wrapLogData (Offset log) (GetAppliIndex log) data in
    let '(s1, fs1) := append rec s fs in
    '(s2, fs2) ←
      (if bytesSinceLastIndexEntry s1 >? indexIntervalBytes then
         '(idx, ifile) ← Index.Append (index s1) (indexFile fs1) (Offset log) (position s1);
         Ret (set_since 0 (set_index idx s1), mkFiles (logFile fs1) ifile)
       else Ret (s1, fs1));
    Ret (zlen rec, set_since (bytesSinceLastIndexEntry s2 + zlen rec) s2, fs2).

(** The offset and data length in the header at a position. *)
Definition readAtPosition (fs : files) (pos : Z) : outcome (Z * Z) :=
  sizeByte ← ReadAtFile (logFile fs) 4 (pos + (zlen MagicNumber + zlen LogVersion));
  offsetByte ← ReadAtFile (logFile fs) 8 (pos + (zlen MagicNumber + zlen LogVersion + LogDataLenSize));
  Ret (i64 (be_val 0 offsetByte), be_val 0 sizeByte).

Definition readLogDataAtPosition (fs : files) (pos : Z) : outcome (list byte * Z) :=
  '(_, dataLen) ← readAtPosition fs pos;
  data ← ReadAtFile (logFile fs) (Z.to_nat dataLen) (pos + logFixHeaderLen);
  Ret (data, pos + logFixHeaderLen + (dataLen + zlen EndMagicNumber)).

(** The recursion of [readTargetPosition]; every call is at least
    [logMinLen] further in the file. *)
Fixpoint readTargetPosition_rec (fuel : nat) (s : Segment) (fs : files) (startPosition targetOffset : Z) :
    outcome (Z * Z) :=
  if startPosition >=? getFileSize s then Err ErrorNotData
  else
    '(resultOffset, dataLen) ← readAtPosition fs startPosition;
    let nextPosition := startPosition + logFixHeaderLen + (dataLen + zlen EndMagicNumber) in
    if resultOffset =? targetOffset then Ret (startPosition, nextPosition)
    else match fuel with
         | O => Err ErrorNotData
         | S fuel' => readTargetPosition_rec fuel' s fs nextPosition targetOffset
         end.
Definition readTargetPosition (s : Segment) (fs : files) (startPosition targetOffset : Z) : outcome (Z * Z) :=
  readTargetPosition_rec (length (logFile fs)) s fs startPosition targetOffset.

Definition ReadAt {T} `{ILog T} (offset : Z) (log : T) (s : Segment) (fs : files) : outcome T :=
  let offsetPosition := Index.Lookup (index s) (indexFile fs) offset in
  '(targetPosition, _) ← readTargetPosition s fs (Index.op_Position offsetPosition) offset;
  '(data, _) ← readLogDataAtPosition fs targetPosition;
  Decode log data.

Section Callback.
(** The callbacks are closures: they update a state [St] of the caller. *)
Context {St : Type}.

(** The loop of [readLogsAtPosition]. *)
Fixpoint readLogs_loop (fuel : nat) (s : Segment) (fs : files) (startPosition count limit : Z)
    (callback : list byte -> St -> outcome St) (st : St) : outcome St :=
  match fuel with
  | O => Ret st
  | S fuel' =>
      if (startPosition >=? getFileSize s) || (count >=? limit) then Ret st
      else
        '(data, next) ← readLogDataAtPosition fs startPosition;
        st' ← callback data st;
        readLogs_loop fuel' s fs next (count + 1) limit callback st'
  end.
Definition readLogsAtPosition (s : Segment) (fs : files) (pos limit : Z)
    (callback : list byte -> St -> outcome St) (st : St) : outcome St :=
  readLogs_loop (S (length (logFile fs))) s fs pos 0 limit callback st.

(** [ReadLogs]: an offset the index has starts at the indexed position, any
    other one is searched for; one that is not there reads nothing. *)
Definition ReadLogs (offset limit : Z) (s : Segment) (fs : files)
    (callback : list byte -> St -> outcome St) (st : St) : outcome St :=
  let offsetPosition := Index.Lookup (index s) (indexFile fs) offset in
  if Index.Offset offsetPosition =? offset then
    readLogsAtPosition s fs (Index.op_Position offsetPosition) limit callback st
  else
    match readTargetPosition s fs (Index.op_Position offsetPosition) offset with
    | Ret (startPosition, _) => readLogsAtPosition s fs startPosition limit callback st
    | Err e => match e with
               | ErrMsg "no data" => Ret st
               | _ => Err e
               end
    | Panic => Panic
    end.
End Callback.

(** * The check of the file at start *)

(** The loop of [check]: the start of the last record looked at, and
    [s.position], the end of the last whole record. *)
Fixpoint check_loop (fuel : nat) (log : list byte) (segmentSize byteOffset lastStart pos : Z) : Z * Z :=
  match fuel with
  | O => (lastStart, pos)
  | S fuel' =>
      if byteOffset >=? segmentSize then (lastStart, pos)
      else
        match ReadAtFile log 2 byteOffset with
        | Ret magic =>
            if decide (magic = MagicNumber) then
              let off1 := byteOffset + zlen MagicNumber in
              if off1 + (zlen LogVersion + LogDataLenSize) >=? segmentSize then (byteOffset, pos)
              else
                match ReadAtFile log 5 off1 with
                | Ret h =>
                    let off2 := off1 + (zlen LogVersion + LogDataLenSize) in
                    let size := be_val 0 (drop 1 h) in
                    let rest := OffsetSize + AppliIndexSize + zlen EndMagicNumber in
                    if off2 + size + rest >? segmentSize then (byteOffset, pos)
                    else check_loop fuel' log segmentSize (off2 + (size + rest)) byteOffset
                           (off2 + (size + rest))
                | _ => (byteOffset, pos)
                end
            else (byteOffset, pos)
        | _ => (byteOffset, pos)
        end
  end.

(** [check]: with [keepCorrect] the file is cut back (after a backup copy)
    to its whole records. *)
Definition check (startPosition segmentSize : Z) (keepCorrect : bool) (s : Segment) (fs : files) :
    Z * Segment * files :=
  let '(lastMsgStartPosition, pos) :=
    check_loop (S (length (logFile fs))) (logFile fs) segmentSize startPosition startPosition (position s) in
  let s1 := set_pos pos s in
  if keepCorrect && negb (pos =? segmentSize) then
    (lastMsgStartPosition, s1, mkFiles (take (Z.to_nat pos) (logFile fs)) (indexFile fs))
  else (lastMsgStartPosition, s1, fs).

Definition hasEndMagicNumer (segmentSize : Z) (fs : files) : outcome bool :=
  p ← ReadAtFile (logFile fs) 1 (segmentSize - 1); Ret (bool_decide (p = EndMagicNumber)).
Definition hasMagicNumer (pos : Z) (fs : files) : outcome bool :=
  v ← ReadAtFile (logFile fs) 2 pos; Ret (bool_decide (v = MagicNumber)).

(** The search of [sanitySimpleCheck] for a magic number, two bytes at a
    time: [None] when the end of the file comes first. *)
Fixpoint simple_loop (fuel : nat) (fs : files) (segmentSize warmPosition : Z) : outcome (option Z) :=
  match fuel with
  | O => Ret None
  | S fuel' =>
      if warmPosition >=? segmentSize then Ret None
      else
        has ← hasMagicNumer warmPosition fs;
        if has : bool then Ret (Some warmPosition)
        else simple_loop fuel' fs segmentSize (warmPosition + 2)
  end.

(** [SanityCheck] returns the start of the last record. *)
Definition SanityCheck (s : Segment) (fs : files) : outcome (Z * Segment * files) :=
  let segmentSize := zlen (logFile fs) in
  if segmentSize =? 0 then Ret (0, s, fs)
  else
    hasEnd ← hasEndMagicNumer segmentSize fs;
    if negb hasEnd then Ret (check 0 segmentSize true s fs)
    else if segmentSize <=? LogMaxSize + logMinLen then Ret (check 0 segmentSize true s fs)
    else
      found ← simple_loop (S (length (logFile fs))) fs segmentSize (LogMaxSize + logMinLen);
      match found with
      | None => Ret (check 0 segmentSize true s fs)
      | Some warmPosition => Ret (check warmPosition segmentSize false s fs)
      end.

End Segment.
Import Segment.

(** * Records and their places in the file *)

Record record := mkRecord { r_offset : Z; r_appliIndex : Z; r_data : list byte }.

Definition wrap_record (r : record) : list byte := wrapLogData (r_offset r) (r_appliIndex r) (r_data r).
Definition image (rs : list record) : list byte := concat (wrap_record <$> rs).
Definition record_ok (r : record) : Prop := inS 64 (r_offset r) /\ zlen (r_data r) <= LogMaxSize.
Definition record_size (r : record) : Z := 24 + zlen (r_data r).

(** Where record [i] starts. *)
Definition start (rs : list record) (i : nat) : Z := zlen (image (take i rs)).

Lemma zlen_wrap r : zlen (wrap_record r) = record_size r.
Proof.
  unfold wrap_record, wrapLogData, record_size. autorewrite with go.
  change (zlen MagicNumber) with 2. change (zlen LogVersion) with 1. change (zlen EndMagicNumber) with 1. lia.
Qed.

Lemma image_app rs rs' : image (rs ++ rs') = image rs ++ image rs'.
Proof. unfold image. rewrite fmap_app. apply concat_app. Qed.
Lemma image_cons r rs : image (r :: rs) = wrap_record r ++ image rs.
Proof. reflexivity. Qed.

Lemma start_S rs i r : rs !! i = Some r -> start rs (S i) = start rs i + record_size r.
Proof.
  intros Hi. unfold start. rewrite (take_S_r _ _ r Hi), image_app, zlen_app.
  rewrite image_cons. change (image []) with (@nil byte). rewrite app_nil_r, zlen_wrap. reflexivity.
Qed.

Lemma record_size_pos r : 24 <= record_size r.
Proof. unfold record_size. pose proof (zlen_nonneg (r_data r)). lia. Qed.

Lemma start_all rs i : (length rs <= i)%nat -> start rs i = zlen (image rs).
Proof. intros Hi. unfold start. rewrite take_ge by done. reflexivity. Qed.

Lemma start_mono rs i j : (i <= j)%nat -> start rs i <= start rs j.
Proof.
  intros Hij. unfold start. rewrite <- (take_drop i (take j rs)), take_take, image_app, zlen_app.
  replace (i `min` j)%nat with i by lia. pose proof (zlen_nonneg (image (drop i (take j rs)))). lia.
Qed.

Lemma start_lt rs i j : (i < j)%nat -> (i < length rs)%nat -> start rs i < start rs j.
Proof.
  intros Hij Hi. destruct (lookup_lt_is_Some_2 rs i Hi) as [r Hr].
  pose proof (start_S rs i r Hr). pose proof (record_size_pos r). pose proof (start_mono rs (S i) j Hij). lia.
Qed.

Lemma start_inj rs i j : (i <= length rs)%nat -> (j <= length rs)%nat -> start rs i = start rs j -> i = j.
Proof.
  intros Hi Hj E. destruct (decide (i < j)%nat); [pose proof (start_lt rs i j); lia|].
  destruct (decide (j < i)%nat); [pose proof (start_lt rs j i); lia|lia].
Qed.

(** The file splits around record [i]. *)
Lemma image_split rs i r : rs !! i = Some r ->
  exists pre post, image rs = pre ++ wrap_record r ++ post /\ zlen pre = start rs i.
Proof.
  intros Hi. exists (image (take i rs)), (image (drop (S i) rs)). split; [|reflexivity].
  rewrite <- (take_drop_middle rs i r Hi) at 1. rewrite image_app, image_cons. reflexivity.
Qed.

(** Reading [n] bytes that lie [k] bytes into a known part of the file. *)
Lemma ReadAtFile_mid pre a b c off : off = zlen pre + zlen a ->
  ReadAtFile (pre ++ a ++ b ++ c) (length b) off = Ret b.
Proof.
  intros ->. unfold ReadAtFile. pose proof (zlen_nonneg pre). pose proof (zlen_nonneg a).
  rewrite (proj2 (Z.ltb_ge _ _)) by lia. destruct (_ =? 0) eqn:Hz; zbool.
  { destruct b; [reflexivity|cbn in Hz; lia]. }
  rewrite Z.gtb_ltb, (proj2 (Z.ltb_ge _ _)).
  - rewrite app_assoc, take_drop_commute, slice_mid; [reflexivity| |]; unfold zlen; rewrite length_app; lia.
  - autorewrite with go. pose proof (zlen_nonneg c). unfold zlen. lia.
Qed.

Lemma ReadAtFile_at f pre a b c n off : f = pre ++ a ++ b ++ c -> n = length b ->
  off = zlen pre + zlen a -> ReadAtFile f n off = Ret b.
Proof. intros -> -> Ho. apply ReadAtFile_mid, Ho. Qed.

(** The lengths of the fixed fields. *)
Ltac const_len :=
  unfold logFixHeaderLen, logMinLen in *;
  change (zlen MagicNumber) with 2 in *; change (zlen LogVersion) with 1 in *;
  change (zlen EndMagicNumber) with 1 in *; change LogDataLenSize with 4 in *;
  change OffsetSize with 8 in *; change AppliIndexSize with 8 in *.

Ltac read_at pre a b n :=
  erewrite (ReadAtFile_at _ pre a b _ n);
  [|unfold wrap_record, wrapLogData; rewrite <- ?app_assoc; reflexivity
   |rewrite ?length_be, ?to_nat_zlen; reflexivity|autorewrite with go; const_len; lia].

Lemma zlen_u32 (d : list byte) : zlen d <= LogMaxSize -> be_val 0 (be 4 (u32 (zlen d))) = zlen d.
Proof.
  intros Hd. pose proof (zlen_nonneg d). unfold LogMaxSize in Hd.
  rewrite wrapU_id by (unfold inU; lia). apply Index.be_val_id. unfold inU. cbn. lia.
Qed.

Lemma i64_offset z : inS 64 z -> i64 (be_val 0 (be 8 z)) = z.
Proof.
  intros Hz. rewrite be_val_be. change (2 ^ (8 * Z.of_nat 8)) with (2 ^ 64).
  change (0 * 2 ^ 64 + z mod 2 ^ 64) with (wrapU 64 z). rewrite wrapS_wrapU, wrapS_id by (done || lia). reflexivity.
Qed.

Lemma readAtPosition_record fs pre r post : logFile fs = pre ++ wrap_record r ++ post -> record_ok r ->
  readAtPosition fs (zlen pre) = Ret (r_offset r, zlen (r_data r)).
Proof.
  intros Hf [Ho Hd]. unfold readAtPosition. rewrite Hf.
  read_at pre (MagicNumber ++ LogVersion) (be 4 (u32 (zlen (r_data r)))) 4%nat. cbn [mbind outcome_bind].
  read_at pre (MagicNumber ++ LogVersion ++ be 4 (u32 (zlen (r_data r)))) (be 8 (r_offset r)) 8%nat. cbn [mbind outcome_bind].
  rewrite i64_offset, zlen_u32 by done. reflexivity.
Qed.

Lemma readLogData_record fs pre r post : logFile fs = pre ++ wrap_record r ++ post -> record_ok r ->
  readLogDataAtPosition fs (zlen pre) = Ret (r_data r, zlen pre + record_size r).
Proof.
  intros Hf Hok. unfold readLogDataAtPosition. rewrite (readAtPosition_record fs pre r post Hf Hok).
  cbn [mbind outcome_bind]. rewrite Hf.
  read_at pre (MagicNumber ++ LogVersion ++ be 4 (u32 (zlen (r_data r))) ++ be 8 (r_offset r) ++ be 8 (r_appliIndex r))
    (r_data r) (Z.to_nat (zlen (r_data r))).
  cbn [mbind outcome_bind]. unfold record_size. do 2 f_equal. const_len. lia.
Qed.

Lemma readAt_index fs rs i r : logFile fs = image rs -> Forall record_ok rs -> rs !! i = Some r ->
  readAtPosition fs (start rs i) = Ret (r_offset r, zlen (r_data r)).
Proof.
  intros Hf Hok Hi. destruct (image_split rs i r Hi) as (pre & post & Hs & <-).
  apply (readAtPosition_record fs pre r post); [congruence|]. eapply Forall_lookup_1; eauto.
Qed.

Lemma readLogData_index fs rs i r : logFile fs = image rs -> Forall record_ok rs -> rs !! i = Some r ->
  readLogDataAtPosition fs (start rs i) = Ret (r_data r, start rs (S i)).
Proof.
  intros Hf Hok Hi. rewrite (start_S rs i r Hi).
  destruct (image_split rs i r Hi) as (pre & post & Hs & <-).
  apply (readLogData_record fs pre r post); [congruence|]. eapply Forall_lookup_1; eauto.
Qed.

Lemma next_start rs i r : rs !! i = Some r ->
  start rs i + logFixHeaderLen + (zlen (r_data r) + zlen EndMagicNumber) = start rs (S i).
Proof. intros Hi. rewrite (start_S rs i r Hi). unfold record_size. const_len. lia. Qed.

Lemma length_image rs : (length rs <= length (image rs))%nat.
Proof.
  induction rs as [|r rs IH]; [reflexivity|]. rewrite image_cons, length_app. cbn [length].
  pose proof (zlen_wrap r) as Hw. pose proof (record_size_pos r). unfold zlen in Hw. lia.
Qed.

(** * Scanning the records *)

Section Scan.
Variables (s : Segment) (fs : files) (rs : list record).
Hypothesis Hlog : logFile fs = image rs.
Hypothesis Hok : Forall record_ok rs.
Hypothesis Hsize : getFileSize s = zlen (image rs).

Lemma at_end i : (i <= length rs)%nat -> (start rs i >=? getFileSize s) = bool_decide (i = length rs).
Proof using Hsize.
  intros Hi. rewrite Hsize, Z.geb_leb, <- (start_all rs (length rs)) by lia.
  case_bool_decide as Hc; [subst; lia|]. apply Z.leb_gt, start_lt; lia.
Qed.

(** The scan from record [i] ends at the first record with the offset. *)
Lemma readTarget_found fuel i k r t : (i <= k)%nat -> rs !! k = Some r -> r_offset r = t ->
  (forall j a, (i <= j < k)%nat -> rs !! j = Some a -> r_offset a <> t) -> (k - i <= fuel)%nat ->
  readTargetPosition_rec fuel s fs (start rs i) t = Ret (start rs k, start rs (S k)).
Proof using Hlog Hok Hsize.
  revert i. induction fuel as [|fuel IH]; intros i Hik Hk Ht Hbefore Hfuel;
    pose proof (lookup_lt_Some _ _ _ Hk); cbn [readTargetPosition_rec];
    (rewrite at_end, bool_decide_eq_false_2 by lia);
    (destruct (lookup_lt_is_Some_2 rs i) as [a Ha]; [lia|]);
    rewrite (readAt_index fs rs i a Hlog Hok Ha); cbn [mbind outcome_bind];
    rewrite (next_start rs i a Ha).
  - assert (i = k) as -> by lia. assert (a = r) as -> by congruence.
    rewrite (proj2 (Z.eqb_eq _ _)) by done. reflexivity.
  - destruct (decide (i = k)) as [->|Hne].
    + assert (a = r) as -> by congruence. rewrite (proj2 (Z.eqb_eq _ _)) by done. reflexivity.
    + rewrite (proj2 (Z.eqb_neq _ _)) by (apply (Hbefore i); [lia|done]).
      apply IH; try done; try lia. intros j b Hj. apply Hbefore. lia.
Qed.

Lemma readTarget_absent fuel i t : (i <= length rs)%nat ->
  (forall j a, (i <= j)%nat -> rs !! j = Some a -> r_offset a <> t) ->
  readTargetPosition_rec fuel s fs (start rs i) t = Err ErrorNotData.
Proof using Hlog Hok Hsize.
  revert i. induction fuel as [|fuel IH]; intros i Hi Habs; cbn [readTargetPosition_rec]; rewrite at_end by done;
    (case_bool_decide as Hc; [done|]); (destruct (lookup_lt_is_Some_2 rs i) as [a Ha]; [lia|]);
    rewrite (readAt_index fs rs i a Hlog Hok Ha); cbn [mbind outcome_bind];
    rewrite (proj2 (Z.eqb_neq _ _)) by (apply (Habs i); [lia|done]); [done|].
  rewrite (next_start rs i a Ha). apply IH; [lia|]. intros j b Hj. apply Habs. lia.
Qed.

(** Running a callback over data. *)
Fixpoint callback_all {St} (callback : list byte -> St -> outcome St) (l : list (list byte)) (st : St) : outcome St :=
  match l with
  | [] => Ret st
  | d :: l' => st' ← callback d st; callback_all callback l' st'
  end.

Lemma readLogs_loop_spec {St} (callback : list byte -> St -> outcome St) fuel i count limit st :
  (i <= length rs)%nat -> (length rs - i < fuel)%nat ->
  readLogs_loop fuel s fs (start rs i) count limit callback st =
    callback_all callback (r_data <$> take (Z.to_nat (limit - count)) (drop i rs)) st.
Proof using Hlog Hok Hsize.
  revert i count st. induction fuel as [|fuel IH]; intros i count st Hi Hfuel; [lia|].
  cbn [readLogs_loop]. rewrite at_end by done. case_bool_decide as Hc; cbn [orb].
  { subst i. rewrite drop_ge, take_nil by lia. reflexivity. }
  destruct (_ >=? _) eqn:Hlim; rewrite Z.geb_leb in Hlim; zbool.
  { replace (Z.to_nat (limit - count)) with 0%nat by lia. reflexivity. }
  destruct (lookup_lt_is_Some_2 rs i) as [a Ha]; [lia|].
  rewrite (readLogData_index fs rs i a Hlog Hok Ha). cbn [mbind outcome_bind].
  rewrite (drop_S rs a i Ha). replace (Z.to_nat (limit - count)) with (S (Z.to_nat (limit - (count + 1)))) by lia.
  cbn [take fmap list_fmap callback_all]. destruct (callback (r_data a) st) as [st'| |]; cbn [mbind outcome_bind]; [|done|done].
  apply IH; lia.
Qed.
End Scan.

(** * Segments that hold records *)

(** [s], over the files [fs], holds the records [rs], of which its index has
    the entries [es]: each stands for a record and points behind it. *)
Record valid (s : Segment) (fs : files) (rs : list record) (es : list Index.Entry) : Prop := {
  v_log : logFile fs = image rs;
  v_ok : Forall record_ok rs;
  v_size : getFileSize s = zlen (image rs);
  v_fits : zlen (image rs) < 2 ^ 32;
  v_sorted : forall i j a b, (i < j)%nat -> rs !! i = Some a -> rs !! j = Some b -> r_offset a < r_offset b;
  v_base : Forall (fun r => baseOffset s <= r_offset r < baseOffset s + 2 ^ 32) rs;
  v_index_base : Index.baseOffset (index s) = baseOffset s;
  v_holds : Index.holds (index s) (indexFile fs) es;
  v_tight : Index.tight (indexFile fs) es;
  v_increasing : Index.increasing es;
  v_entries e : e ∈ es -> exists k r, rs !! k = Some r /\ Index.real (index s) e = r_offset r /\
    Index.Position e = start rs (S k)
}.

(** Whether the index has an entry for an offset. *)
Definition is_indexed (s : Segment) (es : list Index.Entry) (t : Z) : bool :=
  existsb (fun e => Index.real (index s) e =? t) es.

(** The record with an offset, and its place. *)
Definition find_offset (rs : list record) (t : Z) : option (nat * record) :=
  list_find (fun r => r_offset r = t) rs.

Lemma find_offset_Some rs t k r : find_offset rs t = Some (k, r) -> rs !! k = Some r /\ r_offset r = t.
Proof. intros (Hk & Ht & _)%list_find_Some. done. Qed.

Lemma find_offset_None rs t : find_offset rs t = None ->
  forall (j : nat) (a : record), rs !! j = Some a -> r_offset a <> t.
Proof. intros Hn%list_find_None j a Ha. eapply (Forall_lookup_1 _ _ _ _ Hn Ha). Qed.

Lemma sorted_offsets s fs rs es i j a b : valid s fs rs es -> rs !! i = Some a -> rs !! j = Some b ->
  r_offset a = r_offset b -> i = j.
Proof.
  intros Hv Ha Hb E. destruct (decide (i < j)%nat); [pose proof (v_sorted _ _ _ _ Hv i j a b); intuition lia|].
  destruct (decide (j < i)%nat); [pose proof (v_sorted _ _ _ _ Hv j i b a); intuition lia|lia].
Qed.

(** Where [Lookup] sends a reader: behind the last indexed record that is not
    above the target. *)
Lemma Lookup_valid s fs rs es t : valid s fs rs es ->
  let op := Index.Lookup (index s) (indexFile fs) t in
  (op = Index.mkOffsetPosition (baseOffset s) 0 /\ is_indexed s es t = false) \/
  exists k r, rs !! k = Some r /\ Index.Offset op = r_offset r /\ Index.op_Position op = start rs (S k) /\
    r_offset r <= t /\ (is_indexed s es t = bool_decide (r_offset r = t)).
Proof.
  intros Hv op. unfold op. rewrite (Index.Lookup_spec _ _ es t (v_holds _ _ _ _ Hv) (v_increasing _ _ _ _ Hv)).
  destruct (Index.floor_entry _ es t) as [e|] eqn:Hfl; cbn [Index.found].
  - right. unfold Index.floor_entry in Hfl. pose proof (last_Some_elem_of _ _ Hfl) as [Hle Hin]%list_elem_of_filter.
    destruct (v_entries _ _ _ _ Hv e Hin) as (k & r & Hr & Hreal & Hpos). exists k, r.
    split; [done|]. split; [done|]. split; [done|]. rewrite <- Hreal. split; [done|].
    unfold is_indexed. case_bool_decide as Hc.
    + apply existsb_exists. exists e. split; [apply list_elem_of_In, Hin|]. apply Z.eqb_eq, Hc.
    + apply not_true_iff_false. rewrite existsb_exists. intros (e' & Hin' & E%Z.eqb_eq).
      apply list_elem_of_In in Hin'. apply Hc.
      pose proof (Index.floor_entry_max _ es t e e' (v_increasing _ _ _ _ Hv) Hfl Hin' ltac:(lia)). lia.
  - left. rewrite <- (v_index_base _ _ _ _ Hv). split; [done|]. unfold Index.floor_entry in Hfl.
    apply last_None in Hfl. unfold is_indexed. apply not_true_iff_false. rewrite existsb_exists.
    intros (e' & Hin' & E%Z.eqb_eq). apply list_elem_of_In in Hin'.
    assert (e' ∈ filter (fun e => Index.real (index s) e <= t) es) as Hf by (apply list_elem_of_filter; split; [lia|done]).
    rewrite Hfl in Hf. inversion Hf.
Qed.

(** The place [i] where a reader of offset [t] starts: behind the record when
    the index has its offset, at or before it otherwise. *)
Lemma Lookup_start s fs rs es t : valid s fs rs es -> exists i, (i <= length rs)%nat /\
  Index.op_Position (Index.Lookup (index s) (indexFile fs) t) = start rs i /\
  (Index.Offset (Index.Lookup (index s) (indexFile fs) t) = t ->
     if is_indexed s es t then exists k r, rs !! k = Some r /\ r_offset r = t /\ i = S k
     else t = baseOffset s /\ i = 0%nat) /\
  (is_indexed s es t = true -> Index.Offset (Index.Lookup (index s) (indexFile fs) t) = t) /\
  forall k r, rs !! k = Some r -> r_offset r = t -> if is_indexed s es t then (k < i)%nat else (i <= k)%nat.
Proof.
  intros Hv. destruct (Lookup_valid s fs rs es t Hv) as [[-> ->]|(k & r & Hk & -> & -> & Hle & ->)].
  - exists 0%nat. split; [lia|]. split; [reflexivity|]. split; [auto|]. split; [done|]. intros; lia.
  - exists (S k). pose proof (lookup_lt_Some _ _ _ Hk). split; [lia|]. split; [done|].
    split; [intros <-; rewrite bool_decide_eq_true_2 by done; eauto|].
    split; [intros Hc%bool_decide_eq_true; done|].
    intros j a Ha Hat. case_bool_decide as Hc.
    + assert (j = k) by (eapply sorted_offsets; eauto; congruence). lia.
    + destruct (decide (k < j)%nat); [lia|].
      destruct (decide (j = k)) as [->|]; [assert (a = r) as -> by congruence; done|].
      pose proof (v_sorted _ _ _ _ Hv j k a r ltac:(lia) Ha Hk). lia.
Qed.

Lemma readTarget_valid s fs rs es t i : valid s fs rs es -> (i <= length rs)%nat ->
  (forall k r, rs !! k = Some r -> r_offset r = t -> if is_indexed s es t then (k < i)%nat else (i <= k)%nat) ->
  readTargetPosition s fs (start rs i) t =
    match find_offset rs t with
    | Some (k, _) => if is_indexed s es t then Err ErrorNotData else Ret (start rs k, start rs (S k))
    | None => Err ErrorNotData
    end.
Proof.
  intros Hv Hi Hkey. pose proof (v_log _ _ _ _ Hv) as Hlog. pose proof (v_ok _ _ _ _ Hv) as Hok.
  pose proof (v_size _ _ _ _ Hv) as Hsize. unfold readTargetPosition. rewrite Hlog.
  pose proof (length_image rs) as Hlen. destruct (find_offset rs t) as [[k r]|] eqn:Hat.
  - apply find_offset_Some in Hat as [Hk Ht]. specialize (Hkey k r Hk Ht) as Hik.
    destruct (is_indexed s es t).
    + apply (readTarget_absent s fs rs); try done. intros j a Hj Ha E.
      specialize (Hkey j a Ha E). cbv beta in Hkey. lia.
    + apply (readTarget_found s fs rs Hlog Hok Hsize _ i k r); try done.
      * intros j a Hj Ha E. assert (j = k) by (eapply sorted_offsets; eauto; congruence). lia.
      * apply lookup_lt_Some in Hk. lia.
  - apply (readTarget_absent s fs rs); try done. intros j a _ Ha. eapply find_offset_None; eauto.
Qed.

(** [ReadAt]: the record with the offset, unless the index has an entry for
    just that offset. *)
Lemma ReadAt_spec {T} `{ILog T} (log : T) s fs rs es t : valid s fs rs es ->
  ReadAt t log s fs =
    match find_offset rs t with
    | Some (_, r) => if is_indexed s es t then Err ErrorNotData else Decode log (r_data r)
    | None => Err ErrorNotData
    end.
Proof.
  intros Hv. destruct (Lookup_start s fs rs es t Hv) as (i & Hi & Hpos & _ & _ & Hkey).
  unfold ReadAt. rewrite Hpos, (readTarget_valid s fs rs es t i Hv Hi Hkey).
  destruct (find_offset rs t) as [[k r]|] eqn:Hat; [|done]. apply find_offset_Some in Hat as [Hk Ht].
  destruct (is_indexed s es t); [done|]. cbn [mbind outcome_bind].
  rewrite (readLogData_index fs rs k r (v_log _ _ _ _ Hv) (v_ok _ _ _ _ Hv) Hk). reflexivity.
Qed.

(** Where [ReadLogs] starts, if it reads at all. *)
Definition read_from (s : Segment) (rs : list record) (es : list Index.Entry) (t : Z) : option nat :=
  if is_indexed s es t then (fun p => S (fst p)) <$> find_offset rs t
  else if t =? baseOffset s then Some 0%nat
  else fst <$> find_offset rs t.

Lemma ReadLogs_spec {St} (callback : list byte -> St -> outcome St) s fs rs es t limit st :
  valid s fs rs es ->
  ReadLogs t limit s fs callback st =
    match read_from s rs es t with
    | Some i => callback_all callback (r_data <$> take (Z.to_nat limit) (drop i rs)) st
    | None => Ret st
    end.
Proof.
  intros Hv. destruct (Lookup_start s fs rs es t Hv) as (i & Hi & Hpos & Hexact & Hix & Hkey).
  assert (forall k st, (k <= length rs)%nat ->
    readLogsAtPosition s fs (start rs k) limit callback st =
    callback_all callback (r_data <$> take (Z.to_nat limit) (drop k rs)) st) as Hread.
  { intros k st' Hk. unfold readLogsAtPosition.
    rewrite (readLogs_loop_spec s fs rs (v_log _ _ _ _ Hv) (v_ok _ _ _ _ Hv) (v_size _ _ _ _ Hv));
      [rewrite Z.sub_0_r; done|done|]. rewrite (v_log _ _ _ _ Hv). pose proof (length_image rs). lia. }
  unfold ReadLogs. rewrite Hpos, (readTarget_valid s fs rs es t i Hv Hi Hkey), Hread by done. unfold read_from.
  destruct (_ =? t) eqn:Ho; zbool.
  - specialize (Hexact Ho). destruct (is_indexed s es t).
    + destruct Hexact as (k & r & Hk & Ht & ->). destruct (find_offset rs t) as [[k' r']|] eqn:Hat.
      * apply find_offset_Some in Hat as [Hk' Ht'].
        assert (k' = k) as -> by (eapply sorted_offsets; eauto; congruence). reflexivity.
      * destruct (find_offset_None rs t Hat k r Hk Ht).
    + destruct Hexact as [-> ->]. rewrite Z.eqb_refl. reflexivity.
  - destruct (is_indexed s es t) eqn:E; [exfalso; auto|].
    destruct (t =? baseOffset s) eqn:Hb; zbool.
    + exfalso. subst t. apply Ho.
      destruct (Lookup_valid s fs rs es (baseOffset s) Hv) as [[-> _]|(k & r & Hk & -> & _ & Hle & _)]; [done|].
      pose proof (Forall_lookup_1 _ _ _ _ (v_base _ _ _ _ Hv) Hk). cbv beta in *. lia.
    + destruct (find_offset rs t) as [[k r]|] eqn:Hat; [|done]. cbn.
      apply find_offset_Some in Hat as [Hk _]. apply Hread. apply lookup_lt_Some in Hk. lia.
Qed.

(** * Appending *)

Lemma start_app rs rs' i : (i <= length rs)%nat -> start (rs ++ rs') i = start rs i.
Proof. intros Hi. unfold start. rewrite take_app_le by done. reflexivity. Qed.

Lemma increasing_snoc es e : Index.increasing es ->
  (forall a, a ∈ es -> Index.RelativeOffset a < Index.RelativeOffset e) -> Index.increasing (es ++ [e]).
Proof.
  intros Hinc Hlt i j a b Hij Ha Hb. pose proof (lookup_lt_Some _ _ _ Hb) as Hj.
  rewrite length_app in Hj. cbn in Hj. rewrite lookup_app_l in Ha by lia.
  destruct (decide (j < length es)%nat).
  - rewrite lookup_app_l in Hb by lia. eauto.
  - assert (j = length es) as -> by lia. rewrite lookup_app_r, Nat.sub_diag in Hb by lia.
    injection Hb as <-. apply Hlt. eapply list_elem_of_lookup_2, Ha.
Qed.

(** What an appender needs: it knows the end of the file, and the new offset
    is above all others and within reach of the index. *)
Record appendable (s : Segment) (fs : files) (rs : list record) (es : list Index.Entry) (r : record) : Prop := {
  ap_position : position s = zlen (image rs);
  ap_ok : record_ok r;
  ap_new i a : rs !! i = Some a -> r_offset a < r_offset r;
  ap_base : baseOffset s <= r_offset r < baseOffset s + 2 ^ 32;
  ap_fits : zlen (image rs) + record_size r < 2 ^ 32;
  ap_room : zlen es < Index.maxEntryNum
}.

Lemma valid_append_log s fs rs es r : valid s fs rs es -> appendable s fs rs es r ->
  let '(s1, fs1) := append (wrap_record r) s fs in
  valid s1 fs1 (rs ++ [r]) es /\ position s1 = zlen (image (rs ++ [r])).
Proof.
  intros [L O Sz Ft So Ba IB H Tg In En] [Pp Ok Nw Bs Fi _]. cbn [append].
  assert (image (rs ++ [r]) = image rs ++ wrap_record r) as Him.
  { rewrite image_app, image_cons. change (image []) with (@nil byte). rewrite app_nil_r. reflexivity. }
  pose proof (zlen_nonneg (image rs)). pose proof (record_size_pos r).
  assert (zlen (image (rs ++ [r])) = zlen (image rs) + record_size r) as Hz by (rewrite Him, zlen_app, zlen_wrap; done).
  split; [split|]; cbn [logFile indexFile index baseOffset position]; rewrite ?Hz; try done.
  - rewrite L, Him. reflexivity.
  - apply Forall_app; auto.
  - unfold getFileSize. cbn [position]. rewrite Pp, zlen_wrap, (proj2 (Z.eqb_neq _ _)) by lia. reflexivity.
  - intros i j a b Hij Ha Hb. pose proof (lookup_lt_Some _ _ _ Hb) as Hj.
    rewrite length_app in Hj. cbn in Hj. rewrite lookup_app_l in Ha by lia.
    destruct (decide (j < length rs)%nat); [rewrite lookup_app_l in Hb by lia; eauto|].
    assert (j = length rs) as -> by lia. rewrite lookup_app_r, Nat.sub_diag in Hb by lia.
    injection Hb as <-. eauto.
  - apply Forall_app; auto.
  - intros e (k & a & Hk & Hreal & Hpos)%En. pose proof (lookup_lt_Some _ _ _ Hk). exists k, a.
    rewrite lookup_app_l, start_app by lia. auto.
  - rewrite Pp, zlen_wrap. reflexivity.
Qed.

Lemma valid_since n s fs rs es : valid s fs rs es -> valid (set_since n s) fs rs es.
Proof. intros [L O Sz Ft So Ba IB H Tg In En]. split; done. Qed.

(** The entry [AppendLog] adds points behind the record just written. *)
Lemma valid_append_index s fs rs es r : valid s fs (rs ++ [r]) es -> position s = zlen (image (rs ++ [r])) ->
  (forall e, e ∈ es -> Index.real (index s) e < r_offset r) -> zlen es < Index.maxEntryNum ->
  exists idx ifile e, Index.Append (index s) (indexFile fs) (r_offset r) (position s) = Ret (idx, ifile) /\
    Index.real idx e = r_offset r /\
    valid (set_index idx s) (mkFiles (logFile fs) ifile) (rs ++ [r]) (es ++ [e]).
Proof.
  intros [L O Sz Ft So Ba IB H Tg In En] Hp Hnew Hroom.
  destruct (Index.Append_spec _ _ es (r_offset r) (position s) H Tg Hroom) as (idx & ifile & He & H' & Tg' & Hb).
  set (e := Index.mkEntry _ _) in *.
  assert (Index.real (index s) e = r_offset r) as Hreal.
  { unfold Index.real, e. cbn [Index.RelativeOffset]. rewrite IB in *. apply Forall_app in Ba as [_ Ba].
    apply Forall_cons in Ba as [Ba _]. rewrite wrapU_id by (unfold inU; lia). lia. }
  exists idx, ifile, e. split; [done|]. split; [unfold Index.real in *; rewrite Hb; done|].
  split; cbn [set_index index logFile indexFile baseOffset]; try done.
  - congruence.
  - apply increasing_snoc; [done|]. intros a Ha. specialize (Hnew a Ha).
    rewrite <- Hreal in Hnew. unfold Index.real in Hnew. lia.
  - intros a [Ha|Ha]%elem_of_app.
    + destruct (En a Ha) as (k & b & Hk & Hra & Hpos). exists k, b. split; [done|]. split; [|done].
      unfold Index.real in *. rewrite Hb. done.
    + apply list_elem_of_singleton in Ha as ->. exists (length rs), r.
      rewrite lookup_app_r, Nat.sub_diag by lia. split; [done|].
      split; [unfold Index.real in *; rewrite Hb; done|].
      rewrite start_all by (rewrite length_app; cbn; lia). unfold e. cbn [Index.Position]. rewrite <- Hp.
      apply wrapU_id. unfold inU. rewrite Hp. pose proof (zlen_nonneg (image (rs ++ [r]))). lia.
Qed.

Lemma AppendLog_spec {T} `{ILog T} (log : T) data s fs rs es : Encode log = Ret data ->
  let r := mkRecord (Offset log) (GetAppliIndex log) data in
  valid s fs rs es -> appendable s fs rs es r ->
  exists s' fs' es', AppendLog log s fs = Ret (record_size r, s', fs') /\ valid s' fs' (rs ++ [r]) es' /\
    position s' = zlen (image (rs ++ [r])) /\ baseOffset s' = baseOffset s /\
    bytesSinceLastIndexEntry s' <= bytesSinceLastIndexEntry s + record_size r /\
    if bytesSinceLastIndexEntry s >? indexIntervalBytes
    then exists e, es' = es ++ [e] /\ Index.real (index s') e = Offset log
    else es' = es.
Proof.
  intros Henc r Hv Ha. pose proof (valid_append_log s fs rs es r Hv Ha) as Hlog.
  unfold AppendLog. rewrite Henc. cbn [mbind outcome_bind].
  destruct (ap_ok _ _ _ _ _ Ha) as [_ Hlen]. cbn [r_data r] in Hlen.
  rewrite Z.gtb_ltb, (proj2 (Z.ltb_ge _ _)) by exact Hlen.
  change (wrapLogData (Offset log) (GetAppliIndex log) data) with (wrap_record r). rewrite zlen_wrap.
  destruct (append (wrap_record r) s fs) as [s1 fs1] eqn:E1. destruct Hlog as [Hv1 Hp1].
  assert (baseOffset s1 = baseOffset s /\ index s1 = index s /\
    bytesSinceLastIndexEntry s1 = bytesSinceLastIndexEntry s) as (Hb1 & Hi1 & Hsi) by (injection E1 as <- <-; auto).
  rewrite Hsi. destruct (_ >? _) eqn:Hsince; rewrite Z.gtb_ltb in Hsince; zbool.
  - destruct (valid_append_index s1 fs1 rs es r Hv1 Hp1) as (idx & ifile & e & Hap & Hreal & Hv2).
    + intros e He. rewrite Hi1. destruct (v_entries _ _ _ _ Hv e He) as (k & a & Hk & -> & _).
      apply (ap_new _ _ _ _ _ Ha k a Hk).
    + apply (ap_room _ _ _ _ _ Ha).
    + change (r_offset r) with (Offset log) in *. rewrite Hap.
      cbn [mbind outcome_bind]. eexists _, _, (es ++ [e]). split; [reflexivity|].
      split; [apply valid_since, valid_since, Hv2|]. split; [exact Hp1|]. split; [exact Hb1|].
      split; [cbn [set_since bytesSinceLastIndexEntry]; unfold indexIntervalBytes in *; lia|]. exists e. auto.
  - cbn [mbind outcome_bind]. eexists _, _, es. split; [reflexivity|].
    split; [apply valid_since, Hv1|]. split; [exact Hp1|]. split; [exact Hb1|]. split; [cbn [set_since bytesSinceLastIndexEntry]; lia|done].
Qed.

Lemma NewSegment_empty base :
  exists s ifile, NewSegment base (mkFiles [] (Index.mkFile 0 [])) = Ret (s, mkFiles [] ifile) /\
    valid s (mkFiles [] ifile) [] [] /\ position s = 0 /\ baseOffset s = base.
Proof.
  destruct (Index.NewIndex_spec (Index.mkFile 0 []) [] base) as (idx & f & He & H & Ht & Hb);
    [reflexivity|apply Forall_nil; exact I|apply Forall_nil; exact I|discriminate|left; reflexivity|].
  unfold NewSegment. cbn [indexFile logFile]. rewrite He. cbn [mbind outcome_bind].
  eexists _, f. split; [reflexivity|]. split; [split|]; try done.
  intros e He'. inversion He'.
Qed.

(** * The check at start *)

(** The start of the last record of a file, 0 if there is none. *)
Definition last_start (rs : list record) : Z := start rs (length rs - 1).

Lemma ReadAtFile_short f n off : 0 <= off -> (0 < n)%nat -> zlen f < off + Z.of_nat n ->
  ReadAtFile f n off = Err EOF.
Proof.
  intros Ho Hn Hlt. unfold ReadAtFile. rewrite (proj2 (Z.ltb_ge _ _)), (proj2 (Z.eqb_neq _ _)) by lia.
  rewrite Z.gtb_ltb, (proj2 (Z.ltb_lt _ _)) by lia. reflexivity.
Qed.

(** The fixed part of a record in front of its offset. *)
Lemma wrap_head r : record_ok r -> exists tl,
  wrap_record r = MagicNumber ++ (LogVersion ++ be 4 (u32 (zlen (r_data r)))) ++ tl /\
  zlen tl = 17 + zlen (r_data r).
Proof.
  intros _. unfold wrap_record, wrapLogData. eexists. split; [rewrite <- app_assoc; reflexivity|].
  autorewrite with go. const_len. lia.
Qed.

Lemma take_mid {A} (k : nat) (l1 l2 : list A) : (length l1 <= k)%nat -> take k (l1 ++ l2) = l1 ++ take (k - length l1) l2.
Proof. intros Hk. rewrite take_app, (take_ge l1) by done. reflexivity. Qed.

(** A record cut short stops the check at its start. *)
Lemma check_loop_torn fuel pre r k last pos : record_ok r -> (0 < k)%nat -> Z.of_nat k < record_size r ->
  check_loop (S fuel) (pre ++ take k (wrap_record r)) (zlen (pre ++ take k (wrap_record r))) (zlen pre) last pos
    = (zlen pre, pos).
Proof.
  intros Hok Hk0 Hk. destruct (wrap_head r Hok) as (tl & Hw & Htl). pose proof (zlen_wrap r) as Hzw.
  assert (zlen (take k (wrap_record r)) = Z.of_nat k) as Hzt by (unfold zlen in *; rewrite length_take; lia).
  pose proof (zlen_nonneg pre) as Hpre. cbn [check_loop]. rewrite zlen_app, Hzt.
  rewrite Z.geb_leb, (proj2 (Z.leb_gt _ _)) by lia.
  destruct (decide (k < 2)%nat) as [H2|H2].
  { rewrite ReadAtFile_short by (rewrite ?zlen_app, ?Hzt; lia). reflexivity. }
  assert (take k (wrap_record r) = MagicNumber ++ take (k - 2) ((LogVersion ++ be 4 (u32 (zlen (r_data r)))) ++ tl)) as Ht1.
  { rewrite Hw, take_mid by (cbn; lia). reflexivity. }
  rewrite Ht1. rewrite (ReadAtFile_at _ pre [] MagicNumber
    (take (k - 2) ((LogVersion ++ be 4 (u32 (zlen (r_data r)))) ++ tl)) 2);
    [|reflexivity|reflexivity|rewrite zlen_nil; lia].
  rewrite decide_True by done. const_len.
  destruct (_ >=? _) eqn:E7; [reflexivity|]. rewrite Z.geb_leb in E7. zbool.
  rewrite take_mid by (cbn [LogVersion app length]; rewrite length_be; lia).
  rewrite (ReadAtFile_at _ pre MagicNumber (LogVersion ++ be 4 (u32 (zlen (r_data r))))
    (take (k - 2 - length (LogVersion ++ be 4 (u32 (zlen (r_data r))))) tl) 5);
    [|reflexivity|reflexivity|const_len; lia].
  replace (drop 1 (LogVersion ++ be 4 (u32 (zlen (r_data r))))) with (be 4 (u32 (zlen (r_data r)))) by reflexivity.
  destruct Hok as [_ Hlen]. rewrite zlen_u32 by done. unfold record_size in Hk.
  rewrite Z.gtb_ltb, (proj2 (Z.ltb_lt _ _)) by lia. reflexivity.
Qed.

(** A whole record is passed. *)
Lemma check_loop_record fuel pre r post last pos : record_ok r ->
  check_loop (S fuel) (pre ++ wrap_record r ++ post) (zlen (pre ++ wrap_record r ++ post)) (zlen pre) last pos
    = check_loop fuel (pre ++ wrap_record r ++ post) (zlen (pre ++ wrap_record r ++ post))
        (zlen pre + record_size r) (zlen pre) (zlen pre + record_size r).
Proof.
  intros Hok. destruct (wrap_head r Hok) as (tl & Hw & Htl). pose proof (zlen_wrap r) as Hzw.
  pose proof (zlen_nonneg pre). pose proof (zlen_nonneg post). pose proof (zlen_nonneg (r_data r)).
  cbn [check_loop]. rewrite !zlen_app, Hzw. unfold record_size in *.
  rewrite Z.geb_leb, (proj2 (Z.leb_gt _ _)) by lia.
  rewrite (ReadAtFile_at _ pre [] MagicNumber ((LogVersion ++ be 4 (u32 (zlen (r_data r)))) ++ tl ++ post) 2);
    [|rewrite Hw, <- !app_assoc; reflexivity|reflexivity|rewrite zlen_nil; lia].
  rewrite decide_True by done. const_len. rewrite Z.geb_leb, (proj2 (Z.leb_gt _ _)) by lia.
  rewrite (ReadAtFile_at _ pre MagicNumber (LogVersion ++ be 4 (u32 (zlen (r_data r)))) (tl ++ post) 5);
    [|rewrite Hw, <- !app_assoc; reflexivity|reflexivity|const_len; lia].
  replace (drop 1 (LogVersion ++ be 4 (u32 (zlen (r_data r))))) with (be 4 (u32 (zlen (r_data r)))) by reflexivity.
  destruct Hok as [_ Hlen]. rewrite zlen_u32 by done.
  rewrite Z.gtb_ltb, (proj2 (Z.ltb_ge _ _)) by lia. f_equal; lia.
Qed.

(** Over whole records and a cut one. *)
Lemma check_loop_spec fuel rs r k i last : Forall record_ok rs -> record_ok r -> Z.of_nat k < record_size r ->
  (i <= length rs)%nat -> (length rs - i < fuel)%nat ->
  let log := image rs ++ take k (wrap_record r) in
  check_loop fuel log (zlen log) (start rs i) last (start rs i) =
    (if decide (k = 0%nat) then if decide (i = length rs) then last else last_start rs else zlen (image rs),
     zlen (image rs)).
Proof.
  intros Hok Hr Hk Hi Hfuel log. revert i last Hi Hfuel.
  induction fuel as [|fuel IH]; intros i last Hi Hfuel; [lia|].
  destruct (decide (i = length rs)) as [->|Hne].
  - rewrite start_all by lia. destruct (decide (k = 0%nat)) as [->|Hk0].
    + unfold log. cbn [take check_loop]. rewrite app_nil_r, Z.geb_leb, Z.leb_refl. reflexivity.
    + apply check_loop_torn; done || lia.
  - destruct (lookup_lt_is_Some_2 rs i) as [a Ha]; [lia|].
    destruct (image_split rs i a Ha) as (pre & post & Hs & Hp). unfold log. rewrite Hs, <- Hp, <- !app_assoc.
    rewrite check_loop_record by (eapply Forall_lookup_1; eauto).
    rewrite Hp, <- (start_S rs i a Ha).
    replace (pre ++ wrap_record a ++ post ++ take k (wrap_record r)) with log
      by (unfold log; rewrite Hs, <- !app_assoc; reflexivity).
    rewrite IH by lia. rewrite <- Hs. f_equal. destruct (decide (k = 0%nat)); [|done].
    destruct (decide (S i = length rs)) as [E|]; [|done]. unfold last_start. f_equal. lia.
Qed.

(** C27: [AppendLog] on a segment that knows its end adds the record behind
    the others, without disturbing the records, the index or what the
    segment knows of them. *)
Theorem AppendLog_appends {T} `{ILog T} (log : T) data s fs rs es : Encode log = Ret data ->
  let r := mkRecord (Offset log) (GetAppliIndex log) data in
  valid s fs rs es -> appendable s fs rs es r ->
  exists s' fs' es', AppendLog log s fs = Ret (record_size r, s', fs') /\ valid s' fs' (rs ++ [r]) es' /\
    position s' = zlen (image (rs ++ [r])).
Proof.
  intros Henc r Hv Ha. destruct (AppendLog_spec log data s fs rs es Henc Hv Ha)
    as (s' & fs' & es' & ? & ? & ? & _). exists s', fs', es'. auto.
Qed.

(** [ReadAt] gives the record with the offset asked for, if there is one
    and the index has no entry for just that offset. *)
Theorem ReadAt_reads {T} `{ILog T} (log : T) s fs rs es t : valid s fs rs es ->
  ReadAt t log s fs =
    match find_offset rs t with
    | Some (_, r) => if is_indexed s es t then Err ErrorNotData else Decode log (r_data r)
    | None => Err ErrorNotData
    end.
Proof. apply ReadAt_spec. Qed.

(** [ReadLogs] runs its callback on the data of up to [limit] consecutive
    records, from the one with the offset asked for on; the base offset of
    the segment stands for its first record, an offset that is not there
    reads nothing, and one the index has an entry for starts one record too
    late. *)
Theorem ReadLogs_reads {St} (callback : list byte -> St -> outcome St) s fs rs es t limit st :
  valid s fs rs es ->
  ReadLogs t limit s fs callback st =
    match read_from s rs es t with
    | Some i => callback_all callback (r_data <$> take (Z.to_nat limit) (drop i rs)) st
    | None => Ret st
    end.
Proof. apply ReadLogs_spec. Qed.

(** Once 4096 bytes were written since the last index entry, the record
    [AppendLog] writes next gets an entry that points behind it, and
    [ReadAt] of its offset fails with [ErrorNotData]. *)
Theorem indexed_record_unreadable {T} `{ILog T} (log log0 : T) data s fs rs es : Encode log = Ret data ->
  let r := mkRecord (Offset log) (GetAppliIndex log) data in
  valid s fs rs es -> appendable s fs rs es r -> bytesSinceLastIndexEntry s > indexIntervalBytes ->
  exists s' fs', AppendLog log s fs = Ret (record_size r, s', fs') /\
    ReadAt (Offset log) log0 s' fs' = Err ErrorNotData.
Proof.
  intros Henc r Hv Ha Hb. destruct (AppendLog_spec log data s fs rs es Henc Hv Ha)
    as (s' & fs' & es' & He & Hv' & _ & _ & _ & Hes). exists s', fs'. split; [done|].
  rewrite Z.gtb_ltb, (proj2 (Z.ltb_lt _ _)) in Hes by lia. destruct Hes as (e & -> & Hreal).
  rewrite (ReadAt_spec log0 s' fs' _ _ (Offset log) Hv').
  assert (is_indexed s' (es ++ [e]) (Offset log) = true) as ->.
  { unfold is_indexed. rewrite existsb_app. cbn. rewrite (proj2 (Z.eqb_eq _ _)) by done.
    rewrite orb_true_r. reflexivity. }
  destruct (find_offset _ _) as [[k a]|]; reflexivity.
Qed.

Lemma check_torn s fs rs r k : logFile fs = image rs ++ take k (wrap_record r) -> position s = 0 ->
  Forall record_ok rs -> record_ok r -> Z.of_nat k < record_size r ->
  check 0 (zlen (logFile fs)) true s fs =
    (if decide (k = 0%nat) then last_start rs else zlen (image rs), set_pos (zlen (image rs)) s,
     mkFiles (image rs) (indexFile fs)).
Proof.
  intros Hlog Hp Hok Hr Hk. unfold check. rewrite Hp, Hlog.
  assert (length rs - 0 < S (length (image rs ++ take k (wrap_record r))))%nat
    by (rewrite length_app; pose proof (length_image rs); lia).
  change 0 with (start rs 0).
  rewrite (check_loop_spec _ rs r k 0) by (done || lia).
  assert ((if decide (0%nat = length rs) then start rs 0 else last_start rs) = last_start rs) as ->.
  { destruct (decide _) as [E|]; [|done]. unfold last_start. rewrite <- E. reflexivity. }
  destruct (negb _) eqn:E; cbn [andb]; zbool.
  - rewrite to_nat_zlen, take_app_length. reflexivity.
  - rewrite zlen_app in E. assert (zlen (take k (wrap_record r)) = 0) as Hz by lia.
    unfold zlen in Hz. destruct (take k (wrap_record r)) eqn:Et; [|cbn in Hz; lia].
    destruct fs as [lf ix]. cbn in *. rewrite Hlog, app_nil_r. reflexivity.
Qed.

Lemma SanityCheck_spec s fs rs r k :
  logFile fs = image rs ++ take k (wrap_record r) -> position s = 0 ->
  Forall record_ok rs -> record_ok r -> Z.of_nat k < record_size r ->
  zlen (logFile fs) <= LogMaxSize + logMinLen ->
  SanityCheck s fs =
    Ret (if decide (k = 0%nat) then last_start rs else zlen (image rs), set_pos (zlen (image rs)) s,
         mkFiles (image rs) (indexFile fs)).
Proof.
  intros Hlog Hp Hok Hr Hk Hsmall. unfold SanityCheck. pose proof (zlen_nonneg (logFile fs)).
  destruct (_ =? 0) eqn:Hz; zbool.
  { assert (logFile fs = []) as He by (destruct (logFile fs); [done|rewrite zlen_cons in Hz; pose proof (zlen_nonneg l); lia]).
    rewrite Hlog in He. apply app_eq_nil in He as [Hi Ht].
    assert (rs = []) as -> by (destruct rs; [done|]; pose proof (length_image (r0 :: rs)); rewrite Hi in *; cbn in *; lia).
    assert (k = 0%nat) as -> by (destruct k; [done|]; pose proof (zlen_wrap r); pose proof (record_size_pos r);
      destruct (wrap_record r); [rewrite zlen_nil in *; lia|discriminate]).
    destruct s, fs. cbn in *. subst. reflexivity. }
  unfold hasEndMagicNumer.
  assert (is_Ret (ReadAtFile (logFile fs) 1 (zlen (logFile fs) - 1))) as [p ->].
  { unfold ReadAtFile. rewrite (proj2 (Z.ltb_ge _ _)) by lia. rewrite Z.gtb_ltb, (proj2 (Z.ltb_ge _ _)) by lia.
    eexists. reflexivity. }
  cbn [mbind outcome_bind]. rewrite (check_torn s fs rs r k) by done.
  rewrite (proj2 (Z.leb_le _ _)) by lia. destruct (negb _); reflexivity.
Qed.

(** The check of a file that ends in the middle of a record ([k] bytes of
    [r], none for a clean file) keeps exactly the whole records; the start
    it reports for the last record is that of the cut one, if there was
    one, which is no longer in the file. *)
Theorem SanityCheck_keeps_whole_records s fs rs r k :
  logFile fs = image rs ++ take k (wrap_record r) -> position s = 0 ->
  Forall record_ok rs -> record_ok r -> Z.of_nat k < record_size r ->
  zlen (logFile fs) <= LogMaxSize + logMinLen ->
  exists last s' fs', SanityCheck s fs = Ret (last, s', fs') /\ logFile fs' = image rs /\
    position s' = zlen (image rs) /\ last = if decide (k = 0%nat) then last_start rs else zlen (image rs).
Proof.
  intros Hlog Hp Hok Hr Hk Hsmall. rewrite (SanityCheck_spec s fs rs r k) by done.
  eexists _, _, _. split; [reflexivity|]. auto.
Qed.

(** * Runs *)

Definition files0 : files := mkFiles [] (Index.mkFile 0 []).
Definition seg0 : Segment := match NewSegment 0 files0 with Ret (s, _) => s | _ => mkSegment 0 (Index.mkIndex 0 0 0) 0 0 0 end.
Definition seg0_files : files := match NewSegment 0 files0 with Ret (_, fs) => fs | _ => files0 end.

Lemma example_encode : Encode message_example = Ret (Db.MarshalMessage message_example).
Proof. reflexivity. Qed.

Lemma seg0_valid : valid seg0 seg0_files [] [].
Proof.
  destruct (NewSegment_empty 0) as (s & ifile & He & Hv & _).
  unfold seg0, seg0_files, files0. rewrite He. exact Hv.
Qed.

Definition example_record : record :=
  mkRecord (Offset message_example) (GetAppliIndex message_example) (Db.MarshalMessage message_example).

Lemma example_record_ok : record_ok example_record.
Proof. split; vm_compute; intuition congruence. Qed.

Lemma example_appendable n : appendable (set_since n seg0) seg0_files [] [] example_record.
Proof.
  split; [reflexivity|exact example_record_ok| |vm_compute; intuition congruence|reflexivity|reflexivity].
  intros i a Ha. inversion Ha.
Qed.

Lemma AppendLog_appends_witness :
  exists s' fs' es', AppendLog message_example (set_since 0 seg0) seg0_files = Ret (record_size example_record, s', fs') /\
    valid s' fs' ([] ++ [example_record]) es' /\ position s' = zlen (image ([] ++ [example_record])).
Proof.
  exact (AppendLog_appends message_example (Db.MarshalMessage message_example) (set_since 0 seg0) seg0_files [] [] example_encode
    (valid_since 0 _ _ _ _ seg0_valid) (example_appendable 0)).
Defined.

Lemma indexed_record_unreadable_witness :
  exists s' fs', AppendLog message_example (set_since 5000 seg0) seg0_files = Ret (record_size example_record, s', fs') /\
    ReadAt (Offset message_example) message_example s' fs' = Err ErrorNotData.
Proof.
  exact (indexed_record_unreadable message_example message_example (Db.MarshalMessage message_example) (set_since 5000 seg0) seg0_files [] []
    example_encode (valid_since 5000 _ _ _ _ seg0_valid) (example_appendable 5000) eq_refl).
Defined.

(** The segment with one record. *)
Definition seg1 : Segment :=
  match AppendLog message_example (set_since 0 seg0) seg0_files with Ret (_, s, _) => s | _ => seg0 end.
Definition seg1_files : files :=
  match AppendLog message_example (set_since 0 seg0) seg0_files with Ret (_, _, fs) => fs | _ => seg0_files end.

Lemma seg1_valid : valid seg1 seg1_files [example_record] [].
Proof.
  destruct (AppendLog_spec message_example (Db.MarshalMessage message_example) (set_since 0 seg0) seg0_files [] [] example_encode
    (valid_since 0 _ _ _ _ seg0_valid) (example_appendable 0)) as (s & fs & es & He & Hv & _ & _ & _ & Hes).
  change (es = []) in Hes. rewrite Hes in Hv. unfold seg1, seg1_files. rewrite He. exact Hv.
Qed.

Lemma ReadAt_reads_witness :
  ReadAt 5 message_example seg1 seg1_files = Decode message_example (Db.MarshalMessage message_example).
Proof. exact (ReadAt_reads message_example seg1 seg1_files [example_record] [] 5 seg1_valid). Defined.

Lemma ReadLogs_reads_witness :
  ReadLogs 5 10 seg1 seg1_files (fun d l => Ret (l ++ [d])) [] = Ret [Db.MarshalMessage message_example].
Proof.
  exact (ReadLogs_reads (fun d l => Ret (l ++ [d])) seg1 seg1_files [example_record] [] 5 10 [] seg1_valid).
Defined.

Lemma SanityCheck_keeps_whole_records_witness :
  let fs := mkFiles (image [example_record] ++ take 30 (wrap_record example_record)) (Index.mkFile 0 []) in
  exists last s' fs', SanityCheck seg0 fs = Ret (last, s', fs') /\ logFile fs' = image [example_record] /\
    position s' = zlen (image [example_record]) /\ last = zlen (image [example_record]).
Proof.
  apply (SanityCheck_keeps_whole_records seg0
    (mkFiles (image [example_record] ++ take 30 (wrap_record example_record)) (Index.mkFile 0 []))
    [example_record] example_record 30).
  - reflexivity.
  - reflexivity.
  - apply Forall_cons. split; [exact example_record_ok|]. apply Forall_nil. exact I.
  - exact example_record_ok.
  - reflexivity.
  - discriminate.
Defined.
