(* ===== verification/Scans.v ===== *)
(** The loops of internal/db/segment.go come to an end on every log file,
    also on one whose bytes are not records: the fuel they are given in
    Segment.v is enough. *)
From stdpp Require Import base list strings.
From Stdlib Require Import ZArith Lia Strings.Byte.
From S2P Require Import Prelude Wire Index Model Segment.
Import Segment.

(** A read that succeeds was within the file. *)
Lemma ReadAtFile_within f n off b : ReadAtFile f n off = Ret b -> (0 < n)%nat -> 0 <= off /\ off + Z.of_nat n <= zlen f.
Proof.
  unfold ReadAtFile. destruct (off <? 0) eqn:E0; [done|]. zbool. intros H Hn.
  rewrite (proj2 (Z.eqb_neq _ 0)) in H by lia. rewrite Z.gtb_ltb in H.
  destruct (zlen f <? _) eqn:E; [done|]. zbool. lia.
Qed.

Lemma be_val_nonneg b : 0 <= be_val 0 b.
Proof. apply be_val_bound. Qed.

(** The header at a position: its record is within the file and ends at least
    24 bytes further on. *)
Lemma readAtPosition_within fs pos o n : readAtPosition fs pos = Ret (o, n) -> - 3 <= pos /\ pos < zlen (logFile fs) /\ 0 <= n.
Proof.
  unfold readAtPosition. intros (b1 & E1 & H)%bind_Ret. apply bind_Ret in H as (b2 & E2 & [= <- <-]).
  apply ReadAtFile_within in E1; [|lia]. apply ReadAtFile_within in E2; [|lia]. const_len.
  split; [lia|]. split; [lia|]. apply be_val_nonneg.
Qed.

Lemma readLogDataAtPosition_within fs pos data next : readLogDataAtPosition fs pos = Ret (data, next) ->
  - 3 <= pos /\ pos < zlen (logFile fs) /\ pos + 24 <= next.
Proof.
  unfold readLogDataAtPosition. intros ([o n] & E1 & H)%bind_Ret. apply bind_Ret in H as (b & _ & [= <- <-]).
  apply readAtPosition_within in E1. const_len. lia.
Qed.

(** Each loop: one more unit of fuel than enough changes nothing. *)
Lemma check_loop_step f size fuel off last pos : size = zlen f -> zlen f - off < Z.of_nat fuel ->
  check_loop (S fuel) f size off last pos = check_loop fuel f size off last pos.
Proof.
  intros ->. revert off last pos. induction fuel as [|fuel IH]; intros off last pos Hf.
  - cbn [check_loop]. by rewrite Z.geb_leb, (proj2 (Z.leb_le _ _)) by lia.
  - set (n := S fuel) in *. cbn [check_loop]. unfold n. cbn [check_loop]. fold n. rewrite Z.geb_leb. destruct (_ <=? off); [done|].
    destruct (ReadAtFile f 2 off); try done. case_decide; [|done]. destruct (_ >=? _); [done|].
    destruct (ReadAtFile f 5 _) as [h| |]; try done. destruct (_ >? _); [done|].
    apply IH. const_len. pose proof (be_val_nonneg (drop 1 h)). lia.
Qed.

Lemma simple_loop_step fs size fuel p : size - p < Z.of_nat fuel ->
  simple_loop (S fuel) fs size p = simple_loop fuel fs size p.
Proof.
  revert p. induction fuel as [|fuel IH]; intros p Hf.
  - cbn [simple_loop]. by rewrite Z.geb_leb, (proj2 (Z.leb_le _ _)) by lia.
  - set (n := S fuel) in *. cbn [simple_loop]. unfold n. cbn [simple_loop]. fold n. destruct (_ >=? _); [done|].
    destruct (hasMagicNumer p fs) as [[]| |]; try done. cbn [mbind outcome_bind]. apply IH. lia.
Qed.

Lemma readTargetPosition_step s fs fuel pos target : zlen (logFile fs) - pos <= Z.of_nat fuel ->
  readTargetPosition_rec (S fuel) s fs pos target = readTargetPosition_rec fuel s fs pos target.
Proof.
  revert pos. induction fuel as [|fuel IH]; intros pos Hf.
  - cbn [readTargetPosition_rec]. destruct (_ >=? _); [done|]. destruct (readAtPosition fs pos) as [[o n]| |] eqn:E; try done.
    apply readAtPosition_within in E. lia.
  - set (m := S fuel) in *. cbn [readTargetPosition_rec]. unfold m. cbn [readTargetPosition_rec]. fold m.
    destruct (_ >=? _); [done|]. destruct (readAtPosition fs pos) as [[o n]| |] eqn:E; try done. cbn [mbind outcome_bind].
    destruct (_ =? _); [done|]. apply IH. apply readAtPosition_within in E. const_len. lia.
Qed.

Lemma readLogs_step {St} s fs fuel pos count limit (callback : list byte -> St -> outcome St) st :
  (0 < fuel)%nat -> zlen (logFile fs) - pos < Z.of_nat fuel ->
  readLogs_loop (S fuel) s fs pos count limit callback st = readLogs_loop fuel s fs pos count limit callback st.
Proof.
  revert pos count st. induction fuel as [|fuel IH]; intros pos count st H0 Hf; [lia|].
  set (m := S fuel) in *. cbn [readLogs_loop]. unfold m. cbn [readLogs_loop]. fold m. destruct (_ || _); [done|].
  destruct (readLogDataAtPosition fs pos) as [[data next]| |] eqn:E; try done. cbn [mbind outcome_bind].
  apply readLogDataAtPosition_within in E. destruct (callback data st) as [st'| |]; try done. cbn [mbind outcome_bind].
  apply IH; lia.
Qed.

(** Enough fuel stays enough. *)
Lemma enough {A} (f : nat -> A) n : (forall m, (n <= m)%nat -> f (S m) = f m) -> forall m, (n <= m)%nat -> f m = f n.
Proof. intros Hs m Hm. induction Hm as [|m Hm IH]; [done|]. by rewrite Hs. Qed.


(** A file of zeros, after which there is nothing. *)
Definition zero_file : files := mkFiles (replicate 100 x00) (Index.mkFile 0 []).
Definition zero_segment : Segment := mkSegment 0 (Index.mkIndex 0 0 0) 0 0 100.

