(* ===== verification/Topic.v ===== *)
(** A topic (internal/db/topic.go, internal/db/topic_public.go): the log of a
    channel or of a user, cut into segments. *)
From Stdlib Require Import ZArith Lia Strings.Byte Strings.Ascii Strings.String.
From stdpp Require Import base list gmap strings sorting.
From S2P Require Import Prelude Effects Keys Wire Index Segment Model Strconv.
Import Segment.

Module Topic.

(** The disk of a topic: the names in its directory, and the files of the
    segments, by base offset, in the [logs] directory below it. *)
Record disk := mkDisk { names : list string; segment_files : gmap Z files }.

(** A [Topic] and the [Segment] objects it refers to; [activeSegment] and the
    values of [segmentCache] are references to them. *)
Record Topic (T : Type) := mkTopic {
  segments : list Z;
  activeSegment : nat;
  segmentMaxBytes : Z;
  segmentCache : gmap Z nat;
  lastSeq : Z;
  lastMemLog : option T;
  objects : gmap nat Segment;
  t_disk : disk
}.
Arguments mkTopic {T}.
Arguments segments {T}. Arguments activeSegment {T}. Arguments segmentMaxBytes {T}.
Arguments segmentCache {T}. Arguments lastSeq {T}. Arguments lastMemLog {T}.
Arguments objects {T}. Arguments t_disk {T}.

(** A pass of [sortSegments] over the first [k] elements, and its passes
    over one element less each time. *)
Fixpoint sort_pass (k : nat) (l : list Z) : list Z :=
  match k, l with
  | S (S _ as k'), a :: b :: l' =>
      if b <? a then b :: sort_pass k' (a :: l') else a :: sort_pass k' (b :: l')
  | _, _ => l
  end.
Fixpoint sort_passes (k : nat) (l : list Z) : list Z :=
  match k with O => l | S k' => sort_passes k' (sort_pass k l) end.
Definition sortSegments (l : list Z) : list Z := sort_passes (length l) l.

Definition logSuffix : string := ".log".
Definition indexSuffix : string := ".index".

(** The files of [initSegments]: the base offsets of the log files it finds
    in the directory of the topic. [removed] says whether [os.Remove] of a
    name, relative to the working directory, succeeds. *)
Fixpoint scan_names (removed : string -> bool) (all l : list string) : outcome (list Z) :=
  match l with
  | [] => Ret []
  | name :: l' =>
      if HasSuffix name indexSuffix then
        if bool_decide (TrimSuffix name indexSuffix +:+ logSuffix ∈ all) || removed name
        then scan_names removed all l' else Panic
      else if HasSuffix name logSuffix then
        rest ← scan_names removed all l';
        Ret (match ParseInt (TrimSuffix name logSuffix) with Some b => b :: rest | None => rest end)
      else scan_names removed all l'
  end.

Section Operations.
Context {T : Type} `{ILog T}.
Implicit Type t : Topic T.

Definition files_of (d : disk) (base : Z) : files := default files0 (segment_files d !! base).

Definition put_files (base : Z) (fs : files) (d : disk) : disk :=
  mkDisk (names d) (<[base := fs]> (segment_files d)).

(** [NewSegment] makes the [logs] directory. *)
Definition make_logs (d : disk) : disk :=
  if decide ("logs" ∈ names d) then d else mkDisk ("logs" :: names d) (segment_files d).

(** [NewSegment] as an object of the topic; an error panics. *)
Definition new_segment (base : Z) (objs : gmap nat Segment) (d : disk) :
    outcome (nat * gmap nat Segment * disk) :=
  match NewSegment base (files_of d base) with
  | Ret (s, fs) =>
      let a := fresh (dom objs) in
      Ret (a, <[a := s]> objs, put_files base fs (make_logs d))
  | _ => Panic
  end.

(** [NewTopic] with [initSegments]: the last segment found is opened and
    checked, and the sequence number is read from its last record. *)
Definition NewTopic (removed : string -> bool) (maxBytes : Z) (d : disk) : outcome (Topic T) :=
  found ← scan_names removed (names d) (names d);
  let sorted := sortSegments found in
  let segs := if decide (length sorted = 0%nat) then [0] else sorted in
  let lastBase := default 0 (last segs) in
  '(a, objs, d1) ← new_segment lastBase ∅ d;
  match objs !! a with
  | None => Panic
  | Some sg =>
      match SanityCheck sg (files_of d1 lastBase) with
      | Ret (lastMsgStartPosition, sg', fs') =>
          let t0 seq := mkTopic segs a maxBytes {[lastBase := a]} seq None (<[a := sg']> objs)
                          (put_files lastBase fs' d1) in
          if lastMsgStartPosition =? 0 then Ret (t0 (u32 lastBase))
          else
            match readAtPosition fs' lastMsgStartPosition with
            | Ret (offset, _) => Ret (t0 (u32 offset))
            | _ => Panic
            end
      | _ => Panic
      end
  end.

Definition with_object (a : nat) (s : Segment) (base : Z) (fs : files) t : Topic T :=
  mkTopic (segments t) (activeSegment t) (segmentMaxBytes t) (segmentCache t) (lastSeq t) (lastMemLog t)
    (<[a := s]> (objects t)) (put_files base fs (t_disk t)).

(** [getOrNewSegment]: a segment that is not cached is opened anew, also when
    it is the active one. *)
Definition getOrNewSegment (base : Z) : io (Topic T) nat := fun t =>
  match segmentCache t !! base with
  | Some a => (Ret a, t)
  | None =>
      match new_segment base (objects t) (t_disk t) with
      | Ret (a, objs, d) =>
          (Ret a, mkTopic (segments t) (activeSegment t) (segmentMaxBytes t) (<[base := a]> (segmentCache t))
                    (lastSeq t) (lastMemLog t) objs d)
      | _ => (Panic, t)
      end
  end.

(** A segment with the contents of its files. *)
Definition opened (base : Z) : io (Topic T) (Segment * files) :=
  a ← getOrNewSegment base;
  s ← gets (fun t => objects t !! a);
  fs ← gets (fun t => files_of (t_disk t) base);
  match s with Some s => mret (s, fs) | None => lift Panic end.

Definition ErrBaseOffset : error := ErrMsg "baseOffset not found".

(** [baseOffset]: the loop over the segments. *)
Fixpoint baseOffset_in (segs : list Z) (offset : Z) : outcome Z :=
  match segs with
  | [] => Err ErrBaseOffset
  | b :: segs' =>
      match segs' with
      | b' :: _ => if (offset >=? b) && (offset <=? b') then Ret b else baseOffset_in segs' offset
      | [] => if offset >=? b then Ret b else Err ErrBaseOffset
      end
  end.
Definition baseOffset (offset : Z) t : outcome Z := baseOffset_in (segments t) offset.

Fixpoint nextBaseOffset_in (segs : list Z) (base : Z) : Z :=
  match segs with
  | [] => -1
  | b :: segs' => if b =? base then match segs' with b' :: _ => b' | [] => -1 end
                  else nextBaseOffset_in segs' base
  end.
Definition nextBaseOffset (base : Z) t : Z := nextBaseOffset_in (segments t) base.

(** [roll]: a new active segment, which does not enter the cache. *)
Definition roll (log : T) t : outcome (Topic T) :=
  '(a, objs, d) ← new_segment (Offset log) (objects t) (t_disk t);
  Ret (mkTopic (segments t ++ [Offset log]) a (segmentMaxBytes t) (segmentCache t) (lastSeq t)
         (lastMemLog t) objs d).

Definition NextOffset t : Z * Topic T :=
  let n := u32 (lastSeq t + 1) in
  (n, mkTopic (segments t) (activeSegment t) (segmentMaxBytes t) (segmentCache t) n (lastMemLog t)
        (objects t) (t_disk t)).
Definition GetLastSeq t : Z := lastSeq t.

(** The part of [AppendLog] before the write: the number of the log becomes
    the last one. *)
Definition remember (log : T) t : Topic T :=
  mkTopic (segments t) (activeSegment t) (segmentMaxBytes t) (segmentCache t)
    (if lastSeq t <? u32 (Offset log) then u32 (Offset log) else lastSeq t) (Some log)
    (objects t) (t_disk t).

(** The result and the topic afterwards, also when there is an error. *)
Definition AppendLog (log : T) t : outcome Z * Topic T :=
  match objects t !! activeSegment t with
  | None => (Panic, t)
  | Some active =>
      if match lastMemLog t with Some l => Offset l >=? Offset log | None => false end then (Ret 0, t)
      else
        let t1 := remember log t in
        let rolled := Index.IsFull (index active) || (position active >=? segmentMaxBytes t) in
        match (if rolled then roll log t1 else Ret t1) with
        | Ret t2 =>
            match objects t2 !! activeSegment t2 with
            | None => (Panic, t2)
            | Some s =>
                let base := Segment.baseOffset s in
                match Segment.AppendLog log s (files_of (t_disk t2) base) with
                | Ret (n, s', fs') => (Ret n, with_object (activeSegment t2) s' base fs' t2)
                | Err e => (Err e, t2)
                | Panic => (Panic, t2)
                end
            end
        | _ => (Panic, t1)
        end
  end.

Section Callback.
Context {St : Type}.

(** The callback of [ReadLogs] counts what it reads. *)
Definition counting (callback : list byte -> St -> outcome St) (data : list byte) (p : Z * St) :
    outcome (Z * St) :=
  st ← callback data (snd p); Ret (fst p + 1, st).

(** The loop over the segments that follow; every round goes to a later
    segment, so their number is enough. *)
Fixpoint ReadLogs_loop (fuel : nat) (base limit : Z) (callback : list byte -> St -> outcome St)
    (p : Z * St) : io (Topic T) St :=
  match fuel with
  | O => mret (snd p)
  | S fuel' =>
      if fst p <? i64 limit then
        next ← gets (nextBaseOffset base);
        if negb (next =? -1) then
          '(s, fs) ← opened next;
          p' ← lift (readLogsAtPosition s fs 0 (u64 (limit - fst p)) (counting callback) p);
          ReadLogs_loop fuel' next limit callback p'
        else mret (snd p)
      else mret (snd p)
  end.

Definition ReadLogs (offset limit : Z) (callback : list byte -> St -> outcome St) (st : St) : io (Topic T) St :=
  found ← gets (baseOffset offset);
  base ← lift found;
  '(s, fs) ← opened base;
  p ← lift (Segment.ReadLogs offset limit s fs (counting callback) (0, st));
  n ← gets (fun t => S (length (segments t)));
  ReadLogs_loop n base limit callback p.

Definition ReadLastLogs (limit : Z) (callback : list byte -> St -> outcome St) (st : St) : io (Topic T) St :=
  last ← gets lastSeq;
  let '(actLimit, actOffset) := if last <? limit then (last + 1, 0) else (limit, last - limit + 1) in
  ReadLogs actOffset actLimit callback st.
End Callback.

Definition ReadLogAt (offset : Z) (log : T) : io (Topic T) T :=
  found ← gets (baseOffset offset);
  base ← lift found;
  '(s, fs) ← opened base;
  lift (ReadAt offset log s fs).

(** [Close]: only the active segment is closed, which cuts its index file
    back; the segments of the cache are not ([Load] is never nil). *)
Definition Close t : disk :=
  match objects t !! activeSegment t with
  | None => t_disk t
  | Some s =>
      let fs := files_of (t_disk t) (Segment.baseOffset s) in
      put_files (Segment.baseOffset s) (mkFiles (logFile fs) (Index.Close (index s) (indexFile fs))) (t_disk t)
  end.

End Operations.
End Topic.
Import Topic.

(** * Sorting the base offsets *)

(** A pass moves the largest of the first [k] elements to place [k]. *)
Lemma sort_pass_spec k l : (S k <= length l)%nat ->
  exists l1 m, sort_pass (S k) l = l1 ++ m :: drop (S k) l /\ l1 ++ [m] ≡ₚ take (S k) l /\
    length l1 = k /\ forall x, x ∈ l1 -> x <= m.
Proof.
  revert l. induction k as [|k IH]; intros l Hl.
  - destruct l as [|a l]; [cbn in Hl; lia|]. exists [], a. cbn. rewrite drop_0.
    split; [destruct l; reflexivity|]. split; [done|]. split; [done|]. intros x Hx. inversion Hx.
  - destruct l as [|a [|b l]]; [cbn in Hl; lia..|].
    change (sort_pass (S (S k)) (a :: b :: l)) with
      (if b <? a then b :: sort_pass (S k) (a :: l) else a :: sort_pass (S k) (b :: l)).
    cbn [drop take length] in *. destruct (b <? a) eqn:Hba; zbool.
    + destruct (IH (a :: l)) as (l1 & m & -> & Hp & Hlen & Hmax); [cbn; lia|]. cbn [drop take] in *.
      exists (b :: l1), m. split; [reflexivity|]. split; [rewrite <- app_comm_cons, Hp; apply Permutation_swap|].
      split; [cbn; lia|]. assert (a <= m) by
        (assert (a ∈ l1 ++ [m]) as [Ha|Ha%list_elem_of_singleton]%elem_of_app by (rewrite Hp; constructor); [auto|lia]).
      intros x [->|Hx]%elem_of_cons; [lia|auto].
    + destruct (IH (b :: l)) as (l1 & m & -> & Hp & Hlen & Hmax); [cbn; lia|]. cbn [drop take] in *.
      exists (a :: l1), m. split; [reflexivity|]. split; [rewrite <- app_comm_cons, Hp; reflexivity|].
      split; [cbn; lia|]. assert (b <= m) by
        (assert (b ∈ l1 ++ [m]) as [Hb|Hb%list_elem_of_singleton]%elem_of_app by (rewrite Hp; constructor); [auto|lia]).
      intros x [->|Hx]%elem_of_cons; [lia|auto].
Qed.

Lemma sort_passes_spec k l : (k <= length l)%nat -> StronglySorted Z.le (drop k l) ->
  (forall x y, x ∈ take k l -> y ∈ drop k l -> x <= y) ->
  StronglySorted Z.le (sort_passes k l) /\ sort_passes k l ≡ₚ l.
Proof.
  revert l. induction k as [|k IH]; intros l Hl Hs Hle; cbn [sort_passes]; [rewrite drop_0 in Hs; auto|].
  destruct (sort_pass_spec k l Hl) as (l1 & m & -> & Hp & Hlen & Hmax).
  assert (take k (l1 ++ m :: drop (S k) l) = l1) as Et by (rewrite <- Hlen; apply take_app_length).
  assert (drop k (l1 ++ m :: drop (S k) l) = m :: drop (S k) l) as Ed by (rewrite <- Hlen; apply drop_app_length).
  assert (forall x, x ∈ l1 ++ [m] -> x ∈ take (S k) l) as Hin by (intros x; rewrite Hp; auto).
  destruct (IH (l1 ++ m :: drop (S k) l)) as [HS HP].
  - rewrite length_app. cbn. lia.
  - rewrite Ed. constructor; [done|]. apply Forall_forall. intros y Hy. apply Hle; [|done].
    apply Hin, elem_of_app. right. constructor.
  - rewrite Et, Ed. intros x y Hx [->|Hy]%elem_of_cons; [auto|].
    apply Hle; [|done]. apply Hin, elem_of_app. auto.
  - split; [done|]. rewrite HP. change (m :: drop (S k) l) with ([m] ++ drop (S k) l).
    rewrite app_assoc, Hp, take_drop. done.
Qed.

(** the bubble sort of the base offsets sorts. *)
Theorem sortSegments_sorts l : StronglySorted Z.le (sortSegments l) /\ sortSegments l ≡ₚ l.
Proof.
  apply sort_passes_spec; [done| |].
  - rewrite drop_ge by done. constructor.
  - intros x y _ Hy. rewrite drop_ge in Hy by done. inversion Hy.
Qed.

(** * Opening a topic *)

(** The names the program itself leaves in the directory of a topic: at most
    the directory of the logs. *)
Definition own_names (d : disk) : Prop := names d = [] \/ names d = ["logs"].

(** The directory of a topic that has segment 0 and no other; one that was
    not made yet. *)
Definition made (d : disk) : Prop := names d = ["logs"] /\ exists fs, segment_files d = {[0 := fs]}.
Definition tidy (d : disk) : Prop := made d \/ names d = [] /\ segment_files d = ∅.

Lemma tidy_own d : tidy d -> own_names d.
Proof. intros [[H _]|[H _]]; [by right|by left]. Qed.

Lemma tidy_put fs d : tidy d -> exists fs', <[0 := fs]> (segment_files d) = {[0 := fs']}.
Proof. intros Hd. exists fs. destruct Hd as [[_ [fs0 ->]]|[_ ->]]; [apply insert_singleton_eq|apply insert_empty]. Qed.

Lemma made_put fs d : made d -> made (put_files 0 fs d).
Proof. intros Hd. split; [apply Hd|]. apply tidy_put. by left. Qed.

(** The files of a segment as a stopped program leaves them: whole records
    and perhaps the beginning of one more, and a closed or mapped index. *)
Record left_behind (fs : files) (rs : list record) (r : record) (k : nat) (es : list Index.Entry) : Prop := {
  lb_log : logFile fs = image rs ++ take k (wrap_record r);
  lb_ok : Forall record_ok rs;
  lb_last : record_ok r;
  lb_cut : Z.of_nat k < record_size r;
  lb_small : zlen (logFile fs) <= LogMaxSize + logMinLen;
  lb_tight : Index.tight (indexFile fs) es;
  lb_entries : Forall Index.entry_ok es /\ Forall (fun e => Index.RelativeOffset e <> 0) es;
  lb_fits : Index.entrySize * zlen es <= Index.maxBytes;
  lb_size : Index.fsize (indexFile fs) = Index.entrySize * zlen es \/ Index.fsize (indexFile fs) = Index.maxBytes
}.

Lemma NewSegment_spec fs rs r k es base : left_behind fs rs r k es ->
  exists idx ifile, NewSegment base fs = Ret (mkSegment base idx 0 0 (zlen (logFile fs)), mkFiles (logFile fs) ifile) /\
    Index.holds idx ifile es /\ Index.tight ifile es /\ Index.baseOffset idx = base.
Proof.
  intros [_ _ _ _ _ Ht [Hok Hnz] Hf Hs].
  destruct (Index.NewIndex_spec _ es base Ht Hok Hnz Hf Hs) as (idx & ifile & He & H & Ht' & Hb).
  exists idx, ifile. unfold NewSegment. rewrite He. auto.
Qed.

(** [scan_names] finds nothing among the program's own names. *)
Lemma scan_own removed d : own_names d -> scan_names removed (names d) (names d) = Ret [].
Proof. intros [-> | ->]; reflexivity. Qed.

Lemma names_make_logs d : own_names d -> names (make_logs d) = ["logs"].
Proof. intros [Hn|Hn]; unfold make_logs; case_decide as E; rewrite Hn in *; [inversion E|done|done|set_solver]. Qed.

Section Open.
Context {T : Type} `{ILog T}.

(** Opening the topic comes down to the check of the files of segment 0. *)
Lemma NewTopic_spec removed maxBytes d rs r k es : own_names d ->
  left_behind (files_of d 0) rs r k es ->
  exists idx ifile a sg' d', 
    sg' = mkSegment 0 idx (zlen (image rs)) 0 (zlen (logFile (files_of d 0))) /\
    Index.holds idx ifile es /\ Index.tight ifile es /\ Index.baseOffset idx = 0 /\
    segment_files d' = <[0 := mkFiles (image rs) ifile]> (segment_files d) /\ names d' = ["logs"] /\
    let last := if decide (k = 0%nat) then last_start rs else zlen (image rs) in
    let t0 seq := mkTopic [0] a maxBytes {[0 := a]} seq None {[a := sg']} d' in
    @NewTopic T removed maxBytes d =
      if last =? 0 then Ret (t0 0)
      else match readAtPosition (mkFiles (image rs) ifile) last with
           | Ret (offset, _) => Ret (t0 (u32 offset))
           | _ => Panic
           end.
Proof.
  intros Hn Hl. destruct (NewSegment_spec _ rs r k es 0 Hl) as (idx & ifile & He & Hh & Ht & Hb).
  set (a := fresh (dom (∅ : gmap nat Segment))).
  exists idx, ifile, a. eexists _, (put_files 0 (mkFiles (image rs) ifile) (put_files 0 (mkFiles (logFile (files_of d 0)) ifile) (make_logs d))).
  split; [reflexivity|]. split; [done|]. split; [done|]. split; [done|].
  split; [cbn; rewrite insert_insert_eq; unfold make_logs; by destruct (decide _)|].
  split; [exact (names_make_logs d Hn)|].
  cbv zeta. unfold NewTopic. rewrite (scan_own removed d Hn).
  cbn [mbind outcome_bind]. change (sortSegments []) with (@nil Z). cbn [length]. rewrite decide_True by done.
  change (default 0 (last [0])) with 0. unfold new_segment. rewrite He. cbn [mbind outcome_bind].
  fold a. rewrite lookup_insert_eq.
  assert (forall fs, files_of (put_files 0 fs (make_logs d)) 0 = fs) as Hfiles
    by (intros fs; unfold files_of, put_files; cbn; rewrite lookup_insert_eq; reflexivity).
  rewrite Hfiles, (SanityCheck_spec _ _ rs r k); [|apply Hl|reflexivity|apply Hl..].
  rewrite insert_insert_eq. unfold set_pos. cbn [indexFile Segment.baseOffset index bytesSinceLastIndexEntry totalSize].
  change (u32 0) with 0. rewrite insert_empty. reflexivity.
Qed.

(** After a write that was cut short (the first [k] bytes of a record
    behind at least one whole record), the topic does not open: the check
    cuts the file back, and then the program panics on reading the record
    it no longer has. *)
Theorem NewTopic_after_cut_write_panics removed maxBytes d rs r k es : own_names d ->
  left_behind (files_of d 0) rs r k es -> (0 < k)%nat -> rs <> [] ->
  @NewTopic T removed maxBytes d = Panic.
Proof.
  intros Hn Hl Hk Hne. destruct (NewTopic_spec removed maxBytes d rs r k es Hn Hl)
    as (idx & ifile & a & sg & d' & _ & _ & _ & _ & _ & _ & ->).
  rewrite decide_False by lia. destruct rs as [|r0 rs]; [done|].
  pose proof (zlen_wrap r0). pose proof (record_size_pos r0). pose proof (zlen_nonneg (image rs)).
  rewrite (proj2 (Z.eqb_neq _ _)) by (rewrite image_cons, zlen_app; lia).
  unfold readAtPosition. cbn [logFile]. rewrite (ReadAtFile_short _ 4); [reflexivity|..]; const_len; try lia.
  pose proof (zlen_nonneg (image (r0 :: rs))). lia.
Qed.

(** A topic of whole records opens on segment 0 alone, whatever other
    segments are on disk, because the program looks for the log files one
    directory too high; its last sequence number is that of the last record
    of segment 0 when there are two or more, and 0 when there is one, so the
    next message of a topic with one message gets number 1 again. *)
Theorem NewTopic_reopens removed maxBytes d rs r es : own_names d ->
  left_behind (files_of d 0) rs r 0 es ->
  exists t, @NewTopic T removed maxBytes d = Ret t /\ segments t = [0] /\
    lastSeq t = (if decide (length rs <= 1)%nat then 0 else u32 (default 0 (r_offset <$> last rs))) /\
    (length rs = 1%nat -> fst (NextOffset t) = 1).
Proof.
  intros Hn Hl. destruct (NewTopic_spec removed maxBytes d rs r 0 es Hn Hl)
    as (idx & ifile & a & sg & d' & _ & _ & _ & _ & _ & _ & ->).
  rewrite decide_True by done. unfold last_start.
  destruct (decide (length rs <= 1)%nat) as [Hle|Hgt].
  - replace (length rs - 1)%nat with 0%nat by lia. change (start rs 0) with 0. rewrite Z.eqb_refl.
    eexists. repeat split.
  - pose proof (start_lt rs 0 (length rs - 1) ltac:(lia) ltac:(lia)) as Hpos. change (start rs 0) with 0 in Hpos.
    rewrite (proj2 (Z.eqb_neq _ _)) by lia.
    destruct (lookup_lt_is_Some_2 rs (length rs - 1)) as [x Hx]; [lia|].
    rewrite (readAt_index (mkFiles (image rs) ifile) rs _ x eq_refl (lb_ok _ _ _ _ _ Hl) Hx).
    eexists. split; [reflexivity|]. split; [reflexivity|]. split; [|lia].
    rewrite last_lookup. replace (pred (length rs)) with (length rs - 1)%nat by lia. rewrite Hx. reflexivity.
Qed.
End Open.

(** * A topic of one segment *)

Section Live.
Context {T : Type} `{ILog T}.
Implicit Type t : Topic T.

(** [t] has segment 0 only, cached and active, which holds the records [rs]
    and knows its end. *)
Record live t (s : Segment) (rs : list record) (es : list Index.Entry) : Prop := {
  lv_segments : segments t = [0];
  lv_cache : segmentCache t !! 0 = Some (activeSegment t);
  lv_object : objects t !! activeSegment t = Some s;
  lv_base : Segment.baseOffset s = 0;
  lv_valid : valid s (files_of (t_disk t) 0) rs es;
  lv_position : position s = zlen (image rs);
  lv_mem l : lastMemLog t = Some l -> exists i a, rs !! i = Some a /\ r_offset a = Offset l;
  lv_names : made (t_disk t);
  lv_since : bytesSinceLastIndexEntry s <= zlen (image rs)
}.

(** Its segment is found, and open. *)
Lemma live_baseOffset t s rs es off : live t s rs es -> 0 <= off -> baseOffset off t = Ret 0.
Proof.
  intros [Sg _ _ _ _ _ _ _ _] Hoff. unfold baseOffset. rewrite Sg. cbn [baseOffset_in].
  by rewrite Z.geb_leb, (proj2 (Z.leb_le _ _)) by lia.
Qed.

Lemma live_opened t s rs es : live t s rs es -> opened 0 t = (Ret (s, files_of (t_disk t) 0), t).
Proof.
  intros [_ Ca Ob _ _ _ _ _ _]. unfold opened, getOrNewSegment, mbind, io_bind, gets. by rewrite Ca, Ob.
Qed.

Lemma live_ReadLogAt t s rs es off log0 : live t s rs es -> 0 <= off ->
  ReadLogAt off log0 t =
    (match find_offset rs off with
     | Some (_, r) => if is_indexed s es off then Err ErrorNotData else Decode log0 (r_data r)
     | None => Err ErrorNotData
     end, t).
Proof.
  intros Hl Hoff. pose proof (lv_valid _ _ _ _ Hl) as Va. unfold ReadLogAt.
  rewrite (bind_Ret_io (gets (baseOffset off)) _ t (Ret 0) t)
    by (unfold gets; by rewrite (live_baseOffset t s rs es off Hl)).
  rewrite (bind_Ret_io (lift (Ret 0)) _ t 0 t) by done. io_step (live_opened t s rs es Hl).
  unfold lift. by rewrite (ReadAt_spec log0 s _ rs es off Va).
Qed.

(** Counting what a callback reads changes nothing else. *)
Lemma callback_all_counting {St} (callback : list byte -> St -> outcome St) l n st :
  callback_all (counting callback) l (n, st) = st' ← callback_all callback l st; Ret (n + zlen l, st').
Proof.
  revert n st. induction l as [|d l IH]; intros n st; cbn [callback_all].
  { change (zlen []) with 0. cbn. by rewrite Z.add_0_r. }
  change (counting callback d (n, st)) with (st' ← callback d st; Ret (n + 1, st')). destruct (callback d st) as [st'| |]; cbn [mbind outcome_bind]; [|reflexivity..].
  rewrite IH, zlen_cons. by replace (n + 1 + zlen l) with (n + (1 + zlen l)) by lia.
Qed.

Lemma live_ReadLogs {St} (callback : list byte -> St -> outcome St) t s rs es off limit st :
  live t s rs es -> 0 <= off ->
  ReadLogs off limit callback st t =
    (match read_from s rs es off with
     | Some i => callback_all callback (r_data <$> take (Z.to_nat limit) (drop i rs)) st
     | None => Ret st
     end, t).
Proof.
  intros Hl Hoff. pose proof (lv_valid _ _ _ _ Hl) as Va. unfold ReadLogs.
  rewrite (bind_Ret_io (gets (baseOffset off)) _ t (Ret 0) t)
    by (unfold gets; by rewrite (live_baseOffset t s rs es off Hl)).
  rewrite (bind_Ret_io (lift (Ret 0)) _ t 0 t) by done. io_step (live_opened t s rs es Hl).
  assert (forall n p, ReadLogs_loop n 0 limit callback p t = (Ret (snd p), t)) as Hloop.
  { intros [|n] p; cbn [ReadLogs_loop]; [done|]. destruct (_ <? _); [|done].
    unfold mbind, io_bind, gets, nextBaseOffset. by rewrite (lv_segments _ _ _ _ Hl). }
  rewrite (ReadLogs_spec (counting callback) s _ rs es off limit _ Va).
  destruct (read_from s rs es off) as [i|].
  - rewrite callback_all_counting. destruct (callback_all callback _ st) as [st'| |]; [|reflexivity..].
    cbn [mbind outcome_bind]. rewrite (bind_Ret_io (lift (Ret _)) _ t _ t eq_refl).
    rewrite (bind_Ret_io (gets _) _ t _ t eq_refl). apply Hloop.
  - rewrite (bind_Ret_io (lift (Ret _)) _ t _ t eq_refl).
    rewrite (bind_Ret_io (gets _) _ t _ t eq_refl). apply Hloop.
Qed.

Lemma files_of_put base fs d : files_of (put_files base fs d) base = fs.
Proof. unfold files_of, put_files. cbn. rewrite lookup_insert_eq. reflexivity. Qed.

Lemma live_AppendLog t s rs es log data : live t s rs es -> Encode log = Ret data ->
  let r := mkRecord (Offset log) (GetAppliIndex log) data in
  appendable s (files_of (t_disk t) 0) rs es r -> position s < segmentMaxBytes t ->
  exists t' s' es', AppendLog log t = (Ret (record_size r), t') /\ live t' s' (rs ++ [r]) es' /\
    lastMemLog t' = Some log /\ segmentMaxBytes t' = segmentMaxBytes t /\
    (es' = es \/ zlen es' = zlen es + 1 /\ indexIntervalBytes < zlen (image rs)).
Proof.
  intros [Sg Ca Ob Ba Va Po Me Nm Si] Henc r Hap Hroom. unfold AppendLog. rewrite Ob.
  assert (match lastMemLog t with Some l => Offset l >=? Offset log | None => false end = false) as ->.
  { destruct (lastMemLog t) as [l|] eqn:Hl; [|done]. destruct (Me l eq_refl) as (i & a & Ha & E).
    pose proof (ap_new _ _ _ _ _ Hap i a Ha) as Hlt. cbn [r r_offset] in Hlt. lia. }
  assert (Index.IsFull (index s) = false) as ->.
  { unfold Index.IsFull. rewrite (Index.h_position _ _ _ (v_holds _ _ _ _ Va)).
    pose proof (ap_room _ _ _ _ _ Hap) as Hr. unfold Index.maxEntryNum, Index.entrySize, Index.maxBytes in *.
    change (10 * 1024 * 1024 / 8) with 1310720 in Hr. lia. }
  rewrite Z.geb_leb, (proj2 (Z.leb_gt _ _)) by lia. cbn [orb].
  cbn [remember objects activeSegment]. rewrite Ob, Ba. cbn [remember t_disk].
  destruct (AppendLog_spec log data s _ rs es Henc Va Hap) as (s' & fs' & es' & -> & Hv' & Hp' & Hb' & Hsi & Hes).
  eexists _, s', es'. split; [reflexivity|]. split; [|split; [reflexivity|split; [reflexivity|]]].
  2:{ rewrite Z.gtb_ltb in Hes. destruct (_ <? _) eqn:E; zbool; [|by left]. destruct Hes as (e & -> & _).
      right. rewrite zlen_app. split; [done|lia]. }
  split; cbn [with_object remember segments segmentCache activeSegment objects t_disk lastMemLog]; try done.
  - apply lookup_insert_eq.
  - congruence.
  - rewrite files_of_put. exact Hv'.
  - intros l [= <-]. exists (length rs), r. rewrite lookup_app_r, Nat.sub_diag by lia. auto.
  - by apply made_put.
  - rewrite image_app, zlen_app. change (image [r]) with (wrap_record r ++ []). rewrite app_nil_r, zlen_wrap.
    unfold r in *. lia.
Qed.

(** The files of a topic that is closed, or that a stopped program leaves: what
    [live] says of them. *)
Record kept (d : disk) (rs : list record) (es : list Index.Entry) : Prop := {
  kp_names : tidy d;
  kp_log : logFile (files_of d 0) = image rs;
  kp_ok : Forall record_ok rs;
  kp_small : zlen (image rs) <= LogMaxSize + logMinLen;
  kp_sorted : forall i j a b, (i < j)%nat -> rs !! i = Some a -> rs !! j = Some b -> r_offset a < r_offset b;
  kp_range : Forall (fun r => 0 < r_offset r < 2 ^ 32) rs;
  kp_tight : Index.tight (indexFile (files_of d 0)) es;
  kp_increasing : Index.increasing es;
  kp_entries e : e ∈ es -> exists k r, rs !! k = Some r /\ Index.RelativeOffset e = r_offset r /\
    Index.Position e = start rs (S k);
  kp_entries_ok : Forall Index.entry_ok es;
  kp_fits : Index.entrySize * zlen es <= Index.maxBytes;
  kp_size : Index.fsize (indexFile (files_of d 0)) = Index.entrySize * zlen es \/
            Index.fsize (indexFile (files_of d 0)) = Index.maxBytes
}.

(** What keeps the logs within reach of the full check at start. *)
Definition modest (rs : list record) : Prop :=
  zlen (image rs) <= LogMaxSize + logMinLen /\ Forall (fun r => 0 < r_offset r) rs.

Lemma live_kept (closed : bool) t s rs es : live t s rs es -> modest rs ->
  kept (if closed then Close t else t_disk t) rs es.
Proof.
  intros [Sg Ca Ob Ba [L O Sz Ft So Bs IB H' Tg In En] Po Me Nm Si] [Hsmall Hpos].
  assert (exists ifile, files_of (if closed then Close t else t_disk t) 0 = mkFiles (image rs) ifile /\
    Index.tight ifile es /\
    (Index.fsize ifile = Index.entrySize * zlen es \/ Index.fsize ifile = Index.maxBytes) /\
    made (if closed then Close t else t_disk t)) as (ifile & Hf & Ht & Hsize & Hn).
  { destruct closed.
    - unfold Close. rewrite Ob, Ba, files_of_put, L. eexists. split; [reflexivity|]. split; [|split].
      + unfold Index.tight, Index.Close. rewrite Index.Truncate_fdata; [exact Tg|].
        rewrite (Index.h_position _ _ _ H'), Tg. unfold zlen. rewrite Index.length_concat_entries.
        unfold Index.entrySize. lia.
      + left. cbn. apply H'.
      + by apply made_put.
    - exists (indexFile (files_of (t_disk t) 0)). split; [destruct (files_of _ 0); cbn in *; by subst|].
      split; [done|]. split; [right; apply H'|done]. }
  assert (Forall (fun r => 0 < r_offset r < 2 ^ 32) rs) as Hr.
  { rewrite Ba in Bs. apply Forall_forall. intros r Hin. rewrite Forall_forall in Bs, Hpos.
    specialize (Bs r Hin). specialize (Hpos r Hin). cbv beta in *. lia. }
  split; rewrite ?Hf; cbn [logFile indexFile]; try done; [by left|..].
  - intros e (k & r & Hk & He & Hp)%En. exists k, r. unfold Index.real in He. rewrite IB, Ba in He. auto.
  - apply H'.
  - apply H'.
Qed.

(** Opening the topic again makes it live, with the same records. Only the
    last number may differ: see [NewTopic_reopens]. *)
Lemma kept_opens removed maxBytes d rs es : kept d rs es ->
  exists t s, @NewTopic T removed maxBytes d = Ret t /\ live t s rs es /\ segmentMaxBytes t = maxBytes /\
    lastMemLog t = None /\
    lastSeq t = if decide (length rs <= 1)%nat then 0 else u32 (default 0 (r_offset <$> last rs)).
Proof.
  intros [Nm L O Sm So Rg Tg In En Eo Fi Sz].
  assert (exists r, record_ok r) as [r0 Hr0].
  { exists (mkRecord 0 0 []). split; [split; [discriminate|reflexivity]|discriminate]. }
  assert (left_behind (files_of d 0) rs r0 0 es) as Hl.
  { split; try done.
    - rewrite L. by rewrite app_nil_r.
    - pose proof (record_size_pos r0). cbn. lia.
    - rewrite L. done.
    - split; [done|]. apply Forall_forall. intros e (k & r & Hk & He & _)%En.
      pose proof (Forall_lookup_1 _ _ _ _ Rg Hk). cbv beta in *. lia. }
  destruct (NewTopic_spec (T:=T) removed maxBytes d rs r0 0 es (tidy_own d Nm) Hl)
    as (idx & ifile & a & sg & d' & -> & Hh & Ht & Hb & Hd & Hnd & ->).
  assert (files_of d' 0 = mkFiles (image rs) ifile) as Hfd by (unfold files_of; by rewrite Hd, lookup_insert_eq).
  assert (Forall (fun r => 0 <= r_offset r < 0 + 2 ^ 32) rs) as Hbase
    by (eapply Forall_impl; [exact Rg|]; cbn; lia).
  rewrite decide_True by done. unfold last_start.
  set (sg := mkSegment 0 idx _ 0 _). set (seq0 := if decide (length rs <= 1)%nat then _ else _).
  exists (mkTopic [0] a maxBytes {[0 := a]} seq0 None {[a := sg]} d'), sg.
  split; [|split; [|done]].
  - unfold seq0. destruct (decide (length rs <= 1)%nat) as [Hle|Hgt].
    + replace (length rs - 1)%nat with 0%nat by lia. change (start rs 0) with 0. by rewrite Z.eqb_refl.
    + pose proof (start_lt rs 0 (length rs - 1) ltac:(lia) ltac:(lia)) as Hp. change (start rs 0) with 0 in Hp.
      rewrite (proj2 (Z.eqb_neq _ _)) by lia.
      destruct (lookup_lt_is_Some_2 rs (length rs - 1)) as [x Hx]; [lia|].
      rewrite (readAt_index (mkFiles (image rs) ifile) rs _ x eq_refl O Hx).
      rewrite last_lookup. replace (pred (length rs)) with (length rs - 1)%nat by lia. by rewrite Hx.
  - split; cbn [segments segmentCache activeSegment objects t_disk lastMemLog]; try done;
      try apply lookup_singleton_eq.
    + rewrite Hfd. split; cbn [logFile indexFile index Segment.baseOffset sg]; try done.
      * unfold getFileSize. cbn [position sg totalSize]. rewrite L.
        destruct (_ =? 0) eqn:E; zbool; done.
      * assert (LogMaxSize + logMinLen < 2 ^ 32) by reflexivity. lia.
      * intros e (k & r & Hk & He & Hp)%En. exists k, r. unfold Index.real. rewrite Hb. auto.
    + split; [exact Hnd|]. rewrite Hd. by apply tidy_put.
    + apply zlen_nonneg.
Qed.

(** Appending a message with the next number to a topic of one segment
    stores it behind the others; a second append of the same message does
    nothing; and from then on [ReadLogAt] gives every message stored back,
    save those whose number is in the index. *)
Theorem AppendLog_then_ReadLogAt t s rs es log data : live t s rs es -> Encode log = Ret data ->
  let r := mkRecord (Offset log) (GetAppliIndex log) data in
  appendable s (files_of (t_disk t) 0) rs es r -> position s < segmentMaxBytes t ->
  exists t' s' es', AppendLog log t = (Ret (record_size r), t') /\ live t' s' (rs ++ [r]) es' /\
    AppendLog log t' = (Ret 0, t') /\
    forall log0 k x, (rs ++ [r]) !! k = Some x ->
      ReadLogAt (r_offset x) log0 t' =
        (if is_indexed s' es' (r_offset x) then Err ErrorNotData else Decode log0 (r_data x), t').
Proof.
  intros Hl Henc r Hap Hroom.
  destruct (live_AppendLog t s rs es log data Hl Henc Hap Hroom) as (t' & s' & es' & He & Hl' & Hmem & _). fold r in He, Hl'.
  exists t', s', es'. split; [done|]. split; [done|]. split.
  - unfold AppendLog. rewrite (lv_object _ _ _ _ Hl'), Hmem, Z.geb_leb, Z.leb_refl. reflexivity.
  - intros log0 k x Hx. pose proof (lv_valid _ _ _ _ Hl') as Hv'.
    pose proof (Forall_lookup_1 _ _ _ _ (v_base _ _ _ _ Hv') Hx) as Hb. cbv beta in Hb.
    rewrite (lv_base _ _ _ _ Hl') in Hb.
    rewrite (live_ReadLogAt t' s' _ es' (r_offset x) log0 Hl') by lia.
    destruct (find_offset (rs ++ [r]) (r_offset x)) as [[k' y]|] eqn:Hf.
    + apply find_offset_Some in Hf as [Hk' Hy].
      assert (k' = k) as -> by (eapply sorted_offsets; eauto). assert (y = x) as -> by congruence. reflexivity.
    + destruct (find_offset_None _ _ Hf k x Hx eq_refl).
Qed.
End Live.

(** * Runs *)

Definition example_message (seq : Z) : Db.Message :=
  Db.mkMessage 0 0 0 0 (100 + seq) seq "no" 0 "alice" "" "g1" 2 (bytes_of_string "hi").

Definition empty_disk : disk := mkDisk [] ∅.
Definition topic_or {T} (o : outcome (Topic T)) (t : Topic T) : Topic T := match o with Ret t => t | _ => t end.
Definition dead_topic : Topic Db.Message := mkTopic [] 0 0 ∅ 0 None ∅ empty_disk.

(** A topic whose segments hold two records each. *)
Definition small_topic : Topic Db.Message :=
  topic_or (NewTopic (fun _ => false) 100 empty_disk) dead_topic.
Definition append_message (t : Topic Db.Message) (seq : Z) : Topic Db.Message :=
  snd (AppendLog (example_message seq) t).

(** The numbers of the messages [ReadLogs] gives. *)
Definition read_seqs (offset limit : Z) : io (Topic Db.Message) (list Z) :=
  ReadLogs offset limit (fun data seqs => m ← Db.Decode 0 data; Ret (seqs ++ [Db.MessageSeq m])) [].

(** What a read of ten messages gives, and the topic after it. *)
Definition seqs_read (t : Topic Db.Message) : outcome (list Z) := fst (read_seqs 1 10 t).
Definition after_read (t : Topic Db.Message) : Topic Db.Message := snd (read_seqs 1 10 t).
Definition read_at_3 (t : Topic Db.Message) : outcome Z :=
  m ← fst (ReadLogAt 3 (example_message 0) t); Ret (Db.MessageSeq m).

(** A topic that has rolled to a second segment, [3]: the first record of
    that segment is not found by its number; and once a reader has read the
    segment, which opens it a second time, a message appended afterwards is
    not seen, although the append succeeds. *)
Theorem rolled_segment_reads :
  let t3 := foldl append_message small_topic [1; 2; 3] in
  let t4 := append_message (after_read t3) 4 in
  segments t3 = [0; 3] /\ seqs_read t3 = Ret [1; 2; 3] /\ read_at_3 t3 = Err ErrorNotData /\
  fst (AppendLog (example_message 4) (after_read t3)) = Ret 63 /\
  segments t4 = [0; 3] /\ lastSeq t4 = 4 /\ seqs_read t4 = Ret [1; 2; 3].
Proof. repeat split; vm_compute; reflexivity. Qed.

Definition disk_with (log : list byte) : disk :=
  mkDisk ["logs"] {[0 := mkFiles log (Index.mkFile 0 [])]}.

Lemma left_behind_example k : Z.of_nat k < record_size example_record ->
  left_behind (mkFiles (image [example_record] ++ take k (wrap_record example_record)) (Index.mkFile 0 []))
    [example_record] example_record k [].
Proof.
  intros Hk. assert (Forall record_ok [example_record]) as Hok
    by (apply Forall_cons; split; [exact example_record_ok|apply Forall_nil; exact I]).
  split; [reflexivity|exact Hok|exact example_record_ok|exact Hk| |reflexivity| |discriminate|].
  - cbn [logFile]. rewrite zlen_app. assert (zlen (take k (wrap_record example_record)) <= Z.of_nat k)
      by (unfold zlen; rewrite length_take; lia).
    change (record_size example_record) with 65 in Hk. change (zlen (image [example_record])) with 65.
    transitivity (LogMaxSize + 0); [unfold LogMaxSize; lia|]. apply Z.add_le_mono_l. vm_compute. discriminate.
  - split; apply Forall_nil; exact I.
  - left. reflexivity.
Qed.

Lemma NewTopic_after_cut_write_panics_witness :
  @NewTopic Db.Message (fun _ => false) 1000
    (disk_with (image [example_record] ++ take 30 (wrap_record example_record))) = Panic.
Proof.
  apply (NewTopic_after_cut_write_panics (fun _ => false) 1000
    (disk_with (image [example_record] ++ take 30 (wrap_record example_record))) [example_record] example_record 30 []).
  - right. reflexivity.
  - exact (left_behind_example 30 eq_refl).
  - lia.
  - discriminate.
Defined.

Lemma NewTopic_reopens_witness :
  exists t, @NewTopic Db.Message (fun _ => false) 1000
    (disk_with (image [example_record] ++ take 0 (wrap_record example_record))) = Ret t /\ segments t = [0] /\
    lastSeq t = 0 /\ (length [example_record] = 1%nat -> fst (NextOffset t) = 1).
Proof.
  apply (NewTopic_reopens (fun _ => false) 1000
    (disk_with (image [example_record] ++ take 0 (wrap_record example_record))) [example_record] example_record []).
  - right. reflexivity.
  - exact (left_behind_example 0 eq_refl).
Defined.

(** A topic opened on an empty disk. *)
Lemma NewTopic_empty maxBytes :
  exists t s, @NewTopic Db.Message (fun _ => false) maxBytes empty_disk = Ret t /\ live t s [] [] /\
    segmentMaxBytes t = maxBytes.
Proof.
  assert (left_behind (files_of empty_disk 0) [] example_record 0 []) as Hl.
  { split; [reflexivity|apply Forall_nil; exact I|exact example_record_ok|reflexivity|discriminate|reflexivity
      |split; apply Forall_nil; exact I|discriminate|left; reflexivity]. }
  destruct (NewTopic_spec (T:=Db.Message) (fun _ => false) maxBytes empty_disk [] example_record 0 [] (or_introl eq_refl) Hl)
    as (idx & ifile & a & sg & d' & -> & Hh & Ht & Hb & Hd & Hnd & ->).
  eexists _, _. split; [reflexivity|]. split; [|reflexivity].
  split; cbn [segments segmentCache activeSegment objects t_disk lastMemLog];
    [reflexivity|apply lookup_singleton_eq|apply lookup_singleton_eq|reflexivity| |reflexivity|discriminate| |reflexivity || discriminate].
  2:{ split; [exact Hnd|]. rewrite Hd. apply tidy_put. right. split; reflexivity. }
  assert (files_of d' 0 = mkFiles [] ifile) as -> by (unfold files_of; rewrite Hd, lookup_insert_eq; reflexivity).
  split; try done; try (apply Forall_nil; exact I).
  intros e He. inversion He.
Qed.

Lemma AppendLog_then_ReadLogAt_witness :
  exists (t t' : Topic Db.Message) s' es', AppendLog message_example t = (Ret (record_size example_record), t') /\
    live t' s' ([] ++ [example_record]) es' /\ AppendLog message_example t' = (Ret 0, t') /\
    forall log0 k x, ([] ++ [example_record]) !! k = Some x ->
      ReadLogAt (r_offset x) log0 t' =
        (if is_indexed s' es' (r_offset x) then Err ErrorNotData else Decode log0 (r_data x), t').
Proof.
  destruct (NewTopic_empty 1000) as (t & s & _ & Hl & Hmax). exists t.
  pose proof (lv_position _ _ _ _ Hl) as Hp. change (zlen (image [])) with 0 in Hp.
  apply (AppendLog_then_ReadLogAt t s [] [] message_example (Db.MarshalMessage message_example) Hl example_encode).
  - split; [exact Hp|exact example_record_ok| | |reflexivity|reflexivity].
    + intros i a Ha. inversion Ha.
    + rewrite (lv_base _ _ _ _ Hl). split; [discriminate|reflexivity].
  - rewrite Hp, Hmax. reflexivity.
Defined.
