(* ===== verification/Clients.v ===== *)
(** Connected clients: [Client] (internal/lim/client.go) and [ClientManager]
    (internal/lim/client_manager.go). The operations are compositions of the
    atomic steps the code takes on its concurrent maps, so that both a
    sequence of whole operations and an interleaving of their steps can be
    stated. *)
From stdpp Require Import base list gmap strings relations.
From Stdlib Require Import ZArith Lia.
From S2P Require Import Prelude Frames.

(** A [Client]; [conn] is the id of its connection, which is its own
    ([GetID]). *)
Record Client := mkClient {
  conn : Z;
  uid : string;
  deviceFlag : DeviceFlag;
  deviceLevel : DeviceLevel;
  aesKey : string;
  aesIV : string
}.
Definition GetID (c : Client) : Z := conn c.

Module ClientManager.

Record ClientManager := mkManager {
  userClientMap : gmap string (list Z);
  clientMap : gmap Z Client
}.
Definition NewClientManager : ClientManager := mkManager ∅ ∅.

Definition store_client (c : Client) (m : ClientManager) : ClientManager :=
  mkManager (userClientMap m) (<[GetID c := c]> (clientMap m)).
Definition store_users (u : string) (ids : list Z) (m : ClientManager) : ClientManager :=
  mkManager (<[u := ids]> (userClientMap m)) (clientMap m).
Definition delete_client (id : Z) (m : ClientManager) : ClientManager :=
  mkManager (userClientMap m) (delete id (clientMap m)).

(** [userClientMap.LoadOrStore(client.uid, []int64{client.GetID()})]: the list
    loaded, or [None] when the new one was stored. *)
Definition LoadOrStore (c : Client) (m : ClientManager) : option (list Z) * ClientManager :=
  match userClientMap m !! uid c with
  | Some users => (Some users, m)
  | None => (None, store_users (uid c) [GetID c] m)
  end.

(** The critical section of [Add]. *)
Definition append_user (c : Client) (users : list Z) (m : ClientManager) : ClientManager :=
  store_users (uid c) (users ++ [GetID c]) m.

Definition Add (c : Client) (m : ClientManager) : ClientManager :=
  let '(loaded, m1) := LoadOrStore c (store_client c m) in
  match loaded with
  | Some users => append_user c users m1
  | None => m1
  end.

Definition Get (id : Z) (m : ClientManager) : option Client := clientMap m !! id.

(** The list without the first occurrence of [id]; [None] when it is not
    there. *)
Fixpoint without (id : Z) (l : list Z) : option (list Z) :=
  match l with
  | [] => None
  | i :: l' => if i =? id then Some l' else option_map (cons i) (without id l')
  end.

Definition Remove (id : Z) (m : ClientManager) : ClientManager :=
  match clientMap m !! id with
  | None => m
  | Some client =>
      let m1 := delete_client id m in
      match userClientMap m1 !! uid client with
      | None => m1
      | Some userList =>
          match without (GetID client) userList with
          | Some l => store_users (uid client) l m1
          | None => m1
          end
      end
  end.

Definition GetClientsWithUID (u : string) (m : ClientManager) : list Client :=
  match userClientMap m !! u with
  | None => []
  | Some userList => omap (fun id => clientMap m !! id) userList
  end.

Definition GetOnlineUIDs (uids : list string) (m : ClientManager) : list string :=
  filter (fun u => is_Some (userClientMap m !! u)) uids.

Definition GetClientWith (u : string) (flag : DeviceFlag) (m : ClientManager) : option Client :=
  List.find (fun c => deviceFlag c =? flag) (GetClientsWithUID u m).

(** * What the manager stands for

    The clients connected, in the order in which they came, and the users that
    ever had one. *)
Record registry := mkRegistry { online : list Client; seen : gset string }.

Definition reg_add (c : Client) (r : registry) : registry :=
  mkRegistry (online r ++ [c]) ({[uid c]} ∪ seen r).
Definition reg_remove (id : Z) (r : registry) : registry :=
  mkRegistry (filter (fun c => GetID c <> id) (online r)) (seen r).
Definition reg_of (u : string) (r : registry) : list Client :=
  filter (fun c => uid c = u) (online r).

Record represents (m : ClientManager) (r : registry) : Prop := {
  rep_nodup : NoDup (GetID <$> online r);
  rep_get id c : clientMap m !! id = Some c <-> c ∈ online r /\ GetID c = id;
  rep_users u : userClientMap m !! u =
    if decide (u ∈ seen r) then Some (GetID <$> reg_of u r) else None;
  rep_seen c : c ∈ online r -> uid c ∈ seen r
}.

Lemma represents_new : represents NewClientManager (mkRegistry [] ∅).
Proof.
  split; cbn.
  - constructor.
  - intros id c. rewrite lookup_empty. split; [discriminate|]. intros [H _]. inversion H.
  - intros u. rewrite lookup_empty, decide_False by set_solver. reflexivity.
  - intros c H. inversion H.
Qed.

Lemma without_filter (l : list Client) (P : Client -> Prop) `{forall c, Decision (P c)} id :
  NoDup (GetID <$> filter P l) -> (exists c, c ∈ filter P l /\ GetID c = id) ->
  without id (GetID <$> filter P l) = Some (GetID <$> filter (fun c => GetID c <> id) (filter P l)).
Proof.
  generalize (filter P l). clear l. intros l. induction l as [|c l IH]; intros Hn (x & Hx & E); [inversion Hx|].
  cbn [fmap list_fmap without] in *. apply NoDup_cons in Hn as [Hc Hn]. rewrite filter_cons.
  destruct (Z.eqb_spec (GetID c) id) as [Ec|Ec].
  - rewrite decide_False by tauto. f_equal. f_equal. symmetry. apply filter_all. intros y Hy Ey.
    apply Hc. rewrite Ec, <- Ey. by apply list_elem_of_fmap_2.
  - rewrite decide_True by done. apply elem_of_cons in Hx as [->|Hx]; [done|].
    fold (GetID <$> l). rewrite IH by eauto. reflexivity.
Qed.

Lemma reg_of_nodup m r u : represents m r -> NoDup (GetID <$> reg_of u r).
Proof.
  intros R. pose proof (rep_nodup _ _ R) as Hn. unfold reg_of. revert Hn. generalize (online r). intros l.
  induction l as [|c l IH]; [done|]. rewrite fmap_cons, filter_cons. intros [Hc Hn]%NoDup_cons.
  case_decide; [|auto]. rewrite fmap_cons. apply NoDup_cons. split; [|auto]. intros (y & E & Hy)%list_elem_of_fmap.
  apply Hc. rewrite E. apply list_elem_of_fmap_2. apply list_elem_of_filter in Hy. tauto.
Qed.

Lemma reg_of_snoc u l c s : reg_of u (mkRegistry (l ++ [c]) s) =
  filter (fun c => uid c = u) l ++ if decide (uid c = u) then [c] else [].
Proof. unfold reg_of. cbn [online]. rewrite filter_app, filter_cons, filter_nil. by case_decide. Qed.

Lemma Add_users c m u : userClientMap (Add c m) !! u =
  if decide (u = uid c) then Some (default [] (userClientMap m !! u) ++ [GetID c]) else userClientMap m !! u.
Proof.
  unfold Add, LoadOrStore. cbn [store_client userClientMap]. destruct (userClientMap m !! uid c) as [us|] eqn:E;
    cbn [append_user store_users userClientMap]; (destruct (decide (u = uid c)) as [->|Hu];
    [rewrite lookup_insert_eq, E; reflexivity|by rewrite lookup_insert_ne]).
Qed.

Lemma Add_clients c m : clientMap (Add c m) = <[GetID c := c]> (clientMap m).
Proof. unfold Add, LoadOrStore. cbn [store_client userClientMap]. by destruct (userClientMap m !! uid c). Qed.

(** [Add] of a client whose connection is new. *)
Lemma represents_Add m r c : represents m r -> (forall x, x ∈ online r -> GetID x <> GetID c) ->
  represents (Add c m) (reg_add c r).
Proof.
  intros R Hf. split.
  - cbn [reg_add online]. rewrite fmap_app. apply NoDup_app. split; [apply (rep_nodup _ _ R)|]. split.
    + intros id (x & -> & Hx)%list_elem_of_fmap Hc. apply list_elem_of_singleton in Hc. exact (Hf x Hx Hc).
    + apply NoDup_singleton.
  - intros id x. rewrite Add_clients. cbn [reg_add online]. rewrite elem_of_app, list_elem_of_singleton.
    destruct (decide (id = GetID c)) as [->|Hid].
    + rewrite lookup_insert_eq. split; [intros [= ->]; auto|]. intros [[Hx| ->] E]; [|done]. by destruct (Hf x Hx).
    + rewrite lookup_insert_ne by done. rewrite (rep_get _ _ R). split; [tauto|]. intros [[?| ->] E]; [done|congruence].
  - intros u. rewrite Add_users, (rep_users _ _ R). unfold reg_add. rewrite reg_of_snoc. cbn [seen].
    destruct (decide (u = uid c)) as [->|Hu].
    + rewrite (decide_True (P := uid c = uid c)), (decide_True (P := uid c ∈ {[uid c]} ∪ seen r)) by set_solver.
      rewrite fmap_app. f_equal. f_equal.
      case_decide as Hs; [reflexivity|]. cbn [from_option Datatypes.id].
      rewrite (filter_none (fun x => uid x = uid c) (online r)); [reflexivity|].
      intros x Hx E. apply Hs. rewrite <- E. apply (rep_seen _ _ R x Hx).
    + rewrite (decide_False (P := uid c = u)) by congruence. rewrite app_nil_r.
      destruct (decide (u ∈ seen r)); symmetry; [apply decide_True|apply decide_False]; set_solver.
  - intros x. cbn [reg_add online seen]. rewrite elem_of_app, list_elem_of_singleton.
    intros [Hx| ->]; [pose proof (rep_seen _ _ R x Hx)|]; set_solver.
Qed.

Lemma reg_of_remove u id r : reg_of u (reg_remove id r) = filter (fun c => GetID c <> id) (reg_of u r).
Proof. unfold reg_of. cbn [reg_remove online]. rewrite !list_filter_filter. apply filter_ext_in. intros; tauto. Qed.

Lemma Remove_clients id m : clientMap (Remove id m) = delete id (clientMap m).
Proof.
  unfold Remove. destruct (clientMap m !! id) as [c|] eqn:E; [|symmetry; apply delete_id, E].
  cbn [delete_client userClientMap]. destruct (userClientMap m !! uid c) as [us|]; [|done].
  by destruct (without (GetID c) us).
Qed.

Lemma Remove_users m r id u : represents m r -> userClientMap (Remove id m) !! u =
  if decide (u ∈ seen r) then Some (GetID <$> reg_of u (reg_remove id r)) else None.
Proof.
  intros R. rewrite reg_of_remove. unfold Remove. destruct (clientMap m !! id) as [c|] eqn:E.
  - apply (rep_get _ _ R) in E as [Hc E]. cbn [delete_client userClientMap].
    rewrite (rep_users _ _ R (uid c)), decide_True by (apply (rep_seen _ _ R), Hc).
    pose proof (reg_of_nodup m r (uid c) R) as Hn. unfold reg_of at 1. rewrite (without_filter _ _ _ Hn).
    2:{ exists c. split; [|done]. apply list_elem_of_filter. done. }
    cbn [store_users delete_client userClientMap]. rewrite E. destruct (decide (u = uid c)) as [->|Hu].
    + rewrite lookup_insert_eq, decide_True by (apply (rep_seen _ _ R), Hc). reflexivity.
    + rewrite lookup_insert_ne by done. rewrite (rep_users _ _ R).
      rewrite (filter_all (fun c => GetID c <> id)); [reflexivity|].
      intros x [Ex Hx]%list_elem_of_filter E'. apply Hu. rewrite <- Ex.
      assert (Some x = Some c) as [= ->]; [|done].
      rewrite <- (proj2 (rep_get _ _ R id x)) by done. apply (rep_get _ _ R). done.
  - rewrite (rep_users _ _ R), (filter_all (fun c => GetID c <> id)); [reflexivity|].
    intros x [_ Hx]%list_elem_of_filter E'. rewrite (proj2 (rep_get _ _ R id x)) in E by done. discriminate.
Qed.

Lemma represents_Remove m r id : represents m r -> represents (Remove id m) (reg_remove id r).
Proof.
  intros R. split.
  - cbn [reg_remove online]. pose proof (rep_nodup _ _ R) as Hn. revert Hn. generalize (online r). intros l.
    induction l as [|c l IH]; [done|]. rewrite fmap_cons, filter_cons. intros [Hc Hn]%NoDup_cons.
    case_decide; [|auto]. rewrite fmap_cons. apply NoDup_cons. split; [|auto].
    intros (y & E & Hy)%list_elem_of_fmap. apply Hc. rewrite E. apply list_elem_of_fmap_2.
    apply list_elem_of_filter in Hy. tauto.
  - intros i c. rewrite Remove_clients. cbn [reg_remove online]. rewrite list_elem_of_filter.
    destruct (decide (i = id)) as [->|Hi].
    + rewrite lookup_delete_eq. split; [discriminate|]. intros [[Hne _] E]. congruence.
    + rewrite lookup_delete_ne by done. rewrite (rep_get _ _ R). split; [intros [? ?]|]; subst; tauto.
  - intros u. exact (Remove_users m r id u R).
  - intros c. cbn [reg_remove online seen]. intros [_ Hc]%list_elem_of_filter. apply (rep_seen _ _ R), Hc.
Qed.

(** The list of a user, and what its ids stand for. *)
Lemma users_represents m r u : represents m r ->
  default [] (userClientMap m !! u) = GetID <$> reg_of u r.
Proof.
  intros R. rewrite (rep_users _ _ R). case_decide as Hs; [done|]. unfold reg_of.
  rewrite filter_none; [done|]. intros x Hx E. apply Hs. rewrite <- E. apply (rep_seen _ _ R), Hx.
Qed.

Lemma clients_of_ids (cm : gmap Z Client) (l : list Client) : (forall c, c ∈ l -> cm !! GetID c = Some c) ->
  omap (fun id => cm !! id) (GetID <$> l) = l.
Proof.
  induction l as [|c l IH]; intros Hl; [done|]. rewrite fmap_cons. cbn [omap list_omap].
  rewrite Hl by constructor. f_equal. apply IH. intros x Hx. apply Hl. by constructor.
Qed.

Lemma reg_of_get m r u c : represents m r -> c ∈ reg_of u r -> clientMap m !! GetID c = Some c.
Proof. intros R [_ Hc]%list_elem_of_filter. by apply (rep_get _ _ R). Qed.

(** The queries on a manager and on the registry it stands for. *)
Lemma GetClientsWithUID_default u m :
  GetClientsWithUID u m = omap (fun id => clientMap m !! id) (default [] (userClientMap m !! u)).
Proof. unfold GetClientsWithUID. by destruct (userClientMap m !! u). Qed.

Lemma GetClientsWithUID_represents m r u : represents m r -> GetClientsWithUID u m = reg_of u r.
Proof.
  intros R. rewrite GetClientsWithUID_default, (users_represents m r u R).
  apply clients_of_ids. intros c. by apply reg_of_get.
Qed.

(** Whole operations, one after the other. *)
Inductive op := OpAdd (c : Client) | OpRemove (id : Z).
Definition run_op (m : ClientManager) (o : op) : ClientManager :=
  match o with OpAdd c => Add c m | OpRemove id => Remove id m end.
Definition reg_op (r : registry) (o : op) : registry :=
  match o with OpAdd c => reg_add c r | OpRemove id => reg_remove id r end.

(** Every [Add] is for a connection that is not registered. *)
Fixpoint fresh_adds (r : registry) (ops : list op) : Prop :=
  match ops with
  | [] => True
  | o :: ops' =>
      match o with OpAdd c => GetID c ∉ GetID <$> online r | OpRemove _ => True end /\
      fresh_adds (reg_op r o) ops'
  end.

Lemma represents_run m r ops : represents m r -> fresh_adds r ops ->
  represents (foldl run_op m ops) (foldl reg_op r ops).
Proof.
  revert m r. induction ops as [|o ops IH]; intros m r R Hf; [done|]. destruct Hf as [Ho Hf].
  apply IH; [|done]. destruct o as [c|id]; [|apply represents_Remove, R].
  apply represents_Add; [done|]. intros x Hx E. apply Ho. rewrite <- E. by apply list_elem_of_fmap_2.
Qed.

(** C18: after any sequence of [Add]s of new connections and [Remove]s, [Get]
    finds the connected client with the id, [GetClientsWithUID] and
    [GetClientWith] the connected clients of the user in the order in which
    they came; [GetOnlineUIDs], however, keeps the users that ever had a
    client, whether or not they still have one. *)
Theorem manager_refines ops (m := foldl run_op NewClientManager ops)
    (r := foldl reg_op (mkRegistry [] ∅) ops) : fresh_adds (mkRegistry [] ∅) ops ->
  (forall id c, Get id m = Some c <-> c ∈ online r /\ GetID c = id) /\
  (forall u, GetClientsWithUID u m = reg_of u r) /\
  (forall u flag, GetClientWith u flag m = List.find (fun c => deviceFlag c =? flag) (reg_of u r)) /\
  (forall us, GetOnlineUIDs us m = filter (fun u => u ∈ seen r) us).
Proof.
  intros Hf. assert (represents m r) as R by (apply represents_run; [apply represents_new|done]).
  split; [apply (rep_get _ _ R)|]. split; [intros u; apply GetClientsWithUID_represents, R|]. split.
  - intros u flag. unfold GetClientWith. by rewrite (GetClientsWithUID_represents m r u R).
  - intros us. apply filter_ext_in. intros u _. rewrite (rep_users _ _ R). case_decide; [split; [done|intros _; eauto]|].
    split; [intros [? [=]]|tauto].
Qed.

(** * Concurrent [Add]s

    [handleConnect] runs on a pool of goroutines. A goroutine in [Add] is at
    one of four points; the append and the store it ends with are under the
    lock, the load they start from is not. *)
Inductive pc :=
  | AtStore (c : Client)                      (* before clientMap.Store *)
  | AtLoad (c : Client)                       (* before userClientMap.LoadOrStore *)
  | AtAppend (c : Client) (users : list Z)    (* at the lock, with the list loaded *)
  | Returned.

Definition add_step (p : pc) (m : ClientManager) : option (pc * ClientManager) :=
  match p with
  | AtStore c => Some (AtLoad c, store_client c m)
  | AtLoad c =>
      match LoadOrStore c m with
      | (Some users, m') => Some (AtAppend c users, m')
      | (None, m') => Some (Returned, m')
      end
  | AtAppend c users => Some (Returned, append_user c users m)
  | Returned => None
  end.

(** One goroutine takes a step. *)
Inductive step : ClientManager * list pc -> ClientManager * list pc -> Prop :=
  | step_goroutine m ps i p p' m' : ps !! i = Some p -> add_step p m = Some (p', m') ->
      step (m, ps) (m', <[i := p']> ps).

(** Alone, the steps are [Add]. *)
Lemma Add_alone c m : rtc step (m, [AtStore c]) (Add c m, [Returned]).
Proof.
  apply (rtc_l _ _ (store_client c m, [AtLoad c])).
  { by apply (step_goroutine m [AtStore c] 0 (AtStore c)). }
  unfold Add. destruct (LoadOrStore c (store_client c m)) as [[us|] m1] eqn:E.
  - apply (rtc_l _ _ (m1, [AtAppend c us])).
    + apply (step_goroutine _ [AtLoad c] 0 (AtLoad c) (AtAppend c us)); [done|]. cbn [add_step]. by rewrite E.
    + apply rtc_once. by apply (step_goroutine m1 [AtAppend c us] 0 (AtAppend c us) Returned).
  - apply rtc_once. apply (step_goroutine _ [AtLoad c] 0 (AtLoad c) Returned); [done|]. cbn [add_step]. by rewrite E.
Qed.

(** Where a goroutine adding [c] is, in terms of the manager [m0] they all
    started from. *)
Definition progress (m0 : ClientManager) (c : Client) (p : pc) (m : ClientManager) : Prop :=
  match p with
  | AtStore c' => c' = c /\ userClientMap m !! uid c = userClientMap m0 !! uid c
  | AtLoad c' => c' = c /\ userClientMap m !! uid c = userClientMap m0 !! uid c /\
      clientMap m !! GetID c = Some c
  | AtAppend c' users => c' = c /\ userClientMap m0 !! uid c = Some users /\ clientMap m !! GetID c = Some c
  | Returned => userClientMap m !! uid c = Some (default [] (userClientMap m0 !! uid c) ++ [GetID c]) /\
      clientMap m !! GetID c = Some c
  end.

Definition Inv (m0 : ClientManager) (cs : list Client) (st : ClientManager * list pc) : Prop :=
  Forall2 (fun c p => progress m0 c p (fst st)) cs (snd st) /\
  forall id, id ∉ GetID <$> cs -> clientMap (fst st) !! id = clientMap m0 !! id.

(** A step of the goroutine adding [c] brings it on. *)
Lemma progress_step m0 c p m p' m' : progress m0 c p m -> add_step p m = Some (p', m') ->
  progress m0 c p' m' /\
  (forall u, u <> uid c -> userClientMap m' !! u = userClientMap m !! u) /\
  (forall id, id <> GetID c -> clientMap m' !! id = clientMap m !! id).
Proof.
  destruct p as [c'|c'|c' us|]; cbn [add_step progress]; [intros [-> E] [= <- <-]|intros (-> & E & G)|
    intros (-> & E & G) [= <- <-]|discriminate].
  - cbn. rewrite lookup_insert_eq. split; [done|]. split; [done|]. intros id Hid. by rewrite lookup_insert_ne.
  - unfold LoadOrStore. destruct (userClientMap m !! uid c) as [us|] eqn:Eu; intros [= <- <-]; cbn.
    + by rewrite <- E.
    + rewrite lookup_insert_eq, <- E. cbn. split; [done|]. split; [|done]. intros u Hu. by rewrite lookup_insert_ne.
  - cbn. rewrite lookup_insert_eq, E. split; [done|]. split; [|done]. intros u Hu. by rewrite lookup_insert_ne.
Qed.

(** A goroutine is not disturbed by one that adds another user's client. *)
Lemma progress_frame m0 c p m m' : progress m0 c p m ->
  userClientMap m' !! uid c = userClientMap m !! uid c -> clientMap m' !! GetID c = clientMap m !! GetID c ->
  progress m0 c p m'.
Proof. destruct p; cbn [progress]; intros H E1 E2; rewrite ?E1, ?E2; exact H. Qed.

Lemma Inv_step m0 cs st st' : NoDup (uid <$> cs) -> NoDup (GetID <$> cs) ->
  Inv m0 cs st -> step st st' -> Inv m0 cs st'.
Proof.
  intros Hu Hi [Hp Hc] Hs. destruct Hs as [m ps i p p' m' Hpi Hst]. cbn [fst snd] in *.
  destruct (Forall2_lookup_r _ _ _ _ _ Hp Hpi) as (c & Hci & Hprog).
  destruct (progress_step m0 c p m p' m' Hprog Hst) as (Hprog' & Hus & Hcl). split; cbn [fst snd].
  - apply Forall2_same_length_lookup_2; [rewrite length_insert; by eapply Forall2_length|].
    intros j d q Hd Hq. destruct (decide (i = j)) as [<-|Hij].
    + rewrite list_lookup_insert_eq in Hq by (by eapply lookup_lt_Some). injection Hq as <-.
      rewrite Hci in Hd. injection Hd as <-. exact Hprog'.
    + rewrite list_lookup_insert_ne in Hq by done.
      apply (progress_frame m0 d q m); [exact (Forall2_lookup_lr _ _ _ _ _ _ Hp Hd Hq)|apply Hus|apply Hcl]; intros E; apply Hij.
      * eapply (NoDup_lookup _ i j (uid c) Hu); rewrite list_lookup_fmap; [rewrite Hci|rewrite Hd, <- E]; done.
      * eapply (NoDup_lookup _ i j (GetID c) Hi); rewrite list_lookup_fmap; [rewrite Hci|rewrite Hd, <- E]; done.
  - intros id Hid. rewrite Hcl; [by apply Hc|]. intros ->. apply Hid, list_elem_of_fmap_2.
    by eapply list_elem_of_lookup_2.
Qed.

(** concurrent [Add]s of new connections of different users come out as
    if each had run alone: whatever the interleaving, once all have returned
    each user has exactly one client more, the last of them. *)
Theorem concurrent_adds_of_different_users m r cs m' :
  represents m r -> NoDup (uid <$> cs) -> NoDup (GetID <$> cs) ->
  (forall c x, c ∈ cs -> x ∈ online r -> GetID x <> GetID c) ->
  rtc step (m, AtStore <$> cs) (m', replicate (length cs) Returned) ->
  forall c, c ∈ cs -> GetClientsWithUID (uid c) m' = reg_of (uid c) r ++ [c].
Proof.
  intros R Hu Hi Hf Hsteps c Hc.
  assert (Inv m cs (m', replicate (length cs) Returned)) as [Hp Hcl].
  { eapply (rtc_ind_l (fun st => Inv m cs st -> Inv m cs (m', replicate (length cs) Returned)));
      [done|intros x y Hs _ IH Hx; eapply IH, Inv_step; eauto|exact Hsteps|].
    split; cbn [fst snd]; [|done]. apply Forall2_fmap_r, Forall_Forall2_diag, Forall_forall. cbn [progress]. done. }
  cbn [fst snd] in *. apply list_elem_of_lookup in Hc as [i Hci].
  destruct (Forall2_lookup_l _ _ _ _ _ Hp Hci) as (p & Hpi & Hprog).
  apply lookup_replicate in Hpi as [-> _]. destruct Hprog as [Hus Hg].
  rewrite GetClientsWithUID_default, Hus. cbn [from_option Datatypes.id]. rewrite (users_represents m r _ R), omap_app.
  cbn [omap list_omap]. rewrite Hg. f_equal. apply clients_of_ids. intros x Hx.
  rewrite Hcl; [by apply (reg_of_get m r (uid c))|]. intros (d & E & Hd)%list_elem_of_fmap.
  apply list_elem_of_filter in Hx as [_ Hx]. by apply (Hf d x).
Qed.

(** Two concurrent [Add]s of new connections of a user who has one
    already can lose a client: both load the list, and the second store
    overwrites the first. The client lost has a working connection, but
    nothing sent to the user reaches it. *)
Theorem concurrent_adds_lose_a_client m r c1 c2 : represents m r -> uid c1 ∈ seen r -> uid c2 = uid c1 ->
  GetID c1 <> GetID c2 -> (forall x, x ∈ online r -> GetID x <> GetID c1 /\ GetID x <> GetID c2) ->
  exists m', rtc step (m, [AtStore c1; AtStore c2]) (m', [Returned; Returned]) /\
    Get (GetID c1) m' = Some c1 /\ Get (GetID c2) m' = Some c2 /\
    GetClientsWithUID (uid c1) m' = reg_of (uid c1) r ++ [c2].
Proof.
  intros R Hs Hu Hid Hf. set (us := GetID <$> reg_of (uid c1) r).
  assert (userClientMap m !! uid c1 = Some us) as E by (rewrite (rep_users _ _ R), decide_True; done).
  set (m2 := store_client c2 (store_client c1 m)).
  assert (E2 : userClientMap m2 !! uid c1 = Some us) by exact E.
  exists (append_user c2 us (append_user c1 us m2)). split; [|split; [|split]].
  - apply (rtc_l _ _ (store_client c1 m, [AtLoad c1; AtStore c2])).
    { by apply (step_goroutine m [AtStore c1; AtStore c2] 0 (AtStore c1)). }
    apply (rtc_l _ _ (m2, [AtLoad c1; AtLoad c2])).
    { by apply (step_goroutine (store_client c1 m) [AtLoad c1; AtStore c2] 1 (AtStore c2)). }
    apply (rtc_l _ _ (m2, [AtAppend c1 us; AtLoad c2])).
    { apply (step_goroutine m2 [AtLoad c1; AtLoad c2] 0 (AtLoad c1) (AtAppend c1 us)); [done|].
      cbn [add_step]. unfold LoadOrStore. by rewrite E2. }
    apply (rtc_l _ _ (m2, [AtAppend c1 us; AtAppend c2 us])).
    { apply (step_goroutine m2 [AtAppend c1 us; AtLoad c2] 1 (AtLoad c2) (AtAppend c2 us)); [done|].
      cbn [add_step]. unfold LoadOrStore. by rewrite Hu, E2. }
    apply (rtc_l _ _ (append_user c1 us m2, [Returned; AtAppend c2 us])).
    { by apply (step_goroutine m2 [AtAppend c1 us; AtAppend c2 us] 0 (AtAppend c1 us)). }
    apply rtc_once. by apply (step_goroutine (append_user c1 us m2) [Returned; AtAppend c2 us] 1 (AtAppend c2 us)).
  - unfold Get. cbn [append_user store_users clientMap m2 store_client]. by rewrite lookup_insert_ne, lookup_insert_eq by done.
  - apply lookup_insert_eq.
  - rewrite GetClientsWithUID_default. cbn. rewrite Hu, lookup_insert_eq. cbn [from_option Datatypes.id].
    rewrite omap_app. cbn [omap list_omap]. rewrite lookup_insert_eq. f_equal. apply clients_of_ids. intros x Hx.
    pose proof (reg_of_get m r _ x R Hx). apply list_elem_of_filter in Hx as [_ Hx]. destruct (Hf x Hx).
    by rewrite !lookup_insert_ne by done.
Qed.

(** * Witnesses *)
Definition alice1 : Client := mkClient 1 "alice" APP DeviceLevelMaster "" "".
Definition alice2 : Client := mkClient 2 "alice" WEB DeviceLevelSlave "" "".
Definition alice3 : Client := mkClient 3 "alice" SYSTEM DeviceLevelSlave "" "".
Definition bob4 : Client := mkClient 4 "bob" APP DeviceLevelMaster "" "".
Definition with_alice1 : ClientManager := Add alice1 NewClientManager.
Definition reg_alice1 : registry := reg_add alice1 (mkRegistry [] ∅).

Lemma with_alice1_represents : represents with_alice1 reg_alice1.
Proof. apply represents_Add; [apply represents_new|]. intros x Hx. inversion Hx. Qed.

Lemma alice1_only x : x ∈ online reg_alice1 -> x = alice1.
Proof. apply list_elem_of_singleton. Qed.

Ltac decided := apply (bool_decide_eq_true_1 _); vm_compute; reflexivity.

Lemma manager_refines_witness :
  let ops := [OpAdd alice1; OpAdd alice2; OpAdd bob4; OpRemove 4; OpRemove 1] in
  let m := foldl run_op NewClientManager ops in
  let r := foldl reg_op (mkRegistry [] ∅) ops in
  (forall id c, Get id m = Some c <-> c ∈ online r /\ GetID c = id) /\
  (forall u, GetClientsWithUID u m = reg_of u r) /\
  (forall u flag, GetClientWith u flag m = List.find (fun c => deviceFlag c =? flag) (reg_of u r)) /\
  (forall us, GetOnlineUIDs us m = filter (fun u => u ∈ seen r) us).
Proof.
  apply (manager_refines [OpAdd alice1; OpAdd alice2; OpAdd bob4; OpRemove 4; OpRemove 1]).
  repeat split; decided.
Defined.

Lemma concurrent_adds_of_different_users_witness :
  forall m', rtc step (with_alice1, AtStore <$> [alice2; bob4]) (m', replicate (length [alice2; bob4]) Returned) ->
    forall c, c ∈ [alice2; bob4] -> GetClientsWithUID (uid c) m' = reg_of (uid c) reg_alice1 ++ [c].
Proof.
  intros m'. apply (concurrent_adds_of_different_users with_alice1 reg_alice1 [alice2; bob4] m').
  - exact with_alice1_represents.
  - decided.
  - decided.
  - intros c x Hc ->%alice1_only. repeat (apply elem_of_cons in Hc as [->|Hc]; [discriminate|]). inversion Hc.
Defined.

Lemma concurrent_adds_lose_a_client_witness :
  exists m', rtc step (with_alice1, [AtStore alice2; AtStore alice3]) (m', [Returned; Returned]) /\
    Get 2 m' = Some alice2 /\ Get 3 m' = Some alice3 /\
    GetClientsWithUID "alice" m' = reg_of "alice" reg_alice1 ++ [alice3].
Proof.
  apply (concurrent_adds_lose_a_client with_alice1 reg_alice1 alice2 alice3).
  - exact with_alice1_represents.
  - decided.
  - reflexivity.
  - discriminate.
  - intros x ->%alice1_only. split; discriminate.
Defined.

End ClientManager.
