(* ===== verification/Storage.v ===== *)
(** The interface [Storage] (internal/lim/storage.go) between the server and
    its data base, with what a client of it may rely on for the lists of a
    channel, and [ChannelInfo] (internal/lim/channel.go). *)
From stdpp Require Import base list gmap strings.
From Stdlib Require Import ZArith Lia.
From S2P Require Import Prelude Effects Frames PQueue Model.

Record ChannelInfo := mkChannelInfo {
  ChannelID : string;
  ChannelType : Z;
  Mute : bool;
  Parent : string
}.
Definition NewChannelInfo (channelID : string) (channelType : Z) : ChannelInfo :=
  mkChannelInfo channelID channelType false EmptyString.

(** A channel is a pair of an id and a type. *)
Abbreviation chan := (string * Z)%type.

(** The operations of the interface the server uses; the three lists of a
    channel have the same operations. *)
Inductive listKind := Subscribers | Denylist | Allowlist.
#[export] Instance listKind_eq_decision : EqDecision listKind.
Proof. solve_decision. Defined.

Class Storage (S : Type) := {
  GetUserToken : string -> DeviceFlag -> io S (string * DeviceLevel);
  UpdateUserToken : string -> DeviceFlag -> DeviceLevel -> string -> io S unit;
  GetChannel : chan -> io S (option ChannelInfo);
  ExistChannel : chan -> io S bool;
  AddOrUpdateChannel : ChannelInfo -> io S unit;
  DeleteChannel : chan -> io S unit;
  DeleteChannelAndClearMessages : chan -> io S unit;
  GetList : listKind -> chan -> io S (list string);
  AddList : listKind -> chan -> list string -> io S unit;
  RemoveList : listKind -> chan -> list string -> io S unit;
  RemoveAllList : listKind -> chan -> io S unit;
  GetNextMessageSeq : chan -> io S Z;
  GetUserNextMessageSeq : string -> io S Z;
  AppendMessage : Db.Message -> io S unit;
  AppendMessageOfUser : Db.Message -> io S unit;
  AppendMessageOfNotifyQueue : Db.Message -> io S unit;
  UpdateMessageOfUserCursorIfNeed : string -> Z -> io S unit;
  GetConversations : string -> io S (list Db.Conversation);
  AddOrUpdateConversations : string -> list Db.Conversation -> io S unit
}.

(** * The interface's contract

    What the storage holds, seen from outside: the lists and the information
    of every channel, the messages kept of it, and the last number given
    out. Each operation succeeds, does what its name says to its own part,
    and leaves the others alone; a message is appended when its number is
    above those of the channel. *)
Class StorageLaws (S : Type) `{Storage S} := {
  lists : S -> listKind -> chan -> list string;
  info_at : S -> chan -> option ChannelInfo;
  log : S -> chan -> list Db.Message;
  lastSeq : S -> chan -> Z;
  token_at : S -> string -> DeviceFlag -> string * DeviceLevel;
  (* reading *)
  GetList_law k c s : GetList k c s = (Ret (lists s k c), s);
  GetChannel_law c s : GetChannel c s = (Ret (info_at s c), s);
  info_at_id c s x : info_at s c = Some x -> (ChannelID x, ChannelType x) = c;
  ExistChannel_law c s : ExistChannel c s = (Ret (bool_decide (is_Some (info_at s c))), s);
  GetUserToken_law u f s : GetUserToken u f s = (Ret (token_at s u f), s);
  UpdateUserToken_law u f level token s : exists s', UpdateUserToken u f level token s = (Ret tt, s') /\
    (forall u' f', token_at s' u' f' = if decide ((u', f') = (u, f)) then (token, level) else token_at s u' f') /\
    (forall c', (forall k, lists s' k c' = lists s k c') /\ info_at s' c' = info_at s c' /\
       log s' c' = log s c' /\ lastSeq s' c' = lastSeq s c');
  AddList_token k c us s : token_at (snd (AddList k c us s)) = token_at s;
  AddOrUpdateChannel_token i s : token_at (snd (AddOrUpdateChannel i s)) = token_at s;
  (* the lists of a channel *)
  AddList_law k c us s : exists s', AddList k c us s = (Ret tt, s') /\
    (forall k' c', lists s' k' c' = if decide ((k', c') = (k, c)) then lists s k c ++ us else lists s k' c') /\
    (forall c', info_at s' c' = info_at s c' /\ log s' c' = log s c' /\ lastSeq s' c' = lastSeq s c');
  RemoveList_law k c us s : exists s', RemoveList k c us s = (Ret tt, s') /\
    (forall k' c', lists s' k' c' =
       if decide ((k', c') = (k, c)) then filter (fun u => u ∉ us) (lists s k c) else lists s k' c') /\
    (forall c', info_at s' c' = info_at s c' /\ log s' c' = log s c' /\ lastSeq s' c' = lastSeq s c');
  RemoveAllList_law k c s : exists s', RemoveAllList k c s = (Ret tt, s') /\
    (forall k' c', lists s' k' c' = if decide ((k', c') = (k, c)) then [] else lists s k' c') /\
    (forall c', info_at s' c' = info_at s c' /\ log s' c' = log s c' /\ lastSeq s' c' = lastSeq s c');
  (* its information *)
  AddOrUpdateChannel_law i s : exists s', AddOrUpdateChannel i s = (Ret tt, s') /\
    (forall c', info_at s' c' = if decide (c' = (ChannelID i, ChannelType i)) then Some i else info_at s c') /\
    (forall c', (forall k, lists s' k c' = lists s k c') /\ log s' c' = log s c' /\ lastSeq s' c' = lastSeq s c');
  DeleteChannelAndClearMessages_law c s : exists s', DeleteChannelAndClearMessages c s = (Ret tt, s') /\
    (forall c' k, lists s' k c' = lists s k c') /\
    (forall c', info_at s' c' = if decide (c' = c) then None else info_at s c');
  DeleteChannel_law c s : exists s', DeleteChannel c s = (Ret tt, s') /\
    (forall c' k, lists s' k c' = lists s k c') /\
    (forall c', info_at s' c' = if decide (c' = c) then None else info_at s c');
  (* messages *)
  GetNextMessageSeq_law c s : exists s', GetNextMessageSeq c s = (Ret (u32 (lastSeq s c + 1)), s') /\
    (forall c', lastSeq s' c' = if decide (c' = c) then u32 (lastSeq s c + 1) else lastSeq s c') /\
    (forall c', (forall k, lists s' k c' = lists s k c') /\ info_at s' c' = info_at s c' /\ log s' c' = log s c');
  AppendMessage_law m s :
    Forall (fun x => Db.MessageSeq x < Db.MessageSeq m) (log s (Db.ChannelID m, Db.ChannelType m)) ->
    exists s', AppendMessage m s = (Ret tt, s') /\
    (forall c', log s' c' = if decide (c' = (Db.ChannelID m, Db.ChannelType m)) then log s c' ++ [m] else log s c') /\
    (forall c', (forall k, lists s' k c' = lists s k c') /\ info_at s' c' = info_at s c' /\
       lastSeq s' c' = lastSeq s c');
  AppendMessageOfNotifyQueue_law m s : exists s', AppendMessageOfNotifyQueue m s = (Ret tt, s') /\
    (forall c', (forall k, lists s' k c' = lists s k c') /\ info_at s' c' = info_at s c' /\
       log s' c' = log s c' /\ lastSeq s' c' = lastSeq s c');
  GetUserNextMessageSeq_law u s : exists n s', GetUserNextMessageSeq u s = (Ret n, s') /\
    (forall c', (forall k, lists s' k c' = lists s k c') /\ info_at s' c' = info_at s c' /\
       log s' c' = log s c' /\ lastSeq s' c' = lastSeq s c');
  AppendMessageOfUser_law m s : exists s', AppendMessageOfUser m s = (Ret tt, s') /\
    (forall c', (forall k, lists s' k c' = lists s k c') /\ info_at s' c' = info_at s c' /\
       log s' c' = log s c' /\ lastSeq s' c' = lastSeq s c')
}.

(** * A storage in memory

    What the interface promises, as plain maps. *)
Module Memory.
Record store := mkStore {
  tokens : gmap (string * Z) (string * Z);
  channels : gmap chan ChannelInfo;
  members : gmap (nat * chan) (list string);
  seqs : gmap chan Z;
  userSeqs : gmap string Z;
  messages : gmap chan (list Db.Message);
  userMessages : gmap string (list Db.Message);
  notifyQueue : list Db.Message;
  cursors : gmap string Z;
  conversations : gmap string (list Db.Conversation)
}.
Definition empty_store : store := mkStore ∅ ∅ ∅ ∅ ∅ ∅ ∅ [] ∅ ∅.

Definition kind_num (k : listKind) : nat := match k with Subscribers => 0 | Denylist => 1 | Allowlist => 2 end.
Definition list_at (s : store) (k : listKind) (c : chan) : list string := default [] (members s !! (kind_num k, c)).
Definition set_list (k : listKind) (c : chan) (l : list string) (s : store) : store :=
  mkStore (tokens s) (channels s) (<[(kind_num k, c) := l]> (members s)) (seqs s) (userSeqs s) (messages s)
    (userMessages s) (notifyQueue s) (cursors s) (conversations s).
Definition set_memory_channels (m : gmap chan ChannelInfo) (s : store) : store :=
  mkStore (tokens s) m (members s) (seqs s) (userSeqs s) (messages s)
    (userMessages s) (notifyQueue s) (cursors s) (conversations s).

#[export] Instance Memory_Storage : Storage store := {|
  GetUserToken u d := gets (fun s => default (EmptyString, 0) (tokens s !! (u, d)));
  UpdateUserToken u d level token := modify (fun s =>
    mkStore (<[(u, d) := (token, level)]> (tokens s)) (channels s) (members s) (seqs s) (userSeqs s) (messages s)
      (userMessages s) (notifyQueue s) (cursors s) (conversations s));
  GetChannel c := gets (fun s => (fun x => mkChannelInfo (fst c) (snd c) (Mute x) (Parent x)) <$> channels s !! c);
  ExistChannel c := gets (fun s => bool_decide (is_Some (channels s !! c)));
  AddOrUpdateChannel i := modify (fun s => set_memory_channels (<[(ChannelID i, ChannelType i) := i]> (channels s)) s);
  DeleteChannel c := modify (fun s => set_memory_channels (delete c (channels s)) s);
  DeleteChannelAndClearMessages c := modify (fun s =>
    mkStore (tokens s) (delete c (channels s)) (members s) (seqs s) (userSeqs s) (delete c (messages s))
      (userMessages s) (notifyQueue s) (cursors s) (conversations s));
  GetList k c := gets (fun s => list_at s k c);
  AddList k c us := modify (fun s => set_list k c (list_at s k c ++ us) s);
  RemoveList k c us := modify (fun s => set_list k c (filter (fun u => u ∉ us) (list_at s k c)) s);
  RemoveAllList k c := modify (set_list k c []);
  GetNextMessageSeq c := fun s =>
    let n := u32 (default 0 (seqs s !! c) + 1) in
    (Ret n, mkStore (tokens s) (channels s) (members s) (<[c := n]> (seqs s)) (userSeqs s) (messages s)
      (userMessages s) (notifyQueue s) (cursors s) (conversations s));
  GetUserNextMessageSeq u := fun s =>
    let n := u32 (default 0 (userSeqs s !! u) + 1) in
    (Ret n, mkStore (tokens s) (channels s) (members s) (seqs s) (<[u := n]> (userSeqs s)) (messages s)
      (userMessages s) (notifyQueue s) (cursors s) (conversations s));
  AppendMessage m := modify (fun s =>
    let c := (Db.ChannelID m, Db.ChannelType m) in
    mkStore (tokens s) (channels s) (members s) (seqs s) (userSeqs s)
      (<[c := default [] (messages s !! c) ++ [m]]> (messages s))
      (userMessages s) (notifyQueue s) (cursors s) (conversations s));
  AppendMessageOfUser m := modify (fun s =>
    mkStore (tokens s) (channels s) (members s) (seqs s) (userSeqs s) (messages s)
      (<[Db.QueueUID m := default [] (userMessages s !! Db.QueueUID m) ++ [m]]> (userMessages s))
      (notifyQueue s) (cursors s) (conversations s));
  AppendMessageOfNotifyQueue m := modify (fun s =>
    mkStore (tokens s) (channels s) (members s) (seqs s) (userSeqs s) (messages s)
      (userMessages s) (notifyQueue s ++ [m]) (cursors s) (conversations s));
  UpdateMessageOfUserCursorIfNeed u n := modify (fun s =>
    mkStore (tokens s) (channels s) (members s) (seqs s) (userSeqs s) (messages s)
      (userMessages s) (notifyQueue s) (<[u := n]> (cursors s)) (conversations s));
  GetConversations u := gets (fun s => default [] (conversations s !! u));
  AddOrUpdateConversations u l := modify (fun s =>
    mkStore (tokens s) (channels s) (members s) (seqs s) (userSeqs s) (messages s)
      (userMessages s) (notifyQueue s) (cursors s) (<[u := l]> (conversations s)))
|}.

Lemma list_at_set k c l s k' c' : list_at (set_list k c l s) k' c' =
  if decide ((k', c') = (k, c)) then l else list_at s k' c'.
Proof.
  unfold list_at. cbn [set_list members]. case_decide as E.
  - injection E as -> ->. by rewrite lookup_insert_eq.
  - rewrite lookup_insert_ne; [done|]. intros [= E1 ->]. apply E. f_equal. destruct k, k'; done.
Qed.

Definition info_of (s : store) (c : chan) : option ChannelInfo :=
  (fun x => mkChannelInfo (fst c) (snd c) (Mute x) (Parent x)) <$> channels s !! c.

Lemma info_of_delete c c' s : info_of (set_memory_channels (delete c (channels s)) s) c' =
  if decide (c' = c) then None else info_of s c'.
Proof.
  unfold info_of. cbn [set_memory_channels channels]. case_decide as E.
  - by rewrite E, lookup_delete_eq.
  - by rewrite lookup_delete_ne.
Qed.

#[export] Instance Memory_Laws : StorageLaws store.
Proof.
  refine {|
    lists := list_at;
    info_at := info_of;
    log s c := default [] (messages s !! c);
    lastSeq s c := default 0 (seqs s !! c);
    token_at s u f := default (EmptyString, 0) (tokens s !! (u, f))
  |}.
  - reflexivity.
  - reflexivity.
  - intros [i t] s x. unfold info_of. destruct (channels s !! (i, t)); intros [= <-]. done.
  - intros c s. cbn. unfold gets, info_of. do 2 f_equal. apply bool_decide_ext. by rewrite fmap_is_Some.
  - reflexivity.
  - intros u f level token s. eexists. split; [reflexivity|]. split; [|done]. intros u' f'. cbn [tokens].
    case_decide as E; [by rewrite E, lookup_insert_eq|by rewrite lookup_insert_ne].
  - reflexivity.
  - reflexivity.
  - intros k c us s. eexists. split; [reflexivity|]. split; [intros k' c'; apply list_at_set|done].
  - intros k c us s. eexists. split; [reflexivity|]. split; [intros k' c'; apply list_at_set|done].
  - intros k c s. eexists. split; [reflexivity|]. split; [intros k' c'; apply list_at_set|done].
  - intros i s. eexists. split; [reflexivity|]. split; [|done]. intros c'. unfold info_of.
    cbn [set_memory_channels channels]. case_decide as E.
    + subst c'. rewrite lookup_insert_eq. by destruct i.
    + by rewrite lookup_insert_ne.
  - intros c s. eexists. split; [reflexivity|]. split; [done|]. intros c'. unfold info_of. cbn [channels].
    apply (info_of_delete c c' s).
  - intros c s. eexists. split; [reflexivity|]. split; [done|]. intros c'. apply info_of_delete.
  - intros c s. eexists. split; [reflexivity|]. split; [|done]. intros c'. cbn [seqs]. case_decide as E.
    + subst. by rewrite lookup_insert_eq.
    + by rewrite lookup_insert_ne.
  - intros m s _. eexists. split; [reflexivity|]. split; [|done]. intros c'. cbn [messages]. case_decide as E.
    + subst. by rewrite lookup_insert_eq.
    + by rewrite lookup_insert_ne.
  - intros m s. eexists. split; [reflexivity|done].
  - intros u s. eexists _, _. split; [reflexivity|done].
  - intros m s. eexists. split; [reflexivity|done].
Defined.
End Memory.
#[export] Existing Instance Memory.Memory_Storage.
#[export] Existing Instance Memory.Memory_Laws.
