(* ===== verification/Messages.v ===== *)
(** The messages of the data base: the slots and topics they are kept in
    (internal/db/pool.go, internal/db/slot.go), the operations of [FileDB] on
    them (internal/db/db_file_public.go, internal/db/db_file.go) and
    [GetMessagesWithOptions] (internal/lim/storage_file.go). *)
From Stdlib Require Import ZArith Lia Strings.Byte Strings.Ascii Strings.String.
From stdpp Require Import base list gmap strings.
From S2P Require Import Prelude Effects Keys Strconv Wire Index Segment Model PQueue Ids Storage Topic.
Import Segment Topic.

(** * Caches that evict

    [lru.NewWithEvict] of github.com/hashicorp/golang-lru, by what its users
    rely on: the keys it holds; an [Add] to a full cache drops a key and
    calls back with it. *)
Class Cache (K C : Type) := {
  c_New : positive -> C;
  c_Get : K -> C -> bool * C;
  c_Add : K -> C -> option K * C;      (* the key dropped, if any *)
  c_Remove : K -> C -> C;
  c_Keys : C -> list K
}.
Class CacheLaws (K C : Type) `{Cache K C} := {
  New_law n : c_Keys (c_New n) = [];
  Get_law k c : ((c_Get k c).1 = true <-> k ∈ c_Keys c) /\ forall x, x ∈ c_Keys (c_Get k c).2 <-> x ∈ c_Keys c;
  Add_law k c : k ∉ c_Keys c ->
    match c_Add k c with
    | (None, c') => forall x, x ∈ c_Keys c' <-> x = k \/ x ∈ c_Keys c
    | (Some e, c') => e ∈ c_Keys c /\ forall x, x ∈ c_Keys c' <-> x = k \/ x ∈ c_Keys c /\ x <> e
    end;
  Remove_law k c x : x ∈ c_Keys (c_Remove k c) <-> x ∈ c_Keys c /\ x <> k
}.

(** Where a topic is: its slot and its name. The directory of the topic has
    a path made of the two, so that a name with a slash in it is not one of
    those meant here. *)
Abbreviation place := (Z * string)%type.

(** [Pool], the slots ([slotMap] of [FileDB] keeps every slot that was ever
    made; here with the cache of its topics), the topics that are open, and
    the directories of those that are not. *)
Record state (CP CS : Type) := mkState {
  pool : CP;
  slots : gmap Z CS;
  topics : gmap place (Topic Db.Message);
  disks : gmap place disk
}.
Arguments mkState {CP CS}. Arguments pool {CP CS}. Arguments slots {CP CS}.
Arguments topics {CP CS}. Arguments disks {CP CS}.

(** [strings.TrimSpace(s) == ""]: white space only, in UTF-8. *)
Fixpoint blank (l : list byte) : bool :=
  match l with
  | [] => true
  | ("009" | "010" | "011" | "012" | "013" | " ")%byte :: l' => blank l'
  | xc2 :: (x85 | xa0) :: l' => blank l'
  | xe1 :: x9a :: x80 :: l' => blank l'
  | xe2 :: x80 :: (x80 | x81 | x82 | x83 | x84 | x85 | x86 | x87 | x88 | x89 | x8a | xa8 | xa9 | xaf) :: l' => blank l'
  | xe2 :: x81 :: x9f :: l' => blank l'
  | xe3 :: x80 :: x80 :: l' => blank l'
  | _ => false
  end.

Definition topicName (c : chan) : string := Sprintf_d_s c.2 c.1.
Definition ErrQueueUID : error := ErrMsg "QueueUID不能为空！".

(** [make([]*Message, 0, limit)] panics when the capacity is out of range,
    which with pointers of eight bytes and addresses of 48 bits is beyond
    [2^45]. *)
Definition make_messages (limit : Z) : outcome (list Db.Message) := if limit >? 2 ^ 45 then Panic else Ret [].

(** The callbacks of the reads. *)
Definition collect (data : list byte) (messages : list Db.Message) : outcome (list Db.Message) :=
  m ← Db.Decode 0 data; Ret (messages ++ [m]).
Definition collect_after (endOffset : Z) (data : list byte) (messages : list Db.Message) : outcome (list Db.Message) :=
  m ← Db.Decode 0 data;
  if negb (endOffset =? 0) && (Db.MessageSeq m <=? endOffset) then Ret messages else Ret (messages ++ [m]).
Definition no_message : Db.Message := Db.mkMessage 0 0 0 0 0 0 EmptyString 0 EmptyString EmptyString EmptyString 0 [].

Section Operations.
Context {CP CS : Type} `{Cache Z CP} `{Cache string CS}.
Context (slotCount segmentMaxBytes : Z) (removed : string -> bool).
Implicit Type st : state CP CS.

Definition set_pool (p : CP) st : state CP CS := mkState p (slots st) (topics st) (disks st).
Definition set_slots (m : gmap Z CS) st : state CP CS := mkState (pool st) m (topics st) (disks st).
Definition set_topics (m : gmap place (Topic Db.Message)) st : state CP CS := mkState (pool st) (slots st) m (disks st).
Definition disk_of st (k : place) : disk := default empty_disk (disks st !! k).

(** [Topic.Close], which a cache calls with a topic it drops. *)
Definition close_topic (k : place) st : state CP CS :=
  match topics st !! k with
  | Some t => mkState (pool st) (slots st) (delete k (topics st)) (<[k := Close t]> (disks st))
  | None => st
  end.
Definition set_cache (slot : Z) (c : CS) st : state CP CS := set_slots (<[slot := c]> (slots st)) st.

(** [Slot.Close]: every topic is removed from the cache, and closed. *)
Definition close_name (slot : Z) st (name : string) : state CP CS :=
  match slots st !! slot with
  | Some c => close_topic (slot, name) (set_cache slot (c_Remove name c) st)
  | None => st
  end.
Definition close_slot (slot : Z) st : state CP CS :=
  match slots st !! slot with
  | Some c => foldl (close_name slot) st (c_Keys c)
  | None => st
  end.

(** [NewSlot] in [Pool.GetSlot], when the pool does not have the slot. *)
Definition GetSlot (slot : Z) st : state CP CS :=
  let '(ok, p) := c_Get slot (pool st) in
  if ok then set_pool p st
  else
    let st1 := set_cache slot (c_New 1000) st in
    let '(dropped, p') := c_Add slot p in
    let st2 := set_pool p' st1 in
    match dropped with Some e => close_slot e st2 | None => st2 end.
Definition getOrNewSlot (slot : Z) : io (state CP CS) unit := fun st =>
  (Ret tt, match slots st !! slot with Some _ => st | None => GetSlot slot st end).

(** [Slot.GetTopic]: afterwards the topic is open. *)
Definition GetTopic (slot : Z) (name : string) : io (state CP CS) unit := fun st =>
  match slots st !! slot with
  | None => (Panic, st)
  | Some c =>
      let '(ok, c1) := c_Get name c in
      if ok then (Ret tt, set_cache slot c1 st)
      else
        match NewTopic removed segmentMaxBytes (disk_of st (slot, name)) with
        | Ret t =>
            let '(dropped, c2) := c_Add name c1 in
            let st1 := set_topics (<[(slot, name) := t]> (topics st)) (set_cache slot c2 st) in
            (Ret tt, match dropped with Some e => close_topic (slot, e) st1 | None => st1 end)
        | _ => (Panic, st)
        end
  end.

Definition in_topic {A} (k : place) (f : io (Topic Db.Message) A) : io (state CP CS) A := fun st =>
  match topics st !! k with
  | Some t => let '(o, t') := f t in (o, set_topics (<[k := t']> (topics st)) st)
  | None => (Panic, st)
  end.
(** A method of the topic [f.getOrNewSlot(slot).GetTopic(name)]. *)
Definition on_topic {A} (slot : Z) (name : string) (f : io (Topic Db.Message) A) : io (state CP CS) A :=
  getOrNewSlot slot ;;
  GetTopic slot name ;;
  in_topic (slot, name) f.
Definition slot_number (key : string) : outcome Z := GetSlotNum slotCount key.

(** ** Operations of [FileDB] *)
Definition GetNextMessageSeq (c : chan) : io (state CP CS) Z :=
  slot ← lift (slot_number c.1);
  on_topic slot (topicName c) (fun t => let '(n, t') := NextOffset t in (Ret n, t')).
Definition GetUserNextMessageSeq (uid : string) : io (state CP CS) Z :=
  slot ← lift (slot_number uid);
  on_topic slot uid (fun t => let '(n, t') := NextOffset t in (Ret n, t')).
Definition appendMessage (slot : Z) (topic : string) (m : Db.Message) : io (state CP CS) Z :=
  on_topic slot topic (AppendLog m).
Definition AppendMessage (m : Db.Message) : io (state CP CS) Z :=
  slot ← lift (slot_number (Db.ChannelID m));
  appendMessage slot (topicName (Db.ChannelID m, Db.ChannelType m)) m.
Definition AppendMessageOfUser (m : Db.Message) : io (state CP CS) Z :=
  if blank (bytes_of_string (Db.QueueUID m)) then raise ErrQueueUID
  else
    slot ← lift (slot_number (Db.QueueUID m));
    appendMessage slot (Db.QueueUID m) m.

Definition GetMessages (c : chan) (offset limit : Z) : io (state CP CS) (list Db.Message) :=
  messages ← lift (make_messages limit);
  slot ← lift (slot_number c.1);
  on_topic slot (topicName c) (ReadLogs offset limit collect messages).
Definition GetLastMessages (c : chan) (endOffset limit : Z) : io (state CP CS) (list Db.Message) :=
  messages ← lift (make_messages limit);
  slot ← lift (slot_number c.1);
  on_topic slot (topicName c) (ReadLastLogs limit (collect_after endOffset) messages).
(** The message an error comes with is left out. *)
Definition GetMessage (c : chan) (messageSeq : Z) : io (state CP CS) Db.Message :=
  slot ← lift (slot_number c.1);
  on_topic slot (topicName c) (ReadLogAt messageSeq no_message).
(** [DeleteMessages] opens the topic, and that is all. *)
Definition DeleteMessages (c : chan) : io (state CP CS) unit :=
  slot ← lift (slot_number c.1);
  on_topic slot (topicName c) (mret tt).

(** [Close]: the slots of the pool are closed, whose topics the caches hold. *)
Definition Close_pool st : state CP CS := foldl (fun st slot => close_slot slot (set_pool (c_Remove slot (pool st)) st)) st (c_Keys (pool st)).
(** What the directories hold when the program has ended, in whichever way,
    and the data base is opened on them again. *)
Definition left_on_disk st : gmap place disk := (t_disk <$> topics st) ∪ disks st.
Definition NewFileDB_on (d : gmap place disk) : state CP CS := mkState (c_New 100) ∅ ∅ d.
Definition restart (closed : bool) st : state CP CS :=
  NewFileDB_on (left_on_disk (if closed then Close_pool st else st)).

(** ** [FileStorage.GetMessagesWithOptions] *)
Definition GetMessagesWithOptions (c : chan) (offsetMessageSeq limit : Z) (reverse : bool) (endMessageSeq : Z) :
    io (state CP CS) (list Db.Message) :=
  if reverse then
    let offsetSeq := if offsetMessageSeq + 1 <? 0 then 0 else offsetMessageSeq + 1 in
    let actLimit :=
      if negb (endMessageSeq =? 0) && (endMessageSeq >? offsetMessageSeq)
      then Z.min (endMessageSeq - offsetMessageSeq) limit else limit in
    messages ← GetMessages c (u32 offsetSeq) actLimit;
    mret (filter (fun m => endMessageSeq = 0 \/ Db.MessageSeq m < endMessageSeq) messages)
  else
    messages ←
      (if offsetMessageSeq =? 0 then
         let offset := Z.max 0 (i64 (endMessageSeq - i64 limit)) in
         GetMessages c (u32 offset) limit
       else GetMessages c (u32 (offsetMessageSeq + 1)) limit);
    mret (if endMessageSeq =? 0 then messages
          else filter (fun m => Db.MessageSeq m < endMessageSeq) messages).
End Operations.

(** * A cache in memory: its keys from the oldest to the newest *)
Module MemCache.
Record cache (K : Type) := mkCache { capacity : positive; keys : list K }.
Arguments mkCache {K}. Arguments capacity {K}. Arguments keys {K}.
Definition others {K} `{EqDecision K} (k : K) (l : list K) : list K := filter (fun x => x <> k) l.

#[export] Instance cache_Cache {K} `{EqDecision K} : Cache K (cache K) := {|
  c_New n := mkCache n [];
  c_Get k c :=
    if decide (k ∈ keys c) then (true, mkCache (capacity c) (others k (keys c) ++ [k])) else (false, c);
  c_Add k c :=
    let l := others k (keys c) in
    match l with
    | e :: l' => if zlen l <? Zpos (capacity c) then (None, mkCache (capacity c) (l ++ [k]))
                 else (Some e, mkCache (capacity c) (others e l' ++ [k]))
    | [] => (None, mkCache (capacity c) [k])
    end;
  c_Remove k c := mkCache (capacity c) (others k (keys c));
  c_Keys := keys
|}.

Lemma elem_of_others {K} `{EqDecision K} (k x : K) l : x ∈ others k l <-> x ∈ l /\ x <> k.
Proof. unfold others. rewrite list_elem_of_filter. tauto. Qed.

#[export] Instance cache_CacheLaws {K} `{EqDecision K} : CacheLaws K (cache K).
Proof.
  split; cbn [c_New c_Get c_Add c_Remove c_Keys cache_Cache].
  - done.
  - intros k c. destruct (decide (k ∈ keys c)) as [Hk|Hk]; cbn [fst snd keys]; [|done].
    split; [done|]. intros x. rewrite elem_of_app, elem_of_others, list_elem_of_singleton.
    destruct (decide (x = k)); naive_solver.
  - intros k c Hk. destruct (others k (keys c)) as [|e l'] eqn:E.
    + intros x. cbn [keys]. rewrite list_elem_of_singleton. split; [by left|]. intros [->|Hx]; [done|].
      assert (x ∈ others k (keys c)) as Hin by (apply elem_of_others; split; [done|congruence]).
      rewrite E in Hin. inversion Hin.
    + assert (forall x, x ∈ e :: l' <-> x ∈ keys c) as Hl
        by (intros x; rewrite <- E, elem_of_others; naive_solver congruence).
      destruct (_ <? _); cbn [keys].
      * intros x. rewrite elem_of_app, list_elem_of_singleton, Hl. tauto.
      * split; [apply Hl; constructor|]. intros x.
        rewrite elem_of_app, elem_of_others, list_elem_of_singleton, <- Hl, elem_of_cons. tauto.
  - intros k c x. apply elem_of_others.
Qed.
End MemCache.
#[export] Existing Instance MemCache.cache_Cache.
#[export] Existing Instance MemCache.cache_CacheLaws.
