(* ===== verification/MessageLog.v ===== *)
(** What the data base promises for messages: under every place a list of
    messages, which appends add to and reads leave alone. The topics come and
    go with the caches, and the program may be stopped and started again,
    without a message being lost or changed. *)
From Stdlib Require Import ZArith Lia Strings.Byte Strings.Ascii Strings.String.
From stdpp Require Import base list gmap strings sorting.
From S2P Require Import Prelude Effects Keys Strconv Wire Index Segment Model PQueue Ids Storage Topic Messages.
Import Segment Topic.

(** * Logs *)

(** The messages of every place; none at first. *)
Definition logs := place -> list Db.Message.
Definition no_logs : logs := fun _ => [].
Definition add_to (k : place) (m : Db.Message) (M : logs) : logs :=
  fun k' => if decide (k' = k) then M k' ++ [m] else M k'.

(** A message as it is read back; the messages from a number on, none when
    there is no message with it, all for the number 0. *)
Definition plain (m : Db.Message) : Db.Message := Db.set_AppliIndex 0 m.
Fixpoint from_number (n : Z) (ms : list Db.Message) : list Db.Message :=
  match ms with
  | [] => []
  | m :: ms' => if Db.MessageSeq m =? n then ms else from_number n ms'
  end.
Definition from (n : Z) (ms : list Db.Message) : list Db.Message := if n =? 0 then ms else from_number n ms.

(** The size of a log on disk. *)
Definition as_record (m : Db.Message) : record := mkRecord (Db.MessageSeq m) (Db.AppliIndex m) (Db.MarshalMessage m).
Definition log_size (ms : list Db.Message) : Z := zlen (image (as_record <$> ms)).

Inductive op :=
  | OAppendMessage (m : Db.Message)
  | OAppendMessageOfUser (m : Db.Message)
  | OGetMessages (c : chan) (offset limit : Z)
  | OGetMessage (c : chan) (messageSeq : Z)
  | ODeleteMessages (c : chan)
  | ORestart (closed : bool).
Inductive answer := ADone | AMessages (ms : list Db.Message) | AMessage (m : Db.Message).

Section Promise.
Context (slotCount : Z).
Definition slot_of (key : string) : Z := HashCrc32 key mod slotCount.
Definition channel_place (c : chan) : place := (slot_of c.1, topicName c).
Definition message_place (m : Db.Message) : place := channel_place (Db.ChannelID m, Db.ChannelType m).
Definition queue_place (m : Db.Message) : place := (slot_of (Db.QueueUID m), Db.QueueUID m).

(** What an operation may answer, and makes of the logs. A log of more than
    4096 bytes has index entries: a number that has one is not found, and a
    read from it starts one message late. *)
Inductive explains (M : logs) : op -> outcome answer -> logs -> Prop :=
  | ex_append m : explains M (OAppendMessage m) (Ret ADone) (add_to (message_place m) m M)
  | ex_append_user m : explains M (OAppendMessageOfUser m) (Ret ADone) (add_to (queue_place m) m M)
  | ex_get c offset limit ms : ms = M (channel_place c) ->
      explains M (OGetMessages c offset limit) (Ret (AMessages (plain <$> take (Z.to_nat limit) (from offset ms)))) M
  | ex_get_late c offset limit ms : ms = M (channel_place c) ->
      indexIntervalBytes < log_size ms -> offset ∈ Db.MessageSeq <$> ms ->
      explains M (OGetMessages c offset limit)
        (Ret (AMessages (plain <$> take (Z.to_nat limit) (drop 1 (from offset ms))))) M
  | ex_at c messageSeq m : m ∈ M (channel_place c) -> Db.MessageSeq m = messageSeq ->
      explains M (OGetMessage c messageSeq) (Ret (AMessage (plain m))) M
  | ex_at_none c messageSeq ms : ms = M (channel_place c) ->
      messageSeq ∉ Db.MessageSeq <$> ms \/ indexIntervalBytes < log_size ms ->
      explains M (OGetMessage c messageSeq) (Err ErrorNotData) M
  | ex_delete c : explains M (ODeleteMessages c) (Ret ADone) M
  | ex_restart closed : explains M (ORestart closed) (Ret ADone) M.

(** Arguments within their types; messages come with a number above all
    others of their place, and a log stays below the size up to which the
    check at start goes through all of it. *)
Definition appendable_to (ms : list Db.Message) (m : Db.Message) : Prop :=
  Db.ok m /\ 0 < Db.MessageSeq m /\
  Forall (fun a => Db.MessageSeq a < Db.MessageSeq m) ms /\ log_size (ms ++ [m]) <= LogMaxSize + logMinLen.
Definition permitted1 (M : logs) (o : op) : Prop :=
  match o with
  | OAppendMessage m => appendable_to (M (message_place m)) m
  | OAppendMessageOfUser m => blank (bytes_of_string (Db.QueueUID m)) = false /\ appendable_to (M (queue_place m)) m
  | OGetMessages _ offset limit => 0 <= offset /\ 0 <= limit <= 2 ^ 45
  | OGetMessage _ messageSeq => 0 <= messageSeq
  | _ => True
  end.
Definition after1 (M : logs) (o : op) : logs :=
  match o with
  | OAppendMessage m => add_to (message_place m) m M
  | OAppendMessageOfUser m => add_to (queue_place m) m M
  | _ => M
  end.
Fixpoint permitted (M : logs) (os : list op) : Prop :=
  match os with [] => True | o :: os' => permitted1 M o /\ permitted (after1 M o) os' end.

(** A history of operations and answers that starts from [M]. *)
Inductive explained : logs -> list (op * outcome answer) -> Prop :=
  | explained_nil M : explained M []
  | explained_cons M o a M' h : explains M o a M' -> explained M' h -> explained M ((o, a) :: h).
End Promise.

(** * The data base *)
Section Histories.
Context {CP CS : Type} `{CacheLaws Z CP} `{CacheLaws string CS}.
Context (slotCount segmentMaxBytes : Z) (removed : string -> bool).
Implicit Types (st : state CP CS) (M : logs).

Definition impl (o : op) : io (state CP CS) answer :=
  match o with
  | OAppendMessage m => AppendMessage slotCount segmentMaxBytes removed m ;; mret ADone
  | OAppendMessageOfUser m => AppendMessageOfUser slotCount segmentMaxBytes removed m ;; mret ADone
  | OGetMessages c offset limit => AMessages <$> GetMessages slotCount segmentMaxBytes removed c offset limit
  | OGetMessage c messageSeq => AMessage <$> GetMessage slotCount segmentMaxBytes removed c messageSeq
  | ODeleteMessages c => DeleteMessages slotCount segmentMaxBytes removed c ;; mret ADone
  | ORestart closed => modify (restart closed) ;; mret ADone
  end.
Fixpoint run (os : list op) st : list (op * outcome answer) :=
  match os with [] => [] | o :: os' => let '(a, st') := impl o st in (o, a) :: run os' st' end.

(** ** The state represents logs *)
Definition marks_ok (rs : list record) (es : list Index.Entry) : Prop :=
  zlen es <= zlen rs /\ (es = [] \/ indexIntervalBytes < zlen (image rs)).
Definition holds_log st (k : place) (ms : list Db.Message) : Prop :=
  exists es, marks_ok (as_record <$> ms) es /\ modest (as_record <$> ms) /\
    match topics st !! k with
    | Some t => exists s, live t s (as_record <$> ms) es /\ Topic.segmentMaxBytes t = segmentMaxBytes
    | None => kept (disk_of st k) (as_record <$> ms) es
    end.
Definition all_hold M st : Prop := forall k, holds_log st k (M k) /\ Forall Db.ok (M k).
(** The open topics are those of the caches. *)
Definition caches_ok st : Prop := forall slot name,
  is_Some (topics st !! (slot, name)) <-> exists c, slots st !! slot = Some c /\ name ∈ c_Keys c.
(** The slots of the pool were made. *)
Definition pool_ok st : Prop := forall slot, slot ∈ c_Keys (pool st) -> is_Some (slots st !! slot).
Definition rep M st : Prop := all_hold M st /\ caches_ok st /\ pool_ok st.

(** ** Closing and opening topics *)
Lemma close_topic_hold k M st : all_hold M st -> all_hold M (close_topic k st).
Proof.
  intros Hst k'. destruct (Hst k') as [(es & Hme & Hmo & Ht) Hok]. split; [|done]. exists es. split; [done|]. split; [done|].
  unfold close_topic. destruct (topics st !! k) as [t|] eqn:E; [|done]. cbn [topics].
  destruct (decide (k' = k)) as [->|Hne].
  - rewrite lookup_delete_eq. unfold disk_of. cbn [disks]. rewrite lookup_insert_eq. cbn [default from_option].
    rewrite E in Ht. destruct Ht as (s & Hl & _). apply (live_kept true _ _ _ _ Hl Hmo).
  - rewrite lookup_delete_ne by done. unfold disk_of. cbn [disks]. by rewrite lookup_insert_ne.
Qed.

Lemma topics_close k k' st : topics (close_topic k st) !! k' = if decide (k' = k) then None else topics st !! k'.
Proof.
  unfold close_topic. destruct (topics st !! k) as [t|] eqn:E; cbn [topics]; case_decide as Hk; subst;
    rewrite ?lookup_delete_eq, ?lookup_delete_ne by done; done.
Qed.
Lemma slots_close k st : slots (close_topic k st) = slots st.
Proof. unfold close_topic. by destruct (topics st !! k). Qed.

Lemma set_cache_hold slot c M st : all_hold M st -> all_hold M (set_cache slot c st).
Proof. done. Qed.

(** Only the cache of one slot, and topics of it, have changed. *)
Lemma caches_change slot c' st st' : caches_ok st -> slots st' = <[slot := c']> (slots st) ->
  (forall k, k.1 <> slot -> topics st' !! k = topics st !! k) ->
  (forall name, is_Some (topics st' !! (slot, name)) <-> name ∈ c_Keys c') -> caches_ok st'.
Proof.
  intros Hc Es Hother Hnames slot' name. rewrite Es. destruct (decide (slot' = slot)) as [->|Hne].
  - rewrite lookup_insert_eq, Hnames. split; [eauto|]. by intros (? & [= <-] & ?).
  - rewrite lookup_insert_ne, Hother by done. apply Hc.
Qed.
Lemma names_of slot c st name : caches_ok st -> slots st !! slot = Some c ->
  is_Some (topics st !! (slot, name)) <-> name ∈ c_Keys c.
Proof. intros Hc Es. rewrite (Hc slot name), Es. split; [by intros (? & [= <-] & ?)|eauto]. Qed.

(** A slot keeps being made, and the pool as it is. *)
Definition grows st st' : Prop :=
  pool st' = pool st /\ forall slot, is_Some (slots st !! slot) -> is_Some (slots st' !! slot).
Lemma grows_refl st : grows st st.
Proof. split; auto. Qed.
Lemma grows_trans st1 st2 st3 : grows st1 st2 -> grows st2 st3 -> grows st1 st3.
Proof. intros [P1 S1] [P2 S2]. split; [congruence|auto]. Qed.
Lemma grows_pool_ok st st' : grows st st' -> pool_ok st -> pool_ok st'.
Proof. intros [P S] Hp slot. rewrite P. auto. Qed.
Lemma grows_set_cache slot c st : grows st (set_cache slot c st).
Proof.
  split; [done|]. intros slot' Hs. cbn. destruct (decide (slot' = slot)) as [->|];
    [rewrite lookup_insert_eq; eauto|by rewrite lookup_insert_ne].
Qed.
Lemma grows_close_topic k st : grows st (close_topic k st).
Proof. split; [unfold close_topic; by destruct (topics st !! k)|]. intros. by rewrite slots_close. Qed.

(** A topic that is dropped from the cache of its slot, with [c'] the cache
    that is left, and closed. *)
Lemma drop_caches slot name c c' st : caches_ok st -> slots st !! slot = Some c ->
  (forall x, x ∈ c_Keys c' <-> x ∈ c_Keys c /\ x <> name) ->
  caches_ok (close_topic (slot, name) (set_cache slot c' st)).
Proof.
  intros Hc Es Hk. apply (caches_change slot c' st); [done|by rewrite slots_close|..].
  - intros k Hne. by rewrite topics_close, decide_False by (by intros ->).
  - intros name'. rewrite topics_close, Hk. cbn. rewrite <- (names_of slot c st name' Hc Es).
    case_decide as E; [injection E as ->; split; [by intros [? [=]]|naive_solver]|naive_solver].
Qed.

Lemma close_name_rep slot M st name : rep M st -> rep M (close_name slot st name) /\ grows st (close_name slot st name).
Proof.
  intros (Hh & Hc & Hp). unfold close_name. destruct (slots st !! slot) as [c|] eqn:Es; [|by split].
  assert (grows st (close_topic (slot, name) (set_cache slot (c_Remove name c) st))) as Hg
    by (eapply grows_trans; [apply grows_set_cache|apply grows_close_topic]).
  split; [|done]. split; [apply close_topic_hold, Hh|]. split; [|by eapply grows_pool_ok].
  apply (drop_caches slot name c); [done|done|]. intros x. apply Remove_law.
Qed.

Lemma close_slot_rep slot M st : rep M st -> rep M (close_slot slot st) /\ grows st (close_slot slot st).
Proof.
  unfold close_slot. destruct (slots st !! slot) as [c|]; [|by split]. generalize (c_Keys c). intros l.
  revert st. induction l as [|name l IH]; intros st Hr; cbn [foldl]; [by split|].
  destruct (close_name_rep slot M st name Hr) as [Hr' Hg]. destruct (IH _ Hr') as [Hr'' Hg'].
  split; [done|]. by eapply grows_trans.
Qed.

Lemma getOrNewSlot_spec slot M st : rep M st ->
  exists st', getOrNewSlot slot st = (Ret tt, st') /\ rep M st' /\ is_Some (slots st' !! slot).
Proof.
  intros (Hh & Hc & Hp). unfold getOrNewSlot. eexists. split; [done|].
  destruct (slots st !! slot) as [c|] eqn:Es; [split; [done|eauto]|].
  assert (slot ∉ c_Keys (pool st)) as Hnp by (intros Hin; destruct (Hp slot Hin); congruence).
  unfold GetSlot. pose proof (Get_law slot (pool st)) as [Hget Hkeys].
  destruct (c_Get slot (pool st)) as [ok p]. cbn [fst snd] in *.
  destruct ok; [destruct Hnp; by apply Hget|].
  assert (slot ∉ c_Keys p) as Hnp' by by rewrite Hkeys.
  pose proof (Add_law slot p Hnp') as Hadd. destruct (c_Add slot p) as [dropped p'].
  set (st2 := set_pool p' (set_cache slot (c_New 1000) st)).
  assert (is_Some (slots st2 !! slot)) as Hmade by (cbn; rewrite lookup_insert_eq; eauto).
  assert (rep M st2) as Hr2.
  { split; [exact Hh|]. split.
    - apply (caches_change slot (c_New 1000) st); [done..|]. intros name. cbn. rewrite (Hc slot name), Es, New_law.
      split; [by intros (? & [=] & _)|intros Hin; inversion Hin].
    - intros slot'. cbn. intros Hin. destruct (decide (slot' = slot)) as [->|Hne]; [done|].
      rewrite lookup_insert_ne by done. apply Hp, Hkeys.
      destruct dropped as [e|]; [destruct Hadd as [_ Hadd]|]; apply Hadd in Hin; naive_solver. }
  destruct dropped as [e|]; [|done]. destruct (close_slot_rep e M st2 Hr2) as [Hr3 [_ Hg]]. auto.
Qed.

(** A topic that was opened, with [c'] the cache it went into; if that
    dropped another topic, that one was closed. *)
Lemma open_rep slot name c t (dropped : option string) c' M st : rep M st -> slots st !! slot = Some c ->
  name ∉ c_Keys c ->
  match dropped with
  | None => forall x, x ∈ c_Keys c' <-> x = name \/ x ∈ c_Keys c
  | Some e => e ∈ c_Keys c /\ forall x, x ∈ c_Keys c' <-> x = name \/ x ∈ c_Keys c /\ x <> e
  end ->
  let st1 := set_topics (<[(slot, name) := t]> (topics st)) (set_cache slot c' st) in
  holds_log st1 (slot, name) (M (slot, name)) ->
  let st2 := match dropped with Some e => close_topic (slot, e) st1 | None => st1 end in
  rep M st2 /\ is_Some (topics st2 !! (slot, name)).
Proof.
  intros (Hh & Hc & Hp) Es Hnin Hadd st1 Hlog st2.
  assert (all_hold M st1) as Hh1.
  { intros k. destruct (Hh k) as [Hk Hok]. split; [|done]. destruct (decide (k = (slot, name))) as [->|Hne]; [done|].
    unfold holds_log. cbn. by rewrite lookup_insert_ne. }
  assert (pool_ok st1) as Hp1 by (eapply (grows_pool_ok st); [apply (grows_set_cache slot c')|done]).
  assert (forall k, topics st2 !! k = if decide (Some k = (fun e => (slot, e)) <$> dropped) then None
                                       else if decide (k = (slot, name)) then Some t else topics st !! k) as Ht.
  { intros k. unfold st2. destruct dropped as [e|]; cbn [fmap option_fmap option_map]; rewrite ?topics_close; cbn;
      repeat case_decide; simplify_eq; rewrite ?lookup_insert_eq, ?lookup_insert_ne by done; done. }
  assert (Some (slot, name) <> (fun e => (slot, e)) <$> dropped) as Hnd
    by (destruct dropped; naive_solver).
  split; [|rewrite Ht, decide_False, decide_True by done; eauto].
  split; [unfold st2; destruct dropped; [by apply close_topic_hold|done]|]. split.
  - apply (caches_change slot c' st); [done|unfold st2; destruct dropped; [by rewrite slots_close|done]|..].
    + intros k Hk. rewrite Ht, !decide_False; [done|by intros ->|destruct dropped; cbn; [by intros [= ->]|done]].
    + intros name'. rewrite Ht. pose proof (names_of slot c st name' Hc Es) as Hn.
      assert (name' ∈ c_Keys c' <-> name' = name \/ name' ∈ c_Keys c /\ dropped <> Some name') as ->
        by (destruct dropped; [destruct Hadd as [_ Hadd]|]; rewrite Hadd; naive_solver).
      rewrite <- Hn. destruct (decide (name' = name)) as [->|Hne].
      { rewrite decide_False, decide_True by done. split; [by left|eauto]. }
      destruct (decide (dropped = Some name')) as [->|Hnd'].
      { rewrite decide_True by done. split; [by intros [? [=]]|]. by intros [|[_ []]]. }
      rewrite !decide_False by (congruence || (destruct dropped; cbn; congruence)). naive_solver.
  - unfold st2. destruct dropped; [|done]. eapply grows_pool_ok; [apply grows_close_topic|done].
Qed.

(** [GetTopic] opens the topic, if it is not open yet, on the files that hold
    its log. *)
Lemma GetTopic_spec slot name M st : rep M st -> is_Some (slots st !! slot) ->
  exists st', GetTopic segmentMaxBytes removed slot name st = (Ret tt, st') /\ rep M st' /\
    is_Some (topics st' !! (slot, name)).
Proof.
  intros Hr [c Es]. pose proof Hr as (Hh & Hc & Hp). unfold GetTopic. rewrite Es.
  pose proof (Get_law name c) as [Hget Hkeys]. pose proof (names_of slot c st name Hc Es) as Hopen.
  destruct (c_Get name c) as [ok c1]. cbn [fst snd] in *. destruct ok.
  - eexists. split; [done|]. split; [|apply Hopen, Hget; done]. split; [exact Hh|]. split.
    + apply (caches_change slot c1 st); [done..|]. intros name'. by rewrite Hkeys, <- (names_of slot c st).
    + eapply grows_pool_ok; [apply grows_set_cache|done].
  - assert (name ∉ c_Keys c1) as Hnin by (rewrite Hkeys; intros Hin; by apply Hget in Hin).
    assert (topics st !! (slot, name) = None) as Hclosed by (apply eq_None_not_Some; rewrite Hopen, <- Hkeys; done).
    destruct (Hh (slot, name)) as [(es & Hme & Hmo & Hkept) Hok]. rewrite Hclosed in Hkept.
    destruct (kept_opens removed segmentMaxBytes _ _ _ Hkept) as (t & s & -> & Hl & Hmax & _).
    pose proof (Add_law name c1 Hnin) as Hadd. destruct (c_Add name c1) as [dropped c2].
    eexists. split; [done|]. apply (open_rep slot name c t dropped c2 M st Hr Es).
    + by rewrite <- Hkeys.
    + destruct dropped; [destruct Hadd as [? Hadd]; split; [by apply Hkeys|]|]; intros x; by rewrite Hadd, Hkeys.
    + exists es. split; [done|]. split; [done|]. cbn. rewrite lookup_insert_eq. eauto.
Qed.

(** A method of a topic runs on a topic that has the messages of its place. *)
Lemma on_topic_spec {A} slot name (f : io (Topic Db.Message) A) M st (k := (slot, name)) : rep M st ->
  exists st1 t s es, rep M st1 /\ topics st1 !! k = Some t /\ live t s (as_record <$> M k) es /\
    Topic.segmentMaxBytes t = segmentMaxBytes /\ marks_ok (as_record <$> M k) es /\ modest (as_record <$> M k) /\
    on_topic segmentMaxBytes removed slot name f st =
      let '(o, t') := f t in (o, set_topics (<[k := t']> (topics st1)) st1).
Proof.
  intros Hr. destruct (getOrNewSlot_spec slot M st Hr) as (st0 & E0 & Hr0 & Hs0).
  destruct (GetTopic_spec slot name M st0 Hr0 Hs0) as (st1 & E1 & Hr1 & [t Ht]).
  pose proof Hr1 as (Hh & _). destruct (Hh k) as [(es & Hme & Hmo & Hlog) _]. fold k in Ht. rewrite Ht in Hlog.
  destruct Hlog as (s & Hl & Hmax). exists st1, t, s, es. repeat (split; [done|]).
  unfold on_topic. io_step E0. io_step E1. unfold in_topic. fold k. by rewrite Ht.
Qed.

Lemma set_same st k t : topics st !! k = Some t -> set_topics (<[k := t]> (topics st)) st = st.
Proof. intros Ht. unfold set_topics. rewrite insert_id by done. by destruct st. Qed.

(** A method that leaves the topic alone. *)
Lemma on_topic_reads {A} slot name (f : io (Topic Db.Message) A) (P : outcome A -> Prop) M st (k := (slot, name)) :
  rep M st ->
  (forall t s es, live t s (as_record <$> M k) es -> marks_ok (as_record <$> M k) es ->
     modest (as_record <$> M k) -> Forall Db.ok (M k) -> exists o, f t = (o, t) /\ P o) ->
  exists o st', on_topic segmentMaxBytes removed slot name f st = (o, st') /\ rep M st' /\ P o.
Proof.
  intros Hr Hf. destruct (on_topic_spec slot name f M st Hr) as (st1 & t & s & es & Hr1 & Ht & Hl & _ & Hme & Hmo & E).
  pose proof Hr1 as (Hh & _). destruct (Hf t s es Hl Hme Hmo (proj2 (Hh k))) as (o & Ho & HP).
  exists o, st1. rewrite Ho, set_same in E by done. auto.
Qed.

(** A topic that is open is used as it is. *)
Lemma on_topic_open {A} slot name (f : io (Topic Db.Message) A) M st t o : rep M st ->
  topics st !! (slot, name) = Some t -> f t = (o, t) ->
  exists st', on_topic segmentMaxBytes removed slot name f st = (o, st') /\ rep M st' /\
    topics st' = topics st.
Proof.
  intros Hr Ht Ef. pose proof Hr as (Hh & Hc & Hp).
  assert (is_Some (topics st !! (slot, name))) as (c & Es & Hin)%Hc by eauto.
  pose proof (Get_law name c) as [Hget Hkeys]. apply Hget in Hin. destruct (c_Get name c) as [ok c1] eqn:Eg. cbn [fst snd] in *. subst ok.
  assert (on_topic segmentMaxBytes removed slot name f st = (o, set_cache slot c1 st)) as E.
  { unfold on_topic, mbind, io_bind, getOrNewSlot. rewrite Es. unfold GetTopic. rewrite Es, Eg. unfold in_topic.
    cbn [set_cache set_slots topics]. rewrite Ht, Ef. f_equal. exact (set_same (set_cache slot c1 st) _ t Ht). }
  exists (set_cache slot c1 st). split; [done|]. split; [|done]. split; [exact Hh|]. split.
  - apply (caches_change slot c1 st); [done..|]. intros name'. by rewrite Hkeys, <- (names_of slot c st).
  - eapply grows_pool_ok; [apply grows_set_cache|done].
Qed.

(** A topic that is open and knows the number of its last message, which is
    so from the moment it has been appended to. *)
Definition open_at st (k : place) (ms : list Db.Message) : Prop :=
  exists t, topics st !! k = Some t /\ lastSeq t = zlen ms.

(** ** Reading *)
Lemma collect_all l acc : Forall Db.ok l ->
  callback_all collect (r_data <$> (as_record <$> l)) acc = Ret (acc ++ (plain <$> l)).
Proof.
  intros Hok. revert acc. induction Hok as [|m l Hm Hok IH]; intros acc; [by rewrite app_nil_r|].
  change (callback_all collect (r_data <$> (as_record <$> m :: l)) acc) with
    (st' ← (x ← ('(m', _) ← Db.UnmarshalMessage 0 (Db.MarshalMessage m); Ret m'); Ret (acc ++ [x]));
     callback_all collect (r_data <$> (as_record <$> l)) st').
  rewrite (Unmarshal_Marshal m 0 Hm). cbn [mbind outcome_bind]. rewrite IH. by rewrite <- app_assoc.
Qed.

Lemma from_number_find n ms : from_number n ms =
  match find_offset (as_record <$> ms) n with Some (i, _) => drop i ms | None => [] end.
Proof.
  unfold find_offset. induction ms as [|m ms IH]; [done|]. cbn [from_number fmap list_fmap list_find].
  destruct (Db.MessageSeq m =? n) eqn:E; zbool; [by rewrite decide_True by done|].
  rewrite decide_False, IH by done. by destruct (list_find _ _) as [[i r]|].
Qed.

Lemma numbers_found n ms i r : find_offset (as_record <$> ms) n = Some (i, r) ->
  n ∈ Db.MessageSeq <$> ms /\ exists m, ms !! i = Some m /\ r = as_record m /\ Db.MessageSeq m = n.
Proof.
  intros [Hi Hr]%find_offset_Some. rewrite list_lookup_fmap in Hi. destruct (ms !! i) as [m|] eqn:Em; [|done].
  injection Hi as <-. split; [|by exists m]. apply list_elem_of_fmap. exists m. split; [done|].
  by eapply list_elem_of_lookup_2.
Qed.
Lemma numbers_absent n ms : find_offset (as_record <$> ms) n = None -> n ∉ Db.MessageSeq <$> ms.
Proof.
  intros Hf (m & -> & [i Hi]%list_elem_of_lookup_1)%list_elem_of_fmap.
  eapply (find_offset_None _ _ Hf i (as_record m)); [|done]. by rewrite list_lookup_fmap, Hi.
Qed.

(** An index entry stands for a message, in a log that is long enough. *)
Lemma indexed_number t s ms es n : live t s (as_record <$> ms) es -> marks_ok (as_record <$> ms) es ->
  is_indexed s es n = true -> indexIntervalBytes < log_size ms /\
  exists i r, find_offset (as_record <$> ms) n = Some (i, r).
Proof.
  intros Hl [_ Hes] (e & Hin%list_elem_of_In & E%Z.eqb_eq)%existsb_exists.
  split; [destruct Hes as [->|]; [inversion Hin|done]|].
  destruct (v_entries _ _ _ _ (lv_valid _ _ _ _ Hl) e Hin) as (i & r & Hi & Hr & _).
  destruct (find_offset _ n) as [[i' r']|] eqn:Hf; [eauto|]. destruct (find_offset_None _ _ Hf i r Hi). congruence.
Qed.

Lemma read_log t s ms es off : live t s (as_record <$> ms) es -> marks_ok (as_record <$> ms) es ->
  modest (as_record <$> ms) -> Forall Db.ok ms -> 0 <= off ->
  exists l, (l = from off ms \/
             indexIntervalBytes < log_size ms /\ off ∈ Db.MessageSeq <$> ms /\ l = drop 1 (from off ms)) /\
    forall limit, ReadLogs off limit collect [] t = (Ret (plain <$> take (Z.to_nat limit) l), t).
Proof.
  intros Hl Hme [_ Hpos] Hok Hoff.
  assert (forall i limit, callback_all collect (r_data <$> take limit (drop i (as_record <$> ms))) [] =
            Ret (plain <$> take limit (drop i ms))) as Hread
    by (intros; rewrite skipn_map, firstn_map, collect_all; [done|by apply Forall_take, Forall_drop]).
  destruct (is_indexed s es off) eqn:Hix.
  - destruct (indexed_number t s ms es off Hl Hme Hix) as (Hsize & i & r & Hf).
    destruct (numbers_found _ _ _ _ Hf) as (Hin & m & Hm & -> & Hn). exists (drop 1 (from off ms)).
    split; [by right|]. intros limit. rewrite (live_ReadLogs collect t s _ es off limit [] Hl Hoff).
    unfold read_from. rewrite Hix, Hf. cbn [fmap option_fmap option_map fst]. rewrite Hread. unfold from.
    assert (off <> 0) as Hne.
    { rewrite Forall_forall in Hpos. specialize (Hpos (as_record m)). cbn in Hpos. rewrite Hn in Hpos.
      assert (0 < off); [|lia]. apply Hpos, list_elem_of_fmap. exists m. split; [done|]. by eapply list_elem_of_lookup_2. }
    rewrite (proj2 (Z.eqb_neq _ _) Hne), from_number_find, Hf, drop_drop. by rewrite Nat.add_1_r.
  - exists (from off ms). split; [by left|]. intros limit.
    rewrite (live_ReadLogs collect t s _ es off limit [] Hl Hoff). unfold read_from, from.
    rewrite Hix, (lv_base _ _ _ _ Hl). destruct (off =? 0) eqn:E; [by rewrite Hread, drop_0|].
    rewrite from_number_find. destruct (find_offset _ off) as [[i r]|] eqn:Hf; cbn [fmap option_fmap option_map fst];
      [by rewrite Hread|by rewrite take_nil].
Qed.

(** A log that has no index entries yet is read from just the number asked
    for, whatever is done with the messages. *)
Lemma read_small {St} (callback : list byte -> St -> outcome St) t s ms es off limit acc : live t s (as_record <$> ms) es ->
  marks_ok (as_record <$> ms) es -> log_size ms <= indexIntervalBytes -> 0 <= off ->
  ReadLogs off limit callback acc t =
    (callback_all callback (r_data <$> (as_record <$> take (Z.to_nat limit) (from off ms))) acc, t).
Proof.
  intros Hl Hme Hs Hoff. rewrite (live_ReadLogs callback t s _ es off limit acc Hl Hoff). unfold read_from, from.
  destruct (is_indexed s es off) eqn:Hix; [destruct (indexed_number t s ms es off Hl Hme Hix); lia|].
  rewrite (lv_base _ _ _ _ Hl). destruct (off =? 0); [by rewrite drop_0, firstn_map|].
  rewrite from_number_find. destruct (find_offset _ off) as [[i r]|]; cbn [fmap option_fmap option_map fst].
  - by rewrite skipn_map, firstn_map.
  - by rewrite take_nil.
Qed.

Lemma read_at t s ms es n : live t s (as_record <$> ms) es -> marks_ok (as_record <$> ms) es ->
  Forall Db.ok ms -> 0 <= n ->
  exists o, ReadLogAt n no_message t = (o, t) /\
    ((exists m, m ∈ ms /\ Db.MessageSeq m = n /\ o = Ret (plain m)) \/
     o = Err ErrorNotData /\ (n ∉ Db.MessageSeq <$> ms \/ indexIntervalBytes < log_size ms)).
Proof.
  intros Hl Hme Hok Hn. rewrite (live_ReadLogAt t s _ es n no_message Hl Hn). eexists. split; [done|].
  destruct (find_offset _ n) as [[i r]|] eqn:Hf; [|right; split; [done|left; by apply numbers_absent]].
  destruct (numbers_found _ _ _ _ Hf) as (_ & m & Hm & -> & Hnum).
  destruct (is_indexed s es n) eqn:Hix.
  - right. split; [done|]. right. by destruct (indexed_number t s ms es n Hl Hme Hix).
  - left. exists m. split; [by eapply list_elem_of_lookup_2|]. split; [done|].
    change (Decode no_message (r_data (as_record m))) with (Db.Decode 0 (Db.MarshalMessage m)).
    unfold Db.Decode. rewrite (Unmarshal_Marshal m 0); [done|]. by eapply Forall_lookup_1.
Qed.

(** ** Appending *)
Hypothesis segments_large : LogMaxSize + logMinLen <= segmentMaxBytes.
Lemma image_length rs : 24 * zlen rs <= zlen (image rs).
Proof.
  induction rs as [|r rs IH]; [done|]. rewrite image_cons, zlen_app, zlen_cons, zlen_wrap.
  pose proof (record_size_pos r). lia.
Qed.

Lemma log_size_snoc ms m : log_size (ms ++ [m]) = log_size ms + record_size (as_record m).
Proof.
  unfold log_size. rewrite fmap_app, image_app, zlen_app. f_equal.
  change (image (as_record <$> [m])) with (wrap_record (as_record m) ++ []). by rewrite app_nil_r, zlen_wrap.
Qed.

Lemma can_append t s ms es m : live t s (as_record <$> ms) es -> marks_ok (as_record <$> ms) es ->
  appendable_to ms m -> appendable s (files_of (t_disk t) 0) (as_record <$> ms) es (as_record m).
Proof.
  intros Hl [Hes _] (Hok & Hpos & Hnew & Hsize). rewrite log_size_snoc in Hsize.
  pose proof (Db.ok_MessageSeq m Hok) as Hseq. unfold inU in Hseq.
  pose proof (image_length (as_record <$> ms)) as Hlen. fold (log_size ms) in Hlen.
  pose proof (zlen_nonneg (image (as_record <$> ms))) as Hnn. fold (log_size ms) in Hnn.
  pose proof (record_size_pos (as_record m)).
  assert (LogMaxSize + logMinLen = 1048600) as Hmax by reflexivity.
  split.
  - apply (lv_position _ _ _ _ Hl).
  - split; [split; cbn; lia|]. unfold record_size in Hsize. unfold LogMaxSize, logMinLen in *. cbn in *. lia.
  - intros i a Ha. rewrite list_lookup_fmap in Ha. destruct (ms !! i) as [x|] eqn:Hx; [|done]. injection Ha as <-.
    apply (Forall_lookup_1 _ _ _ _ Hnew Hx).
  - rewrite (lv_base _ _ _ _ Hl). cbn. lia.
  - fold (log_size ms). lia.
  - change Index.maxEntryNum with 1310720. lia.
Qed.

Lemma log_append slot name m M st (k := (slot, name)) : rep M st -> appendable_to (M k) m ->
  exists n st', appendMessage segmentMaxBytes removed slot name m st = (Ret n, st') /\ rep (add_to k m M) st'.
Proof.
  intros Hr Ha. destruct (on_topic_spec slot name (AppendLog m) M st Hr)
    as (st1 & t & s & es & (Hh & Hc & Hp) & Ht & Hl & Hmax & Hme & Hmo & E). fold k in Ht, Hl, Hme, Hmo, E.
  pose proof (can_append t s (M k) es m Hl Hme Ha) as Hap. pose proof Ha as (Hok & Hpos & _ & Hsize).
  assert (position s < Topic.segmentMaxBytes t) as Hroom.
  { rewrite (lv_position _ _ _ _ Hl), Hmax. rewrite log_size_snoc in Hsize. unfold log_size in Hsize.
    pose proof (record_size_pos (as_record m)). lia. }
  destruct (live_AppendLog t s _ es m (Db.MarshalMessage m) Hl eq_refl Hap Hroom)
    as (t' & s' & es' & Ea & Hl' & _ & Hmax' & Hes').
  rewrite Ea in E. eexists _, _. split; [exact E|].
  change (mkRecord (Offset m) (GetAppliIndex m) (Db.MarshalMessage m)) with (as_record m) in *.
  assert (as_record <$> (M k ++ [m]) = (as_record <$> M k) ++ [as_record m]) as Hrec by (by rewrite fmap_app).
  split; [|split].
  - intros k'. destruct (Hh k') as [Hk Hk']. unfold add_to. case_decide as E'.
    + subst k'. split; [|by apply Forall_app; split; [|apply Forall_singleton]]. exists es'. rewrite Hrec. split; [|split].
      * destruct Hme as [Hn Hi]. split; rewrite ?zlen_app, ?image_app, ?zlen_app;
          [change (zlen [as_record m]) with 1; destruct Hes' as [->|[-> _]]; lia|].
        pose proof (zlen_nonneg (image [as_record m])).
        destruct Hes' as [->|[_ ?]]; [destruct Hi as [->|]; [by left|right; lia]|right; lia].
      * destruct Hmo as [_ Hf]. split; [rewrite <- Hrec; exact Hsize|].
        apply Forall_app. split; [done|]. by apply Forall_singleton.
      * cbn. rewrite lookup_insert_eq. exists s'. split; [done|]. congruence.
    + split; [|done]. unfold holds_log. cbn. by rewrite lookup_insert_ne.
  - intros slot' name'. cbn. rewrite <- (Hc slot' name'). fold k. destruct (decide ((slot', name') = k)) as [E'|Hne];
      [rewrite E', lookup_insert_eq; split; eauto|by rewrite lookup_insert_ne].
  - done.
Qed.

(** ** Stopping and starting again *)
Lemma Close_pool_rep M st : rep M st -> rep M (Close_pool st).
Proof.
  unfold Close_pool. generalize (c_Keys (pool st)). intros l. revert st.
  induction l as [|slot l IH]; intros st Hr; cbn [foldl]; [done|]. apply IH, close_slot_rep.
  destruct Hr as (Hh & Hc & Hp). split; [done|]. split; [done|]. intros x Hx. apply Hp. by apply Remove_law in Hx as [? _].
Qed.

Lemma NewFileDB_on_rep M d : (forall k, exists es, marks_ok (as_record <$> M k) es /\ modest (as_record <$> M k) /\
    kept (default empty_disk (d !! k)) (as_record <$> M k) es /\ Forall Db.ok (M k)) ->
  rep M (NewFileDB_on d).
Proof.
  intros Hd. split; [|split].
  - intros k. destruct (Hd k) as (es & Hme & Hmo & Hk & Hok). split; [|done]. exists es. auto.
  - intros slot name. cbn. rewrite !lookup_empty. split; [by intros [? [=]]|by intros (? & [=] & _)].
  - intros slot. cbn. rewrite New_law. intros Hin. inversion Hin.
Qed.

Lemma restart_rep closed M st : rep M st -> rep M (restart closed st).
Proof.
  intros Hr. assert (rep M (if closed then Close_pool st else st)) as (Hh & _)
    by (destruct closed; [by apply Close_pool_rep|done]).
  unfold restart. set (st' := if closed then _ else _) in *. apply NewFileDB_on_rep. intros k.
  destruct (Hh k) as [(es & Hme & Hmo & Hk) Hok]. exists es. split; [done|]. split; [done|]. split; [|done].
  unfold left_on_disk. rewrite lookup_union, lookup_fmap. unfold disk_of in Hk.
  destruct (topics st' !! k) as [t|]; cbn [fmap option_fmap option_map].
  - destruct Hk as (s & Hl & _).  destruct (disks st' !! k); cbn; apply (live_kept false _ _ _ _ Hl Hmo).
  - by destruct (disks st' !! k).
Qed.

(** ** Operations and histories *)
Hypothesis slotCount_pos : 0 < slotCount < 2 ^ 32.
Lemma slot_number_bind {A} key (f : Z -> io (state CP CS) A) st :
  (lift (slot_number slotCount key) ≫= f) st = f (slot_of slotCount key) st.
Proof.
  apply bind_Ret_io. unfold lift, slot_number, GetSlotNum. rewrite wrapU_id by (unfold inU; lia).
  by rewrite (proj2 (Z.eqb_neq slotCount 0)) by lia.
Qed.

Lemma done_after {A} (m : io (state CP CS) A) st a st' : m st = (Ret a, st') -> (m ;; mret ADone) st = (Ret ADone, st').
Proof. intros E. by io_step E. Qed.
Lemma fmap_after {A B} (f : A -> B) (m : io (state CP CS) A) st o st' : m st = (o, st') ->
  (f <$> m) st = (match o with Ret a => Ret (f a) | Err e => Err e | Panic => Panic end, st').
Proof. intros E. unfold fmap, io_fmap, mbind, io_bind. rewrite E. by destruct o. Qed.

Lemma impl_explained o M st : rep M st -> permitted1 slotCount M o ->
  exists a st', impl o st = (a, st') /\ explains slotCount M o a (after1 slotCount M o) /\ rep (after1 slotCount M o) st'.
Proof.
  intros Hr Hp. destruct o as [m|m|c offset limit|c n|c|closed]; cbn [impl after1 permitted1] in *.
  - destruct (log_append _ _ m M st Hr Hp) as (n & st' & E & Hr').
    exists (Ret ADone), st'. split; [|split; [constructor|done]]. eapply done_after.
    unfold AppendMessage. rewrite slot_number_bind. exact E.
  - destruct Hp as [Hb Ha]. destruct (log_append _ _ m M st Hr Ha) as (n & st' & E & Hr').
    exists (Ret ADone), st'. split; [|split; [constructor|done]]. eapply done_after.
    unfold AppendMessageOfUser. rewrite Hb, slot_number_bind. exact E.
  - destruct Hp as [Hoff Hlim].
    destruct (on_topic_reads (slot_of slotCount c.1) (topicName c) (ReadLogs offset limit collect [])
      (fun o => exists a, o = Ret a /\ explains slotCount M (OGetMessages c offset limit) (Ret (AMessages a)) M) M st Hr)
      as (o & st' & E & Hr' & a & -> & Hex).
    { intros t s es Hl Hme Hmo Hok. destruct (read_log t s _ es offset Hl Hme Hmo Hok Hoff) as (l & Hcase & Hread).
      eexists. split; [apply Hread|]. eexists. split; [done|].
      destruct Hcase as [->|(Hsz & Hin & ->)]; [by apply ex_get|by apply ex_get_late]. }
    exists (Ret (AMessages a)), st'. split; [|done].
    eapply (fmap_after AMessages _ _ (Ret a)). unfold GetMessages, make_messages.
    rewrite Z.gtb_ltb, (proj2 (Z.ltb_ge _ _)) by lia. rewrite (bind_Ret_io (lift (Ret [])) _ st [] st eq_refl).
    rewrite slot_number_bind. exact E.
  - destruct (on_topic_reads (slot_of slotCount c.1) (topicName c) (ReadLogAt n no_message)
      (fun o => explains slotCount M (OGetMessage c n)
        (match o with Ret a => Ret (AMessage a) | Err e => Err e | Panic => Panic end) M) M st Hr)
      as (o & st' & E & Hr' & Hex).
    { intros t s es Hl Hme Hmo Hok. destruct (read_at t s _ es n Hl Hme Hok Hp) as (o & Ho & Hcase).
      exists o. split; [done|]. destruct Hcase as [(m & Hin & Hn & ->)|[-> Hno]]; [by apply ex_at|by eapply ex_at_none]. }
    eexists _, st'. split; [|split; [exact Hex|done]]. apply fmap_after. unfold GetMessage.
    rewrite slot_number_bind. exact E.
  - destruct (on_topic_reads (slot_of slotCount c.1) (topicName c) (mret tt) (fun o => o = Ret tt) M st Hr)
      as (o & st' & E & Hr' & ->); [intros; by eexists|].
    exists (Ret ADone), st'. split; [|split; [constructor|done]]. eapply done_after. unfold DeleteMessages.
    rewrite slot_number_bind. exact E.
  - eexists _, _. split; [reflexivity|]. split; [constructor|]. by apply restart_rep.
Qed.

Lemma run_explained os M st : rep M st -> permitted slotCount M os -> explained slotCount M (run os st).
Proof.
  revert M st. induction os as [|o os IH]; intros M st Hr Hp; cbn [run]; [constructor|].
  destruct Hp as [Hp1 Hp2]. destruct (impl_explained o M st Hr Hp1) as (a & st' & E & Hex & Hr').
  rewrite E. econstructor; [exact Hex|]. by apply IH.
Qed.

Lemma empty_rep : rep no_logs (NewFileDB_on ∅).
Proof.
  apply NewFileDB_on_rep. intros k. rewrite lookup_empty. exists []. split; [split; [done|by left]|].
  assert (modest []) as Hmo by (split; [discriminate|constructor]). split; [exact Hmo|]. split; [|constructor].
  split; try done; try by constructor. intros e Hin. inversion Hin.
Qed.
End Histories.

(** * Windows of messages *)

(** The numbers of a log that has lost none. *)
Definition numbered_from (a : Z) (ms : list Db.Message) : Prop := Db.MessageSeq <$> ms = seqZ a (zlen ms).
Definition numbered (ms : list Db.Message) : Prop := numbered_from 1 ms.

(** The messages with numbers above [lo] and, unless [hi] is 0, below [hi]. *)
Definition below (hi : Z) (ms : list Db.Message) : list Db.Message :=
  filter (fun m => hi = 0 \/ Db.MessageSeq m < hi) ms.
Definition between (lo hi : Z) (ms : list Db.Message) : list Db.Message :=
  below hi (filter (fun m => lo < Db.MessageSeq m) ms).

Lemma numbered_cons a m ms : numbered_from a (m :: ms) -> Db.MessageSeq m = a /\ numbered_from (a + 1) ms.
Proof.
  unfold numbered_from. rewrite zlen_cons, fmap_cons, seqZ_cons by (pose proof (zlen_nonneg ms); lia).
  intros [= -> ->]. split; [done|]. f_equal; lia.
Qed.
Lemma numbered_range a ms m : numbered_from a ms -> m ∈ ms -> a <= Db.MessageSeq m < a + zlen ms.
Proof.
  intros Hn Hin. apply elem_of_seqZ. rewrite <- Hn. apply list_elem_of_fmap. eauto.
Qed.

Lemma from_number_filter a n ms : numbered_from a ms -> a <= n ->
  from_number n ms = filter (fun m => n - 1 < Db.MessageSeq m) ms.
Proof.
  revert a. induction ms as [|m ms IH]; intros a Hn Ha; [done|]. pose proof Hn as [Hm Hn']%numbered_cons.
  cbn [from_number]. destruct (Db.MessageSeq m =? n) eqn:E; zbool.
  - rewrite filter_all; [done|]. intros x Hx. pose proof (numbered_range _ _ x Hn Hx). lia.
  - rewrite filter_cons_False by lia. apply (IH (a + 1)); [done|lia].
Qed.
Lemma from_filter n ms : numbered ms -> 0 <= n -> from n ms = filter (fun m => n - 1 < Db.MessageSeq m) ms.
Proof.
  intros Hn H0. unfold from. destruct (n =? 0) eqn:E; zbool.
  - rewrite filter_all; [done|]. intros x Hx. pose proof (numbered_range _ _ x Hn Hx). lia.
  - apply (from_number_filter 1); [done|lia].
Qed.

Lemma numbered_drop a c ms : numbered_from a ms -> a - 1 <= c ->
  filter (fun m => c < Db.MessageSeq m) ms = drop (Z.to_nat (c - (a - 1))) ms.
Proof.
  revert a. induction ms as [|m ms IH]; intros a Hn Hc; [by rewrite drop_nil|].
  pose proof Hn as [Hm Hn']%numbered_cons. rewrite filter_cons. case_decide.
  - replace (Z.to_nat (c - (a - 1))) with O by lia. cbn [drop]. f_equal. apply filter_all.
    intros x Hx. pose proof (numbered_range _ _ x Hn' Hx). lia.
  - replace (Z.to_nat (c - (a - 1))) with (S (Z.to_nat (c - (a + 1 - 1)))) by lia. cbn [drop]. apply IH; [done|lia].
Qed.

Lemma numbered_lookup ms i m : numbered ms -> ms !! i = Some m -> Db.MessageSeq m = 1 + Z.of_nat i.
Proof.
  intros Hn Hi. assert ((Db.MessageSeq <$> ms) !! i = Some (Db.MessageSeq m)) as E by (by rewrite list_lookup_fmap, Hi).
  rewrite Hn in E. by apply lookup_seqZ in E as [-> _].
Qed.

(** In ascending order, taking some of the first messages and those below a
    number commute. *)
Definition ascending (l : list Db.Message) : Prop := StronglySorted (fun a b => Db.MessageSeq a < Db.MessageSeq b) l.

Lemma numbered_ascending a lo ms : numbered_from a ms -> ascending (filter (fun m => lo < Db.MessageSeq m) ms).
Proof.
  revert a. induction ms as [|m ms IH]; intros a Hn; [constructor|]. pose proof Hn as [Hm Hn']%numbered_cons.
  rewrite filter_cons. case_decide; [|by eapply IH]. constructor; [by eapply IH|].
  apply Forall_forall. intros x [_ Hx]%list_elem_of_filter. pose proof (numbered_range _ _ x Hn' Hx). lia.
Qed.

Lemma ascending_filter (P : Db.Message -> Prop) `{forall m, Decision (P m)} l : ascending l -> ascending (filter P l).
Proof.
  induction 1 as [|m l Hs IH Hm]; [constructor|]. rewrite filter_cons. case_decide; [|done]. constructor; [done|].
  rewrite Forall_forall in *. intros x [_ Hx]%list_elem_of_filter. auto.
Qed.
Lemma ascending_numbers l : ascending l -> NoDup (Db.MessageSeq <$> l).
Proof.
  induction 1 as [|m l Hs IH Hm]; cbn; constructor; [|done].
  intros (x & E & Hx)%list_elem_of_fmap. rewrite Forall_forall in Hm. specialize (Hm x Hx). lia.
Qed.

Lemma below_take hi k l : ascending l -> below hi (take k l) = take k (below hi l).
Proof.
  unfold below. intros Hs. revert k. induction Hs as [|m l Hs IH Hm]; intros k; [by destruct k|].
  rewrite Forall_forall in Hm. destruct k as [|k]; [done|]. cbn [take]. rewrite !filter_cons.
  destruct (decide (hi = 0 \/ _)) as [Hc|Hc]; [cbn [take]; by rewrite IH|]. rewrite (filter_none _ l), (filter_none _ (take k l)).
  - done.
  - intros x (i & Hx%list_elem_of_lookup_2 & _)%elem_of_take. specialize (Hm x Hx). lia.
  - intros x Hx. specialize (Hm x Hx). lia.
Qed.

(** There are at most [hi - lo - 1] messages between [lo] and [hi]. *)
Lemma length_between lo hi ms : numbered ms -> hi <> 0 -> lo < hi -> zlen (between lo hi ms) <= hi - lo - 1.
Proof.
  intros Hn Hhi Hlt.
  assert (length (Db.MessageSeq <$> between lo hi ms) <= length (seqZ (lo + 1) (hi - lo - 1)))%nat as Hlen.
  { apply NoDup_incl_length.
    - apply NoDup_ListNoDup, ascending_numbers, ascending_filter. by eapply numbered_ascending.
    - intros n Hin%list_elem_of_In. apply list_elem_of_In, elem_of_seqZ.
      apply list_elem_of_fmap in Hin as (m & -> & [H1 [H2 _]%list_elem_of_filter]%list_elem_of_filter). lia. }
  rewrite length_fmap, length_seqZ in Hlen. unfold zlen. lia.
Qed.

(** ** Reads of the data base *)
Section Windows.
Context {CP CS : Type} `{CacheLaws Z CP} `{CacheLaws string CS}.
Context (slotCount segmentMaxBytes : Z) (removed : string -> bool).
Hypothesis slotCount_pos : 0 < slotCount < 2 ^ 32.
Implicit Types (st : state CP CS) (M : logs).

(** A log that has no index entries yet is read from just the number asked
    for. *)
Lemma GetMessages_exact c offset limit M st (ms := M (channel_place slotCount c)) :
  rep segmentMaxBytes M st -> numbered ms -> log_size ms <= indexIntervalBytes ->
  0 <= offset -> 0 <= limit <= 2 ^ 45 ->
  exists st', GetMessages slotCount segmentMaxBytes removed c offset limit st =
      (Ret (plain <$> take (Z.to_nat limit) (filter (fun m => offset - 1 < Db.MessageSeq m) ms)), st') /\
    rep segmentMaxBytes M st'.
Proof.
  intros Hr Hn Hsmall Hoff Hlim.
  destruct (on_topic_reads segmentMaxBytes removed (slot_of slotCount c.1) (topicName c) (ReadLogs offset limit collect [])
    (fun o => o = Ret (plain <$> take (Z.to_nat limit) (from offset ms))) M st Hr) as (o & st' & E & Hr' & ->).
  { intros t s es Hl Hme Hmo Hok. destruct (read_log t s _ es offset Hl Hme Hmo Hok Hoff) as (l & Hcase & Hread).
    eexists. split; [apply Hread|]. destruct Hcase as [->|(Hbig & _)]; [done|]. unfold ms in Hsmall.
    unfold channel_place in Hsmall. lia. }
  rewrite from_filter in E by done.
  exists st'. split; [|done]. unfold GetMessages, make_messages.
  rewrite Z.gtb_ltb, (proj2 (Z.ltb_ge _ _)) by lia. rewrite (bind_Ret_io (lift (Ret [])) _ st [] st eq_refl).
  rewrite slot_number_bind by done. exact E.
Qed.

Lemma filter_below hi l :
  filter (fun m => hi = 0 \/ Db.MessageSeq m < hi) (plain <$> l) = plain <$> below hi l.
Proof. exact (filter_map plain (fun m => hi = 0 \/ Db.MessageSeq m < hi) l). Qed.

(** Over a log that has lost no number, [GetMessagesWithOptions] gives the
    first [limit] messages with a number above [offset] and, unless [end] is
    0, below [end]; asked downwards ([reverse] is false) without an offset,
    it gives those of the [limit] numbers just below [end], in ascending
    order. *)
Theorem GetMessagesWithOptions_window c offset limit (reverse : bool) end_ M st
    (ms := M (channel_place slotCount c)) :
  rep segmentMaxBytes M st -> numbered ms -> log_size ms <= indexIntervalBytes ->
  0 <= offset < 2 ^ 32 - 1 -> 0 <= end_ < 2 ^ 32 -> 0 <= limit <= 2 ^ 45 ->
  exists st', GetMessagesWithOptions slotCount segmentMaxBytes removed c offset limit reverse end_ st =
      (Ret (plain <$> take (Z.to_nat limit)
         (between (if reverse || negb (offset =? 0) then offset else end_ - limit - 1) end_ ms)), st') /\
    rep segmentMaxBytes M st'.
Proof.
  intros Hr Hn Hsmall Hoff Hend Hlim. unfold GetMessagesWithOptions.
  assert (forall off lim, 0 <= off -> 0 <= lim <= 2 ^ 45 ->
    exists st', GetMessages slotCount segmentMaxBytes removed c off lim st =
      (Ret (plain <$> take (Z.to_nat lim) (filter (fun m => off - 1 < Db.MessageSeq m) ms)), st') /\
      rep segmentMaxBytes M st') as Hget by (intros; by apply GetMessages_exact).
  assert (forall lim off, filter (fun m => end_ = 0 \/ Db.MessageSeq m < end_)
      (plain <$> take (Z.to_nat lim) (filter (fun m => off < Db.MessageSeq m) ms)) =
    plain <$> take (Z.to_nat lim) (between off end_ ms)) as Hbelow.
  { intros lim off. rewrite filter_below. unfold between. rewrite below_take; [done|]. by eapply numbered_ascending. }
  assert (forall l : list Db.Message, (if end_ =? 0 then l else filter (fun m => Db.MessageSeq m < end_) l) =
            filter (fun m => end_ = 0 \/ Db.MessageSeq m < end_) l) as Hif.
  { intros l. destruct (end_ =? 0) eqn:E; zbool; [rewrite filter_all; auto|apply filter_ext_in; intros; lia]. }
  destruct reverse; cbn [orb].
  - rewrite (proj2 (Z.ltb_ge _ 0)), wrapU_id by (unfold inU; lia).
    set (lim := if _ && _ then _ else _). assert (0 <= lim <= 2 ^ 45 /\
      take (Z.to_nat lim) (between offset end_ ms) = take (Z.to_nat limit) (between offset end_ ms)) as [Hl Htake].
    { unfold lim. destruct (negb (end_ =? 0) && (end_ >? offset)) eqn:E; [|done].
      apply andb_true_iff in E as [E1%negb_true_iff%Z.eqb_neq E2]. rewrite Z.gtb_lt in E2. split; [lia|].
      pose proof (length_between offset end_ ms Hn E1 E2) as Hlen. unfold zlen in Hlen.
      destruct (decide (limit <= end_ - offset)); [by rewrite Z.min_r by lia|]. by rewrite !take_ge by lia. }
    destruct (Hget (offset + 1) lim ltac:(lia) Hl) as (st' & E & Hr'). exists st'. split; [|done].
    io_step E. replace (offset + 1 - 1) with offset by lia. by rewrite Hbelow, Htake.
  - destruct (offset =? 0) eqn:Eo; zbool; cbn [negb].
    + assert (i64 limit = limit) as -> by (apply wrapS_id; unfold inS; lia).
      rewrite (wrapS_id 64) by (unfold inS; lia). rewrite wrapU_id by (unfold inU; lia).
      destruct (Hget (Z.max 0 (end_ - limit)) limit ltac:(lia) Hlim) as (st' & E & Hr'). exists st'. split; [|done].
      io_step E. rewrite Hif, Hbelow.
      assert (between (Z.max 0 (end_ - limit) - 1) end_ ms = between (end_ - limit - 1) end_ ms) as ->; [|done].
      unfold between. f_equal. apply filter_ext_in. intros x Hx. pose proof (numbered_range _ _ x Hn Hx). lia.
    + rewrite wrapU_id by (unfold inU; lia).
      destruct (Hget (offset + 1) limit ltac:(lia) Hlim) as (st' & E & Hr'). exists st'. split; [|done].
      io_step E. rewrite Hif. replace (offset + 1 - 1) with offset by lia. by rewrite Hbelow.
Qed.
End Windows.


(** * Runs *)
Abbreviation pools := (MemCache.cache Z).
Abbreviation caches := (MemCache.cache string).
Definition group : chan := ("g1"%string, 2).
Definition no_remove : string -> bool := fun _ => false.

(** Messages to a group and to the queue of a user, with a restart and a
    crash in between. *)
Definition to_bob (seq : Z) : Db.Message :=
  Db.mkMessage 0 7 0 0 (200 + seq) seq "no" 0 "alice" "bob" "alice" 1 (bytes_of_string "psst").
Definition example_ops : list op :=
  [OAppendMessage (example_message 1); OAppendMessageOfUser (to_bob 1); ORestart true;
   OAppendMessage (example_message 2); ODeleteMessages group; ORestart false;
   OAppendMessage (example_message 3);
   OGetMessages group 2 10; OGetMessage group 1; OGetMessage group 4].

Lemma example_ops_permitted : permitted 4 no_logs example_ops.
Proof.
  assert (forall m l, Db.ok m -> 0 < Db.MessageSeq m -> Forall (fun a => Db.MessageSeq a < Db.MessageSeq m) l ->
    log_size (l ++ [m]) <= LogMaxSize + logMinLen -> appendable_to l m) as Hap
    by (intros m l H1 H2 H3 H4; exact (conj H1 (conj H2 (conj H3 H4)))).
  unfold example_ops. cbn [permitted permitted1 after1].
  repeat match goal with |- _ /\ _ => split end; try exact I; try lia; try reflexivity;
    try (apply Hap; [constructor; vm_compute; intuition congruence|reflexivity
         |vm_compute; repeat constructor|vm_compute; discriminate]).
Qed.


(** What these reads give. *)
Example example_answers : snd <$> drop 7 (run 4 (2 ^ 30) no_remove example_ops (@NewFileDB_on pools caches _ ∅)) =
  [Ret (AMessages [example_message 2; example_message 3]); Ret (AMessage (example_message 1)); Err ErrorNotData].
Proof. vm_compute. reflexivity. Qed.

Lemma four_slots : 0 < 4 < 2 ^ 32.
Proof. lia. Qed.
Lemma large_segments : LogMaxSize + logMinLen <= 2 ^ 30.
Proof. discriminate. Qed.

(** A state with three messages to the group. *)
Definition three : logs := foldl (fun M n => after1 4 M (OAppendMessage (example_message n))) no_logs [1; 2; 3].
Lemma three_stored : exists st : state pools caches, rep (2 ^ 30) three st.
Proof.
  assert (forall n M (st : state pools caches), rep (2 ^ 30) M st ->
    permitted1 4 M (OAppendMessage (example_message n)) ->
    exists st' : state pools caches, rep (2 ^ 30) (after1 4 M (OAppendMessage (example_message n))) st') as Hstep.
  { intros n M st Hr Hp.
    destruct (impl_explained 4 (2 ^ 30) no_remove large_segments four_slots _ M st Hr Hp) as (a & st' & _ & _ & Hr').
    eauto. }
  assert (forall n l, 0 < n < 4 -> Forall (fun a => Db.MessageSeq a < n) l ->
    log_size (l ++ [example_message n]) <= LogMaxSize + logMinLen -> appendable_to l (example_message n)) as Hap.
  { intros n l Hn Hl Hs. split; [constructor; unfold inU, inS, short; cbn; try lia; vm_compute; intuition congruence|].
    split; [cbn; lia|]. by split. }
  destruct (Hstep 1 no_logs _ (empty_rep (2 ^ 30))) as [st1 H1];
    [apply Hap; [lia|constructor|vm_compute; discriminate]|].
  destruct (Hstep 2 _ st1 H1) as [st2 H2]; [apply Hap; [lia|by vm_compute; repeat constructor|vm_compute; discriminate]|].
  apply (Hstep 3 _ st2 H2). apply Hap; [lia|by vm_compute; repeat constructor|vm_compute; discriminate].
Qed.

Lemma GetMessagesWithOptions_window_witness : exists st st' : state pools caches,
  GetMessagesWithOptions 4 (2 ^ 30) no_remove group 0 2 false 4 st =
    (Ret (plain <$> take (Z.to_nat 2) (between 1 4 (three (channel_place 4 group)))), st').
Proof.
  destruct three_stored as [st Hst]. exists st.
  assert (numbered (three (channel_place 4 group))) as Hn by (vm_compute; reflexivity).
  assert (log_size (three (channel_place 4 group)) <= indexIntervalBytes) as Hs by (vm_compute; discriminate).
  destruct (GetMessagesWithOptions_window 4 (2 ^ 30) no_remove four_slots group 0 2 false 4 three st Hst Hn Hs)
    as (st' & E & _); [lia..|]. exists st'. exact E.
Defined.

(** A limit below zero is a huge number to the storage. *)
Lemma negative_limit c offset (st : state pools caches) :
  fst (GetMessages 4 (2 ^ 30) no_remove c offset (u64 (-1)) st) = Panic.
Proof. reflexivity. Qed.

(** After a restart the topic of one message gives its number again. *)
Example number_again :
  let '(_, st) := impl 4 (2 ^ 30) no_remove (OAppendMessage (example_message 1)) (@NewFileDB_on pools caches _ ∅) in
  fst (GetNextMessageSeq 4 (2 ^ 30) no_remove group st) = Ret 2 /\
  fst (GetNextMessageSeq 4 (2 ^ 30) no_remove group (restart true st)) = Ret 1.
Proof. vm_compute. split; reflexivity. Qed.
