(* ===== verification/FileDB.v ===== *)
(** The key-value part of the data base (internal/db/db_file.go,
    internal/db/db_file_public.go, internal/lim/storage_file.go): user tokens,
    channels and their lists, conversations, the cursor of a user's queue and
    the queue of notifications, in the buckets of a bolt file. *)
From Stdlib Require Import ZArith Lia Strings.Byte Strings.Ascii Strings.String.
From stdpp Require Import base list gmap strings pretty sorting.
From S2P Require Import Prelude Effects Keys Strconv Json JsonTypes Wire Frames Ids PQueue Model Storage.

(** * bolt

    The package go.etcd.io/bbolt is a parameter: buckets by name, in each of
    them values by key and a sequence. What its documentation says of the
    operations the program uses is in the laws: [Put] refuses an empty key, a
    key of more than 32768 bytes and a value of more than 2^31-2; [Get] gives
    nothing for a key that is not there; a cursor goes through a bucket in the
    order of the bytes of the keys. *)
Definition ErrKeyRequired : error := ErrMsg "key required".
Definition ErrKeyTooLarge : error := ErrMsg "key too large".
Definition ErrValueTooLarge : error := ErrMsg "value too large".
Definition refused (k : string) (v : list byte) : option error :=
  if bool_decide (k = EmptyString) then Some ErrKeyRequired
  else if 32768 <? zlen (bytes_of_string k) then Some ErrKeyTooLarge
  else if 2 ^ 31 - 2 <? zlen v then Some ErrValueTooLarge else None.

(** The order of [bytes.Compare]. *)
Fixpoint bytes_le (a b : list byte) : bool :=
  match a, b with
  | [], _ => true
  | _ :: _, [] => false
  | x :: a', y :: b' => (Z_of_byte x <? Z_of_byte y) || bool_decide (x = y) && bytes_le a' b'
  end.
Definition key_le (a b : string * list byte) : Prop := bytes_le (bytes_of_string a.1) (bytes_of_string b.1) = true.

Class Bolt (B : Type) := {
  bOpen : B;
  bHas : string -> B -> bool;
  bCreate : string -> io B unit;
  bGet : string -> string -> B -> option (list byte);
  bPut : string -> string -> list byte -> io B unit;
  bDelete : string -> string -> io B unit;
  bSequence : string -> B -> Z;
  bNextSequence : string -> io B Z;
  bEntries : string -> B -> list (string * list byte)
}.

Class BoltLaws (B : Type) `{Bolt B} := {
  open_law b k : bHas b bOpen = false /\ bGet b k bOpen = None /\ bSequence b bOpen = 0;
  create_law b s : exists s', bCreate b s = (Ret tt, s') /\
    (forall b', bHas b' s' = bool_decide (b' = b) || bHas b' s) /\
    (forall b' k', bGet b' k' s' = bGet b' k' s) /\ (forall b', bSequence b' s' = bSequence b' s);
  put_law b k v s : bHas b s = true -> refused k v = None -> exists s', bPut b k v s = (Ret tt, s') /\
    (forall b' k', bGet b' k' s' = if decide ((b', k') = (b, k)) then Some v else bGet b' k' s) /\
    (forall b', bHas b' s' = bHas b' s) /\ (forall b', bSequence b' s' = bSequence b' s);
  put_refused b k v s e : refused k v = Some e -> bPut b k v s = (Err e, s);
  delete_law b k s : bHas b s = true -> exists s', bDelete b k s = (Ret tt, s') /\
    (forall b' k', bGet b' k' s' = if decide ((b', k') = (b, k)) then None else bGet b' k' s) /\
    (forall b', bHas b' s' = bHas b' s) /\ (forall b', bSequence b' s' = bSequence b' s);
  next_law b s : bHas b s = true -> exists s', bNextSequence b s = (Ret (u64 (bSequence b s + 1)), s') /\
    (forall b' k', bGet b' k' s' = bGet b' k' s) /\ (forall b', bHas b' s' = bHas b' s) /\
    (forall b', bSequence b' s' = if decide (b' = b) then u64 (bSequence b s + 1) else bSequence b' s);
  entries_law b s k v : (k, v) ∈ bEntries b s <-> bGet b k s = Some v;
  entries_sorted b s : StronglySorted key_le (bEntries b s);
  entries_once b s : NoDup (bEntries b s).*1
}.

(** * Operations *)
Section Operations.
Context {B : Type} `{Bolt B} (slotCount : Z).

(** [db.Update] takes back what a function that fails has done; [db.View]
    changes nothing. *)
Definition Update {A} (f : io B A) : io B A := fun s =>
  match f s with (Ret a, s') => (Ret a, s') | (o, _) => (o, s) end.
Definition View {A} (f : io B A) : io B A := fun s => ((f s).1, s).

(** A bucket that is not there is a nil pointer. *)
Definition bucket {A} (b : string) (f : io B A) : io B A := has ← gets (bHas b); if has : bool then f else lift Panic.

Definition rootBucketPrefix : string := "limaoRoot".
Definition notifyQueuePrefix : string := "notifyQueue".
Definition userTokenPrefix : string := "userToken:".
Definition channelPrefix : string := "channel:".
Definition subscribersPrefix : string := "subscribers:".
Definition denylistPrefix : string := "denylist:".
Definition allowlistPrefix : string := "allowlist:".
Definition messageOfUserCursorPrefix : string := "messageOfUserCursor:".
Definition nodeInFlightDataPrefix : string := "nodeInFlightData".

Definition getUserTokenKey (uid : string) (deviceFlag : Z) : string := userTokenPrefix +:+ Sprintf_s_d uid deviceFlag.
Definition getChannelKey (c : chan) : string := channelPrefix +:+ Sprintf_s_d c.1 c.2.
Definition listPrefix (k : listKind) : string :=
  match k with Subscribers => subscribersPrefix | Denylist => denylistPrefix | Allowlist => allowlistPrefix end.
(** [getSubscribersKey], [getDenylistKey] and [getAllowlistKey]. *)
Definition getListKey (k : listKind) (c : chan) : string := listPrefix k +:+ Sprintf_s_d c.1 c.2.
Definition getMessageOfUserCursorKey (uid : string) : string := messageOfUserCursorPrefix +:+ uid.
Definition getConversationKey (uid : string) : string := "conversation:" +:+ uid.
Definition appliIndexKey : string := "appliIndex".

(** [slotNum] and [slotNumForChannel]; the bucket of a slot. *)
Definition slotNum (key : string) : outcome Z := GetSlotNum slotCount key.
Definition slotBucket (slot : Z) : string := pretty slot.

(** [NewFileDB], on a new file; an error panics. *)
Definition must {A} (f : io B A) : io B A := fun s => match f s with (Err _, s') => (Panic, s') | r => r end.
Definition NewFileDB : io B unit :=
  must (Update (bCreate rootBucketPrefix ;; bCreate notifyQueuePrefix ;;
          for_each (fun i => bCreate (slotBucket (Z.of_nat i))) (seq 0 (Z.to_nat slotCount)))).

Definition set (slot : Z) (key : string) (value : list byte) : io B unit :=
  Update (bucket (slotBucket slot) (bPut (slotBucket slot) key value)).
Definition get (slot : Z) (key : string) : io B (option (list byte)) :=
  View (bucket (slotBucket slot) (gets (bGet (slotBucket slot) key))).
Definition delete (slot : Z) (key : string) : io B unit :=
  Update (bucket (slotBucket slot) (bDelete (slotBucket slot) key)).

Definition comma : ascii := ","%char.
(** A list is stored with commas between its elements; no bytes are no
    elements. *)
Definition list_of (value : option (list byte)) : list string :=
  match value with
  | None | Some [] => []
  | Some l => Split (string_of_bytes l) comma
  end.
Definition addList (slot : Z) (key : string) (valueList : list string) : io B unit :=
  Update (bucket (slotBucket slot) (
    value ← gets (bGet (slotBucket slot) key);
    bPut (slotBucket slot) key (bytes_of_string (Join (list_of value ++ valueList) comma)))).
Definition getList (slot : Z) (key : string) : io B (list string) :=
  View (bucket (slotBucket slot) (value ← gets (bGet (slotBucket slot) key); mret (list_of value))).
(** [removeList] looks for the list in the bucket of the slot of [key]
    ([getSlotBucketWithKey]), whatever [slotNum] is. *)
Definition removeList (slotNum_ : Z) (key : string) (uids : list string) : io B unit :=
  Update (slot ← lift (slotNum key);
    bucket (slotBucket slot) (
    value ← gets (bGet (slotBucket slot) key);
    bPut (slotBucket slot) key
      (bytes_of_string (Join (filter (fun v => v ∉ uids) (list_of value)) comma)))).

(** ** Tokens *)
Definition UpdateUserToken (uid : string) (deviceFlag deviceLevel : Z) (token : string) : io B unit :=
  slot ← lift (slotNum uid);
  set slot (getUserTokenKey uid deviceFlag)
    (Marshal (Obj [member "device_level" (string_value (pretty deviceLevel)); member "token" (string_value token)])).
(** [DeviceLevel] is a [uint8]. *)
Definition GetUserToken (uid : string) (deviceFlag : Z) : io B (string * Z) :=
  slot ← lift (slotNum uid);
  value ← get slot (getUserTokenKey uid deviceFlag);
  match value with
  | None | Some [] => mret (EmptyString, 0)
  | Some l => resultMap ← lift (v ← Decode l; asMap v);
      mret (map_get "token" resultMap, u8 (Atoi (map_get "device_level" resultMap)))
  end.

(** ** Channels *)
(** [ToMap] and [from] ([ChannelInfo]); a value of the wrong type is a failed
    type assertion. *)
Definition ToMap (i : ChannelInfo) : value := Obj [member "mute" (Bool (Mute i)); member "parent" (string_value (Parent i))].
Definition last_member (name : string) (ms : list (list byte * value)) : value :=
  default Null (snd <$> last (filter (fun m => m.1 = bytes_of_string name) ms)).
Definition from (c : chan) (ms : list (list byte * value)) : outcome ChannelInfo :=
  mute ← match last_member "mute" ms with Null => Ret false | Bool b => Ret b | _ => Panic end;
  parent ← match last_member "parent" ms with Null => Ret EmptyString | Str s => Ret (string_of_bytes s) | _ => Panic end;
  Ret (mkChannelInfo c.1 c.2 mute parent).

Definition AddOrUpdateChannel (i : ChannelInfo) : io B unit :=
  slot ← lift (slotNum (ChannelID i));
  set slot (getChannelKey (ChannelID i, ChannelType i)) (Marshal (ToMap i)).
(** [FileDB.GetChannel]: the map of the channel, nil when there is none. *)
Definition db_GetChannel (c : chan) : io B (option (list (list byte * value))) :=
  slot ← lift (slotNum c.1);
  value ← get slot (getChannelKey c);
  match value with
  | None => mret None
  | Some l => v ← lift (Decode l);
      match v with Obj ms => mret (Some ms) | Null => mret None | _ => raise TypeError end
  end.
(** [FileStorage.GetChannel] fills in a channel whatever it was given. *)
Definition GetChannel (c : chan) : io B ChannelInfo :=
  channelMap ← db_GetChannel c; lift (from c (default [] channelMap)).
Definition DeleteChannel (c : chan) : io B unit :=
  slot ← lift (slotNum c.1); delete slot (getChannelKey c).
Definition ExistChannel (c : chan) : io B bool :=
  value ← db_GetChannel c; mret (bool_decide (value <> None)).

(** ** The lists of a channel: [AddSubscribers], [GetSubscribers],
    [RemoveSubscribers], [RemoveAllSubscriber] and the same for the denylist
    and the allowlist *)
Definition AddList (k : listKind) (c : chan) (uids : list string) : io B unit :=
  slot ← lift (slotNum c.1); addList slot (getListKey k c) uids.
Definition GetList (k : listKind) (c : chan) : io B (list string) :=
  slot ← lift (slotNum c.1); getList slot (getListKey k c).
Definition RemoveList (k : listKind) (c : chan) (uids : list string) : io B unit :=
  slot ← lift (slotNum c.1); removeList slot (getListKey k c) uids.
Definition RemoveAllList (k : listKind) (c : chan) : io B unit :=
  slot ← lift (slotNum c.1); delete slot (getListKey k c).

(** ** Conversations *)
Definition AddOrUpdateConversations (uid : string) (conversations : list Db.Conversation) : io B unit :=
  Update (slot ← lift (slotNum uid);
    bucket (slotBucket slot) (bPut (slotBucket slot) (getConversationKey uid) (Marshal (toJSON conversations)))).
Definition GetConversations (uid : string) : io B (list Db.Conversation) :=
  View (slot ← lift (slotNum uid);
    bucket (slotBucket slot) (
    value ← gets (bGet (slotBucket slot) (getConversationKey uid));
    match value with None | Some [] => mret [] | Some l => lift (ReadJSONByByte l) end)).

(** ** The applied index *)
Definition SaveMetaData (appliIndex : Z) : io B unit :=
  Update (bucket rootBucketPrefix (bPut rootBucketPrefix appliIndexKey (bytes_of_string (pretty appliIndex)))).
Definition GetMetaData : io B Z :=
  View (bucket rootBucketPrefix (
    value ← gets (bGet rootBucketPrefix appliIndexKey);
    match value with None | Some [] => mret 0 | Some l => mret (ParseUint (string_of_bytes l)) end)).

(** ** In-flight node data, whose JSON is that of a generated type *)
Context `{Jsonable Db.NodeInFlightDataModel}.
Definition AddNodeInFlightData (data : list Db.NodeInFlightDataModel) : io B unit :=
  if bool_decide (data = []) then mret tt
  else Update (bucket rootBucketPrefix (bPut rootBucketPrefix nodeInFlightDataPrefix (Marshal (toJSON data)))).
Definition GetNodeInFlightData : io B (list Db.NodeInFlightDataModel) :=
  Update (bucket rootBucketPrefix (
    value ← gets (bGet rootBucketPrefix nodeInFlightDataPrefix);
    match value with None | Some [] => mret [] | Some l => lift (ReadJSONByByte l) end)).
Definition ClearNodeInFlightData : io B unit :=
  Update (bucket rootBucketPrefix (bDelete rootBucketPrefix nodeInFlightDataPrefix)).

(** ** The cursor of a user's queue

    [lastSeq] is the last number of the user's topic. *)
Definition cursor_of (value : option (list byte)) : Z :=
  match value with None | Some [] => 0 | Some l => u32 (ParseUint (string_of_bytes l)) end.
Definition has_cursor (value : option (list byte)) : bool := match value with None | Some [] => false | _ => true end.
Definition UpdateMessageOfUserCursorIfNeed (lastSeq : Z) (uid : string) (offset : Z) : io B unit :=
  slot ← lift (slotNum uid);
  let actOffset := if offset >? lastSeq then lastSeq else offset in
  Update (bucket (slotBucket slot) (
    value ← gets (bGet (slotBucket slot) (getMessageOfUserCursorKey uid));
    if has_cursor value && ((actOffset <=? cursor_of value) && (cursor_of value <? lastSeq)) then mret tt
    else bPut (slotBucket slot) (getMessageOfUserCursorKey uid) (bytes_of_string (pretty actOffset)))).
Definition GetMessageOfUserCursor (uid : string) : io B Z :=
  slot ← lift (slotNum uid);
  View (bucket (slotBucket slot) (
    value ← gets (bGet (slotBucket slot) (getMessageOfUserCursorKey uid)); mret (cursor_of value))).

(** ** The queue of notifications *)
Definition itob (v : Z) : string := string_of_bytes (be 8 v).
Definition AppendMessageOfNotifyQueue (m : Db.Message) : io B unit :=
  Update (bucket notifyQueuePrefix (
    seq ← bNextSequence notifyQueuePrefix;
    bPut notifyQueuePrefix (itob seq) (Marshal (toJSON m)))).
(** The loop over the cursor, which ends after [count] messages. *)
Fixpoint read_queue (i count : Z) (entries : list (string * list byte)) : outcome (list Db.Message) :=
  match entries with
  | [] => Ret []
  | (_, v) :: rest =>
      if i >? count - 1 then Ret []
      else message ← ReadJSONByByte v; messages ← read_queue (i + 1) count rest; Ret (message :: messages)
  end.
Definition GetMessagesOfNotifyQueue (count : Z) : io B (list Db.Message) :=
  View (bucket notifyQueuePrefix (entries ← gets (bEntries notifyQueuePrefix); lift (read_queue 0 count entries))).
End Operations.

(** * An implementation of the interface

    Buckets as finite maps. *)
Lemma bytes_le_total a b : bytes_le a b = true \/ bytes_le b a = true.
Proof.
  revert b. induction a as [|x a IH]; intros [|y b]; cbn; auto.
  destruct (Z.lt_trichotomy (Z_of_byte x) (Z_of_byte y)) as [Hl|[He|Hg]].
  - left. by rewrite (proj2 (Z.ltb_lt _ _)).
  - apply Z_of_byte_inj in He as ->. rewrite Z.ltb_irrefl, bool_decide_eq_true_2 by done. apply IH.
  - right. by rewrite (proj2 (Z.ltb_lt _ _)).
Qed.

Lemma bytes_le_trans a b c : bytes_le a b = true -> bytes_le b c = true -> bytes_le a c = true.
Proof.
  revert b c. induction a as [|x a IH]; intros [|y b] [|z c]; cbn; try done.
  rewrite !orb_true_iff, !andb_true_iff, !bool_decide_eq_true, !Z.ltb_lt. intros [H1|[-> H1]] [H2|[-> H2]].
  - left. lia. - by left. - by left. - right. split; [done|]. by eapply IH.
Qed.

Lemma bytes_le_antisym a b : bytes_le a b = true -> bytes_le b a = true -> a = b.
Proof.
  revert b. induction a as [|x a IH]; intros [|y b]; cbn; try done.
  rewrite !orb_true_iff, !andb_true_iff, !bool_decide_eq_true, !Z.ltb_lt.
  intros [H1|[-> H1]] [H2|[E2 H2]]; try (subst; lia). f_equal. by apply IH.
Qed.

#[export] Instance key_le_decision : RelDecision key_le := fun a b => decide (bytes_le _ _ = true).
#[export] Instance key_le_total : Total key_le := fun a b => bytes_le_total _ _.
#[export] Instance key_le_trans : Transitive key_le := fun a b c => bytes_le_trans _ _ _.

Module MemBolt.
Abbreviation file := (gmap string (Z * gmap string (list byte))).
Definition put_bucket (b : string) (f : Z * gmap string (list byte) -> Z * gmap string (list byte)) : io file unit := fun s =>
  match s !! b with Some m => (Ret tt, <[b := f m]> s) | None => (Panic, s) end.

#[export] Instance file_Bolt : Bolt file := {|
  bOpen := ∅;
  bHas b s := bool_decide (is_Some (s !! b));
  bCreate b s := (Ret tt, match s !! b with Some _ => s | None => <[b := (0, ∅)]> s end);
  bGet b k s := s !! b ≫= fun m => m.2 !! k;
  bPut b k v := fun s => match refused k v with
    | Some e => (Err e, s)
    | None => put_bucket b (fun m => (m.1, <[k := v]> m.2)) s
    end;
  bDelete b k := put_bucket b (fun m => (m.1, base.delete k m.2));
  bSequence b s := from_option fst 0 (s !! b);
  bNextSequence b := fun s => match s !! b with
    | Some m => (Ret (u64 (m.1 + 1)), <[b := (u64 (m.1 + 1), m.2)]> s)
    | None => (Panic, s)
    end;
  bEntries b s := merge_sort key_le (from_option (fun m => map_to_list m.2) [] (s !! b))
|}.

#[export] Instance file_BoltLaws : BoltLaws file.
Proof.
  split; cbn.
  - done.
  - intros b s. eexists. split; [done|]. destruct (s !! b) as [m|] eqn:E.
    + split; [|done]. intros b'. destruct (decide (b' = b)) as [->|Hne].
      * by rewrite E, !bool_decide_eq_true_2 by eauto.
      * by rewrite (bool_decide_eq_false_2 (b' = b)).
    + split; [|split]; intros b'; destruct (decide (b' = b)) as [->|Hne].
      * by rewrite lookup_insert_eq, !bool_decide_eq_true_2 by eauto.
      * rewrite lookup_insert_ne by congruence. by rewrite (bool_decide_eq_false_2 (b' = b)).
      * intros k. by rewrite lookup_insert_eq, E.
      * by rewrite lookup_insert_ne by congruence.
      * by rewrite lookup_insert_eq, E.
      * by rewrite lookup_insert_ne by congruence.
  - intros b k v s Hb Hf. rewrite Hf. apply bool_decide_eq_true in Hb as [m Hm]. unfold put_bucket. rewrite Hm.
    eexists. split; [done|]. split; [|split]; intros b'; destruct (decide (b' = b)) as [->|Hne];
      rewrite ?lookup_insert_eq, ?lookup_insert_ne, ?Hm by congruence; try done.
    + intros k'. cbn. case_decide as E; [injection E as ->; by rewrite lookup_insert_eq|].
      rewrite lookup_insert_ne; congruence.
    + intros k'. by rewrite decide_False by congruence.
  - intros b k v s e Hf. by rewrite Hf.
  - intros b k s Hb. apply bool_decide_eq_true in Hb as [m Hm]. unfold put_bucket. rewrite Hm.
    eexists. split; [done|]. split; [|split]; intros b'; destruct (decide (b' = b)) as [->|Hne];
      rewrite ?lookup_insert_eq, ?lookup_insert_ne, ?Hm by congruence; try done.
    + intros k'. cbn. case_decide as E; [injection E as ->; by rewrite lookup_delete_eq|].
      rewrite lookup_delete_ne; congruence.
    + intros k'. by rewrite decide_False by congruence.
  - intros b s Hb. apply bool_decide_eq_true in Hb as [m Hm]. rewrite Hm.
    eexists. split; [done|]. split; [|split]; intros b'; destruct (decide (b' = b)) as [->|Hne];
      rewrite ?lookup_insert_eq, ?lookup_insert_ne, ?Hm by congruence; try done.
  - intros b s k v. rewrite merge_sort_Permutation. destruct (s !! b) as [m|]; cbn; [apply elem_of_map_to_list|].
    split; [intros H; inversion H|done].
  - intros b s. apply StronglySorted_merge_sort; apply _.
  - intros b s. rewrite merge_sort_Permutation. destruct (s !! b) as [m|]; cbn; [apply NoDup_fst_map_to_list|constructor].
Qed.
End MemBolt.
#[export] Existing Instance MemBolt.file_Bolt.
#[export] Existing Instance MemBolt.file_BoltLaws.
