(* ===== verification/Store.v ===== *)
(** What the key-value part of the data base promises: a store of typed
    entries. [FileDB] keeps every entry in a bucket under a key made with
    [fmt.Sprintf] and as a text; the store has a finite map from places to
    entries and neither buckets, keys nor texts. *)
From Stdlib Require Import ZArith Lia Strings.Byte Strings.Ascii Strings.String.
From stdpp Require Import base list gmap strings pretty sorting.
From S2P Require Import Prelude Effects Keys Strconv Json JsonTypes Wire Frames Ids PQueue Model Storage FileDB.

(** * The store *)

(** Where an entry is, and what it is. *)
Inductive place :=
  | PList (k : listKind) (c : chan)
  | PToken (uid : string) (deviceFlag : Z)
  | PChannel (c : chan)
  | PConversations (uid : string)
  | PApplied.
Inductive entry :=
  | EList (l : list string)
  | EToken (token : string) (deviceLevel : Z)
  | EChannel (mute : bool) (parent : string)
  | EConversations (cs : list Db.Conversation)
  | EApplied (z : Z).
#[export] Instance place_eq_decision : EqDecision place.
Proof. solve_decision. Defined.

Definition store := place -> option entry.
Definition empty_store : store := fun _ => None.

(** The key and the text an entry is stored under and as; a client of the
    store sees them in nothing but the limits of bolt. *)
Definition name_of (p : place) : string :=
  match p with
  | PList k c => getListKey k c
  | PToken uid flag => getUserTokenKey uid flag
  | PChannel c => getChannelKey c
  | PConversations uid => getConversationKey uid
  | PApplied => appliIndexKey
  end.
Definition text_of (e : entry) : list byte :=
  match e with
  | EList l => bytes_of_string (Join l comma)
  | EToken token level =>
      Marshal (Obj [member "device_level" (string_value (pretty level)); member "token" (string_value token)])
  | EChannel mute parent => Marshal (Obj [member "mute" (Bool mute); member "parent" (string_value parent)])
  | EConversations cs => Marshal (toJSON cs)
  | EApplied z => bytes_of_string (pretty z)
  end.

Definition put (p : place) (e : entry) : io store unit := fun st =>
  match refused (name_of p) (text_of e) with
  | Some er => (Err er, st)
  | None => (Ret tt, fun q => if decide (q = p) then Some e else st q)
  end.
Definition remove (p : place) : io store unit := fun st => (Ret tt, fun q => if decide (q = p) then None else st q).
Definition list_at (st : store) (k : listKind) (c : chan) : list string :=
  match st (PList k c) with Some (EList l) => l | _ => [] end.

(** The operations of the data base, and their answers. *)
Inductive op :=
  | OUpdateUserToken (uid : string) (deviceFlag deviceLevel : Z) (token : string)
  | OGetUserToken (uid : string) (deviceFlag : Z)
  | OAddOrUpdateChannel (i : ChannelInfo)
  | OGetChannel (c : chan)
  | OExistChannel (c : chan)
  | ODeleteChannel (c : chan)
  | OAddList (k : listKind) (c : chan) (uids : list string)
  | OGetList (k : listKind) (c : chan)
  | ORemoveAllList (k : listKind) (c : chan)
  | OAddOrUpdateConversations (uid : string) (cs : list Db.Conversation)
  | OGetConversations (uid : string)
  | OSaveMetaData (appliIndex : Z)
  | OGetMetaData.
Inductive answer :=
  | ADone
  | AToken (token : string) (deviceLevel : Z)
  | AChannel (i : ChannelInfo)
  | ABool (b : bool)
  | AList (l : list string)
  | AConversations (cs : list Db.Conversation)
  | ANumber (z : Z).

Definition spec (o : op) : io store answer :=
  match o with
  | OUpdateUserToken uid flag level token => put (PToken uid flag) (EToken token level) ;; mret ADone
  | OGetUserToken uid flag => gets (fun st =>
      match st (PToken uid flag) with Some (EToken token level) => AToken token level | _ => AToken EmptyString 0 end)
  | OAddOrUpdateChannel i => put (PChannel (ChannelID i, ChannelType i)) (EChannel (Mute i) (Parent i)) ;; mret ADone
  | OGetChannel c => gets (fun st =>
      AChannel (match st (PChannel c) with Some (EChannel m p) => mkChannelInfo c.1 c.2 m p | _ => NewChannelInfo c.1 c.2 end))
  | OExistChannel c => gets (fun st => ABool (bool_decide (st (PChannel c) <> None)))
  | ODeleteChannel c => remove (PChannel c) ;; mret ADone
  | OAddList k c us => l ← gets (fun st => list_at st k c); put (PList k c) (EList (l ++ us)) ;; mret ADone
  | OGetList k c => gets (fun st => AList (list_at st k c))
  | ORemoveAllList k c => remove (PList k c) ;; mret ADone
  | OAddOrUpdateConversations uid cs => put (PConversations uid) (EConversations cs) ;; mret ADone
  | OGetConversations uid => gets (fun st =>
      AConversations (match st (PConversations uid) with Some (EConversations cs) => cs | _ => [] end))
  | OSaveMetaData z => put PApplied (EApplied z) ;; mret ADone
  | OGetMetaData => gets (fun st => ANumber (match st PApplied with Some (EApplied z) => z | _ => 0 end))
  end.

(** The same operations of [FileDB] and [FileStorage]. *)
Definition impl {B} `{Bolt B} (slotCount : Z) (o : op) : io B answer :=
  match o with
  | OUpdateUserToken uid flag level token => UpdateUserToken slotCount uid flag level token ;; mret ADone
  | OGetUserToken uid flag => '(token, level) ← GetUserToken slotCount uid flag; mret (AToken token level)
  | OAddOrUpdateChannel i => AddOrUpdateChannel slotCount i ;; mret ADone
  | OGetChannel c => AChannel <$> GetChannel slotCount c
  | OExistChannel c => ABool <$> ExistChannel slotCount c
  | ODeleteChannel c => DeleteChannel slotCount c ;; mret ADone
  | OAddList k c us => AddList slotCount k c us ;; mret ADone
  | OGetList k c => AList <$> GetList slotCount k c
  | ORemoveAllList k c => RemoveAllList slotCount k c ;; mret ADone
  | OAddOrUpdateConversations uid cs => AddOrUpdateConversations slotCount uid cs ;; mret ADone
  | OGetConversations uid => AConversations <$> GetConversations slotCount uid
  | OSaveMetaData z => SaveMetaData z ;; mret ADone
  | OGetMetaData => ANumber <$> GetMetaData
  end.

(** One operation after the other, with their results. *)
Fixpoint history {S} (f : op -> io S answer) (os : list op) (s : S) : list (outcome answer) * S :=
  match os with
  | [] => ([], s)
  | o :: os' => let '(a, s1) := f o s in let '(l, s2) := history f os' s1 in (a :: l, s2)
  end.

(** Arguments the store takes: numbers of their Go types, user ids of a list
    neither empty nor with a comma, texts for JSON in UTF-8. *)
Definition uid_ok (u : string) : Prop := u <> EmptyString /\ avoids comma u.
Definition entry_ok (e : entry) : Prop :=
  match e with
  | EList l => Forall uid_ok l
  | EToken token level => utf8 token /\ inU 8 level
  | EChannel _ parent => utf8 parent
  | EConversations cs => Forall conversation_ok cs
  | EApplied z => inU 64 z
  end.
Definition place_ok (p : place) : Prop :=
  match p with
  | PList _ c | PChannel c => 0 <= c.2
  | PToken _ flag => 0 <= flag
  | _ => True
  end.
Definition op_ok (o : op) : Prop :=
  match o with
  | OUpdateUserToken uid flag level token => place_ok (PToken uid flag) /\ entry_ok (EToken token level)
  | OGetUserToken uid flag => place_ok (PToken uid flag)
  | OAddOrUpdateChannel i => place_ok (PChannel (ChannelID i, ChannelType i)) /\ entry_ok (EChannel (Mute i) (Parent i))
  | OGetChannel c | OExistChannel c | ODeleteChannel c => place_ok (PChannel c)
  | OAddList k c us => place_ok (PList k c) /\ entry_ok (EList us)
  | OGetList k c | ORemoveAllList k c => place_ok (PList k c)
  | OAddOrUpdateConversations uid cs => entry_ok (EConversations cs)
  | OSaveMetaData z => entry_ok (EApplied z)
  | _ => True
  end.

(** * Keys keep the entries apart *)

Definition tag_of (p : place) : string :=
  match p with
  | PList Subscribers _ => "subscribers" | PList Denylist _ => "denylist" | PList Allowlist _ => "allowlist"
  | PToken _ _ => "userToken" | PChannel _ => "channel" | PConversations _ => "conversation" | PApplied => ""
  end.
Definition rest_of (p : place) : string :=
  match p with
  | PList _ c | PChannel c => Sprintf_s_d c.1 c.2
  | PToken uid flag => Sprintf_s_d uid flag
  | PConversations uid => uid
  | PApplied => ""
  end.

Lemma name_of_tag p : p <> PApplied -> name_of p = tag_of p +:+ String ":" (rest_of p).
Proof. by destruct p as [[] c|uid flag|c|uid|]. Qed.

Lemma name_of_applied p : name_of p = name_of PApplied -> p = PApplied.
Proof.
  destruct (decide (p = PApplied)) as [|Hp]; [done|]. rewrite name_of_tag by done. intros E.
  assert (avoids ":" (name_of PApplied)) as Ha by (cbn; repeat split; discriminate).
  rewrite <- E in Ha. apply avoids_app in Ha as [_ [Ha _]]. done.
Qed.

Lemma name_of_inj p q : place_ok p -> place_ok q -> name_of p = name_of q -> p = q.
Proof.
  intros Hp Hq E. destruct (decide (q = PApplied)) as [->|Nq]; [by apply name_of_applied|].
  destruct (decide (p = PApplied)) as [->|Np]; [by symmetry; apply name_of_applied|].
  rewrite !name_of_tag in E by done. apply split_first in E as [Et Er];
    [|destruct p as [[] c|uid flag|c|uid|]; cbn; repeat split; discriminate
     |destruct q as [[] c|uid flag|c|uid|]; cbn; repeat split; discriminate].
  destruct p as [k [i t]|uid flag|[i t]|uid|], q as [k' [i' t']|uid' flag'|[i' t']|uid'|]; try done;
    try (destruct k; discriminate); try (destruct k'; discriminate); cbn in Er, Hp, Hq; try congruence;
    apply Sprintf_s_d_inj in Er as [-> ->]; try done.
  by destruct k, k'.
Qed.

(** * Texts are read back *)

Lemma Join_nonempty u l : u <> EmptyString -> bytes_of_string (Join (u :: l) comma) <> [].
Proof. destruct u as [|a u]; [done|]. intros _. destruct l; discriminate. Qed.

Lemma list_of_text l : Forall uid_ok l -> list_of (Some (text_of (EList l))) = l.
Proof.
  intros Hl. destruct l as [|u l]; [done|]. cbn [text_of].
  assert (u <> EmptyString) as Hu by (by apply Forall_cons in Hl as [[Hu _] _]).
  pose proof (Join_nonempty u l Hu). destruct (bytes_of_string _) as [|b bs] eqn:E; [done|]. cbn [list_of].
  rewrite <- E, string_of_bytes_of_string. apply Split_Join; [done|].
  eapply Forall_impl; [exact Hl|]. by intros x [_ Hx].
Qed.

Lemma Decode_object ms : Forall (fun m => Valid m.1 = true /\ proper m.2) ms ->
  Decode (Marshal (Obj ms)) = Ret (Obj ms) /\ exists b l, Marshal (Obj ms) = b :: l.
Proof.
  intros H%proper_Obj. pose proof (Decode_Marshal (Obj ms) [] H I) as E. rewrite app_nil_r in E.
  split; [exact E|]. by eexists _, _.
Qed.

Lemma read_token token level : entry_ok (EToken token level) ->
  (v ← Decode (text_of (EToken token level)); asMap v) = Ret [("device_level", pretty level); ("token", token)].
Proof.
  intros [Ht Hl]. destruct (Decode_object [member "device_level" (string_value (pretty level)); member "token" (string_value token)]) as [E _].
  { repeat (apply Forall_cons; split); [..|by apply List.Forall_nil]; (split; [reflexivity|]); apply text_proper;
      [apply utf8_pretty; by destruct Hl|done]. }
  cbn [text_of]. rewrite E. cbn. by rewrite !string_of_bytes_of_string.
Qed.

Lemma read_channel c mute parent : entry_ok (EChannel mute parent) ->
  exists ms, Decode (text_of (EChannel mute parent)) = Ret (Obj ms) /\
    from c ms = Ret (mkChannelInfo c.1 c.2 mute parent).
Proof.
  intros Hp. eexists. split.
  - apply Decode_object. repeat (apply Forall_cons; split); [..|by apply List.Forall_nil]; (split; [reflexivity|]); [done|by apply text_proper].
  - unfold from. change (last_member "mute" _) with (Bool mute). change (last_member "parent" _) with (string_value parent).
    cbn. by rewrite string_of_bytes_of_string.
Qed.

Lemma text_nonempty e : entry_ok e -> match e with EList _ => True | _ => exists b l, text_of e = b :: l end.
Proof.
  intros He. destruct e as [l|token level|mute parent|cs|z]; [done|by eexists _, _..|].
  destruct He as [Hz _]. cbn. rewrite pretty_nonneg by done. destruct (pretty_N_first (Z.to_N z)) as (c & t & -> & _).
  by eexists _, _.
Qed.

(** * Refinement *)
Section Refinement.
Context {B : Type} `{BoltLaws B} (slotCount : Z) (Hslots : 0 < slotCount < 2 ^ 32).
Implicit Types (s : B) (st : store).

Definition slot_of (key : string) : Z := HashCrc32 key mod slotCount.
Lemma slotNum_eq key : slotNum slotCount key = Ret (slot_of key).
Proof.
  unfold slotNum, GetSlotNum. rewrite wrapU_id by (unfold inU; lia). by rewrite (proj2 (Z.eqb_neq slotCount 0)) by lia.
Qed.

Definition owner (p : place) : string :=
  match p with PList _ c | PChannel c => c.1 | PToken uid _ | PConversations uid => uid | PApplied => "" end.
Definition home (p : place) : string :=
  match p with PApplied => rootBucketPrefix | _ => slotBucket (slot_of (owner p)) end.

(** The entry of a place is of its kind. *)
Definition typed (p : place) (e : entry) : Prop :=
  match p, e with
  | PList _ _, EList _ | PToken _ _, EToken _ _ | PChannel _, EChannel _ _
  | PConversations _, EConversations _ | PApplied, EApplied _ => True
  | _, _ => False
  end.

Record rep (st : store) (s : B) : Prop := mkRep {
  rep_slots slot : 0 <= slot < slotCount -> bHas (slotBucket slot) s = true;
  rep_root : bHas rootBucketPrefix s = true;
  rep_text p : place_ok p -> bGet (home p) (name_of p) s = text_of <$> st p;
  rep_entry p e : st p = Some e -> typed p e /\ entry_ok e
}.

Lemma rep_home st s p : rep st s -> bHas (home p) s = true.
Proof. intros Hr. destruct p; try apply (rep_slots st s Hr), Z.mod_pos_bound; try lia. apply (rep_root st s Hr). Qed.

(** What an operation on the file and one on the store have in common: the
    same result and again a store that stands for the file. *)
Definition agree {A} (m : io B A) (n : io store A) (s : B) (st : store) : Prop :=
  exists a s' st', m s = (a, s') /\ n st = (a, st') /\ rep st' s'.

Lemma agree_bind {A C} (m : io B A) (n : io store A) (f : A -> io B C) (g : A -> io store C) s st :
  agree m n s st -> (forall a s' st', rep st' s' -> agree (f a) (g a) s' st') -> agree (m ≫= f) (n ≫= g) s st.
Proof.
  intros (a & s' & st' & E1 & E2 & Hr) Hf. unfold agree, mbind, io_bind. rewrite E1, E2.
  destruct a as [a|e|]; [by apply Hf|by eexists _, _, _..].
Qed.

Lemma agree_ret {A} (a : A) s st : rep st s -> agree (mret a) (mret a) s st.
Proof. intros Hr. by exists (Ret a), s, st. Qed.

Lemma agree_gets {A} (m : io B A) (f : store -> A) s st : rep st s -> m s = (Ret (f st), s) -> agree m (gets f) s st.
Proof. intros Hr E. by exists (Ret (f st)), s, st. Qed.

Lemma bucket_there {A} b (f : io B A) s : bHas b s = true -> bucket b f s = f s.
Proof. intros Hb. unfold bucket. rewrite (bind_Ret_io _ _ s true s) by (unfold gets; by rewrite Hb). done. Qed.

(** ** Writing *)
Lemma put_agree p e s st : rep st s -> place_ok p -> typed p e -> entry_ok e ->
  agree (Update (bucket (home p) (bPut (home p) (name_of p) (text_of e)))) (put p e) s st.
Proof.
  intros Hr Hp Ht He. unfold agree, Update, put. rewrite bucket_there by by eapply rep_home.
  destruct (refused (name_of p) (text_of e)) as [er|] eqn:Hf.
  - rewrite (put_refused _ _ _ _ er Hf). by eexists _, _, _.
  - destruct (put_law (home p) (name_of p) (text_of e) s (rep_home _ _ _ Hr) Hf) as (s' & E & Hg & Hh & _). rewrite E.
    eexists _, s', _. split; [done|]. split; [done|]. split.
    + intros slot Hs. rewrite Hh. by eapply rep_slots.
    + rewrite Hh. by eapply rep_root.
    + intros q Hq. rewrite Hg. destruct (decide (q = p)) as [->|Hne]; [by rewrite decide_True|].
      rewrite decide_False; [by apply (rep_text st s Hr)|]. intros [= _ Eq]. by apply Hne, name_of_inj.
    + intros q e'. destruct (decide (q = p)) as [->|Hne]; [by intros [= <-]|apply (rep_entry st s Hr)].
Qed.

Lemma remove_agree p s st : rep st s -> place_ok p ->
  agree (Update (bucket (home p) (bDelete (home p) (name_of p)))) (remove p) s st.
Proof.
  intros Hr Hp. unfold agree, Update, remove. rewrite bucket_there by by eapply rep_home.
  destruct (delete_law (home p) (name_of p) s (rep_home _ _ _ Hr)) as (s' & E & Hg & Hh & _). rewrite E.
  eexists _, s', _. split; [done|]. split; [done|]. split.
  - intros slot Hs. rewrite Hh. by eapply rep_slots.
  - rewrite Hh. by eapply rep_root.
  - intros q Hq. rewrite Hg. destruct (decide (q = p)) as [->|Hne]; [by rewrite decide_True|].
    rewrite decide_False; [by apply (rep_text st s Hr)|]. intros [= _ Eq]. by apply Hne, name_of_inj.
  - intros q e'. destruct (decide (q = p)) as [->|Hne]; [done|apply (rep_entry st s Hr)].
Qed.

(** ** Reading *)
Lemma slot_bind {C} key (f : Z -> io B C) s : (lift (slotNum slotCount key) ≫= f) s = f (slot_of key) s.
Proof. apply bind_Ret_io. unfold lift. by rewrite slotNum_eq. Qed.

Lemma agree_slot {C} key (f : Z -> io B C) n s st : agree (f (slot_of key)) n s st ->
  agree (lift (slotNum slotCount key) ≫= f) n s st.
Proof. unfold agree. by rewrite slot_bind. Qed.

Lemma get_text p s st : rep st s -> place_ok p -> p <> PApplied ->
  get (slot_of (owner p)) (name_of p) s = (Ret (text_of <$> st p), s).
Proof.
  intros Hr Hp Hne. unfold get, View.
  assert (slotBucket (slot_of (owner p)) = home p) as -> by (by destruct p).
  rewrite bucket_there by (by eapply rep_home). unfold gets. cbn. by rewrite (rep_text st s Hr).
Qed.

Lemma list_text k c s st : rep st s -> 0 <= c.2 -> list_of (bGet (home (PList k c)) (getListKey k c) s) = list_at st k c.
Proof.
  intros Hr Hc. pose proof (rep_text st s Hr (PList k c) Hc) as E. cbn [name_of] in E. rewrite E. unfold list_at.
  destruct (st (PList k c)) as [e|] eqn:Hs; [|done]. destruct (rep_entry st s Hr _ _ Hs) as [Ht He].
  destruct e as [l|?|?|?|?]; try done. by apply list_of_text.
Qed.

Lemma AddList_agree k c us s st : rep st s -> 0 <= c.2 -> Forall uid_ok us ->
  agree (AddList slotCount k c us) (l ← gets (fun st => list_at st k c); put (PList k c) (EList (l ++ us))) s st.
Proof.
  intros Hr Hc Hus. apply agree_slot.
  assert (Forall uid_ok (list_at st k c ++ us)) as Hall.
  { apply Forall_app. split; [|done]. unfold list_at. destruct (st (PList k c)) as [e|] eqn:Hs; [|constructor].
    destruct (rep_entry st s Hr _ _ Hs) as [Ht He]. by destruct e. }
  pose proof (put_agree (PList k c) (EList (list_at st k c ++ us)) s st Hr Hc I Hall) as Hput.
  unfold agree in *. destruct Hput as (a & s' & st' & E1 & E2 & Hr').
  exists a, s', st'. split; [|split; [exact E2|exact Hr']].
  rewrite <- E1. unfold addList, Update. rewrite !bucket_there by (exact (rep_home _ _ (PList k c) Hr)).
  rewrite (bind_Ret_io _ _ s (bGet (home (PList k c)) (getListKey k c) s) s) by done.
  by rewrite (list_text k c s st Hr Hc).
Qed.

(** The entry of a place, with what its text says, when there is one. *)
Lemma entry_text p s st : rep st s -> place_ok p ->
  match st p with
  | Some e => typed p e /\ entry_ok e /\ bGet (home p) (name_of p) s = Some (text_of e)
  | None => bGet (home p) (name_of p) s = None
  end.
Proof.
  intros Hr Hp. pose proof (rep_text st s Hr p Hp) as E. destruct (st p) as [e|] eqn:Hs; [|done].
  by destruct (rep_entry st s Hr _ _ Hs).
Qed.

Lemma GetUserToken_text uid flag s st : rep st s -> 0 <= flag ->
  GetUserToken slotCount uid flag s =
  (Ret (match st (PToken uid flag) with Some (EToken token level) => (token, level) | _ => (EmptyString, 0) end), s).
Proof.
  intros Hr Hf. unfold GetUserToken. rewrite slot_bind, (bind_Ret_io _ _ _ _ _ (get_text (PToken uid flag) s st Hr Hf ltac:(done))).
  pose proof (entry_text (PToken uid flag) s st Hr Hf) as E. destruct (st (PToken uid flag)) as [e|]; [|done].
  destruct E as (Ht & He & _). destruct e as [l|token level|?|?|?]; try done. cbn [fmap option_fmap option_map].
  destruct (text_nonempty _ He) as (b & l & El). pose proof (read_token token level He) as E. rewrite El in E |- *.
  unfold lift. rewrite (bind_Ret_io _ _ _ _ s) by (by rewrite E).
  change (map_get "token" _) with token. change (map_get "device_level" _) with (pretty level).
  destruct He as [_ Hl]. rewrite Atoi_pretty by (unfold inS, inU in *; cbn in *; lia). by rewrite wrapU_id.
Qed.

Lemma db_GetChannel_text c s st : rep st s -> 0 <= c.2 ->
  exists m, db_GetChannel slotCount c s = (Ret m, s) /\ match st (PChannel c) with
  | Some (EChannel mute parent) => exists ms, m = Some ms /\ from c ms = Ret (mkChannelInfo c.1 c.2 mute parent)
  | _ => m = None
  end.
Proof.
  intros Hr Hc. unfold db_GetChannel. rewrite slot_bind, (bind_Ret_io _ _ _ _ _ (get_text (PChannel c) s st Hr Hc ltac:(done))).
  pose proof (entry_text (PChannel c) s st Hr Hc) as E. destruct (st (PChannel c)) as [e|]; [|by eexists].
  destruct E as (Ht & He & _). destruct e as [l|?|mute parent|?|?]; try done. cbn [fmap option_fmap option_map].
  destruct (read_channel c mute parent He) as (ms & E & Ef). unfold lift.
  rewrite (bind_Ret_io _ _ _ (Obj ms) s) by (by rewrite E). eauto.
Qed.

Lemma GetConversations_text uid s st : rep st s ->
  GetConversations slotCount uid s =
  (Ret (match st (PConversations uid) with Some (EConversations cs) => cs | _ => [] end), s).
Proof.
  intros Hr. unfold GetConversations, View. rewrite slot_bind.
  change (slotBucket (slot_of uid)) with (home (PConversations uid)). rewrite bucket_there by by eapply rep_home.
  unfold gets. rewrite (bind_Ret_io _ _ s (bGet (home (PConversations uid)) (getConversationKey uid) s) s) by done.
  pose proof (entry_text (PConversations uid) s st Hr I) as E. cbn [name_of] in E.
  destruct (st (PConversations uid)) as [e|]; [|by rewrite E].
  destruct E as (Ht & He & ->). destruct e as [l|?|?|cs|?]; try done.
  destruct (text_nonempty _ He) as (b & l & El). cbn [text_of] in El |- *.
  assert (ReadJSONByByte (Marshal (toJSON cs)) = Ret cs) as E.
  { pose proof (ReadJSON_ToJSON cs He) as E. unfold ToJSON in E. by rewrite bytes_of_string_of_bytes in E. }
  rewrite El in E |- *. unfold lift. by rewrite E.
Qed.

Lemma GetMetaData_text s st : rep st s ->
  GetMetaData s = (Ret (match st PApplied with Some (EApplied z) => z | _ => 0 end), s).
Proof.
  intros Hr. unfold GetMetaData, View. rewrite bucket_there by by eapply rep_root.
  unfold gets. rewrite (bind_Ret_io _ _ s (bGet rootBucketPrefix appliIndexKey s) s) by done.
  pose proof (entry_text PApplied s st Hr I) as E. cbn [name_of home] in E. destruct (st PApplied) as [e|]; [|by rewrite E].
  destruct E as (Ht & He & ->). destruct e as [l|?|?|?|z]; try done.
  destruct (text_nonempty _ He) as (b & l & El). cbn [text_of] in El |- *. rewrite El, <- El.
  rewrite string_of_bytes_of_string. by rewrite ParseUint_pretty.
Qed.

(** ** Every operation *)
Lemma impl_agree o s st : rep st s -> op_ok o -> agree (impl slotCount o) (spec o) s st.
Proof.
  intros Hr Ho. destruct o as [uid flag level token|uid flag|i|c|c|c|k c us|k c|k c|uid cs|uid|z|]; cbn [impl spec].
  - destruct Ho as [Hp He]. apply agree_bind; [|intros; by apply agree_ret].
    apply agree_slot, (put_agree (PToken uid flag) (EToken token level)); done.
  - apply agree_gets; [done|]. rewrite (bind_Ret_io _ _ _ _ _ (GetUserToken_text uid flag s st Hr Ho)).
    by destruct (st (PToken uid flag)) as [[]|].
  - destruct Ho as [Hp He]. apply agree_bind; [|intros; by apply agree_ret].
    apply agree_slot, (put_agree (PChannel (ChannelID i, ChannelType i)) (EChannel (Mute i) (Parent i))); done.
  - destruct (db_GetChannel_text c s st Hr Ho) as (m & E & Hm). apply agree_gets; [done|].
    unfold fmap, io_fmap, GetChannel. erewrite bind_Ret_io; [reflexivity|]. rewrite (bind_Ret_io _ _ _ _ _ E).
    unfold lift. destruct (st (PChannel c)) as [[]|]; try (subst; by destruct c).
    destruct Hm as (ms & -> & Hf). change (default [] (Some ms)) with ms. by rewrite Hf.
  - destruct (db_GetChannel_text c s st Hr Ho) as (m & E & Hm). apply agree_gets; [done|].
    unfold fmap, io_fmap, ExistChannel. erewrite bind_Ret_io; [reflexivity|]. rewrite (bind_Ret_io _ _ _ _ _ E).
    pose proof (entry_text (PChannel c) s st Hr Ho) as Et. unfold mret, io_ret. do 2 f_equal. apply bool_decide_ext.
    destruct (st (PChannel c)) as [e|]; [|by rewrite Hm]. destruct Et as (Ht & _). destruct e; try done.
    by destruct Hm as (ms & -> & _).
  - apply agree_bind; [|intros; by apply agree_ret]. apply agree_slot, (remove_agree (PChannel c)); done.
  - destruct Ho as [Hp He]. destruct (AddList_agree k c us s st Hr Hp He) as (a & s' & st' & E1 & E2 & Hr').
    unfold agree. unfold mbind in E2 |- *. unfold io_bind in E2 |- *. rewrite E1. unfold gets in E2 |- *. rewrite E2.
    destruct a; by eexists _, _, _.
  - apply agree_gets; [done|]. unfold fmap, io_fmap, GetList. erewrite bind_Ret_io; [reflexivity|].
    rewrite slot_bind. unfold getList, View. change (slotBucket (slot_of c.1)) with (home (PList k c)).
    rewrite bucket_there by by eapply rep_home. unfold gets.
    rewrite (bind_Ret_io _ _ s (bGet (home (PList k c)) (getListKey k c) s) s) by done.
    by rewrite (list_text k c s st Hr Ho).
  - apply agree_bind; [|intros; by apply agree_ret]. apply agree_slot, (remove_agree (PList k c)); done.
  - apply agree_bind; [|intros; by apply agree_ret].
    pose proof (put_agree (PConversations uid) (EConversations cs) s st Hr I I Ho) as (a & s' & st' & E1 & E2 & Hr').
    exists a, s', st'. split; [|done]. rewrite <- E1. unfold AddOrUpdateConversations, Update. by rewrite slot_bind.
  - apply agree_gets; [done|]. unfold fmap, io_fmap. by rewrite (bind_Ret_io _ _ _ _ _ (GetConversations_text uid s st Hr)).
  - apply agree_bind; [|intros; by apply agree_ret]. by apply (put_agree PApplied (EApplied z)).
  - apply agree_gets; [done|]. unfold fmap, io_fmap. by rewrite (bind_Ret_io _ _ _ _ _ (GetMetaData_text s st Hr)).
Qed.

Lemma history_agree os s st : rep st s -> Forall op_ok os ->
  exists l s' st', history (impl slotCount) os s = (l, s') /\ history spec os st = (l, st') /\ rep st' s'.
Proof.
  intros Hr Hos. revert s st Hr. induction Hos as [|o os Ho _ IH]; intros s st Hr; [by eexists _, _, _|].
  destruct (impl_agree o s st Hr Ho) as (a & s1 & st1 & E1 & E2 & Hr1). cbn [history]. rewrite E1, E2.
  destruct (IH s1 st1 Hr1) as (l & s' & st' & E1' & E2' & Hr'). rewrite E1', E2'. by eexists _, _, _.
Qed.

(** ** Removing from a list

    The list is looked for in the bucket of the slot of its key. When that is
    the slot of the channel, the elements are removed. *)
Lemma removeList_agree k c us s st : rep st s -> 0 <= c.2 -> slot_of (getListKey k c) = slot_of c.1 ->
  agree (RemoveList slotCount k c us)
    (l ← gets (fun st => list_at st k c); put (PList k c) (EList (filter (fun v => v ∉ us) l))) s st.
Proof.
  intros Hr Hc Hslot. apply agree_slot.
  assert (Forall uid_ok (filter (fun v => v ∉ us) (list_at st k c))) as Hall.
  { apply Forall_forall. intros u [_ Hu]%list_elem_of_filter. revert u Hu. apply Forall_forall.
    unfold list_at. destruct (st (PList k c)) as [e|] eqn:Hs; [|constructor].
    destruct (rep_entry st s Hr _ _ Hs) as [Ht He]. by destruct e. }
  destruct (put_agree (PList k c) (EList (filter (fun v => v ∉ us) (list_at st k c))) s st Hr Hc I Hall) as (a & s' & st' & E1 & E2 & Hr').
  exists a, s', st'. split; [|split; [exact E2|exact Hr']].
  rewrite <- E1. unfold removeList, Update. rewrite slot_bind, Hslot.
  rewrite !bucket_there by (exact (rep_home _ _ (PList k c) Hr)).
  rewrite (bind_Ret_io _ _ s (bGet (home (PList k c)) (getListKey k c) s) s) by done.
  by rewrite (list_text k c s st Hr Hc).
Qed.

(** Otherwise the store does not change. *)
Lemma removeList_elsewhere k c us s st : rep st s -> 0 <= c.2 -> slot_of (getListKey k c) <> slot_of c.1 ->
  exists a s', RemoveList slotCount k c us s = (a, s') /\ rep st s'.
Proof.
  intros Hr Hc Hslot. unfold RemoveList. rewrite slot_bind. unfold removeList, Update. rewrite slot_bind.
  assert (0 <= slot_of (getListKey k c) < slotCount) as Hb by (apply Z.mod_pos_bound; lia).
  set (b := slotBucket (slot_of (getListKey k c))).
  assert (bHas b s = true) as Hh by (by apply (rep_slots st s Hr)).
  rewrite bucket_there by done. rewrite (bind_Ret_io _ _ s (bGet b (getListKey k c) s) s) by done.
  set (v := bytes_of_string _). destruct (refused (getListKey k c) v) as [e|] eqn:Hf.
  { rewrite (put_refused _ _ _ _ e Hf). by eexists _, _. }
  destruct (put_law b (getListKey k c) v s Hh Hf) as (s' & E & Hg & Hh' & _). rewrite E. eexists _, _. split; [done|]. split.
  - intros slot Hs. rewrite Hh'. by eapply rep_slots.
  - rewrite Hh'. by eapply rep_root.
  - intros q Hq. rewrite Hg, decide_False; [by apply (rep_text st s Hr)|]. intros [= Eh En].
    change (name_of q = name_of (PList k c)) in En. apply name_of_inj in En as ->; [|done..].
    apply Hslot. symmetry. apply (inj pretty). exact Eh.
  - apply (rep_entry st s Hr).
Qed.

(** ** The cursor *)
Lemma cursor_text z : inU 32 z -> has_cursor (Some (bytes_of_string (pretty z))) = true /\
  cursor_of (Some (bytes_of_string (pretty z))) = z.
Proof.
  intros Hz. assert (inU 64 z) as Hz' by (unfold inU in *; lia).
  destruct (text_nonempty (EApplied z) Hz') as (b & l & E). cbn [text_of] in E. rewrite E. cbn [cursor_of has_cursor].
  by rewrite <- E, string_of_bytes_of_string, ParseUint_pretty, wrapU_id.
Qed.

Lemma GetCursor_spec uid s : bHas (slotBucket (slot_of uid)) s = true ->
  GetMessageOfUserCursor slotCount uid s =
  (Ret (cursor_of (bGet (slotBucket (slot_of uid)) (getMessageOfUserCursorKey uid) s)), s).
Proof. intros Hh. unfold GetMessageOfUserCursor. rewrite slot_bind. unfold View. by rewrite bucket_there. Qed.

(** ** A new file *)
Lemma create_slots (ns : list nat) s : exists s', for_each (fun i => bCreate (slotBucket (Z.of_nat i))) ns s = (Ret tt, s') /\
  (forall b, bHas b s = true \/ (exists i, i ∈ ns /\ b = slotBucket (Z.of_nat i)) -> bHas b s' = true) /\
  (forall b k, bGet b k s' = bGet b k s).
Proof.
  revert s. induction ns as [|i ns IH]; intros s; cbn [for_each].
  - exists s. split; [done|]. split; [|done]. intros b [Hb|(i & Hi & _)]; [done|by inversion Hi].
  - destruct (create_law (slotBucket (Z.of_nat i)) s) as (s1 & E1 & Hh1 & Hg1 & _). rewrite (bind_Ret_io _ _ _ _ _ E1).
    destruct (IH s1) as (s' & E & Hh & Hg). exists s'. split; [exact E|]. split; [|intros; by rewrite Hg, Hg1].
    intros b Hb. apply Hh. rewrite Hh1. destruct Hb as [->|(j & Hj & ->)]; [left; apply orb_true_r|].
    apply elem_of_cons in Hj as [->|Hj]; [left; by rewrite bool_decide_eq_true_2|right; eauto].
Qed.

Lemma NewFileDB_rep : exists s, NewFileDB slotCount bOpen = (Ret tt, s) /\ rep empty_store s.
Proof.
  unfold NewFileDB, must, Update.
  destruct (create_law rootBucketPrefix bOpen) as (s1 & E1 & Hh1 & Hg1 & _). rewrite (bind_Ret_io _ _ _ _ _ E1).
  destruct (create_law notifyQueuePrefix s1) as (s2 & E2 & Hh2 & Hg2 & _). rewrite (bind_Ret_io _ _ _ _ _ E2).
  destruct (create_slots (seq 0 (Z.to_nat slotCount)) s2) as (s & E & Hh & Hg). rewrite E. exists s. split; [done|].
  assert (bHas rootBucketPrefix s2 = true) as Hroot.
  { rewrite Hh2, Hh1. rewrite (bool_decide_eq_true_2 (rootBucketPrefix = rootBucketPrefix)) by done. apply orb_true_r. }
  split.
  - intros slot Hs. apply Hh. right. exists (Z.to_nat slot). split; [apply elem_of_seq; lia|]. by rewrite Z2Nat.id by lia.
  - apply Hh. by left.
  - intros p _. rewrite Hg, Hg2, Hg1. cbn. apply open_law.
  - done.
Qed.
End Refinement.


Definition example_ops : list op :=
  [OAddList Subscribers ("g1", 2) ["alice"; "bob"]; OAddList Denylist ("g1", 2) ["mallory"];
   OUpdateUserToken "alice" 0 1 "t-1"; OAddOrUpdateChannel (mkChannelInfo "g1" 2 true "p");
   OAddList Subscribers ("g1", 2) ["carol"]; OSaveMetaData 7; OGetList Subscribers ("g1", 2); OGetUserToken "alice" 0;
   OGetUserToken "bob" 0; OGetChannel ("g1", 2); OExistChannel ("g2", 2); ORemoveAllList Denylist ("g1", 2);
   OGetList Denylist ("g1", 2); OGetMetaData].
Definition example_answers : list (outcome answer) :=
  [Ret ADone; Ret ADone; Ret ADone; Ret ADone; Ret ADone; Ret ADone; Ret (AList ["alice"; "bob"; "carol"]);
   Ret (AToken "t-1" 1); Ret (AToken "" 0); Ret (AChannel (mkChannelInfo "g1" 2 true "p")); Ret (ABool false);
   Ret ADone; Ret (AList []); Ret (ANumber 7)].

Lemma example_ops_ok : Forall op_ok example_ops.
Proof. repeat constructor; try discriminate; try (cbn; lia); try reflexivity; cbn; repeat split; discriminate. Qed.


(** Removing subscribers (or members of the other lists) of a channel
    does nothing that any later operation could tell, unless the hash of the
    list's key happens to give the slot of the channel: [removeList] works on
    the bucket of the key. *)
Theorem removed_members_stay {B} `{BoltLaws B} (slotCount : Z) (before after : list op) k c us (s : B) :
  0 < slotCount < 2 ^ 32 -> Forall op_ok before -> Forall op_ok after -> 0 <= c.2 ->
  NewFileDB slotCount bOpen = (Ret tt, s) ->
  slot_of slotCount (getListKey k c) <> slot_of slotCount c.1 ->
  let s1 := (history (impl slotCount) before s).2 in
  let s2 := (RemoveList slotCount k c us s1).2 in
  (history (impl slotCount) after s2).1 = (history (impl slotCount) after s1).1.
Proof.
  intros Hs Hb Ha Hc E Hslot. destruct (NewFileDB_rep (B:=B) slotCount Hs) as (s0 & E0 & Hr0).
  rewrite E in E0. injection E0 as ->.
  destruct (history_agree slotCount Hs before s0 empty_store Hr0 Hb) as (l & s1 & st1 & E1 & _ & Hr1). rewrite E1. cbn zeta.
  cbn [snd]. destruct (removeList_elsewhere slotCount Hs k c us s1 st1 Hr1 Hc Hslot) as (a & s2 & E2 & Hr2). rewrite E2. cbn [snd].
  destruct (history_agree slotCount Hs after s1 st1 Hr1 Ha) as (l1 & ? & ? & -> & E3 & _).
  destruct (history_agree slotCount Hs after s2 st1 Hr2 Ha) as (l2 & ? & ? & -> & E4 & _). cbn [fst]. congruence.
Qed.

(** The 256 slots of the default options, and a group. *)
Lemma removed_members_stay_witness :
  let c := ("g1", 2) in
  exists s : MemBolt.file, NewFileDB 256 bOpen = (Ret tt, s) /\
    let s1 := (history (impl 256) [OAddList Subscribers c ["alice"; "bob"]] s).2 in
    let s2 := (RemoveList 256 Subscribers c ["bob"] s1).2 in
    (history (impl 256) [OGetList Subscribers c] s2).1 = [Ret (AList ["alice"; "bob"])].
Proof.
  intros c. assert (0 < 256 < 2 ^ 32) as H4 by lia. destruct (NewFileDB_rep (B:=MemBolt.file) 256 H4) as (s & E & Hr).
  assert (Forall op_ok [OAddList Subscribers c ["alice"; "bob"]]) as Hb
    by (repeat constructor; try discriminate; cbn; lia).
  assert (Forall op_ok [OGetList Subscribers c]) as Ha by (repeat constructor; cbn; lia).
  exists s. split; [exact E|]. cbn zeta.
  rewrite (removed_members_stay 256 [OAddList Subscribers c ["alice"; "bob"]] [OGetList Subscribers c] Subscribers c ["bob"] s
             H4 Hb Ha ltac:(cbn; lia) E ltac:(vm_compute; discriminate)).
  destruct (history_agree 256 H4 _ s empty_store Hr Hb) as (l & s1 & st1 & E1 & E2 & Hr1). rewrite E1. cbn [snd].
  destruct (history_agree 256 H4 _ s1 st1 Hr1 Ha) as (l' & ? & ? & E3 & E4 & _). rewrite E3.
  injection E2 as <- <-. vm_compute in E4. injection E4 as <- <-. reflexivity.
Defined.

Lemma UpdateCursor_spec {B} `{BoltLaws B} (slotCount : Z) (uid : string) lastSeq offset old (s : B) :
  0 < slotCount < 2 ^ 32 -> inU 32 lastSeq -> inU 32 offset -> bHas (slotBucket (slot_of slotCount uid)) s = true ->
  zlen (bytes_of_string (getMessageOfUserCursorKey uid)) <= 32768 ->
  GetMessageOfUserCursor slotCount uid s = (Ret old, s) ->
  exists s', UpdateMessageOfUserCursorIfNeed slotCount lastSeq uid offset s = (Ret tt, s') /\
  bHas (slotBucket (slot_of slotCount uid)) s' = true /\ exists new, GetMessageOfUserCursor slotCount uid s' = (Ret new, s') /\
    (0 <= new) /\ (new <= lastSeq) /\
    (old < lastSeq -> new = Z.max old (Z.min offset lastSeq)) /\
    (lastSeq <= old -> new = Z.min offset lastSeq).
Proof.
  intros Hs Hl Ho Hh Hk Hold. rewrite GetCursor_spec in Hold by done. injection Hold as Hold.
  set (b := slotBucket (slot_of slotCount uid)) in *. set (k := getMessageOfUserCursorKey uid) in *.
  unfold UpdateMessageOfUserCursorIfNeed. rewrite slot_bind by done. fold k. fold b.
  set (act := if offset >? lastSeq then lastSeq else offset).
  assert (act = Z.min offset lastSeq) as Eact by (unfold act; destruct (Z.gtb_spec offset lastSeq); lia).
  assert (inU 32 act) as Hact by (rewrite Eact; unfold inU in *; lia).
  unfold Update. rewrite bucket_there by done. rewrite (bind_Ret_io _ _ s (bGet b k s) s) by done. rewrite Hold.
  assert (0 <= old) as Hpos by (rewrite <- Hold; destruct (bGet b k s) as [[]|]; cbn; [lia|apply wrapU_range; lia|lia]).
  destruct (has_cursor (bGet b k s) && ((act <=? old) && (old <? lastSeq))) eqn:Hc.
  - exists s. split; [done|]. split; [done|]. exists old. rewrite GetCursor_spec by done. fold b. fold k. rewrite Hold.
    zbool. split_and!; try done; unfold inU in *; lia.
  - assert (refused k (bytes_of_string (pretty act)) = None) as Hf.
    { unfold refused. rewrite (bool_decide_eq_false_2 (k = EmptyString)) by done.
      rewrite (proj2 (Z.ltb_ge _ _)); [rewrite (proj2 (Z.ltb_ge _ _)); [done|]|].
      - pose proof (length_pretty 9 act ltac:(unfold inU in Hact; lia)). unfold zlen. lia.
      - exact Hk. }
    destruct (put_law b k (bytes_of_string (pretty act)) s Hh Hf) as (s' & E & Hg & Hh' & _).
    exists s'. split; [by rewrite E|]. split; [by rewrite Hh'|]. exists act. rewrite GetCursor_spec by first [done|by rewrite Hh']. fold b. fold k.
    rewrite Hg, decide_True by done. destruct (cursor_text act Hact) as [_ ->].
    split; [done|]. split; [by destruct Hact|]. split; [lia|]. split; intros Hlt; [|done].
    unfold inU in *. destruct (bGet b k s) as [[|]|] eqn:Eg; cbn [has_cursor andb] in Hc; try (cbn in Hold; lia).
Qed.

(** C31: the cursor of a user's queue after an acknowledgement up to
    [offset]: it never passes the last message, it never goes back while it is
    behind the last message, and once it stands at the last message (or
    behind it) it goes wherever the acknowledgement says, also back. *)
Theorem cursor_after_ack {B} `{BoltLaws B} (slotCount : Z) (uid : string) lastSeq offset old (s : B) :
  0 < slotCount < 2 ^ 32 -> inU 32 lastSeq -> inU 32 offset -> bHas (slotBucket (slot_of slotCount uid)) s = true ->
  zlen (bytes_of_string (getMessageOfUserCursorKey uid)) <= 32768 ->
  GetMessageOfUserCursor slotCount uid s = (Ret old, s) ->
  exists s', UpdateMessageOfUserCursorIfNeed slotCount lastSeq uid offset s = (Ret tt, s') /\
  exists new, GetMessageOfUserCursor slotCount uid s' = (Ret new, s') /\
    (0 <= new) /\ (new <= lastSeq) /\
    (old < lastSeq -> new = Z.max old (Z.min offset lastSeq)) /\
    (lastSeq <= old -> new = Z.min offset lastSeq).
Proof.
  intros Hs Hl Ho Hh Hk Hold.
  destruct (UpdateCursor_spec slotCount uid lastSeq offset old s Hs Hl Ho Hh Hk Hold) as (s' & E & _ & Hnew). eauto.
Qed.

(** User u has read everything up to 9, and a late acknowledgement of 3
    takes the cursor back. *)
Lemma cursor_after_ack_witness : exists s s' : MemBolt.file,
  GetMessageOfUserCursor 4 "u" s = (Ret 9, s) /\
  UpdateMessageOfUserCursorIfNeed 4 9 "u" 3 s = (Ret tt, s') /\ GetMessageOfUserCursor 4 "u" s' = (Ret 3, s').
Proof.
  assert (0 < 4 < 2 ^ 32) as H4 by lia. assert (inU 32 9) as H9 by (unfold inU; lia).
  assert (zlen (bytes_of_string (getMessageOfUserCursorKey "u")) <= 32768) as Hk by (vm_compute; congruence).
  set (s := <[slotBucket (slot_of 4 "u") := (0, {[getMessageOfUserCursorKey "u" := bytes_of_string "9"]})]> (∅ : MemBolt.file)).
  assert (bHas (slotBucket (slot_of 4 "u")) s = true) as Hs by (vm_compute; reflexivity).
  assert (GetMessageOfUserCursor 4 "u" s = (Ret 9, s)) as Hg by (vm_compute; reflexivity).
  destruct (cursor_after_ack 4 "u" 9 3 9 s H4 H9 ltac:(unfold inU; lia) Hs Hk Hg) as (s' & E1 & new & E2 & _ & _ & _ & Hn).
  exists s, s'. split; [exact Hg|]. split; [exact E1|]. rewrite E2, Hn by lia. reflexivity.
Defined.
