(* ===== verification/Notify.v ===== *)
(** The queue of notifications of the data base (internal/db/db_file_public.go):
    its keys are the bucket's sequence numbers in big-endian bytes, so that a
    cursor meets the messages in the order they came in. *)
From Stdlib Require Import ZArith Lia Strings.Byte Strings.Ascii Strings.String.
From stdpp Require Import base list gmap strings pretty sorting.
From S2P Require Import Prelude Effects Keys Strconv Json JsonTypes Wire Frames Ids PQueue Model Storage FileDB Store.

(** * Big-endian bytes are in the order of the numbers *)
Lemma be_mod n z : be n z = be n (z mod 2 ^ (8 * Z.of_nat n)).
Proof.
  assert (forall k, (k <= n)%nat -> be k z = be k (z mod 2 ^ (8 * Z.of_nat n))) as H; [|by apply H].
  induction k as [|k IH]; intros Hk; [done|]. cbn [be]. rewrite IH by lia. f_equal.
  rewrite <- byte_of_Z_mod, <- (byte_of_Z_mod (Z.shiftr (z mod _) _)). f_equal.
  rewrite !Z.shiftr_div_pow2 by lia. change 256 with (2 ^ 8).
  replace (8 * Z.of_nat n) with (8 * Z.of_nat k + 8 + 8 * Z.of_nat (n - S k)) by lia.
  rewrite !Z.pow_add_r by lia. apply Z.bits_inj'. intros i Hi. rewrite <- !Z.pow_add_r by lia.
  destruct (Z.ltb_spec i 8).
  - rewrite !Z.mod_pow2_bits_low, !Z.div_pow2_bits, Z.mod_pow2_bits_low by lia. done.
  - by rewrite !Z.mod_pow2_bits_high by lia.
Qed.

Lemma be_le n a b : 0 <= a <= b -> b < 2 ^ (8 * Z.of_nat n) -> bytes_le (be n a) (be n b) = true.
Proof.
  revert a b. induction n as [|n IH]; intros a b Hab Hb; [done|]. cbn [be bytes_le].
  assert (2 ^ (8 * Z.of_nat (S n)) = 2 ^ (8 * Z.of_nat n) * 256) as Hp.
  { replace (8 * Z.of_nat (S n)) with (8 * Z.of_nat n + 8) by lia. by rewrite Z.pow_add_r by lia. }
  set (m := 2 ^ (8 * Z.of_nat n)) in *. assert (0 < m) as Hm by (unfold m; lia).
  rewrite !Z_of_byte_of_Z, !Z.shiftr_div_pow2 by lia. fold m.
  assert (b / m < 256) by (apply Z.div_lt_upper_bound; lia).
  assert (0 <= a / m) by (apply Z.div_pos; lia). assert (a / m <= b / m) by (apply Z.div_le_mono; lia).
  rewrite !Z.mod_small by lia. destruct (Z.ltb_spec (a / m) (b / m)) as [|Hge]; [done|].
  assert (a / m = b / m) as E by lia. rewrite E, bool_decide_eq_true_2 by done. cbn [orb andb].
  rewrite (be_mod n a), (be_mod n b). fold m. pose proof (Z.div_mod a m). pose proof (Z.div_mod b m).
  pose proof (Z.mod_pos_bound a m). pose proof (Z.mod_pos_bound b m). apply IH; [nia|]. fold m. lia.
Qed.

Lemma itob_inj a b : inU 64 a -> inU 64 b -> itob a = itob b -> a = b.
Proof.
  intros Ha Hb E. unfold itob in E. apply (f_equal bytes_of_string) in E. rewrite !bytes_of_string_of_bytes in E.
  apply (f_equal (be_val 0)) in E. rewrite !be_val_be in E. unfold inU in *. rewrite !Z.mod_small in E by (cbn; lia). lia.
Qed.

Section Queue.
Context {B : Type} `{BoltLaws B}.

(** The entries of a queue that holds the messages [ms], the first of which
    has the number [n]. *)
Fixpoint numbered (n : Z) (ms : list Db.Message) : list (string * list byte) :=
  match ms with [] => [] | m :: ms' => (itob n, Marshal (toJSON m)) :: numbered (n + 1) ms' end.

Lemma numbered_app n ms m : numbered n (ms ++ [m]) = numbered n ms ++ [(itob (n + zlen ms), Marshal (toJSON m))].
Proof.
  revert n. induction ms as [|x ms IH]; intros n; cbn [numbered app]; [by rewrite Z.add_0_r|].
  rewrite IH, zlen_cons. by replace (n + (1 + zlen ms)) with (n + 1 + zlen ms) by lia.
Qed.

Lemma elem_numbered n ms k v : (k, v) ∈ numbered n ms -> exists i, n <= i < n + zlen ms /\ k = itob i.
Proof.
  revert n. induction ms as [|m ms IH]; intros n; cbn [numbered]; [intros Hi; inversion Hi|].
  rewrite elem_of_cons, zlen_cons. pose proof (zlen_nonneg ms).
  intros [[= -> _]|(i & Hi & ->)%IH]; [exists n|exists i]; (split; [lia|done]).
Qed.

Lemma numbered_sorted n ms : 0 <= n -> n + zlen ms <= 2 ^ 64 -> StronglySorted key_le (numbered n ms).
Proof.
  revert n. induction ms as [|m ms IH]; intros n Hn Hl; [constructor|]. rewrite zlen_cons in Hl. cbn [numbered]. constructor.
  - apply IH; lia.
  - apply Forall_forall. intros [k v] (i & Hi & ->)%elem_numbered. unfold key_le. cbn [fst]. unfold itob.
    rewrite !bytes_of_string_of_bytes. apply be_le; cbn; lia.
Qed.

Lemma numbered_once n ms : 0 <= n -> n + zlen ms <= 2 ^ 64 -> NoDup (numbered n ms).*1.
Proof.
  revert n. induction ms as [|m ms IH]; intros n Hn Hl; [constructor|]. rewrite zlen_cons in Hl. cbn [numbered fmap list_fmap fst].
  constructor; [|apply IH; lia].
  intros ([k v] & E & (i & Hi & ->)%elem_numbered)%list_elem_of_fmap. cbn in E. pose proof (zlen_nonneg ms).
  apply itob_inj in E; unfold inU; lia.
Qed.

(** The bucket holds the messages, numbered from 1. *)
Record queued (ms : list Db.Message) (s : B) : Prop := {
  q_has : bHas notifyQueuePrefix s = true;
  q_sequence : bSequence notifyQueuePrefix s = zlen ms;
  q_entries k v : bGet notifyQueuePrefix k s = Some v <-> (k, v) ∈ numbered 1 ms
}.

(** A cursor meets them in order. *)
Lemma queued_entries ms s : queued ms s -> zlen ms < 2 ^ 64 -> bEntries notifyQueuePrefix s = numbered 1 ms.
Proof.
  intros Hq Hl. pose proof (numbered_once 1 ms ltac:(lia) ltac:(lia)) as Hn.
  pose proof (entries_once notifyQueuePrefix s) as Hn'.
  assert (forall x, x ∈ bEntries notifyQueuePrefix s <-> x ∈ numbered 1 ms) as Hx.
  { intros [k v]. rewrite entries_law. apply (q_entries ms s Hq). }
  apply (StronglySorted_unique_strong key_le).
  - intros [k1 v1] [k2 v2] H1 H2 L1 L2. apply Hx, entries_law in H2. apply entries_law in H1.
    pose proof (bytes_le_antisym _ _ L1 L2) as E. cbn [fst] in E.
    assert (k1 = k2) as -> by (by rewrite <- (string_of_bytes_of_string k1), E, string_of_bytes_of_string).
    rewrite H1 in H2. by injection H2 as ->.
  - apply entries_sorted.
  - apply numbered_sorted; lia.
  - apply NoDup_Permutation; [by eapply NoDup_fmap_1|by eapply NoDup_fmap_1|exact Hx].
Qed.

(** A message that fits into the file. *)
Definition fits (m : Db.Message) : Prop := json_ok m /\ zlen (Marshal (toJSON m)) <= 2 ^ 31 - 2.

Lemma Append_queued ms m s : queued ms s -> zlen ms + 1 < 2 ^ 64 -> fits m ->
  exists s', AppendMessageOfNotifyQueue m s = (Ret tt, s') /\ queued (ms ++ [m]) s'.
Proof.
  intros Hq Hl [_ Hm]. pose proof (zlen_nonneg ms) as Hpos.
  unfold AppendMessageOfNotifyQueue, Update. rewrite bucket_there by apply (q_has ms s Hq).
  destruct (next_law notifyQueuePrefix s (q_has ms s Hq)) as (s1 & E1 & Hg1 & Hh1 & Hs1).
  rewrite (bind_Ret_io _ _ _ _ _ E1), (q_sequence ms s Hq), (wrapU_id 64) by (unfold inU; lia).
  assert (refused (itob (zlen ms + 1)) (Marshal (toJSON m)) = None) as Hf.
  { unfold refused. assert (zlen (bytes_of_string (itob (zlen ms + 1))) = 8) as E8
      by (unfold itob; by rewrite bytes_of_string_of_bytes, zlen_be).
    rewrite (bool_decide_eq_false_2 (itob _ = EmptyString)) by (intros E; by rewrite E in E8). rewrite E8.
    change (32768 <? 8) with false. cbn iota. by rewrite (proj2 (Z.ltb_ge _ _)). }
  destruct (put_law notifyQueuePrefix (itob (zlen ms + 1)) (Marshal (toJSON m)) s1) as (s' & E & Hg & Hh & Hs);
    [by rewrite Hh1; apply (q_has ms s Hq)|exact Hf|].
  exists s'. rewrite E. split; [done|]. split.
  - rewrite Hh, Hh1. apply (q_has ms s Hq).
  - rewrite Hs, Hs1, decide_True, (q_sequence ms s Hq), zlen_app by done. change (zlen [m]) with 1. apply wrapU_id. unfold inU. lia.
  - intros k v. rewrite numbered_app. set (txt := Marshal (toJSON m)) in *. clearbody txt. rewrite elem_of_app, list_elem_of_singleton, Hg, Hg1.
    replace (1 + zlen ms) with (zlen ms + 1) by lia. case_decide as Ek.
    + injection Ek as ->. split; [intros [= <-]; by right|]. intros [Hi|[= <-]]; [|done]. exfalso.
      apply elem_numbered in Hi as (i & Hi & E'). apply itob_inj in E'; unfold inU; lia.
    + rewrite (q_entries ms s Hq). split; [by left|]. intros [Hi|[= -> _]]; [done|congruence].
Qed.

Lemma read_numbered ms n i count : Forall json_ok ms ->
  read_queue i count (numbered n ms) = Ret (take (Z.to_nat (count - i)) ms).
Proof.
  intros Hms. revert n i. induction Hms as [|m ms Hm _ IH]; intros n i; cbn [numbered read_queue]; [by rewrite take_nil|].
  destruct (Z.gtb_spec i (count - 1)) as [Hi|Hi]; [by replace (Z.to_nat (count - i)) with O by lia|].
  assert (ReadJSONByByte (Marshal (toJSON m)) = Ret m) as ->.
  { pose proof (ReadJSON_ToJSON m Hm) as E. unfold ToJSON in E. by rewrite bytes_of_string_of_bytes in E. }
  cbn [mbind outcome_bind]. rewrite IH. cbn [mbind outcome_bind].
  by replace (Z.to_nat (count - i)) with (S (Z.to_nat (count - (i + 1)))) by lia.
Qed.

Lemma queue_all ms s0 : queued [] s0 -> Forall fits ms -> zlen ms < 2 ^ 64 ->
  exists s, for_each AppendMessageOfNotifyQueue ms s0 = (Ret tt, s) /\ queued ms s.
Proof.
  intros Hq Hms Hl.
  destruct (for_each_inv AppendMessageOfNotifyQueue queued ms s0) as (s & E & Hs); [|done|by exists s].
  intros m l1 l2 s -> Hq1. apply Forall_app in Hms as [_ [Hm _]%Forall_cons].
  rewrite zlen_app, zlen_cons in Hl. pose proof (zlen_nonneg l2). apply Append_queued; [done|lia|done].
Qed.

Lemma NewFileDB_queue slotCount : exists s, NewFileDB slotCount bOpen = (Ret tt, s) /\ queued [] s.
Proof.
  unfold NewFileDB, must, Update.
  destruct (create_law rootBucketPrefix bOpen) as (s1 & E1 & Hh1 & Hg1 & Hs1). rewrite (bind_Ret_io _ _ _ _ _ E1).
  destruct (create_law notifyQueuePrefix s1) as (s2 & E2 & Hh2 & Hg2 & Hs2). rewrite (bind_Ret_io _ _ _ _ _ E2).
  destruct (for_each_inv (fun i => bCreate (slotBucket (Z.of_nat i)))
    (fun _ s => queued [] s) (seq 0 (Z.to_nat slotCount)) s2) as (s & E & Hs).
  - intros i l1 l2 s _ Hq. destruct (create_law (slotBucket (Z.of_nat i)) s) as (s' & E & Hh & Hg & Hs).
    exists s'. split; [exact E|]. split; [rewrite Hh, (q_has [] s Hq); apply orb_true_r|rewrite Hs; apply (q_sequence [] s Hq)|].
    intros k v. rewrite Hg. apply (q_entries [] s Hq).
  - split.
    + rewrite Hh2. by rewrite bool_decide_eq_true_2.
    + rewrite Hs2, Hs1. apply (open_law notifyQueuePrefix EmptyString).
    + intros k v. rewrite Hg2, Hg1. destruct (open_law notifyQueuePrefix k) as (_ & -> & _).
      split; [done|intros Hi; inversion Hi].
  - exists s. by rewrite E.
Qed.
End Queue.

(** C14: the queue of notifications is first in, first out: after any messages
    were appended, [GetMessagesOfNotifyQueue] gives the first [count] of them
    in the order they were appended, and takes none away. *)
Theorem notify_queue_fifo {B} `{BoltLaws B} (slotCount count : Z) (ms : list Db.Message) :
  Forall fits ms -> zlen ms < 2 ^ 64 ->
  exists s0 s, NewFileDB slotCount bOpen = (Ret tt, s0) /\
    for_each AppendMessageOfNotifyQueue ms s0 = (Ret tt, s) /\
    GetMessagesOfNotifyQueue count s = (Ret (take (Z.to_nat count) ms), s).
Proof.
  intros Hms Hl. destruct (NewFileDB_queue (B:=B) slotCount) as (s0 & E0 & Hq0).
  destruct (queue_all ms s0 Hq0 Hms Hl) as (s & E & Hq). exists s0, s. split; [exact E0|]. split; [exact E|].
  unfold GetMessagesOfNotifyQueue, View. rewrite bucket_there by apply (q_has ms s Hq).
  rewrite (bind_Ret_io _ _ s (bEntries notifyQueuePrefix s) s) by done. unfold lift. rewrite (queued_entries ms s Hq Hl).
  rewrite read_numbered; [by rewrite Z.sub_0_r|]. eapply Forall_impl; [exact Hms|]. by intros m [Hm _].
Qed.

Definition message_numbered (n : Z) : Db.Message := Db.mkMessage 0 0 1 0 n n "no" 1600000000 "alice" "" "g1" 2 (bytes_of_string "hi").
Lemma notify_queue_fifo_witness : let ms := [message_numbered 300; message_numbered 2; message_numbered 1] in
  exists s0 s : MemBolt.file, NewFileDB 4 bOpen = (Ret tt, s0) /\ for_each AppendMessageOfNotifyQueue ms s0 = (Ret tt, s) /\
    GetMessagesOfNotifyQueue 2 s = (Ret [message_numbered 300; message_numbered 2], s).
Proof.
  intros ms. assert (Forall fits ms) as Hms.
  { repeat constructor; vm_compute; intuition congruence. }
  exact (notify_queue_fifo 4 2 ms Hms ltac:(vm_compute; reflexivity)).
Defined.
