(* ===== verification/Commands.v ===== *)
(** The commands of a cluster (internal/lim/storage_cmd.go) and the storage
    that proposes them (internal/lim/storage_cluster.go): every write of the
    storage is encoded into a command, which the consensus layer (not part of
    the repository) hands to every node as bytes. *)
From stdpp Require Import base list strings pretty.
From Stdlib Require Import ZArith Lia Strings.Byte.
From S2P Require Import Prelude Effects Keys Strconv Json JsonTypes Wire Frames PQueue Model Storage FileDB.

Definition CMDAppendMessage : Z := 1.
Definition CMDAddOrUpdateChannel : Z := 2.
Definition CMDUpdateUserToken : Z := 3.
Definition CMDAddSubscribers : Z := 4.
Definition CMDRemoveAllSubscriber : Z := 5.
Definition CMDRemoveSubscribers : Z := 6.
Definition CMDDeleteChannel : Z := 7.
Definition CMDDeleteChannelAndClearMessages : Z := 8.
Definition CMDAppendMessageOfUser : Z := 9.
Definition CMDAppendMessageOfNotifyQueue : Z := 10.
Definition CMDRemoveMessagesOfNotifyQueue : Z := 11.
Definition CMDAddOrUpdateConversations : Z := 12.
Definition CMDAddDenylist : Z := 13.
Definition CMDRemoveDenylist : Z := 14.
Definition CMDRemoveAllDenylist : Z := 15.
Definition CMDAddAllowlist : Z := 16.
Definition CMDRemoveAllowlist : Z := 17.
Definition CMDRemoveAllAllowlist : Z := 18.
Definition CMDAddNodeInFlightData : Z := 19.
Definition CMDClearNodeInFlightData : Z := 20.
Definition CMDUpdateMessageOfUserCursorIfNeed : Z := 21.

Record CMD := mkCMD { Type_ : Z; Version : Z; Param : list byte }.
Definition NewCMD (typ : Z) : CMD := mkCMD typ 0 [].

Definition Encode (c : CMD) : list byte :=
  Bytes (NewEncoder |> WriteInt32 (i32 (Type_ c)) |> WriteUint8 (Version c) |> WriteBytes (Param c)).
(** [UnmarshalCMD] into a new command. *)
Definition UnmarshalCMD (data : list byte) : outcome CMD :=
  '(c, _) ← (cmdType ← Int32; version ← Uint8; param ← BinaryAll; mret (mkCMD cmdType version param) : decoder CMD) data;
  Ret c.

(** The type and the parameter of a command are set, its version is kept. *)
Definition with_param (typ : Z) (param : list byte) (c : CMD) : CMD := mkCMD typ (Version c) param.
Definition decode {A} (d : decoder A) (c : CMD) : outcome A := '(a, _) ← d (Param c); Ret a.

(** ** Tokens and channels *)
Definition EncodeUserToken (uid : string) (deviceFlag deviceLevel : Z) (token : string) (c : CMD) : CMD :=
  with_param CMDUpdateUserToken (Bytes (NewEncoder
    |> WriteString uid |> WriteUint8 deviceFlag |> WriteUint8 deviceLevel |> WriteString token)) c.
Definition DecodeUserToken : CMD -> outcome (string * Z * Z * string) := decode (
  uid ← DecString; deviceFlag ← Uint8; deviceLevel ← Uint8; token ← DecString;
  mret (uid, deviceFlag, deviceLevel, token)).

Definition EncodeAddOrUpdateChannel (i : ChannelInfo) (c : CMD) : CMD :=
  with_param CMDAddOrUpdateChannel (Bytes (NewEncoder
    |> WriteString (ChannelID i) |> WriteUint8 (ChannelType i)
    |> WriteString (string_of_bytes (Marshal (ToMap i))))) c.
(** [util.JSONToMap] of a text that is not empty. *)
Definition JSONToMap (json : string) : outcome (list (list byte * value)) :=
  v ← Decode (bytes_of_string json);
  match v with Obj ms => Ret ms | Null => Ret [] | _ => Err TypeError end.
Definition DecodeAddOrUpdateChannel : CMD -> outcome ChannelInfo := decode (
  channelID ← DecString; channelType ← Uint8; jsonStr ← DecString;
  if bool_decide (jsonStr = EmptyString) then mret (NewChannelInfo channelID channelType)
  else liftD (mp ← JSONToMap jsonStr; from (channelID, channelType) mp)).

(** ** Lists of a channel *)
Definition channel_param (ch : chan) : encoder := NewEncoder |> WriteString ch.1 |> WriteUint8 ch.2.
Definition list_param (ch : chan) (uids : list string) : list byte :=
  Bytes (if bool_decide (uids = []) then channel_param ch else WriteString (ToJSON uids) (channel_param ch)).
Definition DecodeChannel : CMD -> outcome chan := decode (channelID ← DecString; channelType ← Uint8; mret (channelID, channelType)).
Definition DecodeList : CMD -> outcome (chan * list string) := decode (
  channelID ← DecString; channelType ← Uint8; uidsBytes ← Binary;
  if bool_decide (uidsBytes = []) then mret ((channelID, channelType), [])
  else uids ← liftD (ReadJSONByByte uidsBytes); mret ((channelID, channelType), uids)).

Definition EncodeCMDAddSubscribers ch uids := with_param CMDAddSubscribers (list_param ch uids).
Definition DecodeCMDAddSubscribers := DecodeList.
Definition EncodeCMDRemoveSubscribers ch uids := with_param CMDRemoveSubscribers (list_param ch uids).
Definition DecodeRemoveSubscribers := DecodeList.
Definition EncodeRemoveAllSubscriber ch := with_param CMDRemoveAllSubscriber (Bytes (channel_param ch)).
Definition DecodeRemoveAllSubscriber := DecodeChannel.
Definition EncodeCMDAddDenylist ch uids := with_param CMDAddDenylist (list_param ch uids).
Definition DecodeCMDAddDenylist := DecodeList.
Definition EncodeCMDRemoveDenylist ch uids := with_param CMDRemoveDenylist (list_param ch uids).
Definition DecodeCMDRemoveDenylist := DecodeList.
Definition EncodeCMDRemoveAllDenylist ch := with_param CMDRemoveAllDenylist (Bytes (channel_param ch)).
Definition DecodeCMDRemoveAllDenylist := DecodeChannel.
Definition EncodeCMDAddAllowlist ch uids := with_param CMDAddAllowlist (list_param ch uids).
Definition DecodeCMDAddAllowlist := DecodeList.
Definition EncodeCMDRemoveAllowlist ch uids := with_param CMDRemoveAllowlist (list_param ch uids).
Definition DecodeCMDRemoveAllowlist := DecodeList.
Definition EncodeCMDRemoveAllAllowlist ch := with_param CMDRemoveAllAllowlist (Bytes (channel_param ch)).
Definition DecodeCMDRemoveAllAllowlist := DecodeChannel.
Definition EncodeCMDDeleteChannel ch := with_param CMDDeleteChannel (Bytes (channel_param ch)).
Definition DecodeCMDDeleteChannel := DecodeChannel.
Definition EncodeCMDDeleteChannelAndClearMessages ch :=
  with_param CMDDeleteChannelAndClearMessages (Bytes (channel_param ch)).
Definition DecodeCMDDeleteChannelAndClearMessages := DecodeChannel.

(** ** Messages *)
Definition EncodeAppendMessage (m : Db.Message) := with_param CMDAppendMessage (Db.MarshalMessage m).
Definition DecodeAppendMessage : CMD -> outcome Db.Message := decode (Db.UnmarshalMessage 0).
Definition EncodeCMDAppendMessageOfUser (m : Db.Message) :=
  with_param CMDAppendMessageOfUser (Bytes (WriteBytes (Db.MarshalMessage m) NewEncoder)).
Definition DecodeCMDAppendMessageOfUser : CMD -> outcome Db.Message := decode (
  messageData ← BinaryAll; liftD ('(m, _) ← Db.UnmarshalMessage 0 messageData; Ret m)).
Definition EncodeCMDAppendMessageOfNotifyQueue (m : Db.Message) :=
  with_param CMDAppendMessageOfNotifyQueue (Db.MarshalMessage m).
Definition DecodeCMDAppendMessageOfNotifyQueue : CMD -> outcome Db.Message := decode (Db.UnmarshalMessage 0).
Definition EncodeCMDRemoveMessagesOfNotifyQueue (messageIDs : list Z) :=
  with_param CMDRemoveMessagesOfNotifyQueue (bytes_of_string (ToJSON messageIDs)).
Definition DecodeCMDRemoveMessagesOfNotifyQueue (c : CMD) : outcome (list Z) := ReadJSONByByte (Param c).
Definition EncodeCMDUpdateMessageOfUserCursorIfNeed (uid : string) (messageSeq : Z) :=
  with_param CMDUpdateMessageOfUserCursorIfNeed (Bytes (NewEncoder |> WriteString uid |> WriteUint32 messageSeq)).
Definition DecodeCMDUpdateMessageOfUserCursorIfNeed : CMD -> outcome (string * Z) := decode (
  uid ← DecString; messageSeq ← Uint32; mret (uid, messageSeq)).

(** ** Conversations and in-flight node data *)
Definition EncodeCMDAddOrUpdateConversations (uid : string) (conversations : list Db.Conversation) :=
  with_param CMDAddOrUpdateConversations (Bytes (NewEncoder |> WriteString uid |> WriteString (ToJSON conversations))).
Definition DecodeCMDAddOrUpdateConversations : CMD -> outcome (string * list Db.Conversation) := decode (
  uid ← DecString; data ← Binary;
  if bool_decide (data = []) then mret (uid, []) else conversations ← liftD (ReadJSONByByte data); mret (uid, conversations)).
Definition EncodeCMDAddNodeInFlightData `{Jsonable Db.NodeInFlightDataModel} (data : list Db.NodeInFlightDataModel) :=
  with_param CMDAddNodeInFlightData (bytes_of_string (ToJSON data)).
Definition DecodeCMDAddNodeInFlightData `{Jsonable Db.NodeInFlightDataModel} (c : CMD) : outcome (list Db.NodeInFlightDataModel) :=
  ReadJSONByByte (Param c).
Definition EncodeCMDClearNodeInFlightData (c : CMD) : CMD := mkCMD CMDClearNodeInFlightData (Version c) (Param c).

(** * What a cluster's storage proposes

    [ClusterStorage] proposes the bytes of one command per write. *)
Inductive request :=
  | UpdateUserToken (uid : string) (deviceFlag deviceLevel : Z) (token : string)
  | AddOrUpdateChannel (i : ChannelInfo)
  | AddList (k : listKind) (ch : chan) (uids : list string)
  | RemoveList (k : listKind) (ch : chan) (uids : list string)
  | RemoveAllList (k : listKind) (ch : chan)
  | DeleteChannel (ch : chan)
  | DeleteChannelAndClearMessages (ch : chan)
  | AppendMessage (m : Db.Message)
  | AppendMessageOfUser (m : Db.Message)
  | UpdateMessageOfUserCursorIfNeed (uid : string) (offset : Z)
  | AppendMessageOfNotifyQueue (m : Db.Message)
  | RemoveMessagesOfNotifyQueue (messageIDs : list Z)
  | AddOrUpdateConversations (uid : string) (conversations : list Db.Conversation).

Definition command (r : request) : CMD :=
  match r with
  | UpdateUserToken uid flag level token => EncodeUserToken uid flag level token (NewCMD CMDUpdateUserToken)
  | AddOrUpdateChannel i => EncodeAddOrUpdateChannel i (NewCMD CMDAddOrUpdateChannel)
  | AddList Subscribers ch uids => EncodeCMDAddSubscribers ch uids (NewCMD CMDAddSubscribers)
  | AddList Denylist ch uids => EncodeCMDAddDenylist ch uids (NewCMD CMDAddDenylist)
  | AddList Allowlist ch uids => EncodeCMDAddAllowlist ch uids (NewCMD CMDAddAllowlist)
  | RemoveList Subscribers ch uids => EncodeCMDRemoveSubscribers ch uids (NewCMD CMDRemoveSubscribers)
  | RemoveList Denylist ch uids => EncodeCMDRemoveDenylist ch uids (NewCMD CMDRemoveDenylist)
  | RemoveList Allowlist ch uids => EncodeCMDRemoveAllowlist ch uids (NewCMD CMDRemoveAllowlist)
  | RemoveAllList Subscribers ch => EncodeRemoveAllSubscriber ch (NewCMD CMDRemoveAllSubscriber)
  | RemoveAllList Denylist ch => EncodeCMDRemoveAllDenylist ch (NewCMD CMDRemoveAllDenylist)
  | RemoveAllList Allowlist ch => EncodeCMDRemoveAllAllowlist ch (NewCMD CMDRemoveAllAllowlist)
  | DeleteChannel ch => EncodeCMDDeleteChannel ch (NewCMD CMDDeleteChannel)
  | DeleteChannelAndClearMessages ch =>
      EncodeCMDDeleteChannelAndClearMessages ch (NewCMD CMDDeleteChannelAndClearMessages)
  | AppendMessage m => EncodeAppendMessage m (NewCMD CMDAppendMessage)
  | AppendMessageOfUser m => EncodeCMDAppendMessageOfUser m (NewCMD CMDAppendMessageOfUser)
  | UpdateMessageOfUserCursorIfNeed uid offset =>
      EncodeCMDUpdateMessageOfUserCursorIfNeed uid offset (NewCMD CMDUpdateMessageOfUserCursorIfNeed)
  | AppendMessageOfNotifyQueue m => EncodeCMDAppendMessageOfNotifyQueue m (NewCMD CMDAppendMessageOfNotifyQueue)
  | RemoveMessagesOfNotifyQueue ids => EncodeCMDRemoveMessagesOfNotifyQueue ids (NewCMD CMDRemoveMessagesOfNotifyQueue)
  | AddOrUpdateConversations uid cs => EncodeCMDAddOrUpdateConversations uid cs (NewCMD CMDAddOrUpdateConversations)
  end.

(** The decoder of the command's type gives the arguments of the request. *)
Definition decodes (r : request) (c : CMD) : Prop :=
  match r with
  | UpdateUserToken uid flag level token =>
      Type_ c = CMDUpdateUserToken /\ DecodeUserToken c = Ret (uid, flag, level, token)
  | AddOrUpdateChannel i => Type_ c = CMDAddOrUpdateChannel /\ DecodeAddOrUpdateChannel c = Ret i
  | AddList Subscribers ch uids => Type_ c = CMDAddSubscribers /\ DecodeCMDAddSubscribers c = Ret (ch, uids)
  | AddList Denylist ch uids => Type_ c = CMDAddDenylist /\ DecodeCMDAddDenylist c = Ret (ch, uids)
  | AddList Allowlist ch uids => Type_ c = CMDAddAllowlist /\ DecodeCMDAddAllowlist c = Ret (ch, uids)
  | RemoveList Subscribers ch uids => Type_ c = CMDRemoveSubscribers /\ DecodeRemoveSubscribers c = Ret (ch, uids)
  | RemoveList Denylist ch uids => Type_ c = CMDRemoveDenylist /\ DecodeCMDRemoveDenylist c = Ret (ch, uids)
  | RemoveList Allowlist ch uids => Type_ c = CMDRemoveAllowlist /\ DecodeCMDRemoveAllowlist c = Ret (ch, uids)
  | RemoveAllList Subscribers ch => Type_ c = CMDRemoveAllSubscriber /\ DecodeRemoveAllSubscriber c = Ret ch
  | RemoveAllList Denylist ch => Type_ c = CMDRemoveAllDenylist /\ DecodeCMDRemoveAllDenylist c = Ret ch
  | RemoveAllList Allowlist ch => Type_ c = CMDRemoveAllAllowlist /\ DecodeCMDRemoveAllAllowlist c = Ret ch
  | DeleteChannel ch => Type_ c = CMDDeleteChannel /\ DecodeCMDDeleteChannel c = Ret ch
  | DeleteChannelAndClearMessages ch =>
      Type_ c = CMDDeleteChannelAndClearMessages /\ DecodeCMDDeleteChannelAndClearMessages c = Ret ch
  | AppendMessage m => Type_ c = CMDAppendMessage /\ DecodeAppendMessage c = Ret (Db.set_AppliIndex 0 m)
  | AppendMessageOfUser m =>
      Type_ c = CMDAppendMessageOfUser /\ DecodeCMDAppendMessageOfUser c = Ret (Db.set_AppliIndex 0 m)
  | UpdateMessageOfUserCursorIfNeed uid offset =>
      Type_ c = CMDUpdateMessageOfUserCursorIfNeed /\ DecodeCMDUpdateMessageOfUserCursorIfNeed c = Ret (uid, offset)
  | AppendMessageOfNotifyQueue m =>
      Type_ c = CMDAppendMessageOfNotifyQueue /\ DecodeCMDAppendMessageOfNotifyQueue c = Ret (Db.set_AppliIndex 0 m)
  | RemoveMessagesOfNotifyQueue ids =>
      Type_ c = CMDRemoveMessagesOfNotifyQueue /\ DecodeCMDRemoveMessagesOfNotifyQueue c = Ret ids
  | AddOrUpdateConversations uid cs =>
      Type_ c = CMDAddOrUpdateConversations /\ DecodeCMDAddOrUpdateConversations c = Ret (uid, cs)
  end.

(** Arguments within the limits of the encoding: numbers of their Go types,
    texts below 2^15 bytes, a list of users that is not empty. *)
Definition ch_ok (ch : chan) : Prop := short ch.1 /\ inU 8 ch.2.
Definition json_short {A} `{JsonLaws A} (a : A) : Prop := json_ok a /\ short (ToJSON a).
Definition request_ok (r : request) : Prop :=
  match r with
  | UpdateUserToken uid flag level token => short uid /\ inU 8 flag /\ inU 8 level /\ short token
  | AddOrUpdateChannel i => ch_ok (ChannelID i, ChannelType i) /\ utf8 (Parent i) /\ zlen (Marshal (ToMap i)) < 2 ^ 15
  | AddList _ ch uids | RemoveList _ ch uids => ch_ok ch /\ uids <> [] /\ json_short uids
  | RemoveAllList _ ch | DeleteChannel ch | DeleteChannelAndClearMessages ch => ch_ok ch
  | AppendMessage m | AppendMessageOfUser m | AppendMessageOfNotifyQueue m => Db.ok m
  | UpdateMessageOfUserCursorIfNeed uid offset => short uid /\ inU 32 offset
  | RemoveMessagesOfNotifyQueue ids => json_ok ids
  | AddOrUpdateConversations uid cs => short uid /\ json_short cs
  end.

Lemma UnmarshalCMD_Encode c : inS 32 (Type_ c) -> inU 8 (Version c) -> UnmarshalCMD (Encode c) = Ret c.
Proof.
  intros Ht Hv. unfold UnmarshalCMD, Encode. rewrite (wrapS_id 32) by (done || lia). to_image.
  repeat wire_step. unfold mbind, decoder_mbind. rewrite BinaryAll_all. by destruct c.
Qed.

Lemma DecodeChannel_param typ ch v : ch_ok ch -> DecodeChannel (with_param typ (Bytes (channel_param ch)) v) = Ret ch.
Proof.
  destruct ch as [i t]. intros [Hi Ht]. cbn [fst snd] in Hi, Ht. unfold DecodeChannel, decode, with_param, channel_param.
  cbn [Param fst snd]. to_image. rewrite <- (app_nil_r (be 1 t)). by repeat wire_step.
Qed.

(** Where a JSON text is read behind the other fields. *)
Lemma put_string_image s : put_string s = str_image (bytes_of_string s). Proof. done. Qed.
Lemma text_not_empty {A} `{JsonLaws A} (a : A) : json_ok a -> bytes_of_string (ToJSON a) <> [].
Proof.
  intros Ha E. apply (ToJSON_nonempty a Ha). by rewrite <- (string_of_bytes_of_string (ToJSON a)), E.
Qed.
Lemma liftD_json {A C} `{JsonLaws A} (a : A) (k : A -> decoder C) r : json_ok a ->
  (liftD (ReadJSONByByte (bytes_of_string (ToJSON a))) ≫= k) r = k a r.
Proof. intros Ha. unfold mbind, decoder_mbind, liftD. by rewrite ReadJSON_ToJSON. Qed.

Lemma DecodeList_param typ ch uids v : ch_ok ch -> uids <> [] -> json_short uids ->
  DecodeList (with_param typ (list_param ch uids) v) = Ret (ch, uids).
Proof.
  destruct ch as [i t]. intros [Hi Ht] Hu [Hj Hs]. cbn [fst snd] in Hi, Ht. unfold short in Hs.
  unfold DecodeList, decode, with_param, list_param, channel_param. rewrite bool_decide_eq_false_2 by done.
  cbn [Param fst snd]. to_image. rewrite <- (app_nil_r (put_string (ToJSON uids))), (put_string_image (ToJSON uids)).
  repeat wire_step. rewrite bool_decide_eq_false_2 by by apply text_not_empty. by rewrite liftD_json.
Qed.

Lemma decode_message typ m v : Db.ok m -> decode (Db.UnmarshalMessage 0) (with_param typ (Db.MarshalMessage m) v) = Ret (Db.set_AppliIndex 0 m).
Proof. intros Hm. unfold decode, with_param. cbn [Param]. by rewrite Unmarshal_Marshal. Qed.

Lemma command_decodes r : request_ok r -> decodes r (command r).
Proof.
  destruct r as [uid flag level token|i|k ch uids|k ch uids|k ch|ch|ch|m|m|uid offset|m|ids|uid cs]; cbn [request_ok command decodes].
  - intros (Hu & Hf & Hl & Ht). split; [done|]. unfold DecodeUserToken, decode, EncodeUserToken, with_param. cbn [Param].
    to_image. rewrite <- (app_nil_r (put_string token)). by repeat wire_step.
  - intros ([Hi Ht] & Hp & Hs). destruct i as [i t mute parent]. cbn [ChannelID ChannelType Parent fst snd] in *.
    split; [done|]. unfold DecodeAddOrUpdateChannel, decode, EncodeAddOrUpdateChannel, with_param. cbn [Param ChannelID ChannelType].
    assert (short (string_of_bytes (Marshal (ToMap (mkChannelInfo i t mute parent))))) as Hs' by (unfold short; by rewrite bytes_of_string_of_bytes).
    to_image. rewrite <- (app_nil_r (put_string (string_of_bytes _))). repeat wire_step.
    rewrite bool_decide_eq_false_2 by done.
    unfold liftD, JSONToMap. rewrite bytes_of_string_of_bytes. unfold ToMap at 1. cbn [Mute Parent].
    pose proof (Decode_Marshal (Obj [member "mute" (Bool mute); member "parent" (string_value parent)]) []) as E.
    rewrite app_nil_r in E. rewrite E; [|repeat split; by try apply text_proper|done].
    cbn [mbind outcome_bind]. unfold from. change (last_member "mute" _) with (Bool mute). change (last_member "parent" _) with (string_value parent).
    cbn. by rewrite string_of_bytes_of_string.
  - intros (Hc & Hu & Hj). destruct k; (split; [done|]); by apply DecodeList_param.
  - intros (Hc & Hu & Hj). destruct k; (split; [done|]); by apply DecodeList_param.
  - intros Hc. destruct k; (split; [done|]); by apply DecodeChannel_param.
  - intros Hc. split; [done|]. by apply DecodeChannel_param.
  - intros Hc. split; [done|]. by apply DecodeChannel_param.
  - intros Hm. split; [done|]. by apply decode_message.
  - intros Hm. split; [done|]. unfold DecodeCMDAppendMessageOfUser, decode, EncodeCMDAppendMessageOfUser, with_param.
    cbn [Param]. to_image. unfold mbind at 2, decoder_mbind. rewrite BinaryAll_all. unfold liftD.
    by rewrite Unmarshal_Marshal.
  - intros [Hu Ho]. split; [done|].
    unfold DecodeCMDUpdateMessageOfUserCursorIfNeed, decode, EncodeCMDUpdateMessageOfUserCursorIfNeed, with_param.
    cbn [Param]. to_image. rewrite <- (app_nil_r (be 4 offset)). by repeat wire_step.
  - intros Hm. split; [done|]. by apply decode_message.
  - intros Hi. split; [done|]. by apply ReadJSON_ToJSON.
  - intros (Hu & Hj & Hs). split; [done|]. unfold short in Hs.
    unfold DecodeCMDAddOrUpdateConversations, decode, EncodeCMDAddOrUpdateConversations, with_param. cbn [Param].
    to_image. rewrite <- (app_nil_r (put_string (ToJSON cs))), (put_string_image (ToJSON cs)).
    repeat wire_step. rewrite bool_decide_eq_false_2 by by apply text_not_empty. by rewrite liftD_json.
Qed.



(** Two kinds of writes are proposed and cannot be read by any node:
    adding or removing no users is an error for the decoder, and conversations
    of a user whose JSON has 2^15 to 2^16-1 bytes (some two hundred of them)
    make it panic. *)
Theorem unreadable_commands (k : listKind) (ch : chan) (uid : string) (cs : list Db.Conversation) :
  ch_ok ch -> short uid -> 2 ^ 15 <= zlen (Marshal (toJSON cs)) < 2 ^ 16 ->
  DecodeList (command (AddList k ch [])) = Err EOF /\ DecodeList (command (RemoveList k ch [])) = Err EOF /\
  DecodeCMDAddOrUpdateConversations (command (AddOrUpdateConversations uid cs)) = Panic.
Proof.
  intros [Hi Ht] Hu Hl. destruct ch as [i t]. cbn [fst snd] in *.
  assert (forall typ v, DecodeList (with_param typ (list_param (i, t) []) v) = Err EOF) as He.
  { intros typ v. unfold DecodeList, decode, with_param, list_param, channel_param. cbn [bool_decide decide Param fst snd].
    rewrite bool_decide_eq_true_2 by done. to_image. rewrite <- (app_nil_r (be 1 t)). repeat wire_step. reflexivity. }
  split_and!; [destruct k; apply He..|].
  cbn [command]. unfold DecodeCMDAddOrUpdateConversations, decode, EncodeCMDAddOrUpdateConversations, with_param. cbn [Param].
  to_image. rewrite <- (app_nil_r (put_string (ToJSON cs))), (put_string_image (ToJSON cs)). wire_step.
  unfold mbind at 2, decoder_mbind. unfold ToJSON. rewrite bytes_of_string_of_bytes, Binary_image_panic by done. reflexivity.
Qed.

Definition conversation_of (n : Z) : Db.Conversation :=
  Db.mkConversation "u10000" (Sprintf_s_d "group" n) 2 1 1600000000 n "f1c7a9b03a7c11ecb9090242ac120002" 837462834762384 1600000000000.
Lemma unreadable_commands_witness :
  let cs := map conversation_of (map Z.of_nat (seq 1000 200)) in
  DecodeCMDAddOrUpdateConversations (command (AddOrUpdateConversations "u10000" cs)) = Panic.
Proof.
  intros cs. apply (unreadable_commands Subscribers ("g1", 2) "u10000" cs); [split; [done|split; [done|reflexivity]]|done|].
  vm_compute. split; congruence.
Defined.
