(* ===== verification/Channels.v ===== *)
(** Channels and who may send to them: [SystemUIDManager]
    (internal/lim/systemuid_manager.go), [Channel] (internal/lim/channel.go)
    and [ChannelManager] (internal/lim/channel_manager.go). *)
From stdpp Require Import base list gmap strings.
From Stdlib Require Import ZArith Lia.
From S2P Require Import Prelude Effects Keys Frames Ids PQueue Model Storage.

(** The options the server reads; [WebhookOn] and [HasDatasource] are the
    tests of internal/lim/options.go that the configured address is not
    blank. *)
Record Options := mkOptions {
  IsCluster : bool;
  NodeID : Z;
  InTestMode : bool;
  TmpChannelSuffix : string;
  CreateIfChannelNotExist : bool;
  WebhookOn : bool;
  HasDatasource : bool
}.

(** [IDatasource], a service of the application reached over HTTP. *)
Record Datasource := mkDatasource {
  ds_list : listKind -> chan -> outcome (list string);
  GetSystemUIDs : outcome (list string)
}.

(** A [Channel]; the maps of the code have [true] for all values. *)
Record Channel := mkChannel {
  info : ChannelInfo;
  members : listKind -> gset string
}.
Definition subscriberMap (c : Channel) : gset string := members c Subscribers.
Definition blacklist (c : Channel) : gset string := members c Denylist.
Definition whitelist (c : Channel) : gset string := members c Allowlist.

Definition NewChannel (i : ChannelInfo) : Channel := mkChannel i (fun _ => ∅).
Definition channel_id (c : Channel) : chan := (ChannelID (info c), ChannelType (info c)).

Definition with_members (k : listKind) (m : gset string) (c : Channel) : Channel :=
  mkChannel (info c) (fun k' => if decide (k' = k) then m else members c k').

(** [AddSubscriber], [AddDenylist], [AddAllowlist] and their inverses, on the
    map they work on. *)
Definition Add (k : listKind) (uids : list string) (c : Channel) : Channel :=
  with_members k (members c k ∪ list_to_set uids) c.
Definition Remove (k : listKind) (uids : list string) (c : Channel) : Channel :=
  with_members k (members c k ∖ list_to_set uids) c.
Definition RemoveAllSubscriber (c : Channel) : Channel := with_members Subscribers ∅ c.

Definition SetDenylist (uids : list string) (c : Channel) : Channel :=
  Add Denylist uids (with_members Denylist ∅ c).

(** [SetAllowlist] ends in [AddDenylist]. *)
Definition SetAllowlist (uids : list string) (c : Channel) : Channel :=
  Add Denylist uids (with_members Allowlist ∅ c).

Definition IsBlacklist (uid : string) (c : Channel) : bool := bool_decide (uid ∈ blacklist c).
Definition IsSubscriber (uid : string) (c : Channel) : bool :=
  if bool_decide (uid ∈ subscriberMap c) then true
  else bool_decide (Parent (info c) <> EmptyString).

(** The order in which a concurrent map is walked is not specified: that of
    [elements] stands for any. *)
Definition GetAllSubscribers (c : Channel) : list string := elements (subscriberMap c).

(** [Allow], given the system accounts. *)
Definition Allow (systemUIDs : gset string) (uid : string) (c : Channel) : bool :=
  if bool_decide (uid ∈ systemUIDs) then true
  else if bool_decide (whitelist c <> ∅) then bool_decide (uid ∈ whitelist c)
  else negb (IsBlacklist uid c).

(** What the channels of the server consist of: the three maps of the
    manager, the system accounts and the storage. *)
Record state (S : Type) := mkState {
  channelMap : gmap string Channel;
  tmpChannelMap : gmap string Channel;
  personChannelMap : gmap string Channel;
  systemUIDs : gset string;
  loaded : bool;
  db : S
}.
Arguments mkState {S}. Arguments channelMap {S}. Arguments tmpChannelMap {S}.
Arguments personChannelMap {S}. Arguments systemUIDs {S}. Arguments loaded {S}. Arguments db {S}.

Section Manager.
Context {S : Type} `{Storage S} (opts : Options) (datasource : Datasource).
Implicit Type st : state S.

Definition set_channels (m : gmap string Channel) st : state S :=
  mkState m (tmpChannelMap st) (personChannelMap st) (systemUIDs st) (loaded st) (db st).
Definition set_tmp (m : gmap string Channel) st : state S :=
  mkState (channelMap st) m (personChannelMap st) (systemUIDs st) (loaded st) (db st).
Definition set_person (m : gmap string Channel) st : state S :=
  mkState (channelMap st) (tmpChannelMap st) m (systemUIDs st) (loaded st) (db st).
Definition set_system (u : gset string) (l : bool) st : state S :=
  mkState (channelMap st) (tmpChannelMap st) (personChannelMap st) u l (db st).
Definition set_db (d : S) st : state S :=
  mkState (channelMap st) (tmpChannelMap st) (personChannelMap st) (systemUIDs st) (loaded st) d.
Definition stored {A} (m : io S A) : io (state S) A := zoom db set_db m.

Definition key (c : chan) : string := Sprintf_s_d (fst c) (snd c).

(** ** SystemUIDManager *)
Definition LoadIfNeed : io (state S) unit :=
  if negb (HasDatasource opts) then mret tt
  else
    l ← gets loaded;
    if (l : bool) then mret tt
    else
      uids ← lift (GetSystemUIDs datasource);
      modify (fun st => set_system (systemUIDs st ∪ list_to_set uids) true st).

Definition AddSystemUID (uid : string) : io (state S) unit :=
  modify (fun st => set_system ({[uid]} ∪ systemUIDs st) (loaded st) st).
Definition RemoveSystemUID (uid : string) : io (state S) unit :=
  modify (fun st => set_system (systemUIDs st ∖ {[uid]}) (loaded st) st).

(** ** Loading a channel *)

(** [initSubscribers], [initBlacklist] and [initWhitelist]: the subscribers of
    a person are never the datasource's. *)
Definition from_datasource (k : listKind) (c : Channel) : bool :=
  match k with
  | Subscribers => HasDatasource opts && negb (ChannelType (info c) =? ChannelTypePerson)
  | _ => HasDatasource opts
  end.
Definition initList (k : listKind) (c : Channel) : io (state S) Channel :=
  uids ← (if from_datasource k c then lift (ds_list datasource k (channel_id c))
          else stored (GetList k (channel_id c)));
  mret (Add k uids c).

Definition LoadData (c : Channel) : io (state S) Channel :=
  if (ChannelType (info c) =? ChannelTypePerson) && IsFakeChannel (ChannelID (info c)) then mret c
  else
    LoadIfNeed ;;
    c1 ← initList Subscribers c;
    c2 ← initList Denylist c1;
    initList Allowlist c2.

(** ** ChannelManager *)
Definition GetTmpChannel (c : chan) : io (state S) (option Channel) :=
  gets (fun st => tmpChannelMap st !! key c).

Definition GetPersonChannel (c : chan) : io (state S) Channel :=
  v ← gets (fun st => personChannelMap st !! key c);
  match v with
  | Some ch => mret ch
  | None =>
      ch ← LoadData (NewChannel (NewChannelInfo (fst c) (snd c)));
      let ch' := if IsFakeChannel (fst c) then Add Subscribers (Split (fst c) at_sign) ch else ch in
      modify (fun st => set_person (<[key c := ch']> (personChannelMap st)) st) ;;
      mret ch'
  end.

Definition GetChannel (c : chan) : io (state S) (option Channel) :=
  if HasSuffix (fst c) (TmpChannelSuffix opts) then GetTmpChannel c
  else if snd c =? ChannelTypePerson then Some <$> GetPersonChannel c
  else
    v ← gets (fun st => channelMap st !! key c);
    match v with
    | Some ch => mret (Some ch)
    | None =>
        channelInfo ← stored (Storage.GetChannel c);
        if bool_decide (is_Some channelInfo) || CreateIfChannelNotExist opts then
          let i := default (NewChannelInfo (fst c) (snd c)) channelInfo in
          ch ← LoadData (NewChannel i);
          modify (fun st => set_channels (<[key c := ch]> (channelMap st)) st) ;;
          mret (Some ch)
        else mret None
    end.

Definition ArrayContains (items : list string) (target : string) : bool :=
  existsb (fun element => bool_decide (target = element)) items.

Definition CreateOrUpdatePersonChannel (uid : string) : io (state S) unit :=
  exist ← wrap_io "查询是否存在频道信息失败！" (stored (ExistChannel (uid, ChannelTypePerson)));
  (if (exist : bool) then mret tt
   else wrap_io "创建个人频道失败！" (stored (AddOrUpdateChannel (NewChannelInfo uid ChannelTypePerson)))) ;;
  subscribers ← wrap_io "获取频道订阅者失败！" (stored (GetList Subscribers (uid, ChannelTypePerson)));
  if bool_decide (length subscribers = 0%nat) || negb (ArrayContains subscribers uid) then
    wrap_io "添加订阅者失败！" (stored (AddList Subscribers (uid, ChannelTypePerson) [uid]))
  else mret tt.

Definition CreateOrUpdateChannel (ch : Channel) : io (state S) unit :=
  stored (AddOrUpdateChannel (info ch)) ;;
  modify (fun st => set_channels (<[key (channel_id ch) := ch]> (channelMap st)) st).

Definition CreateTmpChannel (c : chan) (subscribers : list string) : io (state S) unit :=
  modify (fun st => set_tmp
    (<[key c := Add Subscribers subscribers (NewChannel (NewChannelInfo (fst c) (snd c)))]> (tmpChannelMap st)) st).

Definition DeleteChannelFromCache (c : chan) : io (state S) unit :=
  modify (fun st => set_channels (delete (key c) (channelMap st)) st).

Definition DeleteChannel (c : chan) : io (state S) unit :=
  stored (Storage.DeleteChannel c) ;;
  DeleteChannelFromCache c.

End Manager.

(** * The cache and the storage

    A cached channel says what the storage says; that of two persons has the
    two as its members and no other list. *)
Section Coherence.
Context {S : Type} `{StorageLaws S} (opts : Options) (datasource : Datasource).
Implicit Type st : state S.
Hypothesis own_data : HasDatasource opts = false.

Definition list_set (d : S) (c : chan) (k : listKind) : gset string := list_to_set (lists d k c).
Definition pair_members (c : chan) (k : listKind) : gset string :=
  match k with Subscribers => list_to_set (Split (fst c) at_sign) | _ => ∅ end.

(** The members a channel should have. *)
Definition due_members (d : S) (c : chan) (k : listKind) : gset string :=
  if (snd c =? ChannelTypePerson) && IsFakeChannel (fst c) then pair_members c k else list_set d c k.

(** [st] caches the channel [c] as [ch]. *)
Definition cached st (c : chan) (ch : Channel) : Prop :=
  if snd c =? ChannelTypePerson then personChannelMap st !! key c = Some ch else channelMap st !! key c = Some ch.

Definition chan_ok (c : chan) : Prop := 0 <= snd c.

Record coherent_channel (d : S) (c : chan) (ch : Channel) : Prop := {
  co_members k : members ch k = due_members d c k;
  co_id : channel_id ch = c;
  co_parent : Parent (info ch) = if snd c =? ChannelTypePerson then EmptyString
    else match info_at d c with Some i => Parent i | None => EmptyString end;
  co_exists : snd c = ChannelTypePerson \/ info_at d c <> None \/ CreateIfChannelNotExist opts = true
}.

Definition coherent st : Prop := forall c ch, chan_ok c -> cached st c ch -> coherent_channel (db st) c ch.

Lemma key_inj c c' : chan_ok c -> chan_ok c' -> key c = key c' -> c = c'.
Proof. destruct c, c'. unfold chan_ok, key. cbn [fst snd]. intros H1 H2 E. by destruct (Sprintf_s_d_inj _ _ _ _ H1 H2 E) as [-> ->]. Qed.

(** Loading without a datasource reads the three lists. *)
Lemma initList_own k c st : initList opts datasource k c st = (Ret (Add k (lists (db st) k (channel_id c)) c), st).
Proof.
  unfold initList, from_datasource. rewrite own_data.
  assert (HasDatasource opts && negb (ChannelType (info c) =? ChannelTypePerson) = false) as E by (by rewrite own_data).
  unfold mbind, io_bind, stored, zoom. destruct k; rewrite ?own_data; cbn [andb]; rewrite GetList_law; by destruct st.
Qed.

Lemma members_Add k us c k' : members (Add k us c) k' =
  if decide (k' = k) then members c k ∪ list_to_set us else members c k'.
Proof. reflexivity. Qed.

Lemma LoadData_own i st : exists ch, LoadData opts datasource (NewChannel i) st = (Ret ch, st) /\ info ch = i /\
  forall k, members ch k =
    if (ChannelType i =? ChannelTypePerson) && IsFakeChannel (ChannelID i) then ∅
    else list_set (db st) (ChannelID i, ChannelType i) k.
Proof.
  unfold LoadData. cbn [NewChannel info]. destruct (_ && _).
  - eexists. split; [reflexivity|]. split; reflexivity.
  - unfold LoadIfNeed. rewrite own_data. cbn [negb].
    eexists. split; [|split].
    + unfold mbind, io_bind, mret, io_ret. rewrite !initList_own. reflexivity.
    + reflexivity.
    + intros k. rewrite !members_Add. unfold list_set, channel_id. cbn [NewChannel info members Add with_members].
      destruct k; cbn; set_solver.
Qed.

(** [GetChannel] of a channel that is not temporary finds it or loads it; it
    does not touch the storage and leaves every cached channel coherent. *)
Lemma GetChannel_coherent c st : coherent st -> chan_ok c -> HasSuffix (fst c) (TmpChannelSuffix opts) = false ->
  exists o st', GetChannel opts datasource c st = (Ret o, st') /\ db st' = db st /\ systemUIDs st' = systemUIDs st /\
    coherent st' /\
    match o with
    | Some ch => coherent_channel (db st) c ch
    | None => info_at (db st) c = None /\ CreateIfChannelNotExist opts = false /\ snd c <> ChannelTypePerson
    end.
Proof.
  intros Hco Hc Ht. unfold GetChannel. rewrite Ht. destruct (Z.eqb_spec (snd c) ChannelTypePerson) as [Ep|Ep].
  - unfold GetPersonChannel. unfold fmap, io_fmap, mbind, io_bind, gets.
    destruct (personChannelMap st !! key c) as [ch|] eqn:El.
    + exists (Some ch), st. repeat (split; [done|]). apply Hco; [done|]. unfold cached. by rewrite (proj2 (Z.eqb_eq _ _)).
    + destruct (LoadData_own (NewChannelInfo (fst c) (snd c)) st) as (ch & -> & Hi & Hm).
      cbn [NewChannelInfo ChannelID ChannelType] in Hm. cbv beta zeta.
      set (ch' := if IsFakeChannel (fst c) then Add Subscribers (Split (fst c) at_sign) ch else ch).
      assert (coherent_channel (db st) c ch') as Hch.
      { split.
        - intros k. unfold due_members, ch'. destruct (IsFakeChannel (fst c)) eqn:Ef.
          + rewrite (proj2 (Z.eqb_eq _ _)) by done. cbn [andb]. rewrite members_Add, !Hm, Ep, Z.eqb_refl. cbn [andb].
            destruct k; cbn; set_solver.
          + rewrite andb_false_r, Hm. rewrite andb_false_r. by destruct c.
        - unfold ch', channel_id. destruct c as [i t]. destruct (IsFakeChannel _); cbn [Add with_members info]; by rewrite Hi.
        - rewrite (proj2 (Z.eqb_eq _ _)) by done. unfold ch'.
          destruct (IsFakeChannel _); cbn [Add with_members info]; by rewrite Hi.
        - by left. }
      exists (Some ch'). eexists. split; [reflexivity|]. split; [done|]. split; [done|]. split; [|done].
      intros c2 ch2 Hc2. unfold cached. cbn [set_person personChannelMap channelMap db].
      destruct (Z.eqb_spec (snd c2) ChannelTypePerson) as [E2|E2]; intros Hl.
      * apply lookup_insert_Some in Hl as [[Ek <-]|[_ Hl]].
        -- apply key_inj in Ek; [by subst|done..].
        -- apply (Hco c2 ch2 Hc2). unfold cached. by rewrite (proj2 (Z.eqb_eq _ _)).
      * apply (Hco c2 ch2 Hc2). unfold cached. by rewrite (proj2 (Z.eqb_neq _ _)).
  - unfold mbind, io_bind, gets. destruct (channelMap st !! key c) as [ch|] eqn:El.
    + exists (Some ch), st. repeat (split; [done|]). apply Hco; [done|]. unfold cached. by rewrite (proj2 (Z.eqb_neq _ _)).
    + unfold stored, zoom. rewrite GetChannel_law. assert (set_db (db st) st = st) as -> by (by destruct st).
      destruct (bool_decide (is_Some (info_at (db st) c)) || CreateIfChannelNotExist opts) eqn:Ex.
      * set (i := default (NewChannelInfo (fst c) (snd c)) (info_at (db st) c)).
        assert ((ChannelID i, ChannelType i) = c) as Ei.
        { unfold i. destruct (info_at (db st) c) as [x|] eqn:Ei; [by apply (info_at_id c (db st))|by destruct c]. }
        destruct (LoadData_own i st) as (ch & -> & Hi & Hm). assert (ChannelID i = fst c /\ ChannelType i = snd c) as [E1 E2] by (by rewrite <- Ei). cbv beta.
        assert (coherent_channel (db st) c ch) as Hch.
        { split.
          - intros k. rewrite Hm. unfold due_members. rewrite E2, (proj2 (Z.eqb_neq _ _)) by done. cbn [andb].
            by rewrite <- E2, Ei.
          - unfold channel_id. by rewrite Hi.
          - rewrite (proj2 (Z.eqb_neq _ _)), Hi by done. unfold i. by destruct (info_at (db st) c).
          - right. apply orb_true_iff in Ex as [Ex|Ex]; [left|by right]. apply bool_decide_eq_true in Ex as [x Ex]. by rewrite Ex. }
        exists (Some ch). eexists. split; [reflexivity|]. split; [done|]. split; [done|]. split; [|done].
        intros c2 ch2 Hc2. unfold cached. cbn [set_channels personChannelMap channelMap db].
        destruct (Z.eqb_spec (snd c2) ChannelTypePerson) as [E3|E3]; intros Hl.
        -- apply (Hco c2 ch2 Hc2). unfold cached. by rewrite (proj2 (Z.eqb_eq _ _)).
        -- apply lookup_insert_Some in Hl as [[Ek <-]|[_ Hl]].
           ++ apply key_inj in Ek; [by rewrite <- Ek|done..].
           ++ apply (Hco c2 ch2 Hc2). unfold cached. by rewrite (proj2 (Z.eqb_neq _ _)).
      * apply orb_false_iff in Ex as [Ex1 Ex2]. exists None, st. split; [reflexivity|]. repeat (split; [done|]).
        split; [|done]. destruct (info_at (db st) c); [discriminate|done].
Qed.

(** Coherence only depends on the lists and the information of channels. *)
Lemma coherent_set_db d st : coherent st ->
  (forall c, (forall k, lists d k c = lists (db st) k c) /\ info_at d c = info_at (db st) c) -> coherent (set_db d st).
Proof.
  intros Hco Hd c ch Hc Hch. destruct (Hco c ch Hc Hch) as [Hm Hi Hp]. cbn [set_db db]. destruct (Hd c) as [Hl Hin].
  split; [|done|by rewrite Hin|by rewrite Hin].
  intros k. rewrite Hm. unfold due_members, list_set. by rewrite Hl.
Qed.

(** ** Who may send, in terms of the storage *)
Definition allowed (sys : gset string) (d : S) (c : chan) (u : string) : bool :=
  if bool_decide (u ∈ sys) then true
  else if bool_decide (due_members d c Allowlist <> ∅) then bool_decide (u ∈ due_members d c Allowlist)
  else negb (bool_decide (u ∈ due_members d c Denylist)).

Definition is_member (d : S) (c : chan) (u : string) : bool :=
  bool_decide (u ∈ due_members d c Subscribers) ||
  match info_at d c with Some i => bool_decide (Parent i <> EmptyString) | None => false end.

Lemma Allow_coherent sys d c ch u : coherent_channel d c ch -> Allow sys u ch = allowed sys d c u.
Proof. intros Hch. unfold Allow, allowed, IsBlacklist, whitelist, blacklist. by rewrite !(co_members _ _ _ Hch). Qed.

Lemma IsSubscriber_coherent d c ch u : coherent_channel d c ch -> snd c <> ChannelTypePerson ->
  IsSubscriber u ch = is_member d c u.
Proof.
  intros Hch Hp. unfold IsSubscriber, is_member, subscriberMap. rewrite (co_members _ _ _ Hch), (co_parent _ _ _ Hch).
  rewrite (proj2 (Z.eqb_neq _ _)) by done. destruct (bool_decide (u ∈ _)); [done|].
  destruct (info_at d c); [done|]. apply bool_decide_false. intros Hx. by apply Hx.
Qed.

(** In the channel of two persons everybody may send. *)
Lemma allowed_pair sys d c u : snd c = ChannelTypePerson -> IsFakeChannel (fst c) = true -> allowed sys d c u = true.
Proof.
  intros Hp Hf. unfold allowed, due_members. rewrite (proj2 (Z.eqb_eq _ _)), Hf by done. cbn [andb pair_members].
  destruct (bool_decide (u ∈ sys)); [done|]. rewrite bool_decide_false by (intros Hx; exact (Hx eq_refl)).
  rewrite bool_decide_false; [done|]. apply not_elem_of_empty.
Qed.
End Coherence.
