(* ===== verification/Conversations.v ===== *)
(** Recent conversations: [ConversationManager] (internal/lim/conversation.go)
    and the queue it is fed by (internal/lim/queue.go). *)
From stdpp Require Import base list gmap strings relations.
From Stdlib Require Import ZArith Lia.
From S2P Require Import Prelude Effects Keys Frames Ids PQueue Model Storage.
Import Db.

(** * The cache of a user

    [lru.Cache] of github.com/hashicorp/golang-lru, by what it documents: it
    holds up to [capacity] entries, here from the oldest to the newest;
    [Get] and [Add] make an entry the newest, [Add] of a new key to a full
    cache drops the oldest. *)
Class LRU (C V : Type) := {
  lru_New : Z -> C;
  Get : string -> C -> option V * C;
  Add : string -> V -> C -> C;
  Remove : string -> C -> C;
  Keys : C -> list string;
  Len : C -> Z
}.

Definition without {V} (k : string) (l : list (string * V)) : list (string * V) := filter (fun p => fst p <> k) l.
Definition assoc {V} (k : string) (l : list (string * V)) : option V :=
  snd <$> List.find (fun p => bool_decide (fst p = k)) l.

Class LRULaws (C V : Type) `{LRU C V} := {
  entries : C -> list (string * V);
  capacity : C -> Z;
  entries_nodup c : NoDup (fst <$> entries c);
  entries_New n : 0 < n -> entries (lru_New n) = [];
  capacity_New n : 0 < n -> capacity (lru_New n) = n;
  fst_Get k c : fst (Get k c) = assoc k (entries c);
  entries_Get k c : entries (snd (Get k c)) =
    match assoc k (entries c) with Some v => without k (entries c) ++ [(k, v)] | None => entries c end;
  capacity_Get k c : capacity (snd (Get k c)) = capacity c;
  entries_Add k v c : entries (Add k v c) =
    let l := without k (entries c) ++ [(k, v)] in
    if zlen l >? capacity c then drop 1 l else l;
  capacity_Add k v c : capacity (Add k v c) = capacity c;
  entries_Remove k c : entries (Remove k c) = without k (entries c);
  capacity_Remove k c : capacity (Remove k c) = capacity c;
  Keys_entries c : Keys c = fst <$> entries c;
  Len_entries c : Len c = zlen (entries c);
  entries_fit c : 0 < capacity c -> zlen (entries c) <= capacity c
}.

(** * ConversationManager *)

(** The state of the manager: a map from users to caches in each of its ten
    buckets, the queue of messages to account for, and what its save loop
    knows of users to save. [sdb] is the storage. *)
Record manager (C S : Type) := mkManager {
  userConversationMapBuckets : list (gmap string C);
  queue : list (Lim.Message * list string);
  needSaveConversationMap : gset string;
  noSaveCount : Z;
  sdb : S
}.
Arguments mkManager {C S}. Arguments userConversationMapBuckets {C S}. Arguments queue {C S}.
Arguments needSaveConversationMap {C S}. Arguments noSaveCount {C S}. Arguments sdb {C S}.

Definition bucketNum : Z := 10.

Section Manager.
Context {C S : Type} `{LRU C Conversation} `{Storage S}.
Context (ConversationOfUserMaxCount ConversationSyncOnce : Z).
Implicit Type cm : manager C S.

Definition NewConversationManager (d : S) : manager C S :=
  mkManager (replicate (Z.to_nat bucketNum) ∅) [] ∅ 0 d.

Definition set_buckets (b : list (gmap string C)) cm : manager C S :=
  mkManager b (queue cm) (needSaveConversationMap cm) (noSaveCount cm) (sdb cm).
Definition set_queue (q : list (Lim.Message * list string)) cm : manager C S :=
  mkManager (userConversationMapBuckets cm) q (needSaveConversationMap cm) (noSaveCount cm) (sdb cm).
Definition set_needSave (n : gset string) (count : Z) cm : manager C S :=
  mkManager (userConversationMapBuckets cm) (queue cm) n count (sdb cm).
Definition set_sdb (d : S) cm : manager C S :=
  mkManager (userConversationMapBuckets cm) (queue cm) (needSaveConversationMap cm) (noSaveCount cm) d.
Definition stored {A} (m : io S A) : io (manager C S) A := zoom sdb set_sdb m.

Definition getChannelKey (channelID : string) (channelType : Z) : string := Sprintf_s_d channelID channelType.

Definition PushMessage (message : Lim.Message) (subscribers : list string) : io (manager C S) unit :=
  let p := Lim.RecvPacket message in
  if bool_decide (length subscribers = 0%nat) then mret tt
  else if f_SyncOnce (Recv.framer p) || f_NoPersist (Recv.framer p) then mret tt
  else modify (fun cm => set_queue (queue cm ++ [(message, subscribers)]) cm).

(** The bucket of a user, and the cache in it, which is made when there is
    none yet. *)
Definition bucket (uid : string) : nat := Z.to_nat (HashCrc32 uid mod u32 bucketNum).
Definition cache_of (uid : string) cm : option C :=
  userConversationMapBuckets cm !! bucket uid ≫= lookup uid.
Definition put_cache (uid : string) (c : C) cm : manager C S :=
  set_buckets (alter <[uid := c]> (bucket uid) (userConversationMapBuckets cm)) cm.

Definition getUserConversationCache (uid : string) : io (manager C S) C :=
  c ← gets (cache_of uid);
  match c with
  | Some cache => mret cache
  | None =>
      let cache := lru_New ConversationOfUserMaxCount in
      modify (put_cache uid cache) ;;
      mret cache
  end.

(** [needSaveChan <- uid]: the save loop takes the name at once. *)
Definition setNeedSave (uid : string) : io (manager C S) unit :=
  modify (fun cm =>
    if decide (uid ∈ needSaveConversationMap cm) then cm
    else set_needSave ({[uid]} ∪ needSaveConversationMap cm) (noSaveCount cm + 1) cm).

Definition add_conversations (l : list Conversation) (c : C) : C :=
  foldl (fun c x => Add (getChannelKey (cChannelID x) (cChannelType x)) x c) c l.

(** The cache of a user, filled from the storage when it is empty. *)
Definition loadedCache (uid : string) : io (manager C S) C :=
  cache ← getUserConversationCache uid;
  if Len cache =? 0 then
    conversations ← stored (GetConversations uid);
    let cache' := add_conversations conversations cache in
    modify (put_cache uid cache') ;;
    mret cache'
  else mret cache.

Definition red_dot (message : Lim.Message) (subscriber : string) : bool :=
  let p := Lim.RecvPacket message in
  f_RedDot (Recv.framer p) && negb (bool_decide (Recv.FromUID p = subscriber)).

(** The channel a message belongs to for one of its readers. *)
Definition channel_for (message : Lim.Message) (subscriber : string) : string :=
  let p := Lim.RecvPacket message in
  if (Recv.ChannelType p =? ChannelTypePerson) && bool_decide (Recv.ChannelID p = subscriber)
  then Recv.FromUID p else Recv.ChannelID p.

Definition newConversation (now : Z) (message : Lim.Message) (subscriber : string) : Conversation :=
  let p := Lim.RecvPacket message in
  mkConversation subscriber (channel_for message subscriber) (Recv.ChannelType p)
    (if red_dot message subscriber then 1 else 0) (Recv.Timestamp p) (Recv.MessageSeq p)
    (Recv.ClientMsgNo p) (Recv.MessageID p) now.

(** The update of a conversation, and whether it is one to save. *)
Definition updateConversation (now : Z) (message : Lim.Message) (subscriber : string) (c : Conversation) :
    Conversation * bool :=
  let p := Lim.RecvPacket message in
  let unread := if red_dot message subscriber then i64 (UnreadCount c + 1) else UnreadCount c in
  if LastMsgSeq c <? Recv.MessageSeq p then
    (mkConversation (UID c) (cChannelID c) (cChannelType c) unread (Recv.Timestamp p) (Recv.MessageSeq p)
       (Recv.ClientMsgNo p) (Recv.MessageID p) now, true)
  else
    (mkConversation (UID c) (cChannelID c) (cChannelType c) unread (cTimestamp c) (LastMsgSeq c)
       (LastClientMsgNo c) (LastMsgID c) now, red_dot message subscriber).

(** [calConversation], up to where it asks for the user to be saved, and the
    rest of it, which puts the conversation into the cache. A conversation
    found there is changed in place: it is the newest entry by then, so
    [Add] is what replaces it. An error of the storage ends it. *)
Definition calConversation_begin (now : Z) (message : Lim.Message) (subscriber : string) :
    io (manager C S) Conversation :=
  cache ← loadedCache subscriber;
  let channelKey := getChannelKey (channel_for message subscriber) (Recv.ChannelType (Lim.RecvPacket message)) in
  let '(_, cache1) := Get channelKey cache in
  let '(found, cache2) := Get channelKey cache1 in
  modify (put_cache subscriber cache2) ;;
  match found with
  | None =>
      setNeedSave subscriber ;;
      mret (newConversation now message subscriber)
  | Some c =>
      let '(c', modified) := updateConversation now message subscriber c in
      modify (put_cache subscriber (Add channelKey c' cache2)) ;;
      (if modified : bool then setNeedSave subscriber else mret tt) ;;
      mret c'
  end.

Definition calConversation_end (message : Lim.Message) (subscriber : string) (c : Conversation) :
    io (manager C S) unit :=
  let channelKey := getChannelKey (channel_for message subscriber) (Recv.ChannelType (Lim.RecvPacket message)) in
  cache ← getUserConversationCache subscriber;
  modify (put_cache subscriber (Add channelKey c cache)).

Definition calConversation (now : Z) (message : Lim.Message) (subscriber : string) : io (manager C S) unit :=
  r ← attempt (calConversation_begin now message subscriber);
  match r with
  | inl c => calConversation_end message subscriber c
  | inr _ => mret tt
  end.

(** One round of [calcLoop]: [None] when it would wait for the queue. *)
Definition calcLoop_round (now : Z) : io (manager C S) (option unit) :=
  q ← gets queue;
  match q with
  | [] => mret None
  | (message, subscribers) :: q' =>
      modify (set_queue q') ;;
      for_each (calConversation now message) subscribers ;;
      mret (Some tt)
  end.

(** The conversations of a cache, in the order of [Keys]; every [Get] makes
    the one it reads the newest. *)
Fixpoint read_all (keys : list string) (c : C) : list Conversation * C :=
  match keys with
  | [] => ([], c)
  | k :: keys' =>
      let '(found, c1) := Get k c in
      let '(l, c2) := read_all keys' c1 in
      (match found with Some x => x :: l | None => l end, c2)
  end.

Definition flushUser (uid : string) : io (manager C S) unit :=
  cache ← getUserConversationCache uid;
  let '(conversations, cache') := read_all (Keys cache) cache in
  modify (put_cache uid cache') ;;
  r ← attempt (stored (AddOrUpdateConversations uid conversations));
  match r with
  | inl _ => modify (fun cm => set_needSave (needSaveConversationMap cm ∖ {[uid]}) (noSaveCount cm) cm)
  | inr _ => mret tt
  end.

Definition FlushConversations : io (manager C S) unit :=
  uids ← gets (fun cm => elements (needSaveConversationMap cm));
  for_each flushUser uids.

(** A round of [saveloop] before it waits: [ticked] says whether the ticker
    fired. *)
Definition saveloop_round (ticked : bool) : io (manager C S) unit :=
  count ← gets noSaveCount;
  if (count >=? ConversationSyncOnce) || ((ticked : bool) && (count >? 0)) then
    modify (fun cm => set_needSave (needSaveConversationMap cm) 0 cm) ;;
    FlushConversations
  else mret tt.

Definition SetConversationUnread (uid channelID : string) (channelType unread : Z) : io (manager C S) unit :=
  cache ← getUserConversationCache uid;
  let channelKey := getChannelKey channelID channelType in
  if bool_decide (channelKey ∈ Keys cache) then
    match Get channelKey cache with
    | (Some c, cache') =>
        modify (put_cache uid (Add channelKey (mkConversation (UID c) (cChannelID c) (cChannelType c) unread
          (cTimestamp c) (LastMsgSeq c) (LastClientMsgNo c) (LastMsgID c) (cVersion c)) cache')) ;;
        setNeedSave uid
    | (None, cache') => modify (put_cache uid cache')
    end
  else mret tt.

Definition DeleteConversation (uids : list string) (channelID : string) (channelType : Z) : io (manager C S) unit :=
  for_each (fun uid =>
    cache ← getUserConversationCache uid;
    let channelKey := getChannelKey channelID channelType in
    if bool_decide (channelKey ∈ Keys cache) then modify (put_cache uid (Remove channelKey cache))
    else mret tt) uids.

(** [GetConversations]: those above a version, the newest first; an error of
    the storage gives none. [sort.Sort] is not stable: [sort_newest] stands
    for any order it may leave. *)
Definition GetConversations_of (sort_newest : list Conversation -> list Conversation) (uid : string) (version : Z) :
    io (manager C S) (list Conversation) :=
  r ← attempt (loadedCache uid);
  match r with
  | inr _ => mret []
  | inl cache =>
      let '(conversations, cache') := read_all (Keys cache) cache in
      modify (put_cache uid cache') ;;
      mret (sort_newest (filter (fun c => version <= 0 \/ version < cVersion c) conversations))
  end.
End Manager.

(** * Properties *)
Section Assoc.
Context {V : Type}.
Implicit Type l : list (string * V).

Lemma assoc_None k l : assoc k l = None -> forall p, p ∈ l -> fst p <> k.
Proof.
  unfold assoc. induction l as [|q l IH]; [intros _ p H; inversion H|]. cbn. case_bool_decide as E; [discriminate|].
  intros Hn p [->|Hp]%elem_of_cons; [done|]. by apply IH.
Qed.

Lemma without_absent k l : assoc k l = None -> without k l = l.
Proof. intros Hn. apply filter_all. by apply assoc_None. Qed.

Lemma without_without k l : without k (without k l) = without k l.
Proof. apply filter_all. intros p Hp. apply list_elem_of_filter in Hp. tauto. Qed.

Lemma without_snoc k l v : without k (without k l ++ [(k, v)]) = without k l.
Proof.
  unfold without. rewrite filter_app, filter_cons, filter_nil, decide_False by (intros Hx; exact (Hx eq_refl)).
  rewrite app_nil_r. apply without_without.
Qed.

Lemma assoc_snoc k l v : assoc k (without k l ++ [(k, v)]) = Some v.
Proof.
  unfold assoc, without. induction l as [|p l IH].
  - cbn. by rewrite bool_decide_true.
  - rewrite filter_cons. case_decide as E; [|done]. cbn. by rewrite bool_decide_false.
Qed.

Lemma assoc_snoc_ne k k' l v : k' <> k -> assoc k' (without k l ++ [(k, v)]) = assoc k' l.
Proof.
  intros Hk. unfold assoc, without. induction l as [|p l IH].
  - cbn. by rewrite bool_decide_false.
  - rewrite filter_cons. case_decide as E.
    + cbn. case_bool_decide; [done|]. exact IH.
    + cbn. rewrite bool_decide_false; [exact IH|congruence].
Qed.

Lemma length_without_Some k l v : NoDup (fst <$> l) -> assoc k l = Some v -> zlen (without k l) + 1 = zlen l.
Proof.
  unfold assoc, without. induction l as [|p l IH]; [discriminate|]. rewrite fmap_cons, NoDup_cons. intros [Hp Hn].
  cbn [List.find]. rewrite filter_cons, zlen_cons. case_bool_decide as E; intros Hs.
  - rewrite decide_False by (intros Hx; exact (Hx E)). rewrite filter_all; [lia|].
    intros q Hq Eq. apply Hp. rewrite E, <- Eq. by apply list_elem_of_fmap_2.
  - rewrite decide_True by done. rewrite zlen_cons. specialize (IH Hn Hs). lia.
Qed.
End Assoc.

Section Cache.
Context {C : Type} `{LRULaws C Conversation}.
Implicit Type c : C.

(** [read_all] gives the conversations from the oldest to the newest and
    leaves the cache in the order it was in. *)
Lemma read_all_spec c es1 es2 : entries c = es1 ++ es2 ->
  fst (read_all (fst <$> es1) c) = snd <$> es1 /\ entries (snd (read_all (fst <$> es1) c)) = es2 ++ es1 /\
  capacity (snd (read_all (fst <$> es1) c)) = capacity c.
Proof.
  revert c es2. induction es1 as [|[k x] es1 IH]; intros c es2 E.
  - cbn. rewrite app_nil_r. auto.
  - assert (assoc k (entries c) = Some x) as Ea.
    { rewrite E. unfold assoc. cbn. by rewrite bool_decide_true. }
    assert (entries (snd (Get k c)) = es1 ++ (es2 ++ [(k, x)])) as E1.
    { rewrite entries_Get, Ea, E, app_assoc. f_equal. unfold without. cbn [app].
      rewrite filter_cons, decide_False by (intros Hx; exact (Hx eq_refl)). apply filter_all.
      intros p Hp Ek. pose proof (entries_nodup c) as Hn. rewrite E, fmap_app in Hn. cbn in Hn.
      apply NoDup_cons in Hn as [Hn _]. apply Hn. rewrite <- Ek, <- fmap_app. by apply list_elem_of_fmap_2. }
    cbn [fmap list_fmap read_all fst]. pose proof (fst_Get k c) as Ef. pose proof (capacity_Get k c) as Ec.
    destruct (Get k c) as [found c1]. cbn [fst snd] in *.
    destruct (IH c1 _ E1) as (I1 & I2 & I3). fold (fst <$> es1). destruct (read_all (fst <$> es1) c1) as [l c2].
    cbn [fst snd] in *. rewrite Ef, Ea, I1, I2, I3, Ec. split; [done|]. split; [|done].
    by rewrite <- app_assoc.
Qed.

Lemma read_Keys c : fst (read_all (Keys c) c) = snd <$> entries c /\
  entries (snd (read_all (Keys c) c)) = entries c /\ capacity (snd (read_all (Keys c) c)) = capacity c.
Proof. rewrite Keys_entries. apply (read_all_spec c (entries c) []). by rewrite app_nil_r. Qed.

(** The two [Get]s of [calConversation]. *)
Lemma Get_twice k c : let c2 := snd (Get k (snd (Get k c))) in
  fst (Get k (snd (Get k c))) = assoc k (entries c) /\ capacity c2 = capacity c /\
  entries c2 = match assoc k (entries c) with Some v => without k (entries c) ++ [(k, v)] | None => entries c end.
Proof.
  cbn zeta. rewrite fst_Get, !capacity_Get, (entries_Get k (snd (Get k c))), (entries_Get k c).
  destruct (assoc k (entries c)) as [v|] eqn:E; [|rewrite E; auto].
  rewrite assoc_snoc, without_snoc. auto.
Qed.

(** Replacing an entry, or adding one to a cache that is not full. *)
Lemma entries_Add_fits k v c : 0 < capacity c -> assoc k (entries c) <> None \/ zlen (entries c) < capacity c ->
  entries (Add k v c) = without k (entries c) ++ [(k, v)].
Proof.
  intros Hc Hf. rewrite entries_Add. cbn zeta. pose proof (entries_fit c Hc) as Hfit.
  rewrite Z.gtb_ltb, (proj2 (Z.ltb_ge _ _)); [done|]. rewrite zlen_app, zlen_cons, zlen_nil.
  destruct (assoc k (entries c)) as [w|] eqn:E.
  - pose proof (length_without_Some k _ w (entries_nodup c) E). lia.
  - destruct Hf as [Hf|Hf]; [done|]. rewrite without_absent by done. lia.
Qed.
End Cache.

Section CalConversation.
Context {C S : Type} `{LRULaws C Conversation} `{Storage S}.
Context (ConversationOfUserMaxCount : Z).
Implicit Type cm : manager C S.

Definition well_formed cm : Prop := length (userConversationMapBuckets cm) = Z.to_nat bucketNum.

Lemma bucket_lt u : (bucket u < Z.to_nat bucketNum)%nat.
Proof.
  unfold bucket. change (u32 bucketNum) with 10. change bucketNum with 10.
  pose proof (Z.mod_pos_bound (HashCrc32 u) 10). lia.
Qed.

Lemma cache_of_put u u' c cm : well_formed cm ->
  cache_of u' (put_cache u c cm) = if decide (u' = u) then Some c else cache_of u' cm.
Proof.
  intros Hw. unfold cache_of, put_cache. cbn [set_buckets userConversationMapBuckets].
  destruct (lookup_lt_is_Some_2 (userConversationMapBuckets cm) (bucket u)) as [b Hb].
  { unfold well_formed in Hw. rewrite Hw. apply bucket_lt. }
  destruct (decide (u' = u)) as [->|Hu].
  - rewrite list_lookup_alter, decide_True, Hb by done. cbn. apply lookup_insert_eq.
  - rewrite list_lookup_alter. case_decide as E; [|done]. rewrite <- E, Hb. cbn. by apply lookup_insert_ne.
Qed.

Lemma well_formed_put u c cm : well_formed cm -> well_formed (put_cache u c cm).
Proof. unfold well_formed, put_cache. cbn. by rewrite length_alter. Qed.

Abbreviation getCache := (getUserConversationCache ConversationOfUserMaxCount).
Abbreviation loaded := (loadedCache ConversationOfUserMaxCount).

Lemma getCache_present u c cm : cache_of u cm = Some c -> getCache u cm = (Ret c, cm).
Proof. unfold getUserConversationCache, mbind, io_bind, gets. by intros ->. Qed.

Lemma getCache_spec u cm : well_formed cm ->
  exists c cm1, getCache u cm = (Ret c, cm1) /\ cache_of u cm1 = Some c /\ well_formed cm1.
Proof.
  intros Hw. destruct (cache_of u cm) as [c|] eqn:E.
  - exists c, cm. auto using getCache_present.
  - exists (lru_New ConversationOfUserMaxCount), (put_cache u (lru_New ConversationOfUserMaxCount) cm).
    unfold getUserConversationCache, mbind, io_bind, gets. rewrite E.
    split; [done|]. rewrite cache_of_put, decide_True by done. auto using well_formed_put.
Qed.

Lemma loaded_present u c cm : cache_of u cm = Some c -> Len c <> 0 -> loaded u cm = (Ret c, cm).
Proof.
  intros Hc Hl. unfold loadedCache. io_step (getCache_present u c cm Hc).
  rewrite (proj2 (Z.eqb_neq _ _)) by done. reflexivity.
Qed.

(** What is loaded is in place. *)
Lemma loaded_spec u cm c cm1 : well_formed cm -> loaded u cm = (Ret c, cm1) ->
  cache_of u cm1 = Some c /\ well_formed cm1.
Proof.
  intros Hw. unfold loadedCache. destruct (getCache_spec u cm Hw) as (c0 & cm0 & E & Hc & Hw0). io_step E.
  destruct (Len c0 =? 0); [|intros [= <- <-]; done]. unfold mbind, io_bind, stored, zoom.
  destruct (GetConversations u (sdb cm0)) as [[l|e|] d]; intros [= <- <-].
  set (cm2 := set_sdb d cm0). assert (well_formed cm2) as Hw2 by exact Hw0.
  change (put_cache u (add_conversations l c0) (set_sdb d cm0)) with (put_cache u (add_conversations l c0) cm2).
  rewrite cache_of_put, decide_True by done. auto using well_formed_put.
Qed.

Lemma getCache_others u u' c cm cm1 : well_formed cm -> getCache u cm = (Ret c, cm1) -> u' <> u ->
  cache_of u' cm1 = cache_of u' cm.
Proof.
  intros Hw E Hu. revert E. unfold getUserConversationCache, mbind, io_bind, gets.
  destruct (cache_of u cm); intros [= _ <-]; [done|]. by rewrite cache_of_put, decide_False.
Qed.

(** One user of [DeleteConversation]. *)
Lemma delete_one u k cm : well_formed cm -> exists cm',
  (cache ← getCache u; if bool_decide (k ∈ Keys cache) then modify (put_cache u (Remove k cache)) else mret tt) cm =
    (Ret tt, cm') /\ well_formed cm' /\ (exists c, cache_of u cm' = Some c /\ k ∉ Keys c) /\
  (forall u', u' <> u -> cache_of u' cm' = cache_of u' cm).
Proof.
  intros Hw. destruct (getCache_spec u cm Hw) as (c & cm1 & E & Hc & Hw1).
  pose proof (fun u' => getCache_others u u' c cm cm1 Hw E) as Hothers. destruct (decide (k ∈ Keys c)) as [Hin|Hin].
  - exists (put_cache u (Remove k c) cm1). split; [|split; [by apply well_formed_put|split]].
    + io_step E. by rewrite bool_decide_true.
    + exists (Remove k c). rewrite cache_of_put, decide_True by done. split; [done|].
      rewrite Keys_entries, entries_Remove. intros ([k' v] & Ek & Hx)%list_elem_of_fmap. cbn in Ek.
      apply list_elem_of_filter in Hx as [Hx _]. cbn in Hx. congruence.
    + intros u' Hu. rewrite cache_of_put, decide_False by done. auto.
  - exists cm1. split; [|eauto]. io_step E. by rewrite bool_decide_false.
Qed.

(** [DeleteConversation] takes the conversation out of the cache of every
    user named, and touches no other user's. *)
Lemma DeleteConversation_spec uids id t cm : well_formed cm -> exists cm',
  DeleteConversation ConversationOfUserMaxCount uids id t cm = (Ret tt, cm') /\ well_formed cm' /\
  (forall u, u ∈ uids -> exists c, cache_of u cm' = Some c /\ getChannelKey id t ∉ Keys c) /\
  (forall u, u ∉ uids -> cache_of u cm' = cache_of u cm).
Proof.
  intros Hw. unfold DeleteConversation.
  apply (for_each_inv _ (fun us cm' => well_formed cm' /\
    (forall u, u ∈ us -> exists c, cache_of u cm' = Some c /\ getChannelKey id t ∉ Keys c) /\
    (forall u, u ∉ us -> cache_of u cm' = cache_of u cm))).
  - intros u l1 l2 cm1 _ (Hw1 & Hin & Hout). destruct (delete_one u (getChannelKey id t) cm1 Hw1) as (cm' & E & Hw' & Hu & Ho).
    exists cm'. split; [done|]. split; [done|]. split.
    + intros u' [Hu'| ->%list_elem_of_singleton]%elem_of_app; [|done].
      destruct (decide (u' = u)) as [->|Hne]; [done|]. rewrite Ho by done. auto.
    + intros u' [Hl Hne]%not_elem_of_app. rewrite Ho, Hout; [done|done|]. intros ->. apply Hne. by apply list_elem_of_singleton.
  - split; [done|]. split; [|done]. by intros u Hu%not_elem_of_nil.
Qed.

(** The storage is not told: a user whose only conversation is deleted has an
    empty cache, which is filled from the storage again. *)
Lemma deleted_conversation_returns u id t x cm c : well_formed cm ->
  cache_of u cm = Some c -> 0 < capacity c -> entries c = [(getChannelKey id t, x)] ->
  GetConversations u (sdb cm) = (Ret [x], sdb cm) -> getChannelKey (cChannelID x) (cChannelType x) = getChannelKey id t ->
  exists cm1 c2 cm2, DeleteConversation ConversationOfUserMaxCount [u] id t cm = (Ret tt, cm1) /\
    loaded u cm1 = (Ret c2, cm2) /\ entries c2 = [(getChannelKey id t, x)].
Proof.
  intros Hw Hc Hcap He Hst Hk. set (k := getChannelKey id t) in *.
  set (c1 := Remove k c). assert (entries c1 = []) as He1.
  { unfold c1. rewrite entries_Remove, He. unfold without. rewrite filter_cons, decide_False; [done|]. intros Hx. by apply Hx. }
  exists (put_cache u c1 cm). eexists _, _. split; [|split].
  - unfold DeleteConversation. cbn [for_each]. fold k. unfold mbind, io_bind. rewrite (getCache_present u c cm Hc).
    rewrite bool_decide_true; [done|]. rewrite Keys_entries, He. by left.
  - assert (cache_of u (put_cache u c1 cm) = Some c1) as Hc1 by (by rewrite cache_of_put, decide_True).
    unfold loadedCache. io_step (getCache_present u c1 _ Hc1).
    rewrite Len_entries, He1, zlen_nil, Z.eqb_refl. unfold stored, zoom, mbind, io_bind.
    change (sdb (put_cache u c1 cm)) with (sdb cm). rewrite Hst. reflexivity.
  - cbn [add_conversations foldl]. rewrite Hk, entries_Add, He1. cbn zeta. unfold without. rewrite filter_nil. cbn [app].
    rewrite Z.gtb_ltb, (proj2 (Z.ltb_ge _ _)); [done|]. unfold c1. rewrite capacity_Remove, zlen_cons, zlen_nil. lia.
Qed.

Definition key_of (m : Lim.Message) (sub : string) : string :=
  getChannelKey (channel_for m sub) (Recv.ChannelType (Lim.RecvPacket m)).

(** The conversation after a message, from the one before it, and whether the
    user is to be saved. *)
Definition account (now : Z) (m : Lim.Message) (sub : string) (o : option Conversation) : Conversation * bool :=
  match o with
  | None => (newConversation now m sub, true)
  | Some c => updateConversation now m sub c
  end.

Definition marked (sub : string) (b : bool) (n : gset string) : gset string :=
  if b then {[sub]} ∪ n else n.

Lemma setNeedSave_spec sub cm : exists cm1, setNeedSave sub cm = (Ret tt, cm1) /\
  needSaveConversationMap cm1 = {[sub]} ∪ needSaveConversationMap cm /\
  userConversationMapBuckets cm1 = userConversationMapBuckets cm /\ sdb cm1 = sdb cm.
Proof.
  unfold setNeedSave, modify. case_decide as E; eexists; (split; [reflexivity|]); cbn; split; auto. set_solver.
Qed.

(** Up to the request to save: the conversation that is there is changed in
    the cache, a new one is not there yet. *)
Lemma calConversation_begin_spec now m sub cm c0 cm0 (k := key_of m sub)
    (a := account now m sub (assoc k (entries c0))) :
  well_formed cm -> loaded sub cm = (Ret c0, cm0) -> 0 < capacity c0 ->
  exists c1 cm1, calConversation_begin ConversationOfUserMaxCount now m sub cm = (Ret (fst a), cm1) /\
    cache_of sub cm1 = Some c1 /\ capacity c1 = capacity c0 /\ well_formed cm1 /\
    entries c1 = match assoc k (entries c0) with
                 | Some _ => without k (entries c0) ++ [(k, fst a)] | None => entries c0 end /\
    needSaveConversationMap cm1 = marked sub (snd a) (needSaveConversationMap cm0) /\
    sdb cm1 = sdb cm0 /\ forall u, u <> sub -> cache_of u cm1 = cache_of u cm0.
Proof.
  intros Hw Hl Hcap. destruct (loaded_spec sub cm c0 cm0 Hw Hl) as [Hc0 Hw0].
  unfold calConversation_begin. io_step Hl. fold (key_of m sub). fold k.
  destruct (Get_twice k c0) as (G1 & G2 & G3). cbn zeta in *.
  destruct (Get k c0) as [x1 c1]. cbn [snd fst] in *. destruct (Get k c1) as [x2 c2]. cbn [snd fst] in *. subst x2.
  unfold a. destruct (assoc k (entries c0)) as [v|] eqn:Ea; cbn [account fst snd].
  - destruct (updateConversation now m sub v) as [v' b] eqn:Eu. cbn [fst snd].
    set (cm2 := put_cache sub (Add k v' c2) (put_cache sub c2 cm0)).
    assert (well_formed cm2) as Hw2 by (unfold cm2; auto using well_formed_put).
    assert (assoc k (entries c2) <> None) as Ha2 by (rewrite G3, assoc_snoc; discriminate).
    destruct (setNeedSave_spec sub cm2) as (cm3 & E3 & N3 & B3 & D3).
    exists (Add k v' c2), (if b then cm3 else cm2).
    assert (forall u, cache_of u (if b then cm3 else cm2) = cache_of u cm2) as Hsame.
    { intros u. destruct b; [|done]. unfold cache_of. by rewrite B3. }
    split; [|split; [|split; [|split; [|split; [|split; [|split]]]]]].
    + unfold mbind, io_bind, modify. fold cm2. destruct b; [rewrite E3|]; reflexivity.
    + rewrite Hsame. unfold cm2. rewrite cache_of_put, decide_True; auto using well_formed_put.
    + by rewrite capacity_Add.
    + destruct b; [|done]. unfold well_formed. by rewrite B3.
    + rewrite entries_Add_fits, G3, without_snoc by (rewrite ?G2; auto). done.
    + destruct b; [|done]. cbn [marked]. by rewrite N3.
    + destruct b; [|done]. by rewrite D3.
    + intros u Hu. rewrite Hsame. unfold cm2. rewrite !cache_of_put, !decide_False; auto using well_formed_put.
  - set (cm2 := put_cache sub c2 cm0). assert (well_formed cm2) as Hw2 by (unfold cm2; auto using well_formed_put).
    destruct (setNeedSave_spec sub cm2) as (cm3 & E3 & N3 & B3 & D3). exists c2, cm3.
    assert (forall u, cache_of u cm3 = cache_of u cm2) as Hsame by (intros u; unfold cache_of; by rewrite B3).
    split; [|split; [|split; [|split; [|split; [|split; [|split]]]]]]; auto.
    + unfold mbind, io_bind, modify. fold cm2. rewrite E3. reflexivity.
    + rewrite Hsame. unfold cm2. rewrite cache_of_put, decide_True; auto.
    + unfold well_formed. by rewrite B3.
    + intros u Hu. rewrite Hsame. unfold cm2. rewrite cache_of_put, decide_False; auto.
Qed.

Lemma calConversation_end_spec m sub conv c1 cm1 : cache_of sub cm1 = Some c1 ->
  calConversation_end ConversationOfUserMaxCount m sub conv cm1 =
    (Ret tt, put_cache sub (Add (key_of m sub) conv c1) cm1).
Proof. intros Hc. unfold calConversation_end. io_step (getCache_present sub c1 cm1 Hc). reflexivity. Qed.

(** A message accounted for: its conversation is the newest of the user's
    and the other users are not touched. *)
Lemma calConversation_spec now m sub cm c0 cm0 (k := key_of m sub)
    (a := account now m sub (assoc k (entries c0))) :
  well_formed cm -> loaded sub cm = (Ret c0, cm0) -> 0 < capacity c0 ->
  assoc k (entries c0) <> None \/ zlen (entries c0) < capacity c0 ->
  exists c1 cm1, calConversation ConversationOfUserMaxCount now m sub cm = (Ret tt, cm1) /\
    cache_of sub cm1 = Some c1 /\ capacity c1 = capacity c0 /\ well_formed cm1 /\
    entries c1 = without k (entries c0) ++ [(k, fst a)] /\
    needSaveConversationMap cm1 = marked sub (snd a) (needSaveConversationMap cm0) /\
    sdb cm1 = sdb cm0 /\ forall u, u <> sub -> cache_of u cm1 = cache_of u cm0.
Proof.
  intros Hw Hl Hcap Hfit. destruct (calConversation_begin_spec now m sub cm c0 cm0 Hw Hl Hcap)
    as (c1 & cm1 & E & Hc & Hcc & Hw1 & Hen & Hn & Hd & Hu). fold k in Hen, Hn. fold k a in E.
  exists (Add k (fst a) c1), (put_cache sub (Add k (fst a) c1) cm1).
  split; [|split; [|split; [|split; [|split; [|split; [|split]]]]]].
  - unfold calConversation. io_step (attempt_Ret _ _ _ _ E). apply calConversation_end_spec, Hc.
  - by rewrite cache_of_put, decide_True.
  - by rewrite capacity_Add.
  - by apply well_formed_put.
  - rewrite entries_Add_fits; rewrite ?Hcc, ?Hen; [|done|].
    + destruct (assoc k (entries c0)); [by rewrite without_snoc|done].
    + destruct (assoc k (entries c0)) as [v|] eqn:Ea; [left; rewrite assoc_snoc; discriminate|right].
      destruct Hfit; [done|lia].
  - exact Hn.
  - exact Hd.
  - intros u Hne. rewrite cache_of_put, decide_False by done. by apply Hu.
Qed.

(** ** Counting a run of messages *)

(** The red dots of a list of messages. *)
Definition unread_of (sub : string) (ms : list Lim.Message) : Z := zlen (filter (fun m => red_dot m sub = true) ms).

(** [c] shows the message [m]. *)
Definition shows (c : Conversation) (m : Lim.Message) : Prop :=
  let p := Lim.RecvPacket m in
  LastMsgSeq c = Recv.MessageSeq p /\ cTimestamp c = Recv.Timestamp p /\
  LastClientMsgNo c = Recv.ClientMsgNo p /\ LastMsgID c = Recv.MessageID p.

(** What is known of the conversation after the messages [ms]. *)
Record accounted (sub : string) (ms : list Lim.Message) (c : Conversation) : Prop := {
  acc_unread : UnreadCount c = unread_of sub ms;
  acc_shows : exists m, m ∈ ms /\ shows c m;
  acc_last m : m ∈ ms -> Recv.MessageSeq (Lim.RecvPacket m) <= LastMsgSeq c
}.

Lemma unread_snoc sub ms m : unread_of sub (ms ++ [m]) = unread_of sub ms + (if red_dot m sub then 1 else 0).
Proof. unfold unread_of. rewrite filter_app, zlen_app, filter_cons, filter_nil. by destruct (red_dot m sub). Qed.

Lemma accounted_new now sub m : accounted sub [m] (newConversation now m sub).
Proof.
  split.
  - cbn. unfold unread_of. rewrite filter_cons, filter_nil. by destruct (red_dot m sub).
  - exists m. split; [constructor|]. done.
  - intros x ->%list_elem_of_singleton. cbn. lia.
Qed.

Lemma accounted_update now sub ms m c : accounted sub ms c -> zlen ms < 2 ^ 62 ->
  accounted sub (ms ++ [m]) (fst (updateConversation now m sub c)).
Proof.
  intros [Un (x & Hx & Sh) Le] Hlen. unfold updateConversation.
  assert ((if red_dot m sub then i64 (UnreadCount c + 1) else UnreadCount c) = unread_of sub (ms ++ [m])) as E.
  { rewrite unread_snoc, Un. destruct (red_dot m sub); [|lia]. apply wrapS_id; [lia|]. unfold inS.
    assert (0 <= unread_of sub ms <= zlen ms).
    { unfold unread_of, zlen. pose proof (length_filter (fun m => red_dot m sub = true) ms). lia. }
    lia. }
  rewrite E. destruct (Z.ltb_spec (LastMsgSeq c) (Recv.MessageSeq (Lim.RecvPacket m))) as [Hlt|Hge]; cbn [fst].
  - split; cbn; [done| |].
    + exists m. split; [apply elem_of_app; right; constructor|]. done.
    + intros y [Hy| ->%list_elem_of_singleton]%elem_of_app; [specialize (Le y Hy); lia|lia].
  - split; cbn; [done| |].
    + exists x. split; [apply elem_of_app; by left|]. exact Sh.
    + intros y [Hy| ->%list_elem_of_singleton]%elem_of_app; [exact (Le y Hy)|lia].
Qed.

(** The state after the messages [ms] of a conversation, [k], that was not in
    the cache [c0] of [cm0]. *)
Record counted (sub k : string) (c0 : C) (cm0 : manager C S) (ms : list Lim.Message) cm : Prop := {
  cnt_cache : exists c1 conv, cache_of sub cm = Some c1 /\ entries c1 = entries c0 ++ [(k, conv)] /\
    capacity c1 = capacity c0 /\ accounted sub ms conv;
  cnt_well : well_formed cm;
  cnt_saved : needSaveConversationMap cm = {[sub]} ∪ needSaveConversationMap cm0;
  cnt_others u : u <> sub -> cache_of u cm = cache_of u cm0;
  cnt_sdb : sdb cm = sdb cm0
}.

Lemma counted_step now m sub k c0 cm0 ms cm : counted sub k c0 cm0 ms cm -> key_of m sub = k ->
  assoc k (entries c0) = None -> 0 < capacity c0 -> zlen ms < 2 ^ 62 ->
  exists cm1, calConversation ConversationOfUserMaxCount now m sub cm = (Ret tt, cm1) /\
    counted sub k c0 cm0 (ms ++ [m]) cm1.
Proof.
  intros [(c1 & conv & Hc & He & Hcc & Ha) Hw Hs Ho Hd] Hk Hn Hcap Hlen.
  assert (loaded sub cm = (Ret c1, cm)) as Hl.
  { apply loaded_present; [done|]. rewrite Len_entries, He, zlen_app, zlen_cons, zlen_nil.
    pose proof (zlen_nonneg (entries c0)). lia. }
  assert (entries c0 = without k (entries c0)) as Ew by (symmetry; by apply without_absent).
  assert (assoc k (entries c1) = Some conv) as Ea by (rewrite He, Ew; apply assoc_snoc).
  destruct (calConversation_spec now m sub cm c1 cm Hw Hl ltac:(lia)) as (c2 & cm2 & E & Hc2 & Hcc2 & Hw2 & He2 & Hn2 & Hd2 & Hu2).
  { left. rewrite Hk, Ea. discriminate. }
  rewrite Hk, Ea in *. cbn [account] in *. exists cm2. split; [done|]. split.
  - exists c2, (fst (updateConversation now m sub conv)). split; [done|]. split; [|split; [congruence|]].
    + rewrite He2, He. f_equal. rewrite Ew, without_snoc. by rewrite <- Ew.
    + by apply accounted_update.
  - done.
  - rewrite Hn2, Hs. destruct (snd _); cbn [marked]; [set_solver|done].
  - intros u Hu. rewrite Hu2 by done. by apply Ho.
  - congruence.
Qed.


(** ** Saving *)

Lemma flushUser_spec uid cm c d : well_formed cm -> cache_of uid cm = Some c ->
  AddOrUpdateConversations uid (snd <$> entries c) (sdb cm) = (Ret tt, d) ->
  exists c' cm', flushUser ConversationOfUserMaxCount uid cm = (Ret tt, cm') /\
    cache_of uid cm' = Some c' /\ entries c' = entries c /\ capacity c' = capacity c /\ well_formed cm' /\
    needSaveConversationMap cm' = needSaveConversationMap cm ∖ {[uid]} /\ sdb cm' = d.
Proof.
  intros Hw Hc Hd. destruct (read_Keys c) as (R1 & R2 & R3).
  unfold flushUser. io_step (getCache_present uid c cm Hc).
  destruct (read_all (Keys c) c) as [l c']. cbn [fst snd] in *. subst l.
  set (cm1 := put_cache uid c' cm). assert (well_formed cm1) as Hw1 by (unfold cm1; auto using well_formed_put).
  exists c', (set_needSave (needSaveConversationMap cm ∖ {[uid]}) (noSaveCount cm) (set_sdb d cm1)).
  split; [|split; [|split; [|split; [|split; [|split]]]]]; auto.
  - unfold mbind, io_bind, modify, attempt, stored, zoom. fold cm1. change (sdb cm1) with (sdb cm).
    rewrite Hd. reflexivity.
  - unfold cache_of, set_needSave, set_sdb. cbn [userConversationMapBuckets]. fold (cache_of uid cm1).
    unfold cm1. by rewrite cache_of_put, decide_True.
Qed.

(** The save loop can run between the moment a new conversation asks to
    be saved and the moment it enters the cache; then it saves the user's
    conversations without the new one and takes the user off the list, so
    that the new one is in memory only. *)
Theorem flush_misses_new_conversation now m sub k cm c0 cm0 d : well_formed cm ->
  loadedCache ConversationOfUserMaxCount sub cm = (Ret c0, cm0) -> k = key_of m sub ->
  assoc k (entries c0) = None -> zlen (entries c0) < capacity c0 ->
  AddOrUpdateConversations sub (snd <$> entries c0) (sdb cm0) = (Ret tt, d) ->
  exists conv cm1 cm2 cm3 c3,
    calConversation_begin ConversationOfUserMaxCount now m sub cm = (Ret conv, cm1) /\
    flushUser ConversationOfUserMaxCount sub cm1 = (Ret tt, cm2) /\
    calConversation_end ConversationOfUserMaxCount m sub conv cm2 = (Ret tt, cm3) /\
    cache_of sub cm3 = Some c3 /\ entries c3 = entries c0 ++ [(k, conv)] /\
    (sub ∉ needSaveConversationMap cm3) /\ sdb cm3 = d.
Proof.
  intros Hw Hl -> Hn Hfit Hsave. pose proof (zlen_nonneg (entries c0)).
  destruct (calConversation_begin_spec now m sub cm c0 cm0 Hw Hl ltac:(lia))
    as (c1 & cm1 & E1 & Hc1 & Hcc1 & Hw1 & He1 & _ & Hd1 & _).
  rewrite Hn in *. rewrite <- He1, <- Hd1 in Hsave.
  destruct (flushUser_spec sub cm1 c1 d Hw1 Hc1 Hsave) as (c2 & cm2 & E2 & Hc2 & He2 & Hcc2 & Hw2 & Hn2 & Hd2).
  exists (newConversation now m sub), cm1, cm2, (put_cache sub (Add (key_of m sub) (newConversation now m sub) c2) cm2),
    (Add (key_of m sub) (newConversation now m sub) c2).
  split; [exact E1|]. split; [done|]. split; [by apply calConversation_end_spec|].
  split; [by rewrite cache_of_put, decide_True|]. split; [|split; [|done]].
  - rewrite entries_Add_fits by (rewrite ?Hcc2, ?Hcc1, ?He2, ?He1; auto; lia).
    rewrite He2, He1, without_absent; done.
  - change (sub ∉ needSaveConversationMap cm2). rewrite Hn2. set_solver.
Qed.
End CalConversation.

(** * A cache as a list *)
Definition cache_ok {V} (n : Z) (l : list (string * V)) : Prop :=
  NoDup (fst <$> l) /\ (0 < n -> zlen l <= n).
Record listCache (V : Type) := mkListCache {
  lc_capacity : Z;
  lc_entries : list (string * V);
  lc_ok : cache_ok lc_capacity lc_entries
}.
Arguments mkListCache {V}. Arguments lc_capacity {V}. Arguments lc_entries {V}. Arguments lc_ok {V}.

Lemma NoDup_filter_fst {V} k (l : list (string * V)) : NoDup (fst <$> l) -> NoDup (fst <$> without k l).
Proof.
  unfold without. induction l as [|p l IH]; [done|]. rewrite fmap_cons, filter_cons. intros [Hp Hn]%NoDup_cons.
  case_decide; [|auto]. rewrite fmap_cons. apply NoDup_cons. split; [|auto]. intros (q & E & Hq)%list_elem_of_fmap.
  apply Hp. rewrite E. apply list_elem_of_fmap_2. apply list_elem_of_filter in Hq. tauto.
Qed.

Lemma NoDup_newest {V} k (v : V) l : NoDup (fst <$> l) -> NoDup (fst <$> (without k l ++ [(k, v)])).
Proof.
  intros Hn. rewrite fmap_app. apply NoDup_app. split; [by apply NoDup_filter_fst|]. split; [|apply NoDup_singleton].
  intros x (p & -> & Hp)%list_elem_of_fmap Hx. apply list_elem_of_singleton in Hx.
  apply list_elem_of_filter in Hp as [Hp _]. by apply Hp.
Qed.

Lemma zlen_without {V} k (l : list (string * V)) : zlen (without k l) <= zlen l.
Proof. unfold zlen, without. pose proof (length_filter (fun p : string * V => fst p <> k) l). lia. Qed.

Definition newest {V} (n : Z) (k : string) (v : V) (l : list (string * V)) : list (string * V) :=
  let l' := without k l ++ [(k, v)] in if zlen l' >? n then drop 1 l' else l'.

Lemma newest_ok {V} n k (v : V) l : cache_ok n l -> cache_ok n (newest n k v l).
Proof.
  intros [Hn Hl]. pose proof (NoDup_newest k v l Hn) as Hn'. unfold newest. rewrite Z.gtb_ltb. destruct (Z.ltb_spec n (zlen (without k l ++ [(k, v)]))) as [Hlt|Hge].
  - split.
    + destruct (without k l ++ [(k, v)]) as [|p l']; [done|]. rewrite fmap_cons in Hn'. by apply NoDup_cons in Hn' as [_ ?].
    + intros Hpos. specialize (Hl Hpos). pose proof (zlen_without k l). unfold zlen in *. rewrite length_drop.
      rewrite length_app in *. cbn [length] in *. lia.
  - split; [done|lia].
Qed.

Definition touched {V} (k : string) (l : list (string * V)) : list (string * V) :=
  match assoc k l with Some v => without k l ++ [(k, v)] | None => l end.

Lemma touched_ok {V} n k (l : list (string * V)) : cache_ok n l -> cache_ok n (touched k l).
Proof.
  unfold touched. destruct (assoc k l) as [v|] eqn:Ha; [|done]. intros [Hn Hl].
  split; [by apply NoDup_newest|]. intros Hpos.
  pose proof (length_without_Some k l v Hn Ha). rewrite zlen_app, zlen_cons, zlen_nil. specialize (Hl Hpos). lia.
Qed.

Lemma cache_ok_nil {V} n : cache_ok (V := V) n [].
Proof. split; [constructor|intros ?; cbn; unfold zlen; cbn; lia]. Qed.

Lemma cache_ok_without {V} n k (l : list (string * V)) : cache_ok n l -> cache_ok n (without k l).
Proof.
  intros [Hn Hl]. split; [by apply NoDup_filter_fst|]. intros Hp. specialize (Hl Hp). pose proof (zlen_without k l). lia.
Qed.

#[export] Instance listCache_LRU V : LRU (listCache V) V := {|
  lru_New n := mkListCache n [] (cache_ok_nil n);
  Get k c := (assoc k (lc_entries c),
    mkListCache (lc_capacity c) (touched k (lc_entries c)) (touched_ok _ _ _ (lc_ok c)));
  Add k v c := mkListCache (lc_capacity c) (newest (lc_capacity c) k v (lc_entries c)) (newest_ok _ _ _ _ (lc_ok c));
  Remove k c := mkListCache (lc_capacity c) (without k (lc_entries c)) (cache_ok_without _ _ _ (lc_ok c));
  Keys c := fst <$> lc_entries c;
  Len c := zlen (lc_entries c)
|}.

#[export] Instance listCache_LRULaws V : LRULaws (listCache V) V.
Proof.
  refine {| entries := lc_entries; capacity := lc_capacity |}; try reflexivity.
  - intros c. apply (lc_ok c).
  - intros c. apply (lc_ok c).
Defined.

(** * Witnesses *)
Definition group_message (seq : Z) (dot : bool) : Lim.Message :=
  Lim.mkMessage (Recv.mkRecvPacket (mkFramer RECV 0 false dot false false) (mkSetting false) "" (1000 + seq) seq
    "no" 1600000000 "alice" "g1" ChannelTypeGroup (bytes_of_string "hi")) "" [] APP 0 0 0.

Definition example_manager : manager (listCache Conversation) Memory.store := NewConversationManager Memory.empty_store.
Definition example_loaded := loadedCache 100 "bob" example_manager.
Definition example_cache : listCache Conversation := match fst example_loaded with Ret c => c | _ => lru_New 100 end.

Lemma example_loaded_eq : loadedCache 100 "bob" example_manager = (Ret example_cache, snd example_loaded).
Proof. vm_compute. reflexivity. Qed.


Lemma flush_misses_new_conversation_witness :
  exists conv cm1 cm2 cm3 c3,
    calConversation_begin 100 7 (group_message 5 true) "bob" example_manager = (Ret conv, cm1) /\
    flushUser 100 "bob" cm1 = (Ret tt, cm2) /\
    calConversation_end 100 (group_message 5 true) "bob" conv cm2 = (Ret tt, cm3) /\
    cache_of "bob" cm3 = Some c3 /\ entries c3 = entries example_cache ++ [("g1-2", conv)] /\
    ("bob" ∉ needSaveConversationMap cm3) /\
    sdb cm3 = snd (AddOrUpdateConversations "bob" (snd <$> entries example_cache) (sdb (snd example_loaded))).
Proof.
  apply (flush_misses_new_conversation 100 7 (group_message 5 true) "bob" "g1-2" example_manager example_cache
    (snd example_loaded)).
  - reflexivity.
  - exact example_loaded_eq.
  - vm_compute. reflexivity.
  - vm_compute. reflexivity.
  - vm_compute. reflexivity.
  - reflexivity.
Defined.
