(* ===== verification/SwaggerUI.v ===== *)
(** The page that documents the HTTP interface is Swagger UI, which the
    repository carries as minified bundles (configs/swagger): a bundle is one
    line of source. Modelled are the functions of its base64-js module
    (swagger-ui-bundle.js, also in the standalone preset) and the two UTF-8
    conversions of its Buffer module, the encoder as in
    swagger-ui-standalone-preset.js, the decoder as in swagger-ui.js. Bytes
    and UTF-16 code units are [Z]. *)
From stdpp Require Import base list strings.
From Stdlib Require Import ZArith Lia Strings.Byte.
From S2P Require Import Prelude Encodings.

(** * base64-js *)
Module Base64.

(** [r] and [o]: the characters by value, and the values by character code;
    the URL-safe characters are read as well. *)
Definition lookup (v : Z) : Z := nth (Z.to_nat v) (map Z_of_byte alphabet) 0.
Definition revLookup (code : Z) : option Z :=
  if code =? 45 then Some 62
  else if code =? 95 then Some 63
  else if (0 <=? code) && (code <? 256) then dec64 (byte_of_Z code) else None.

(** [undefined] counts as 0 in bit operations. *)
Definition rev (code : Z) : Z := default 0 (revLookup code).
Definition at_ (e : list Z) (i : Z) : Z := nth (Z.to_nat i) e 0.

Fixpoint indexOf (c : Z) (e : list Z) : Z :=
  match e with
  | [] => 0
  | x :: e' => if x =? c then 0 else 1 + indexOf c e'
  end.

(** [c], [getLens]: the valid length and the number of placeholders. *)
Definition getLens (b64 : list Z) : outcome (Z * Z) :=
  let len := zlen b64 in
  if len mod 4 >? 0 then Err (ErrMsg "Invalid string. Length must be a multiple of 4")
  else
    let validLen := indexOf 61 b64 in
    Ret (validLen, if validLen =? len then 0 else 4 - validLen mod 4).

(** [l], [encodeChunk]: from [start], three bytes a round, below [end_]. *)
Fixpoint encodeChunk (fuel : nat) (e : list Z) (start end_ : Z) : list Z :=
  match fuel with
  | O => []
  | S fuel' =>
      if start <? end_ then
        let tmp := Z.land (Z.shiftl (at_ e start) 16) 16711680 + Z.land (Z.shiftl (at_ e (start + 1)) 8) 65280
                   + Z.land 255 (at_ e (start + 2)) in
        lookup (Z.land (Z.shiftr tmp 18) 63) :: lookup (Z.land (Z.shiftr tmp 12) 63)
          :: lookup (Z.land (Z.shiftr tmp 6) 63) :: lookup (Z.land 63 tmp) :: encodeChunk fuel' e (start + 3) end_
      else []
  end.

Definition maxChunkLength : Z := 16383.
Fixpoint encodeChunks (fuel : nat) (e : list Z) (i len2 : Z) : list Z :=
  match fuel with
  | O => []
  | S fuel' =>
      if i <? len2 then
        encodeChunk (length e) e i (if i + maxChunkLength >? len2 then len2 else i + maxChunkLength)
          ++ encodeChunks fuel' e (i + maxChunkLength) len2
      else []
  end.

Definition fromByteArray (e : list Z) : list Z :=
  let len := zlen e in
  let extraBytes := len mod 3 in
  encodeChunks (length e) e 0 (len - extraBytes) ++
  (if extraBytes =? 1 then
     let tmp := at_ e (len - 1) in
     [lookup (Z.shiftr tmp 2); lookup (Z.land (Z.shiftl tmp 4) 63); 61; 61]
   else if extraBytes =? 2 then
     let tmp := Z.shiftl (at_ e (len - 2)) 8 + at_ e (len - 1) in
     [lookup (Z.shiftr tmp 10); lookup (Z.land (Z.shiftr tmp 4) 63); lookup (Z.land (Z.shiftl tmp 2) 63); 61]
   else []).

(** The whole groups of [toByteArray], and where they end. *)
Fixpoint decodeGroups (fuel : nat) (e : list Z) (n p : Z) : list Z * Z :=
  match fuel with
  | O => ([], n)
  | S fuel' =>
      if n <? p then
        let tmp := Z.lor (Z.lor (Z.lor (Z.shiftl (rev (at_ e n)) 18) (Z.shiftl (rev (at_ e (n + 1))) 12))
                     (Z.shiftl (rev (at_ e (n + 2))) 6)) (rev (at_ e (n + 3))) in
        let '(rest, n') := decodeGroups fuel' e (n + 4) p in
        (Z.land (Z.shiftr tmp 16) 255 :: Z.land (Z.shiftr tmp 8) 255 :: Z.land 255 tmp :: rest, n')
      else ([], n)
  end.

(** What is written into a typed array of a fixed length: the rest is lost,
    and what is not written is 0. *)
Definition typedArray (len : Z) (l : list Z) : outcome (list Z) :=
  if len <? 0 then Err (ErrMsg "Invalid typed array length")
  else Ret (take (Z.to_nat len) (l ++ repeat 0 (Z.to_nat len))).

Definition toByteArray (e : list Z) : outcome (list Z) :=
  '(validLen, placeHoldersLen) ← getLens e;
  let p := if placeHoldersLen >? 0 then validLen - 4 else validLen in
  let '(groups, n) := decodeGroups (length e) e 0 p in
  let last2 :=
    if placeHoldersLen =? 2
    then [Z.land 255 (Z.lor (Z.shiftl (rev (at_ e n)) 2) (Z.shiftr (rev (at_ e (n + 1))) 4))] else [] in
  let last1 :=
    if placeHoldersLen =? 1
    then let tmp := Z.lor (Z.lor (Z.shiftl (rev (at_ e n)) 10) (Z.shiftl (rev (at_ e (n + 1))) 4))
                      (Z.shiftr (rev (at_ e (n + 2))) 2) in
         [Z.land (Z.shiftr tmp 8) 255; Z.land 255 tmp] else [] in
  typedArray (3 * (validLen + placeHoldersLen) / 4 - placeHoldersLen) (groups ++ last2 ++ last1).
End Base64.

(** * Buffer *)
Module Buffer.

(** [Q]: the UTF-8 bytes of a string of code units, at most [units] of them
    ([None] for the [Infinity] an undefined or zero limit becomes); [lead] is
    a high surrogate that waits for its partner. *)
Definition replacement : list Z := [239; 191; 189].
Definition spend (n : Z) (units : option Z) : option Z := option_map (fun u => u - n) units.
Definition left_over (units : option Z) : bool := match units with Some u => u >? -1 | None => true end.

Definition lost (units : option Z) : list Z := if left_over (spend 3 units) then replacement else [].

Fixpoint utf8ToBytes_loop (s : list Z) (lead : option Z) (units : option Z) : list Z :=
  match s with
  | [] => []
  | n :: s' =>
      let put (n : Z) (units : option Z) :=
        if n <? 128 then
          let u := spend 1 units in if left_over u then n :: utf8ToBytes_loop s' None u else []
        else if n <? 2048 then
          let u := spend 2 units in
          if left_over u then Z.lor (Z.shiftr n 6) 192 :: Z.lor (Z.land 63 n) 128 :: utf8ToBytes_loop s' None u else []
        else if n <? 65536 then
          let u := spend 3 units in
          if left_over u
          then Z.lor (Z.shiftr n 12) 224 :: Z.lor (Z.land (Z.shiftr n 6) 63) 128 :: Z.lor (Z.land 63 n) 128
                 :: utf8ToBytes_loop s' None u
          else []
        else
          let u := spend 4 units in
          if left_over u
          then Z.lor (Z.shiftr n 18) 240 :: Z.lor (Z.land (Z.shiftr n 12) 63) 128
                 :: Z.lor (Z.land (Z.shiftr n 6) 63) 128 :: Z.lor (Z.land 63 n) 128 :: utf8ToBytes_loop s' None u
          else [] in
      if (n >? 55295) && (n <? 57344) then
        match lead with
        | None =>
            if n >? 56319 then lost units ++ utf8ToBytes_loop s' None (spend 3 units)
            else if bool_decide (s' = []) then lost units ++ utf8ToBytes_loop s' None (spend 3 units)
            else utf8ToBytes_loop s' (Some n) units
        | Some o =>
            if n <? 56320 then lost units ++ utf8ToBytes_loop s' (Some n) (spend 3 units)
            else put (65536 + Z.lor (Z.shiftl (o - 55296) 10) (n - 56320)) units
        end
      else
        match lead with
        | Some _ => lost units ++ put n (spend 3 units)
        | None => put n units
        end
  end.
Definition utf8ToBytes (s : list Z) (units : option Z) : list Z :=
  utf8ToBytes_loop s None (match units with Some 0 => None | u => u end).

(** [C]: one character, and how many bytes it takes; [None] stands for
    [null]. *)
Definition cont (b : Z) : bool := Z.land 192 b =? 128.
Definition utf8_char (e : list Z) : option Z * Z :=
  let byte i := Base64.at_ e i in
  let c := byte 0 in
  let p := if c >? 239 then 4 else if c >? 223 then 3 else if c >? 191 then 2 else 1 in
  if negb (p <=? zlen e) then (None, p)
  else if p =? 1 then (if c <? 128 then Some c else None, p)
  else if p =? 2 then
    let u := Z.lor (Z.shiftl (Z.land 31 c) 6) (Z.land 63 (byte 1)) in
    (if cont (byte 1) && (u >? 127) then Some u else None, p)
  else if p =? 3 then
    let u := Z.lor (Z.lor (Z.shiftl (Z.land 15 c) 12) (Z.shiftl (Z.land 63 (byte 1)) 6)) (Z.land 63 (byte 2)) in
    (if cont (byte 1) && cont (byte 2) && (u >? 2047) && ((u <? 55296) || (u >? 57343)) then Some u else None, p)
  else
    let u := Z.lor (Z.lor (Z.lor (Z.shiftl (Z.land 15 c) 18) (Z.shiftl (Z.land 63 (byte 1)) 12))
               (Z.shiftl (Z.land 63 (byte 2)) 6)) (Z.land 63 (byte 3)) in
    (if cont (byte 1) && cont (byte 2) && cont (byte 3) && (u >? 65535) && (u <? 1114112) then Some u else None, p).

(** The code units pushed for it; what is no character is U+FFFD and takes one
    byte. *)
Definition pushed (l : Z) : list Z :=
  if l >? 65535 then
    let l' := l - 65536 in
    [Z.lor (Z.land (Z.shiftr l' 10) 1023) 55296; Z.lor 56320 (Z.land 1023 l')]
  else [l].
Fixpoint utf8Slice_loop (fuel : nat) (e : list Z) : list Z :=
  match fuel, e with
  | S fuel', _ :: _ =>
      match utf8_char e with
      | (Some l, p) => pushed l ++ utf8Slice_loop fuel' (drop (Z.to_nat p) e)
      | (None, _) => 65533 :: utf8Slice_loop fuel' (drop 1 e)
      end
  | _, _ => []
  end.
Definition utf8Slice (e : list Z) (start end_ : Z) : list Z :=
  let n := Z.min (zlen e) end_ in
  utf8Slice_loop (length e) (drop (Z.to_nat start) (take (Z.to_nat n) e)).
End Buffer.

(** * base64-js and encoding/base64 *)
Section Base64Facts.
Import Base64.

Abbreviation codes := (map Z_of_byte).

(** A property of all numbers below a bound, by computing it. *)
Lemma below (n : nat) (P : Z -> bool) : forallb P (map Z.of_nat (seq 0 n)) = true ->
  forall z, 0 <= z < Z.of_nat n -> P z = true.
Proof.
  intros H z Hz. rewrite forallb_forall in H. apply H. apply in_map_iff. exists (Z.to_nat z).
  split; [lia|]. apply in_seq. lia.
Qed.

Lemma lookup_enc64 v : lookup (Z.land v 63) = Z_of_byte (enc64 v).
Proof. unfold lookup, enc64. change 0 with (Z_of_byte Byte.x00). rewrite map_nth. reflexivity. Qed.

Lemma lookup_small v w : 0 <= v < 64 -> v = Z.land w 63 -> lookup v = Z_of_byte (enc64 w).
Proof. intros _ ->. apply lookup_enc64. Qed.

Lemma land63 v : Z.land v 63 = v mod 64.
Proof. change 63 with (Z.ones 6). by rewrite Z.land_ones by lia. Qed.
Lemma land255 v : Z.land v 255 = v mod 256.
Proof. change 255 with (Z.ones 8). by rewrite Z.land_ones by lia. Qed.

Lemma at_drop {l : list byte} {i b r} : drop i l = b :: r -> at_ (codes l) (Z.of_nat i) = Z_of_byte b.
Proof.
  intros E. unfold at_. rewrite Nat2Z.id. change 0 with (Z_of_byte Byte.x00). rewrite map_nth. f_equal.
  rewrite <- (take_drop i l), E. rewrite app_nth2; rewrite length_take; [|lia].
  assert (i < length l)%nat by (assert (length (drop i l) = length (b :: r)) as HL by (by rewrite E); rewrite length_drop in HL; cbn in HL; lia).
  rewrite Nat.min_l by lia. by rewrite Nat.sub_diag.
Qed.

Lemma tmp_val a b c :
  Z.land (Z.shiftl (Z_of_byte a) 16) 16711680 + Z.land (Z.shiftl (Z_of_byte b) 8) 65280 + Z.land 255 (Z_of_byte c) =
  Z.lor (Z.lor (Z.shiftl (Z_of_byte a) 16) (Z.shiftl (Z_of_byte b) 8)) (Z_of_byte c).
Proof.
  pose proof (Z_of_byte_range a) as Ha. pose proof (Z_of_byte_range b) as Hb. pose proof (Z_of_byte_range c) as Hc.
  rewrite val3 by done. rewrite (Z.land_comm 255), land255, Z.mod_small by done.
  pose proof (below 256 (fun z => Z.land (Z.shiftl z 16) 16711680 =? z * 65536) eq_refl _ Ha) as Ea.
  pose proof (below 256 (fun z => Z.land (Z.shiftl z 8) 65280 =? z * 256) eq_refl _ Hb) as Eb.
  cbv beta in Ea, Eb. lia.
Qed.

Lemma drop_3 (l : list byte) i k : drop i l = k -> (3 <= length k)%nat ->
  exists a b c r, k = a :: b :: c :: r /\ drop (S i) l = b :: c :: r /\ drop (S (S i)) l = c :: r /\ drop (S (S (S i))) l = r.
Proof.
  intros E Hk. destruct k as [|a [|b [|c r]]]; cbn in Hk; try lia. exists a, b, c, r. split; [done|].
  assert (forall j x t, drop j l = x :: t -> drop (S j) l = t) as Hd.
  { intros j x t Ej. replace (S j) with (j + 1)%nat by lia. by rewrite <- drop_drop, Ej. }
  split; [by eapply Hd|]. split; [eapply Hd, Hd, E|]. eapply Hd, Hd, Hd, E.
Qed.

Lemma encodeChunk_spec l k : forall fuel i, (k <= fuel)%nat -> (i + 3 * k <= length l)%nat ->
  encodeChunk fuel (codes l) (Z.of_nat i) (Z.of_nat (i + 3 * k)) = codes (encode64 (take (3 * k) (drop i l))).
Proof.
  induction k as [|k IH]; intros fuel i Hf Hl.
  - rewrite Nat.add_0_r. destruct fuel as [|fuel]; cbn [encodeChunk]; [done|]. by rewrite Z.ltb_irrefl.
  - destruct fuel as [|fuel]; [lia|]. cbn [encodeChunk]. rewrite (proj2 (Z.ltb_lt _ _)) by lia.
    destruct (drop_3 l i _ eq_refl) as (a & b & c & r & E & E1 & E2 & E3); [rewrite length_drop; lia|].
    replace (Z.of_nat i + 1) with (Z.of_nat (S i)) by lia. replace (Z.of_nat i + 2) with (Z.of_nat (S (S i))) by lia.
    replace (Z.of_nat i + 3) with (Z.of_nat (S (S (S i)))) by lia.
    rewrite (at_drop E), (at_drop E1), (at_drop E2), tmp_val.
    replace (i + 3 * S k)%nat with (S (S (S i)) + 3 * k)%nat by lia. rewrite IH, E3 by lia. rewrite E.
    replace (3 * S k)%nat with (S (S (S (3 * k)))) by lia. cbn [take encode64 map].
    rewrite (Z.land_comm 63), !lookup_enc64. reflexivity.
Qed.

Lemma encode64_app k : forall x y, length x = (3 * k)%nat -> encode64 (x ++ y) = encode64 x ++ encode64 y.
Proof.
  induction k as [|k IH]; intros x y Hx; [by destruct x|].
  destruct x as [|a [|b [|c x]]]; cbn in Hx; try lia. cbn [app encode64]. by rewrite (IH x y) by lia.
Qed.

Lemma encodeChunks_spec l fuel : forall i k, (k <= fuel)%nat -> (i + 3 * k <= length l)%nat ->
  encodeChunks fuel (codes l) (Z.of_nat i) (Z.of_nat (i + 3 * k)) = codes (encode64 (take (3 * k) (drop i l))).
Proof.
  induction fuel as [|fuel IH]; intros i k Hf Hl; [by replace k with 0%nat by lia|].
  cbn [encodeChunks]. destruct (decide (k = 0%nat)) as [->|Hk]; [by rewrite (proj2 (Z.ltb_ge _ _)) by lia|].
  rewrite (proj2 (Z.ltb_lt _ _)) by lia. unfold maxChunkLength.
  destruct (Z.gtb_spec (Z.of_nat i + 16383) (Z.of_nat (i + 3 * k))) as [Hg|Hg].
  - rewrite encodeChunk_spec by (rewrite ?length_map; lia).
    assert (forall f, encodeChunks f (codes l) (Z.of_nat i + 16383) (Z.of_nat (i + 3 * k)) = []) as ->
      by (intros [|f]; cbn [encodeChunks]; rewrite ?(proj2 (Z.ltb_ge _ _)) by lia; done). by rewrite app_nil_r.
  - destruct (Z_of_nat_complete 5461 ltac:(lia)) as (m & Hm).
    replace (Z.of_nat i + 16383) with (Z.of_nat (i + 3 * m)) by lia.
    rewrite encodeChunk_spec by (rewrite ?length_map; lia).
    replace (i + 3 * k)%nat with (i + 3 * m + 3 * (k - m))%nat by lia. rewrite IH by lia.
    rewrite <- map_app, <- (encode64_app m) by (rewrite length_take, length_drop; lia).
    f_equal. f_equal. rewrite <- drop_drop. replace (3 * k)%nat with (3 * m + 3 * (k - m))%nat by lia.
    apply take_take_drop.
Qed.

(** The bytes of whole groups, and what is left. *)
Lemma split3 (l : list byte) : exists x t k, l = x ++ t /\ length x = (3 * k)%nat /\
  (t = [] \/ (exists a, t = [a]) \/ exists a b, t = [a; b]).
Proof.
  exists (take (3 * (length l / 3)) l), (drop (3 * (length l / 3)) l), (length l / 3)%nat.
  pose proof (Nat.div_mod_eq (length l) 3). pose proof (Nat.mod_upper_bound (length l) 3 ltac:(lia)).
  split; [by rewrite take_drop|]. split; [rewrite length_take; lia|].
  assert (length (drop (3 * (length l / 3)) l) < 3)%nat as Ht by (rewrite length_drop; lia).
  destruct (drop _ l) as [|a [|b [|]]]; cbn in Ht; try lia; eauto.
Qed.

Lemma chars_end (x : list byte) t b i : at_ (codes (x ++ t)) (zlen x + i) = b -> 0 <= i -> at_ (codes t) i = b.
Proof.
  unfold at_, zlen. intros <- Hi. rewrite map_app, app_nth2; rewrite length_map; [f_equal; lia|lia].
Qed.

Lemma at_app (x : list byte) t i : 0 <= i -> at_ (codes (x ++ t)) (zlen x + i) = at_ (codes t) i.
Proof. intros Hi. symmetry. by eapply chars_end. Qed.

Lemma whole_groups x t k : length x = (3 * k)%nat ->
  encodeChunks (length (codes (x ++ t))) (codes (x ++ t)) 0 (zlen x) = codes (encode64 x).
Proof.
  intros Hx. pose proof (encodeChunks_spec (x ++ t) (length (codes (x ++ t))) 0 k) as E.
  rewrite length_map, length_app in E. cbn [Nat.add drop] in E. change (Z.of_nat 0) with 0 in E.
  unfold zlen. rewrite Hx, length_map, length_app, E by lia.
  by rewrite drop_0, <- Hx, take_app_length.
Qed.

Lemma fromByteArray_encode64 l : fromByteArray (codes l) = codes (encode64 l).
Proof.
  destruct (split3 l) as (x & t & k & -> & Hx & Ht). rewrite (encode64_app k) by done. rewrite (map_app _ (encode64 x)).
  unfold fromByteArray. assert (zlen (codes (x ++ t)) = zlen x + zlen t) as -> by (unfold zlen; rewrite length_map, length_app; lia).
  assert ((zlen x + zlen t) mod 3 = zlen t) as -> by (unfold zlen; rewrite Hx;
    destruct Ht as [->|[(a & ->)|(a & b & ->)]]; cbn [length]; Z.to_euclidean_division_equations; lia).
  replace (zlen x + zlen t - zlen t) with (zlen x) by lia. rewrite (whole_groups x t k) by done. f_equal.
  destruct Ht as [->|[(a & ->)|(a & b & ->)]]; [done|..]; rewrite ?zlen_cons, zlen_nil.
  - pose proof (Z_of_byte_range a) as Ha. cbn [Z.add Z.eqb]. replace (zlen x + (1 + 0) - 1) with (zlen x + 0) by lia.
    change (1 + 0 =? 1) with true. cbv iota.
    rewrite at_app by lia. change (at_ (codes [a]) 0) with (Z_of_byte a). cbn [encode64 map].
    f_equal; [|f_equal]; apply lookup_small;
      rewrite ?land63, ?Z.shiftl_mul_pow2, ?Z.shiftr_div_pow2 by lia; Z.to_euclidean_division_equations; lia.
  - pose proof (Z_of_byte_range a) as Ha. pose proof (Z_of_byte_range b) as Hb.
    change (1 + (1 + 0) =? 1) with false. change (1 + (1 + 0) =? 2) with true. cbv iota.
    replace (zlen x + (1 + (1 + 0)) - 2) with (zlen x + 0) by lia.
    replace (zlen x + (1 + (1 + 0)) - 1) with (zlen x + 1) by lia. rewrite !at_app by lia.
    change (at_ (codes [a; b]) 0) with (Z_of_byte a). change (at_ (codes [a; b]) 1) with (Z_of_byte b).
    cbn [encode64 map]. set (v := Z.lor _ _).
    assert (v = Z_of_byte a * 65536 + Z_of_byte b * 256) as Ev
      by (unfold v; rewrite (Z.shiftl_mul_pow2 (Z_of_byte b)) by lia; rewrite lor_shiftl by lia; lia).
    f_equal; [|f_equal; [|f_equal]]; apply lookup_small;
      rewrite ?land63, ?Z.shiftl_mul_pow2, ?Z.shiftr_div_pow2 by lia; Z.to_euclidean_division_equations; lia.
Qed.

(** ** Reading it back *)
Lemma revLookup_enc64 v : revLookup (Z_of_byte (enc64 v)) = Some (v mod 64).
Proof.
  assert (forall z, 0 <= z < 64 -> (let c := Z_of_byte (enc64 z) in negb (c =? 45) && negb (c =? 95)) = true) as Hc
    by (apply (below 64); vm_compute; reflexivity).
  specialize (Hc (v mod 64) (Z.mod_pos_bound v 64 ltac:(lia))). cbv zeta in Hc. rewrite <- enc64_land in Hc.
  apply andb_true_iff in Hc as [H1%negb_true_iff H2%negb_true_iff]. pose proof (Z_of_byte_range (enc64 v)).
  unfold revLookup. rewrite H1, H2, (proj2 (Z.leb_le _ _)), (proj2 (Z.ltb_lt _ _)) by lia. cbn [andb].
  rewrite byte_of_Z_of_byte. apply dec64_enc.
Qed.

Lemma rev_enc64 v : rev (Z_of_byte (enc64 v)) = v mod 64.
Proof. unfold rev. by rewrite revLookup_enc64. Qed.

Lemma no_pad_code b : b <> pad_char -> (Z_of_byte b =? 61) = false.
Proof.
  intros Hb. apply Z.eqb_neq. intros E. apply Hb. rewrite <- (byte_of_Z_of_byte b), E. reflexivity.
Qed.

Lemma encode64_no_pad k : forall x, length x = (3 * k)%nat -> Forall (fun b => b <> pad_char) (encode64 x).
Proof.
  induction k as [|k IH]; intros x Hx; [by destruct x; [constructor|]|].
  destruct x as [|a [|b [|c x]]]; cbn in Hx; try lia. cbn [encode64].
  repeat (constructor; [apply dec64_enc|]). apply IH. lia.
Qed.

Lemma indexOf_app g t : Forall (fun b => b <> pad_char) g -> indexOf 61 (codes (g ++ t)) = zlen g + indexOf 61 (codes t).
Proof.
  induction 1 as [|b g Hb _ IH]; [done|]. cbn [app map indexOf]. rewrite (no_pad_code b Hb), IH, zlen_cons. lia.
Qed.

Lemma group_bytes a b c (v := Z.lor (Z.lor (Z.shiftl (Z_of_byte a) 16) (Z.shiftl (Z_of_byte b) 8)) (Z_of_byte c))
    (w := Z.lor (Z.lor (Z.lor (Z.shiftl (Z.shiftr v 18 mod 64) 18) (Z.shiftl (Z.shiftr v 12 mod 64) 12))
            (Z.shiftl (Z.shiftr v 6 mod 64) 6)) (v mod 64)) :
  Z.land (Z.shiftr w 16) 255 = Z_of_byte a /\ Z.land (Z.shiftr w 8) 255 = Z_of_byte b /\ Z.land 255 w = Z_of_byte c.
Proof.
  pose proof (Z_of_byte_range a). pose proof (Z_of_byte_range b). pose proof (Z_of_byte_range c).
  assert (w = v) as ->.
  { unfold w. rewrite val4 by mods. unfold v. rewrite val3 by done. rewrite !Z.shiftr_div_pow2 by lia.
    Z.to_euclidean_division_equations. lia. }
  unfold v. rewrite val3, (Z.land_comm 255), !land255, !Z.shiftr_div_pow2 by lia.
  repeat split; Z.to_euclidean_division_equations; lia.
Qed.

Lemma decodeGroups_spec k : forall fuel pre x t p, (k <= fuel)%nat -> length x = (3 * k)%nat ->
  zlen pre + 4 * Z.of_nat k - 4 < p <= zlen pre + 4 * Z.of_nat k ->
  decodeGroups fuel (codes (pre ++ encode64 x ++ t)) (zlen pre) p = (codes x, zlen pre + 4 * Z.of_nat k).
Proof.
  induction k as [|k IH]; intros fuel pre x t p Hf Hx Hp.
  - destruct x; [|done]. rewrite Z.mul_0_r, Z.add_0_r.
    destruct fuel; cbn [decodeGroups]; rewrite ?(proj2 (Z.ltb_ge _ _)) by lia; done.
  - destruct x as [|a [|b [|c x]]]; cbn in Hx; try lia. destruct fuel as [|fuel]; [lia|]. cbn [encode64].
    set (v := Z.lor (Z.lor _ _) _). set (q := [enc64 (Z.shiftr v 18); enc64 (Z.shiftr v 12); enc64 (Z.shiftr v 6); enc64 v]).
    change (pre ++ (_ :: _ :: _ :: _ :: encode64 x) ++ t) with (pre ++ (q ++ encode64 x) ++ t).
    cbn [decodeGroups]. rewrite (proj2 (Z.ltb_lt _ _)) by lia.
    replace (at_ (codes (pre ++ (q ++ encode64 x) ++ t)) (zlen pre))
      with (at_ (codes (pre ++ (q ++ encode64 x) ++ t)) (zlen pre + 0)) by (f_equal; lia).
    rewrite !at_app by lia.
    change (at_ (codes ((q ++ encode64 x) ++ t)) 0) with (Z_of_byte (enc64 (Z.shiftr v 18))).
    change (at_ (codes ((q ++ encode64 x) ++ t)) 1) with (Z_of_byte (enc64 (Z.shiftr v 12))).
    change (at_ (codes ((q ++ encode64 x) ++ t)) 2) with (Z_of_byte (enc64 (Z.shiftr v 6))).
    change (at_ (codes ((q ++ encode64 x) ++ t)) 3) with (Z_of_byte (enc64 v)).
    rewrite !rev_enc64. pose proof (group_bytes a b c) as G. cbv zeta in G. fold v in G. destruct G as (-> & -> & ->).
    rewrite <- (app_assoc q), (app_assoc pre). assert (zlen q = 4) as Hq by reflexivity.
    replace (zlen pre + 4) with (zlen (pre ++ q)) by (rewrite zlen_app; lia).
    rewrite IH by (rewrite ?zlen_app; lia). rewrite zlen_app, Hq. f_equal. lia.
Qed.

Lemma typedArray_exact l : typedArray (zlen l) l = Ret l.
Proof.
  unfold typedArray. rewrite (proj2 (Z.ltb_ge _ _)) by apply zlen_nonneg. f_equal.
  rewrite to_nat_zlen. apply take_app_length.
Qed.

(** The tail of one or two bytes, as characters. *)
Lemma tail_lens x t k : length x = (3 * k)%nat -> (t = [] \/ (exists a, t = [a]) \/ exists a b, t = [a; b]) ->
  getLens (codes (encode64 x ++ encode64 t)) =
    Ret (4 * Z.of_nat k + match t with [] => 0 | [_] => 2 | _ => 3 end, match t with [] => 0 | [_] => 2 | _ => 1 end).
Proof.
  intros Hx Ht. assert (zlen (encode64 x) = 4 * Z.of_nat k) as Hl
    by (rewrite length_encode64; unfold zlen; rewrite Hx; Z.to_euclidean_division_equations; lia).
  unfold getLens. rewrite (indexOf_app _ _ (encode64_no_pad k x Hx)), Hl.
  assert (zlen (codes (encode64 x ++ encode64 t)) = 4 * Z.of_nat k + zlen (encode64 t)) as ->
    by (unfold zlen at 1; rewrite length_map, length_app; unfold zlen in *; lia).
  destruct Ht as [->|[(a & ->)|(a & b & ->)]]; cbn [encode64 map indexOf];
    rewrite ?no_pad_code by apply dec64_enc; change (Z_of_byte pad_char =? 61) with true; cbv iota;
    rewrite ?zlen_cons, ?zlen_nil.
  - rewrite (proj2 (Z.eqb_eq _ _)), (Z.gtb_ltb _ 0), (proj2 (Z.ltb_ge _ _)) by (Z.to_euclidean_division_equations; lia).
    repeat f_equal; lia.
  - rewrite (proj2 (Z.eqb_neq _ _)), (Z.gtb_ltb _ 0), (proj2 (Z.ltb_ge _ _)) by (Z.to_euclidean_division_equations; lia).
    repeat f_equal; Z.to_euclidean_division_equations; lia.
  - rewrite (proj2 (Z.eqb_neq _ _)), (Z.gtb_ltb _ 0), (proj2 (Z.ltb_ge _ _)) by (Z.to_euclidean_division_equations; lia).
    repeat f_equal; Z.to_euclidean_division_equations; lia.
Qed.

Lemma two_bytes a b (v := Z.lor (Z.shiftl (Z_of_byte a) 16) (Z.shiftl (Z_of_byte b) 8))
    (w := Z.lor (Z.lor (Z.shiftl (Z.shiftr v 18 mod 64) 10) (Z.shiftl (Z.shiftr v 12 mod 64) 4))
            (Z.shiftr (Z.shiftr v 6 mod 64) 2)) :
  Z.land (Z.shiftr w 8) 255 = Z_of_byte a /\ Z.land 255 w = Z_of_byte b.
Proof.
  pose proof (Z_of_byte_range a). pose proof (Z_of_byte_range b).
  assert (v = Z_of_byte a * 65536 + Z_of_byte b * 256) as Ev
    by (unfold v; rewrite (Z.shiftl_mul_pow2 (Z_of_byte b)) by lia; rewrite lor_shiftl by lia; lia).
  assert (w = Z_of_byte a * 256 + Z_of_byte b) as ->.
  { unfold w. rewrite (Z.shiftl_mul_pow2 (Z.shiftr v 12 mod 64)) by lia.
    rewrite lor_shiftl by (rewrite ?Z.shiftr_div_pow2 by lia; Z.to_euclidean_division_equations; lia).
    replace (Z.shiftr v 18 mod 64 * 2 ^ 10 + Z.shiftr v 12 mod 64 * 2 ^ 4)
      with (Z.shiftl (Z.shiftr v 18 mod 64 * 64 + Z.shiftr v 12 mod 64) 4) by (rewrite Z.shiftl_mul_pow2; lia).
    rewrite lor_shiftl by (rewrite ?Z.shiftr_div_pow2 by lia; Z.to_euclidean_division_equations; lia).
    rewrite Ev, !Z.shiftr_div_pow2 by lia. Z.to_euclidean_division_equations. lia. }
  rewrite (Z.land_comm 255), !land255, !Z.shiftr_div_pow2 by lia.
  split; Z.to_euclidean_division_equations; lia.
Qed.

Lemma toByteArray_encode64 l : toByteArray (codes (encode64 l)) = Ret (codes l).
Proof.
  destruct (split3 l) as (x & t & k & -> & Hx & Ht). rewrite (encode64_app k) by done.
  assert (zlen (encode64 x) = 4 * Z.of_nat k) as Hl
    by (rewrite length_encode64; unfold zlen; rewrite Hx; Z.to_euclidean_division_equations; lia).
  assert (forall p, 4 * Z.of_nat k - 4 < p <= 4 * Z.of_nat k ->
    decodeGroups (length (codes (encode64 x ++ encode64 t))) (codes (encode64 x ++ encode64 t)) 0 p
    = (codes x, 4 * Z.of_nat k)) as Hg.
  { intros p Hp. apply (decodeGroups_spec k _ []); [|done|rewrite zlen_nil; lia].
    rewrite length_map, length_app. unfold zlen in Hl. lia. }
  unfold toByteArray. rewrite (tail_lens x t k Hx Ht). cbn [mbind outcome_bind].
  assert (forall i, 0 <= i -> at_ (codes (encode64 x ++ encode64 t)) (4 * Z.of_nat k + i) = at_ (codes (encode64 t)) i) as Ha
    by (intros i Hi; rewrite <- Hl; by apply at_app).
  assert (at_ (codes (encode64 x ++ encode64 t)) (4 * Z.of_nat k) = at_ (codes (encode64 t)) 0) as Ha0
    by (rewrite <- Ha by lia; f_equal; lia).
  assert (zlen (codes x) = 3 * Z.of_nat k) as Hz by (unfold zlen; rewrite length_map; lia).
  destruct Ht as [->|[(a & ->)|(a & b & ->)]].
  - change (0 >? 0) with false. cbv iota. rewrite Hg by lia. change (0 =? 2) with false. change (0 =? 1) with false.
    cbv iota. rewrite !app_nil_r. replace (3 * _ / 4 - 0) with (zlen (codes x)) by (Z.to_euclidean_division_equations; lia).
    apply typedArray_exact.
  - change (2 >? 0) with true. cbv iota. rewrite Hg by lia. change (2 =? 2) with true. change (2 =? 1) with false. cbv iota.
    rewrite Ha0, Ha, app_nil_r by lia. cbn [encode64]. set (v := Z.shiftl _ 16).
    change (at_ (codes [enc64 (Z.shiftr v 18); enc64 (Z.shiftr v 12); pad_char; pad_char]) 0)
      with (Z_of_byte (enc64 (Z.shiftr v 18))).
    change (at_ (codes [enc64 (Z.shiftr v 18); enc64 (Z.shiftr v 12); pad_char; pad_char]) 1)
      with (Z_of_byte (enc64 (Z.shiftr v 12))).
    rewrite !rev_enc64, map_app. pose proof (Z_of_byte_range a).
    rewrite (Z.land_comm 255), land255, lor_shiftl by
      (unfold v; rewrite ?Z.shiftl_mul_pow2, ?Z.shiftr_div_pow2 by lia; Z.to_euclidean_division_equations; lia).
    assert (forall y z, y = z -> zlen (codes x ++ [z]) = 3 * Z.of_nat k + 1 ->
      typedArray (3 * Z.of_nat k + 1) (codes x ++ [y]) = Ret (codes x ++ [z])) as Hy
      by (intros y z -> E; rewrite <- E; apply typedArray_exact).
    replace (3 * _ / 4 - 2) with (3 * Z.of_nat k + 1) by (Z.to_euclidean_division_equations; lia).
    apply Hy; [|rewrite zlen_app, Hz; reflexivity].
    unfold v. rewrite ?Z.shiftl_mul_pow2, ?Z.shiftr_div_pow2 by lia. Z.to_euclidean_division_equations. lia.
  - change (1 >? 0) with true. cbv iota. rewrite Hg by lia. change (1 =? 2) with false. change (1 =? 1) with true. cbv iota.
    rewrite Ha0, !Ha by lia. cbn [encode64 app]. set (v := Z.lor _ (Z.shiftl _ 8)).
    set (e := [enc64 (Z.shiftr v 18); enc64 (Z.shiftr v 12); enc64 (Z.shiftr v 6); pad_char]).
    change (at_ (codes e) 0) with (Z_of_byte (enc64 (Z.shiftr v 18))).
    change (at_ (codes e) 1) with (Z_of_byte (enc64 (Z.shiftr v 12))).
    change (at_ (codes e) 2) with (Z_of_byte (enc64 (Z.shiftr v 6))).
    rewrite !rev_enc64. destruct (two_bytes a b) as [E1 E2]. cbv zeta in E1, E2. fold v in E1, E2.
    cbv zeta. rewrite E1, E2. rewrite map_app. change (codes [a; b]) with [Z_of_byte a; Z_of_byte b].
    replace (3 * _ / 4 - 1) with (zlen (codes x ++ [Z_of_byte a; Z_of_byte b]))
      by (rewrite zlen_app, Hz, !zlen_cons, zlen_nil; Z.to_euclidean_division_equations; lia).
    apply typedArray_exact.
Qed.
End Base64Facts.

(** C30: base64-js, which the documentation page loads, and encoding/base64,
    which the server uses, agree: [fromByteArray] of any bytes is the text
    that [EncodeToString] gives, and both [toByteArray] and [DecodeString]
    read that text back to the bytes. *)
Theorem base64_js_is_StdEncoding (l : list byte) (text := base64_EncodeToString l) :
  Base64.fromByteArray (map Z_of_byte l) = map Z_of_byte (bytes_of_string text) /\
  Base64.toByteArray (map Z_of_byte (bytes_of_string text)) = Ret (map Z_of_byte l) /\
  base64_DecodeString text = Ret l.
Proof.
  unfold text. split; [|split; [|apply Decode_Encode]];
    unfold base64_EncodeToString; rewrite bytes_of_string_of_bytes;
    [apply fromByteArray_encode64|apply toByteArray_encode64].
Qed.

(** * Buffer and UTF-8 (RFC 3629) *)
Section Utf8.
Import Buffer.

Definition scalar (c : Z) : Prop := 0 <= c < 0xD800 \/ 0xE000 <= c <= 0x10FFFF.

(** The code units and the bytes of a character. *)
Definition utf16 (c : Z) : list Z :=
  if c <? 65536 then [c] else [0xD800 + (c - 65536) / 1024; 0xDC00 + (c - 65536) mod 1024].
Definition utf8 (c : Z) : list Z :=
  if c <? 128 then [c]
  else if c <? 2048 then [192 + c / 64; 128 + c mod 64]
  else if c <? 65536 then [224 + c / 4096; 128 + c / 64 mod 64; 128 + c mod 64]
  else [240 + c / 262144; 128 + c / 4096 mod 64; 128 + c / 64 mod 64; 128 + c mod 64].

Lemma lor_top n k h : 0 <= k -> 0 <= n < 2 ^ k -> Z.lor n (h * 2 ^ k) = h * 2 ^ k + n.
Proof. intros Hk Hn. rewrite Z.lor_comm. by apply lor_low. Qed.

Lemma top2 n : 0 <= n < 64 -> Z.lor n 192 = 192 + n.
Proof. intros Hn. by apply (lor_top n 6 3). Qed.
Lemma top3 n : 0 <= n < 32 -> Z.lor n 224 = 224 + n.
Proof. intros Hn. by apply (lor_top n 5 7). Qed.
Lemma top4 n : 0 <= n < 16 -> Z.lor n 240 = 240 + n.
Proof. intros Hn. by apply (lor_top n 4 15). Qed.
Lemma top1 n : Z.lor (Z.land n 63) 128 = 128 + n mod 64.
Proof. rewrite land63. apply (lor_top _ 6 2); [lia|]. apply Z.mod_pos_bound. lia. Qed.

(** What a character is written as, whatever came before it. *)
Lemma utf8ToBytes_char c s : scalar c ->
  utf8ToBytes_loop (utf16 c ++ s) None None = utf8 c ++ utf8ToBytes_loop s None None.
Proof.
  intros Hc. unfold utf16. destruct (Z.ltb_spec c 65536) as [Hs|Hs].
  - cbn [app utf8ToBytes_loop]. assert ((c >? 55295) && (c <? 57344) = false) as -> by (unfold scalar in Hc; lia).
    cbn [spend left_over option_map]. unfold utf8. rewrite !(Z.land_comm 63), !top1, !Z.shiftr_div_pow2 by lia.
    rewrite (proj2 (Z.ltb_lt c 65536)) by done. unfold scalar in Hc.
    destruct (Z.ltb_spec c 128); [done|]. destruct (Z.ltb_spec c 2048).
    + rewrite top2 by (Z.to_euclidean_division_equations; lia). done.
    + rewrite top3 by (Z.to_euclidean_division_equations; lia). done.
  - unfold scalar in Hc. assert (0 <= c - 65536 < 2 ^ 20) as Hd by lia. set (d := c - 65536) in *.
    assert (0xD800 <= 0xD800 + d / 1024 < 0xDC00) as Hl by (Z.to_euclidean_division_equations; lia).
    assert (0xDC00 <= 0xDC00 + d mod 1024 < 0xE000) as Ht by (Z.to_euclidean_division_equations; lia).
    set (lead := 0xD800 + d / 1024) in *. set (trail := 0xDC00 + d mod 1024) in *.
    cbn [app utf8ToBytes_loop]. rewrite (bool_decide_false (trail :: s = [])) by done.
    assert ((lead >? 55295) && (lead <? 57344) = true) as -> by lia. assert (lead >? 56319 = false) as -> by lia.
    assert ((trail >? 55295) && (trail <? 57344) = true) as -> by lia. assert (trail <? 56320 = false) as -> by lia.
    assert (65536 + Z.lor (Z.shiftl (lead - 55296) 10) (trail - 56320) = c) as ->.
    { unfold lead, trail. rewrite lor_shiftl by (Z.to_euclidean_division_equations; lia).
      unfold d. Z.to_euclidean_division_equations. lia. }
    unfold utf8. rewrite (proj2 (Z.ltb_ge c 128)), (proj2 (Z.ltb_ge c 2048)), (proj2 (Z.ltb_ge c 65536)) by lia.
    cbn [spend left_over option_map]. rewrite !(Z.land_comm 63), !top1, !Z.shiftr_div_pow2 by lia.
    rewrite top4 by (Z.to_euclidean_division_equations; lia). done.
Qed.

(** The bits of a continuation byte and of the first bytes. *)
Lemma cont_128 m : 0 <= m < 64 -> cont (128 + m) = true /\ Z.land 63 (128 + m) = m.
Proof.
  intros Hm. pose proof (below 64 (fun m => cont (128 + m) && (Z.land 63 (128 + m) =? m)) eq_refl m Hm) as E.
  cbv beta in E. apply andb_true_iff in E as [? ?%Z.eqb_eq]. done.
Qed.
Lemma first2 m : 0 <= m < 32 -> Z.land 31 (192 + m) = m.
Proof. intros Hm. apply Z.eqb_eq. exact (below 32 (fun m => Z.land 31 (192 + m) =? m) eq_refl m Hm). Qed.
Lemma first3 m : 0 <= m < 16 -> Z.land 15 (224 + m) = m.
Proof. intros Hm. apply Z.eqb_eq. exact (below 16 (fun m => Z.land 15 (224 + m) =? m) eq_refl m Hm). Qed.
Lemma first4 m : 0 <= m < 8 -> Z.land 15 (240 + m) = m.
Proof. intros Hm. apply Z.eqb_eq. exact (below 8 (fun m => Z.land 15 (240 + m) =? m) eq_refl m Hm). Qed.

Lemma at_0 a e : Base64.at_ (a :: e) 0 = a.
Proof. reflexivity. Qed.
Lemma at_1 a b e : Base64.at_ (a :: b :: e) 1 = b.
Proof. reflexivity. Qed.
Lemma at_2 a b c e : Base64.at_ (a :: b :: c :: e) 2 = c.
Proof. reflexivity. Qed.
Lemma at_3 a b c d e : Base64.at_ (a :: b :: c :: d :: e) 3 = d.
Proof. reflexivity. Qed.

(** How many bytes a first byte announces. *)
Lemma announced c : c < 256 ->
  (if c >? 239 then 4 else if c >? 223 then 3 else if c >? 191 then 2 else 1) =
  if c <? 192 then 1 else if c <? 224 then 2 else if c <? 240 then 3 else 4.
Proof. intros Hc. repeat case_match; lia. Qed.

Lemma utf8_char_1 c e : 0 <= c < 128 -> utf8_char (c :: e) = (Some c, 1).
Proof.
  intros Hc. unfold utf8_char. rewrite at_0, announced, (proj2 (Z.ltb_lt c 192)) by lia.
  rewrite (proj2 (Z.leb_le _ _)) by (rewrite zlen_cons; pose proof (zlen_nonneg e); lia). cbn [negb].
  change (1 =? 1) with true. cbv iota. by rewrite (proj2 (Z.ltb_lt c 128)) by lia.
Qed.

Lemma utf8_char_2 c e : 128 <= c < 2048 -> utf8_char (192 + c / 64 :: 128 + c mod 64 :: e) = (Some c, 2).
Proof.
  intros Hc. assert (0 <= c / 64 < 32 /\ 0 <= c mod 64 < 64) as [H0 H1] by (split; Z.to_euclidean_division_equations; lia).
  unfold utf8_char. rewrite at_0, at_1, announced by lia.
  rewrite (proj2 (Z.ltb_ge _ 192)), (proj2 (Z.ltb_lt _ 224)) by lia.
  rewrite (proj2 (Z.leb_le _ _)) by (rewrite !zlen_cons; pose proof (zlen_nonneg e); lia). cbn [negb].
  change (2 =? 1) with false. change (2 =? 2) with true. cbv iota. destruct (cont_128 _ H1) as [-> ->].
  rewrite first2, lor_shiftl by lia. replace (c / 64 * 2 ^ 6 + c mod 64) with c by (Z.to_euclidean_division_equations; lia).
  by rewrite (Z.gtb_ltb c), (proj2 (Z.ltb_lt 127 c)) by lia.
Qed.

Lemma utf8_char_3 c e : 2048 <= c < 65536 -> scalar c ->
  utf8_char (224 + c / 4096 :: 128 + c / 64 mod 64 :: 128 + c mod 64 :: e) = (Some c, 3).
Proof.
  intros Hc Hs. assert (0 <= c / 4096 < 16 /\ 0 <= c / 64 mod 64 < 64 /\ 0 <= c mod 64 < 64) as (H0 & H1 & H2)
    by (repeat split; Z.to_euclidean_division_equations; lia).
  unfold utf8_char. rewrite at_0, at_1, at_2, announced by lia.
  rewrite (proj2 (Z.ltb_ge _ 192)), (proj2 (Z.ltb_ge _ 224)), (proj2 (Z.ltb_lt _ 240)) by lia.
  rewrite (proj2 (Z.leb_le _ _)) by (rewrite !zlen_cons; pose proof (zlen_nonneg e); lia). cbn [negb].
  change (3 =? 1) with false. change (3 =? 2) with false. change (3 =? 3) with true. cbv iota.
  destruct (cont_128 _ H1) as [-> ->], (cont_128 _ H2) as [-> ->]. rewrite first3 by lia.
  rewrite (Z.shiftl_mul_pow2 (c / 64 mod 64)), (lor_shiftl (c / 4096)) by lia.
  replace (c / 4096 * 2 ^ 12 + c / 64 mod 64 * 2 ^ 6) with (Z.shiftl (c / 64) 6)
    by (rewrite Z.shiftl_mul_pow2 by lia; Z.to_euclidean_division_equations; lia).
  rewrite lor_shiftl by lia. replace (c / 64 * 2 ^ 6 + c mod 64) with c by (Z.to_euclidean_division_equations; lia).
  assert ((c >? 2047) && ((c <? 55296) || (c >? 57343)) = true) as E by (unfold scalar in Hs; lia).
  cbn [andb]. by rewrite E.
Qed.

Lemma utf8_char_4 c e : 65536 <= c < 1114112 ->
  utf8_char (240 + c / 262144 :: 128 + c / 4096 mod 64 :: 128 + c / 64 mod 64 :: 128 + c mod 64 :: e) = (Some c, 4).
Proof.
  intros Hc. assert (0 <= c / 262144 < 5 /\ 0 <= c / 4096 mod 64 < 64 /\ 0 <= c / 64 mod 64 < 64 /\ 0 <= c mod 64 < 64)
    as (H0 & H1 & H2 & H3) by (repeat split; Z.to_euclidean_division_equations; lia).
  unfold utf8_char. rewrite at_0, at_1, at_2, at_3, announced by lia.
  rewrite (proj2 (Z.ltb_ge _ 192)), (proj2 (Z.ltb_ge _ 224)), (proj2 (Z.ltb_ge _ 240)) by lia.
  rewrite (proj2 (Z.leb_le _ _)) by (rewrite !zlen_cons; pose proof (zlen_nonneg e); lia). cbn [negb].
  change (4 =? 1) with false. change (4 =? 2) with false. change (4 =? 3) with false. cbv iota.
  destruct (cont_128 _ H1) as [-> ->], (cont_128 _ H2) as [-> ->], (cont_128 _ H3) as [-> ->]. rewrite first4 by lia.
  rewrite (Z.shiftl_mul_pow2 (c / 4096 mod 64)), (lor_shiftl (c / 262144)) by lia.
  replace (c / 262144 * 2 ^ 18 + c / 4096 mod 64 * 2 ^ 12) with (Z.shiftl (c / 4096) 12)
    by (rewrite Z.shiftl_mul_pow2 by lia; Z.to_euclidean_division_equations; lia).
  rewrite (Z.shiftl_mul_pow2 (c / 64 mod 64)), (lor_shiftl (c / 4096)) by lia.
  replace (c / 4096 * 2 ^ 12 + c / 64 mod 64 * 2 ^ 6) with (Z.shiftl (c / 64) 6)
    by (rewrite Z.shiftl_mul_pow2 by lia; Z.to_euclidean_division_equations; lia).
  rewrite lor_shiftl by lia. replace (c / 64 * 2 ^ 6 + c mod 64) with c by (Z.to_euclidean_division_equations; lia).
  assert ((c >? 65535) && (c <? 1114112) = true) as E by lia. cbn [andb]. by rewrite E.
Qed.

Lemma pushed_utf16 c : scalar c -> pushed c = utf16 c.
Proof.
  intros Hc. unfold pushed, utf16. destruct (Z.ltb_spec c 65536).
  - by rewrite (Z.gtb_ltb c), (proj2 (Z.ltb_ge 65535 c)) by lia.
  - rewrite (Z.gtb_ltb c), (proj2 (Z.ltb_lt 65535 c)) by lia. unfold scalar in Hc.
    change 1023 with (Z.ones 10). rewrite (Z.land_comm (Z.ones 10)), !Z.land_ones, Z.shiftr_div_pow2 by lia.
    assert (0 <= (c - 65536) / 2 ^ 10 mod 2 ^ 10 < 1024) by (apply Z.mod_pos_bound; lia).
    assert (0 <= (c - 65536) mod 2 ^ 10 < 1024) by (apply Z.mod_pos_bound; lia).
    rewrite (lor_top _ 10 54) by lia. change 56320 with (55 * 2 ^ 10). rewrite lor_low by lia.
    rewrite (Z.mod_small ((c - 65536) / 2 ^ 10)) by (Z.to_euclidean_division_equations; lia). reflexivity.
Qed.

Lemma utf8_nonempty c : exists b r, utf8 c = b :: r.
Proof. unfold utf8. repeat case_match; eauto. Qed.

Lemma utf8_char_utf8 c e : scalar c -> utf8_char (utf8 c ++ e) = (Some c, zlen (utf8 c)).
Proof.
  intros Hc. pose proof Hc as Hc'. unfold scalar in Hc'. unfold utf8.
  destruct (Z.ltb_spec c 128); [apply utf8_char_1; lia|].
  destruct (Z.ltb_spec c 2048); [apply utf8_char_2; lia|].
  destruct (Z.ltb_spec c 65536); [apply utf8_char_3; [lia|done]|apply utf8_char_4; lia].
Qed.

Lemma utf8Slice_utf8 cs : forall fuel, (length (cs ≫= utf8) <= fuel)%nat -> Forall scalar cs ->
  utf8Slice_loop fuel (cs ≫= utf8) = cs ≫= utf16.
Proof.
  induction cs as [|c cs IH]; intros fuel Hf Hs; [by destruct fuel|]. inversion Hs as [|? ? Hc Hcs]; subst.
  cbn [mbind list_bind] in *. destruct (utf8_nonempty c) as (b & r & E).
  assert (length (utf8 c) <> 0%nat) by (by rewrite E). rewrite length_app in Hf. destruct fuel as [|fuel]; [lia|].
  pose proof (utf8_char_utf8 c (cs ≫= utf8) Hc) as Ec. unfold mbind in *. cbn [utf8Slice_loop]. rewrite E in *. cbn [app].
  cbn [app] in Ec. rewrite Ec, pushed_utf16 by done. f_equal.
  rewrite to_nat_zlen. cbn [length drop]. rewrite drop_app_length. apply IH; [cbn in Hf; lia|done].
Qed.

Lemma utf8ToBytes_chars cs : Forall scalar cs -> utf8ToBytes_loop (cs ≫= utf16) None None = cs ≫= utf8.
Proof.
  induction 1 as [|c cs Hc _ IH]; [done|]. cbn [mbind list_bind]. rewrite utf8ToBytes_char by done. by rewrite <- IH.
Qed.
End Utf8.

(** C29: a well-formed string, the code units of some characters, is written
    by [utf8ToBytes] as the UTF-8 of these characters, and [utf8Slice] reads
    the whole of that back to the string. *)
Theorem Buffer_utf8_round_trip (cs : list Z) (s := cs ≫= utf16) (bytes := Buffer.utf8ToBytes s None) :
  Forall scalar cs -> bytes = cs ≫= utf8 /\ Buffer.utf8Slice bytes 0 (zlen bytes) = s.
Proof.
  intros Hs. assert (bytes = cs ≫= utf8) as E by (by apply utf8ToBytes_chars). split; [done|].
  unfold Buffer.utf8Slice. rewrite Z.min_id, to_nat_zlen, firstn_all, drop_0, E. by apply utf8Slice_utf8.
Qed.

(** The euro sign, a letter and a character outside the basic plane. *)
Lemma Buffer_utf8_round_trip_witness :
  let s := [0x20AC; 0x61; 0x1F600] ≫= utf16 in
  let bytes := Buffer.utf8ToBytes s None in
  Forall scalar [0x20AC; 0x61; 0x1F600] /\
  bytes = ([0x20AC; 0x61; 0x1F600] ≫= utf8) /\ Buffer.utf8Slice bytes 0 (zlen bytes) = s.
Proof.
  assert (Forall scalar [0x20AC; 0x61; 0x1F600]) as Hs by (repeat constructor; unfold scalar; lia).
  split; [exact Hs|exact (Buffer_utf8_round_trip [0x20AC; 0x61; 0x1F600] Hs)].
Defined.

(** A high surrogate at the end of a string is dropped when another one
    stands before it, and replaced by U+FFFD otherwise. *)
Example lone_surrogates :
  Buffer.utf8ToBytes [0xD83D] None = Buffer.replacement /\
  Buffer.utf8ToBytes [0xD83D; 0xD83D] None = Buffer.replacement.
Proof. split; reflexivity. Qed.
