(* ===== verification/Aes.v ===== *)
(** The encryption of messages (pkg/util/aes.go) and the agreement on its key
    (pkg/util/dh.go), over the block cipher of crypto/aes and the curve of
    golang.org/x/crypto/curve25519, which are given by what they promise. *)
From stdpp Require Import base list strings.
From Stdlib Require Import ZArith Lia Strings.Byte.
From S2P Require Import Prelude Encodings.

Definition BlockSize : Z := 16.

Class Crypto := {
  cipher_Encrypt : list byte -> list byte -> list byte;    (* key, block *)
  cipher_Decrypt : list byte -> list byte -> list byte;
  ScalarMult : list byte -> list byte -> list byte;        (* private, public *)
  ScalarBaseMult : list byte -> list byte                  (* private *)
}.
Class CryptoLaws `{Crypto} := {
  Decrypt_Encrypt k b : length b = 16%nat -> cipher_Decrypt k (cipher_Encrypt k b) = b;
  length_Encrypt k b : length b = 16%nat -> length (cipher_Encrypt k b) = 16%nat;
  ScalarMult_comm a b : ScalarMult a (ScalarBaseMult b) = ScalarMult b (ScalarBaseMult a);
  length_ScalarBaseMult a : length (ScalarBaseMult a) = 32%nat
}.

Definition xor_bytes (a b : list byte) : list byte :=
  zip_with (fun x y => byte_of_Z (Z.lxor (Z_of_byte x) (Z_of_byte y))) a b.

Section Aes.
Context `{Crypto}.

(** [aes.NewCipher] checks the length of the key. *)
Definition KeySizeError : error := ErrMsg "crypto/aes: invalid key size".
Definition NewCipher (key : list byte) : outcome unit :=
  if (zlen key =? 16) || (zlen key =? 24) || (zlen key =? 32) then Ret tt else Err KeySizeError.

(** [cipher.NewCBCEncrypter] and [NewCBCDecrypter] panic on an [iv] that is
    not a block, [CryptBlocks] on an input of no whole number of blocks. *)
Fixpoint cbc_encrypt (n : nat) (key iv data : list byte) : list byte :=
  match n with
  | O => []
  | S n' =>
      let c := cipher_Encrypt key (xor_bytes (take 16 data) iv) in
      c ++ cbc_encrypt n' key c (drop 16 data)
  end.
Fixpoint cbc_decrypt (n : nat) (key iv data : list byte) : list byte :=
  match n with
  | O => []
  | S n' =>
      let c := take 16 data in
      xor_bytes (cipher_Decrypt key c) iv ++ cbc_decrypt n' key c (drop 16 data)
  end.
Definition CryptBlocks (f : nat -> list byte -> list byte -> list byte -> list byte) (key iv data : list byte) :
    outcome (list byte) :=
  if negb (zlen iv =? BlockSize) then Panic
  else if negb (zlen data mod BlockSize =? 0) then Panic
  else Ret (f (Z.to_nat (zlen data / BlockSize)) key iv data).

Definition PKCS7Padding (ciphertext : list byte) (blockSize : Z) : list byte :=
  let padding := blockSize - zlen ciphertext mod blockSize in
  ciphertext ++ repeat (byte_of_Z padding) (Z.to_nat padding).
Definition PKCS5Padding := PKCS7Padding.

(** Slicing below 0 panics; there is no last byte of nothing. *)
Definition PKCS7UnPadding (origData : list byte) : outcome (list byte) :=
  match last origData with
  | None => Panic
  | Some b =>
      let length := zlen origData in
      let unpadding := Z_of_byte b in
      if length <? unpadding then Panic else Ret (take (Z.to_nat (length - unpadding)) origData)
  end.
Definition PKCS5UnPadding (origData : list byte) : outcome (list byte) :=
  match last origData with
  | None => Panic
  | Some b =>
      let length := zlen origData in
      let unpadding := Z_of_byte b in
      if length <? unpadding then Ret (bytes_of_string "unpadding error")
      else Ret (take (Z.to_nat (length - unpadding)) origData)
  end.

Definition AesEncrypt (origData key iv : list byte) (paddingFunc : list byte -> Z -> list byte) :
    outcome (list byte) :=
  NewCipher key ;;
  CryptBlocks cbc_encrypt key iv (paddingFunc origData BlockSize).

Definition AesDecrypt (crypted key iv : list byte) (unPaddingFunc : list byte -> outcome (list byte)) :
    outcome (list byte) :=
  NewCipher key ;;
  origData ← CryptBlocks cbc_decrypt key iv crypted;
  unPaddingFunc origData.

Definition AesEncryptPkcs5 (origData key iv : list byte) := AesEncrypt origData key iv PKCS5Padding.
Definition AesEncryptPkcs7 (origData key iv : list byte) := AesEncrypt origData key iv PKCS7Padding.
Definition AesDecryptPkcs5 (crypted key iv : list byte) := AesDecrypt crypted key iv PKCS5UnPadding.
Definition AesDecryptPkcs7 (crypted key iv : list byte) := AesDecrypt crypted key iv PKCS7UnPadding.

Definition AesEncryptPkcs7Base64 (origData key iv : list byte) : outcome (list byte) :=
  data ← AesEncrypt origData key iv PKCS7Padding;
  Ret (bytes_of_string (base64_EncodeToString data)).
Definition AesDecryptPkcs7Base64 (crypted key iv : list byte) : outcome (list byte) :=
  cryptedData ← base64_DecodeString (string_of_bytes crypted);
  AesDecrypt cryptedData key iv PKCS7UnPadding.

(** [AesEncryptSimple] calls the decryption. *)
Definition AesEncryptSimple (origData : list byte) (key iv : string) : outcome (list byte) :=
  AesDecryptPkcs5 origData (bytes_of_string key) (bytes_of_string iv).
Definition AesDecryptSimple (crypted : list byte) (key iv : string) : outcome (list byte) :=
  AesDecryptPkcs5 crypted (bytes_of_string key) (bytes_of_string iv).

(** ** The key *)

(** [GetCurve25519Key]; the public key of a pair is [ScalarBaseMult]
    ([GetCurve25519KeypPair]). *)
Definition GetCurve25519Key (private public : list byte) : list byte := ScalarMult private public.

(** [copy(array[:], bytes[:32])] of what base64 gave: the slice reaches up to
    the capacity, behind the bytes decoded there is zero. *)
Definition first32 (s : string) (bytes : list byte) : outcome (list byte) :=
  if base64_DecodedLen s <? 32 then Panic else Ret (take 32 (bytes ++ repeat Byte.x00 32)).

(** The key of a connection, as both ends make it. *)
Definition aesKeyOf (shareKey : list byte) : string :=
  string_of_bytes (take 16 (bytes_of_string (MD5 (base64_EncodeToString shareKey)))).
End Aes.

(** * Decryption undoes encryption *)

Lemma length_xor a b : length a = length b -> length (xor_bytes a b) = length a.
Proof. intros E. unfold xor_bytes. rewrite length_zip_with. lia. Qed.

Lemma xor_byte_twice x y : byte_of_Z (Z.lxor (Z_of_byte (byte_of_Z (Z.lxor (Z_of_byte x) (Z_of_byte y)))) (Z_of_byte y)) = x.
Proof.
  rewrite Z_of_byte_of_Z. pose proof (Z_of_byte_range x). pose proof (Z_of_byte_range y).
  assert (0 <= Z.lxor (Z_of_byte x) (Z_of_byte y) < 2 ^ 8).
  { split; [apply Z.lxor_nonneg; lia|]. destruct (Z.eq_dec (Z.lxor (Z_of_byte x) (Z_of_byte y)) 0) as [->|Hne]; [lia|].
    apply Z.log2_lt_pow2; [assert (0 <= Z.lxor (Z_of_byte x) (Z_of_byte y)) by (apply Z.lxor_nonneg; lia); lia|].
    eapply Z.le_lt_trans; [apply Z.log2_lxor; lia|]. apply Z.max_lub_lt.
    - destruct (Z.eq_dec (Z_of_byte x) 0) as [->|]; [cbn; lia|]. apply Z.log2_lt_pow2; lia.
    - destruct (Z.eq_dec (Z_of_byte y) 0) as [->|]; [cbn; lia|]. apply Z.log2_lt_pow2; lia. }
  change 256 with (2 ^ 8). rewrite Z.mod_small by done.
  rewrite Z.lxor_assoc, Z.lxor_nilpotent, Z.lxor_0_r. apply byte_of_Z_of_byte.
Qed.

Lemma xor_twice a b : length a = length b -> xor_bytes (xor_bytes a b) b = a.
Proof.
  unfold xor_bytes. revert b. induction a as [|x a IH]; intros [|y b] E; try done. injection E as E.
  cbn [zip_with]. rewrite xor_byte_twice. f_equal. by apply IH.
Qed.

Section RoundTrip.
Context `{CryptoLaws}.

Lemma length_cbc_encrypt n key iv data : length iv = 16%nat -> length data = (16 * n)%nat ->
  length (cbc_encrypt n key iv data) = (16 * n)%nat.
Proof.
  revert iv data. induction n as [|n IH]; intros iv data Hiv Hd; [done|]. cbn [cbc_encrypt].
  assert (length (xor_bytes (take 16 data) iv) = 16%nat) by (rewrite length_xor; rewrite length_take; lia).
  rewrite length_app, IH; rewrite ?length_drop, ?length_Encrypt; lia.
Qed.

Lemma cbc_roundtrip n key iv data : length iv = 16%nat -> length data = (16 * n)%nat ->
  cbc_decrypt n key iv (cbc_encrypt n key iv data) = data.
Proof.
  revert iv data. induction n as [|n IH]; intros iv data Hiv Hd; [by destruct data|]. cbn [cbc_encrypt cbc_decrypt].
  assert (length (take 16 data) = 16%nat) as Ht by (rewrite length_take; lia).
  set (c := cipher_Encrypt key (xor_bytes (take 16 data) iv)).
  assert (length c = 16%nat) as Hc by (apply length_Encrypt; rewrite length_xor; lia).
  rewrite take_app_length', drop_app_length' by done. unfold c at 1.
  rewrite Decrypt_Encrypt by (rewrite length_xor; lia). rewrite xor_twice by lia.
  rewrite IH by (rewrite ?length_drop; lia). apply take_drop.
Qed.

Lemma zlen_padded d : exists n, zlen (PKCS7Padding d BlockSize) = BlockSize * Z.of_nat n /\ length (PKCS7Padding d BlockSize) = (16 * n)%nat.
Proof.
  exists (S (length d / 16)). unfold PKCS7Padding, zlen, BlockSize. rewrite length_app, repeat_length.
  pose proof (Nat.div_mod_eq (length d) 16). pose proof (Nat.mod_upper_bound (length d) 16 ltac:(lia)).
  rewrite <- (Nat2Z.inj_mod _ 16). lia.
Qed.

Lemma UnPadding_Padding d : PKCS7UnPadding (PKCS7Padding d BlockSize) = Ret d.
Proof.
  unfold PKCS7UnPadding, PKCS7Padding, BlockSize. pose proof (Z.mod_pos_bound (zlen d) 16 ltac:(lia)) as Hm.
  set (p := 16 - zlen d mod 16) in *. destruct (Z.to_nat p) as [|n] eqn:En; [lia|].
  assert (last (d ++ repeat (byte_of_Z p) (S n)) = Some (byte_of_Z p)) as ->.
  { rewrite last_app. change (S n) with (S n). replace (last (repeat (byte_of_Z p) (S n))) with (Some (byte_of_Z p)); [done|].
    clear. induction n as [|n IH]; [done|]. cbn [repeat] in *. rewrite last_cons. by rewrite <- IH. }
  rewrite Z_of_byte_of_Z, Z.mod_small by lia. rewrite zlen_app.
  assert (zlen (repeat (byte_of_Z p) (S n)) = p) as -> by (unfold zlen; rewrite repeat_length; lia).
  rewrite (proj2 (Z.ltb_ge _ _)) by (pose proof (zlen_nonneg d); lia).
  replace (zlen d + p - p) with (zlen d) by lia. rewrite to_nat_zlen, take_app_length. done.
Qed.

Lemma Aes_roundtrip data key iv : NewCipher key = Ret tt -> zlen iv = BlockSize ->
  exists crypted, AesEncryptPkcs7Base64 data key iv = Ret crypted /\ AesDecryptPkcs7Base64 crypted key iv = Ret data.
Proof.
  intros Hk Hiv. unfold AesEncryptPkcs7Base64, AesDecryptPkcs7Base64, AesEncrypt, AesDecrypt. rewrite Hk.
  cbn [mbind outcome_bind]. unfold CryptBlocks. rewrite Hiv. destruct (zlen_padded data) as (n & Hz & Hl).
  assert (length iv = 16%nat) as Hi by (unfold zlen, BlockSize in Hiv; lia).
  change (negb (BlockSize =? BlockSize)) with false. cbv iota. rewrite Hz.
  rewrite (Z.mul_comm BlockSize), Z_mod_mult, Z.div_mul, Nat2Z.id by done. cbn [negb Z.eqb].
  eexists. split; [reflexivity|]. rewrite string_of_bytes_of_string, Decode_Encode. cbn [mbind outcome_bind].
  assert (zlen (cbc_encrypt n key iv (PKCS7Padding data BlockSize)) = Z.of_nat n * BlockSize) as ->.
  { unfold zlen. rewrite length_cbc_encrypt by done. unfold BlockSize. lia. }
  rewrite Z_mod_mult, Z.div_mul, Nat2Z.id by done. cbn [negb Z.eqb mbind outcome_bind].
  rewrite cbc_roundtrip by done. apply UnPadding_Padding.
Qed.

(** The length of what is encrypted. *)
Lemma Aes_length data key iv crypted : zlen iv = BlockSize -> AesEncryptPkcs7Base64 data key iv = Ret crypted ->
  zlen crypted <= (4 * zlen data + 80) / 3.
Proof.
  intros Hiv. unfold AesEncryptPkcs7Base64, AesEncrypt. destruct (NewCipher key); [|done..].
  cbn [mbind outcome_bind]. unfold CryptBlocks. rewrite Hiv. change (negb (BlockSize =? BlockSize)) with false. cbv iota.
  destruct (negb _); [done|]. cbn [mbind outcome_bind]. intros [= <-].
  unfold base64_EncodeToString. rewrite bytes_of_string_of_bytes, length_encode64.
  assert (length iv = 16%nat) as Hi by (unfold zlen, BlockSize in Hiv; lia).
  destruct (zlen_padded data) as (n & Hz & Hl). rewrite Hz, (Z.mul_comm BlockSize), Z.div_mul, Nat2Z.id by done.
  unfold zlen at 1. rewrite length_cbc_encrypt by done.
  assert (zlen (PKCS7Padding data BlockSize) <= zlen data + 16) as Hp.
  { unfold PKCS7Padding, BlockSize. rewrite zlen_app. unfold zlen at 2. rewrite repeat_length.
    pose proof (Z.mod_pos_bound (zlen data) 16 ltac:(lia)). lia. }
  unfold BlockSize in *. Z.to_euclidean_division_equations. lia.
Qed.

(** ** Agreeing on the key *)
Lemma first32_public a : first32 (base64_EncodeToString (ScalarBaseMult a)) (ScalarBaseMult a) = Ret (ScalarBaseMult a).
Proof.
  pose proof (length_ScalarBaseMult a) as Ha. unfold first32, base64_DecodedLen, base64_EncodeToString.
  rewrite bytes_of_string_of_bytes, length_encode64. unfold zlen. rewrite Ha. cbn -[repeat].
  f_equal. by apply take_app_length'.
Qed.

Lemma aesKeyOf_key k : NewCipher (bytes_of_string (aesKeyOf k)) = Ret tt.
Proof.
  unfold NewCipher, aesKeyOf, zlen. rewrite bytes_of_string_of_bytes, length_take, length_MD5. reflexivity.
Qed.

(** what is encrypted with a key and an initial vector of the right sizes
    is decrypted with them to what it was, whatever its length. *)
Theorem AesDecrypt_AesEncrypt data key iv : NewCipher key = Ret tt -> zlen iv = BlockSize ->
  exists crypted, AesEncryptPkcs7Base64 data key iv = Ret crypted /\ AesDecryptPkcs7Base64 crypted key iv = Ret data.
Proof. apply Aes_roundtrip. Qed.
End RoundTrip.

(** * A cipher and a curve with these laws: blocks are reversed, keys are
    combined by exclusive or *)
Definition pad32 (a : list byte) : list byte := take 32 (a ++ repeat Byte.x00 32).
Definition toyCrypto : Crypto := {|
  cipher_Encrypt _ b := reverse b;
  cipher_Decrypt _ b := reverse b;
  ScalarMult a b := xor_bytes (pad32 a) (pad32 b);
  ScalarBaseMult a := pad32 a
|}.

Lemma length_pad32 a : length (pad32 a) = 32%nat.
Proof. unfold pad32. rewrite length_take, length_app, repeat_length. lia. Qed.

Lemma pad32_twice a : pad32 (pad32 a) = pad32 a.
Proof. unfold pad32 at 1. apply take_app_length'. symmetry. apply length_pad32. Qed.

Lemma xor_bytes_comm a b : xor_bytes a b = xor_bytes b a.
Proof.
  unfold xor_bytes. revert b. induction a as [|x a IH]; intros [|y b]; try done. cbn [zip_with].
  by rewrite Z.lxor_comm, IH.
Qed.

#[export] Instance toyCryptoLaws : @CryptoLaws toyCrypto.
Proof.
  split.
  - intros k b _. apply reverse_involutive.
  - intros k b Hb. cbn. by rewrite length_reverse.
  - intros a b. cbn [ScalarMult ScalarBaseMult toyCrypto]. rewrite !pad32_twice. apply xor_bytes_comm.
  - intros a. apply length_pad32.
Qed.

Definition example_key : list byte := bytes_of_string "0123456789abcdef".
Definition example_iv : list byte := bytes_of_string "fedcba9876543210".

Lemma AesDecrypt_AesEncrypt_witness :
  exists crypted, @AesEncryptPkcs7Base64 toyCrypto (bytes_of_string "hello") example_key example_iv = Ret crypted /\
    @AesDecryptPkcs7Base64 toyCrypto crypted example_key example_iv = Ret (bytes_of_string "hello").
Proof. exact (AesDecrypt_AesEncrypt (bytes_of_string "hello") example_key example_iv eq_refl eq_refl). Defined.

(** Decrypting nothing panics. *)
Lemma AesDecrypt_empty `{Crypto} key iv : NewCipher key = Ret tt -> AesDecryptPkcs7Base64 [] key iv = Panic.
Proof.
  intros Hk. unfold AesDecryptPkcs7Base64, AesDecrypt. change (base64_DecodeString (string_of_bytes [])) with (Ret (A := list byte) []).
  cbn [mbind outcome_bind]. rewrite Hk. cbn [mbind outcome_bind]. unfold CryptBlocks. destruct (negb _); reflexivity.
Qed.
