(* ===== verification/Server.v ===== *)
(** The server's state and the delivery of messages: [LiMao]
    (internal/lim/limao.go), what a [Client] writes
    (internal/lim/client.go), and internal/lim/delivery.go. *)
From stdpp Require Import base list gmap strings.
From Stdlib Require Import ZArith Lia Strings.Byte.
From S2P Require Import Prelude Effects Keys Wire Frames Ids Protocol PQueue Model Queues Clients Storage Channels Conversations Encodings Aes.

(** A connection: its protocol version and status, whether it is closed, and
    the byte strings written to it. *)
Record Conn := mkConn { Version : Z; Status : Z; Closed : bool; Written : list (list byte) }.
Definition ConnStatusNoAuth : Z := 0.
Definition ConnStatusAuthed : Z := 1.

(** A task of [deliveryMsgPool]: the arguments of [DeliveryMsg]. *)
Record delivery := mkDelivery {
  d_msg : Lim.Message;
  d_seqs : gmap string Z;
  d_subscribers : list string
}.

(** What the server tells the application: users going online and offline,
    and messages for users who are offline. *)
Inductive Event :=
  | EventOnline (uid : string) (flag : DeviceFlag)
  | EventOffline (uid : string) (flag : DeviceFlag)
  | EventMsgOffline (msg : Lim.Message) (ToUIDs : list string).

(** [LiMao]. The storage is part of [l_channels]. [l_ids] counts the message
    ids generated. *)
Record LiMao (C S : Type) := mkLiMao {
  l_channels : state S;
  l_conversations : manager C unit;
  l_clients : ClientManager.ClientManager;
  l_conns : gmap Z Conn;
  l_retry : inflight Lim.Message;
  l_nodes : inflight Lim.NodeInFlightData;
  l_deliveries : list delivery;
  l_events : list Event;
  l_closing : list Z;
  l_ids : nat
}.
Arguments mkLiMao {C S}. Arguments l_channels {C S}. Arguments l_conversations {C S}.
Arguments l_clients {C S}. Arguments l_conns {C S}. Arguments l_retry {C S}. Arguments l_nodes {C S}.
Arguments l_deliveries {C S}.
Arguments l_events {C S}. Arguments l_closing {C S}. Arguments l_ids {C S}.

Section State.
Context {C S : Type}.
Implicit Type l : LiMao C S.

Definition set_l_channels (x : state S) l : LiMao C S :=
  mkLiMao x (l_conversations l) (l_clients l) (l_conns l) (l_retry l) (l_nodes l) (l_deliveries l) (l_events l) (l_closing l) (l_ids l).
Definition set_l_conversations (x : manager C unit) l : LiMao C S :=
  mkLiMao (l_channels l) x (l_clients l) (l_conns l) (l_retry l) (l_nodes l) (l_deliveries l) (l_events l) (l_closing l) (l_ids l).
Definition set_l_clients (x : ClientManager.ClientManager) l : LiMao C S :=
  mkLiMao (l_channels l) (l_conversations l) x (l_conns l) (l_retry l) (l_nodes l) (l_deliveries l) (l_events l) (l_closing l) (l_ids l).
Definition set_l_conns (x : gmap Z Conn) l : LiMao C S :=
  mkLiMao (l_channels l) (l_conversations l) (l_clients l) x (l_retry l) (l_nodes l) (l_deliveries l) (l_events l) (l_closing l) (l_ids l).
Definition set_l_retry (x : inflight Lim.Message) l : LiMao C S :=
  mkLiMao (l_channels l) (l_conversations l) (l_clients l) (l_conns l) x (l_nodes l) (l_deliveries l) (l_events l) (l_closing l) (l_ids l).
Definition set_l_nodes (x : inflight Lim.NodeInFlightData) l : LiMao C S :=
  mkLiMao (l_channels l) (l_conversations l) (l_clients l) (l_conns l) (l_retry l) x (l_deliveries l) (l_events l) (l_closing l) (l_ids l).
Definition set_l_deliveries (x : list delivery) l : LiMao C S :=
  mkLiMao (l_channels l) (l_conversations l) (l_clients l) (l_conns l) (l_retry l) (l_nodes l) x (l_events l) (l_closing l) (l_ids l).
Definition set_l_events (x : list Event) l : LiMao C S :=
  mkLiMao (l_channels l) (l_conversations l) (l_clients l) (l_conns l) (l_retry l) (l_nodes l) (l_deliveries l) x (l_closing l) (l_ids l).
Definition set_l_closing (x : list Z) l : LiMao C S :=
  mkLiMao (l_channels l) (l_conversations l) (l_clients l) (l_conns l) (l_retry l) (l_nodes l) (l_deliveries l) (l_events l) x (l_ids l).
Definition set_l_ids (x : nat) l : LiMao C S :=
  mkLiMao (l_channels l) (l_conversations l) (l_clients l) (l_conns l) (l_retry l) (l_nodes l) (l_deliveries l) (l_events l) (l_closing l) x.

Definition in_channels {A} (m : io (state S) A) : io (LiMao C S) A := zoom l_channels set_l_channels m.
Definition in_store {A} (m : io S A) : io (LiMao C S) A := in_channels (Channels.stored m).
Definition TriggerEvent (e : Event) : io (LiMao C S) unit := modify (fun l => set_l_events (l_events l ++ [e]) l).

(** ** Connections *)
Definition alter_conn (f : Conn -> Conn) (id : Z) : io (LiMao C S) unit :=
  modify (fun l => set_l_conns (alter f id (l_conns l)) l).
Definition conn_Write (id : Z) (data : list byte) : io (LiMao C S) unit :=
  alter_conn (fun c => if Closed c then c else mkConn (Version c) (Status c) (Closed c) (Written c ++ [data])) id.
Definition conn_Close (id : Z) : io (LiMao C S) unit :=
  alter_conn (fun c => mkConn (Version c) (Status c) true (Written c)) id.
Definition conn_SetVersion (id : Z) (v : Z) : io (LiMao C S) unit :=
  alter_conn (fun c => mkConn v (Status c) (Closed c) (Written c)) id.
Definition conn_SetStatus (id : Z) (status : Z) : io (LiMao C S) unit :=
  alter_conn (fun c => mkConn (Version c) status (Closed c) (Written c)) id.
Definition conn_Version (id : Z) : io (LiMao C S) Z :=
  gets (fun l => match l_conns l !! id with Some c => Version c | None => 0 end).

(** [Client.WritePacket]: a packet that cannot be encoded is not written. *)
Definition WritePacket (c : Client) (packet : Frame) : io (LiMao C S) unit :=
  version ← conn_Version (conn c);
  match EncodePacket packet version with
  | Ret data => if bool_decide (length data = 0%nat) then mret tt else conn_Write (conn c) data
  | Err _ => mret tt
  | Panic => lift Panic
  end.
End State.

(** * Delivery *)
Section Delivery.
Context {C S : Type} `{LRU C Db.Conversation} `{Storage S} `{Crypto}.

(** [deliveryMsgPool] takes a task only while a worker is free; the code does
    not look at the error. *)
Context (poolAccepts : list delivery -> bool).
Implicit Type l : LiMao C S.

Definition set_RedDot (b : bool) (f : Framer) : Framer :=
  mkFramer (f_PacketType f) (f_RemainingLength f) (f_NoPersist f) b (f_SyncOnce f) (f_DUP f).

(** The message as it goes into the queue of one subscriber. *)
Definition queuedMessage (m : Lim.Message) (subscriber : string) (seq : Z) : Db.Message :=
  let p := Lim.RecvPacket m in
  let newFramer := if bool_decide (subscriber = Recv.FromUID p) then set_RedDot false (Recv.framer p) else Recv.framer p in
  Db.mkMessage (ToFixHeaderUint8 (f_PacketType newFramer) newFramer) 0 0 (Setting_ToUint8 (Recv.setting p))
    (Recv.MessageID p) seq (Recv.ClientMsgNo p) (Recv.Timestamp p) (Recv.FromUID p) subscriber
    (if (Recv.ChannelType p =? ChannelTypePerson) && bool_decide (Recv.ChannelID p = Lim.ToUID m)
     then Recv.FromUID p else Recv.ChannelID p)
    (Recv.ChannelType p) (Recv.Payload p).

Definition to_user_queue (m : Lim.Message) : bool :=
  let f := Recv.framer (Lim.RecvPacket m) in f_SyncOnce f && negb (f_NoPersist f).

Fixpoint storeMessageToUserQueueIfNeed_loop (m : Lim.Message) (subscribers : list string) (seqs : gmap string Z) :
    io (LiMao C S) (gmap string Z) :=
  match subscribers with
  | [] => mret seqs
  | subscriber :: rest =>
      if to_user_queue m then
        seq ← in_store (GetUserNextMessageSeq subscriber);
        in_store (AppendMessageOfUser (queuedMessage m subscriber seq)) ;;
        storeMessageToUserQueueIfNeed_loop m rest (<[subscriber := seq]> seqs)
      else storeMessageToUserQueueIfNeed_loop m rest seqs
  end.
Definition storeMessageToUserQueueIfNeed (m : Lim.Message) (subscribers : list string) :
    io (LiMao C S) (gmap string Z) := storeMessageToUserQueueIfNeed_loop m subscribers ∅.

Definition startDeliveryMsg (m : Lim.Message) (seqs : gmap string Z) (subscribers : list string) :
    io (LiMao C S) unit :=
  modify (fun l => if poolAccepts (l_deliveries l)
                   then set_l_deliveries (l_deliveries l ++ [mkDelivery m seqs subscribers]) l else l).

(** [conversationManager.PushMessage] on the queue of the manager. *)
Definition pushMessage (m : Lim.Message) (subscribers : list string) : io (LiMao C S) unit :=
  zoom l_conversations set_l_conversations (PushMessage m subscribers).

Definition handleLocalSubscribersMessage (m : Lim.Message) (subscribers : list string) : io (LiMao C S) unit :=
  seqs ← storeMessageToUserQueueIfNeed m subscribers;
  pushMessage m subscribers ;;
  startDeliveryMsg m seqs subscribers.

Definition clientIsSelf (client : Client) (msg : Lim.Message) : bool :=
  bool_decide (uid client = Recv.FromUID (Lim.RecvPacket msg)) && (deviceFlag client =? Lim.fromDeviceFlag msg).

Definition getRecvClients (msg : Lim.Message) (subscriber : string) (l : LiMao C S) : list Client :=
  filter (fun c => clientIsSelf c msg = false) (ClientManager.GetClientsWithUID subscriber (l_clients l)).

(** The copy of a message for one client. *)
Definition messageFor (msg : Lim.Message) (seqs : gmap string Z) (subscriber : string) (client : Client) : Lim.Message :=
  let p := Lim.RecvPacket msg in
  let seq := match seqs !! subscriber with
             | Some s => if s =? 0 then Recv.MessageSeq p else s
             | None => Recv.MessageSeq p end in
  Lim.mkMessage
    (Recv.mkRecvPacket (Recv.framer p) (Recv.setting p) (Recv.MsgKey p) (Recv.MessageID p) seq (Recv.ClientMsgNo p)
       (Recv.Timestamp p) (Recv.FromUID p) (Recv.ChannelID p) (Recv.ChannelType p) (Recv.Payload p))
    subscriber (Lim.Subscribers msg) (Lim.fromDeviceFlag msg) (GetID client) (Lim.m_index msg) (Lim.m_pri msg).

(** The packet that goes out for it, before encryption. *)
Definition packetFor (newMsg : Lim.Message) (channelID : string) : Recv.RecvPacket :=
  let p := Lim.RecvPacket newMsg in
  let f := Recv.framer p in
  Recv.mkRecvPacket (mkFramer 0 0 (f_NoPersist f) (f_RedDot f) (f_SyncOnce f) false)
    (Recv.setting p) EmptyString (Recv.MessageID p) (Recv.MessageSeq p) (Recv.ClientMsgNo p) (Recv.Timestamp p)
    (Recv.FromUID p) channelID (Recv.ChannelType p) (Recv.Payload p).

Definition set_Payload (payload : list byte) (msgKey : string) (p : Recv.RecvPacket) : Recv.RecvPacket :=
  Recv.mkRecvPacket (Recv.framer p) (Recv.setting p) msgKey (Recv.MessageID p) (Recv.MessageSeq p)
    (Recv.ClientMsgNo p) (Recv.Timestamp p) (Recv.FromUID p) (Recv.ChannelID p) (Recv.ChannelType p) payload.

(** The payload encrypted for a client, and the key that signs the packet. *)
Definition encryptFor (client : Client) (p : Recv.RecvPacket) : outcome Recv.RecvPacket :=
  let key := bytes_of_string (aesKey client) in
  let iv := bytes_of_string (aesIV client) in
  payloadEnc ← AesEncryptPkcs7Base64 (Recv.Payload p) key iv;
  let p1 := set_Payload payloadEnc (Recv.MsgKey p) p in
  msgKeyBytes ← AesEncryptPkcs7Base64 (bytes_of_string (Recv.RecvPacket_VerityString p1)) key iv;
  Ret (set_Payload payloadEnc (MD5 (string_of_bytes msgKeyBytes)) p1).

(** Putting a message object into the retry queue. *)
Definition startInFlight (deadline : Z) (m : Lim.Message) : io (LiMao C S) unit := fun l =>
  let q := l_retry l in
  let h := inFlightPQ q in
  let a := fresh (dom (store h)) in
  let q1 := with_PQ (mkHeap (<[a := m]> (store h)) (pq h) (pcap h)) q in
  match startInFlightTimeout deadline a q1 with
  | Ret q2 => (Ret tt, set_l_retry q2 l)
  | Err e => (Err e, set_l_retry q1 l)
  | Panic => (Panic, set_l_retry q1 l)
  end.

Definition deliverTo (deadline : Z) (msg : Lim.Message) (seqs : gmap string Z) (subscriber channelID : string)
    (recvClient : Client) : io (LiMao C S) unit :=
  if negb (Lim.toClientID msg =? 0) && negb (GetID recvClient =? Lim.toClientID msg) then mret tt
  else
    let newMsg := messageFor msg seqs subscriber recvClient in
    startInFlight deadline newMsg ;;
    let recvPacket := packetFor newMsg channelID in
    version ← conn_Version (conn recvClient);
    if version >? 2 then
      match encryptFor recvClient recvPacket with
      | Ret p => WritePacket recvClient (FRecv p)
      | Err _ => mret tt
      | Panic => lift Panic
      end
    else WritePacket recvClient (FRecv recvPacket).

Definition finishRetry (clientID messageID : Z) : io (LiMao C S) unit := fun l =>
  match RetryQueue.finishMessage clientID messageID (l_retry l) with
  | Ret q => (Ret tt, set_l_retry q l)
  | Err e => (Err e, l)
  | Panic => (Panic, l)
  end.

(** One round of [DeliveryMsg]; the result is whether the subscriber counts as
    offline. *)
Definition deliverToSubscriber (deadline : Z) (msg : Lim.Message) (seqs : gmap string Z) (subscriber : string) :
    io (LiMao C S) bool :=
  recvClients ← gets (getRecvClients msg subscriber);
  let p := Lim.RecvPacket msg in
  let channelID := if (Recv.ChannelType p =? ChannelTypePerson) && bool_decide (Recv.ChannelID p = subscriber)
                   then Recv.FromUID p else Recv.ChannelID p in
  match recvClients with
  | _ :: _ => for_each (deliverTo deadline msg seqs subscriber channelID) recvClients ;; mret false
  | [] =>
      (if negb (Lim.toClientID msg =? 0)
       then attempt (finishRetry (Lim.toClientID msg) (Recv.MessageID p)) ;; mret tt else mret tt) ;;
      mret (negb (bool_decide (subscriber = Recv.FromUID p)))
  end.

Fixpoint DeliveryMsg_loop (deadline : Z) (msg : Lim.Message) (seqs : gmap string Z) (subscribers : list string) :
    io (LiMao C S) (list string) :=
  match subscribers with
  | [] => mret []
  | subscriber :: rest =>
      offline ← deliverToSubscriber deadline msg seqs subscriber;
      others ← DeliveryMsg_loop deadline msg seqs rest;
      mret (if offline : bool then subscriber :: others else others)
  end.

Definition DeliveryMsg (deadline : Z) (d : delivery) : io (LiMao C S) unit :=
  offlineSubscribers ← DeliveryMsg_loop deadline (d_msg d) (d_seqs d) (d_subscribers d);
  if bool_decide (length offlineSubscribers = 0%nat) then mret tt
  else TriggerEvent (EventMsgOffline (d_msg d) offlineSubscribers).
End Delivery.

(** * What a delivery does *)
Section DeliveryProperties.
Context {C S : Type} `{CryptoLaws}.
Implicit Type l : LiMao C S.

(** A client that can be written to: its connection is open, and its key is
    one if its version encrypts. *)
Record writable l (c : Client) (co : Conn) : Prop := {
  wr_conn : l_conns l !! GetID c = Some co;
  wr_open : Closed co = false;
  wr_key : 2 < Version co ->
    NewCipher (bytes_of_string (aesKey c)) = Ret tt /\ zlen (bytes_of_string (aesIV c)) = BlockSize
}.

(** The bytes a client is sent for a message. *)
Definition packet_bytes (version : Z) (c : Client) (p : Recv.RecvPacket) : list byte :=
  let p' := if version >? 2 then match encryptFor c p with Ret q => q | _ => p end else p in
  encodedOf (EncodePacket (FRecv p') version).

Lemma encryptFor_total c p : NewCipher (bytes_of_string (aesKey c)) = Ret tt ->
  zlen (bytes_of_string (aesIV c)) = BlockSize -> exists q, encryptFor c p = Ret q.
Proof.
  intros Hk Hi. unfold encryptFor. destruct (Aes_roundtrip (Recv.Payload p) _ _ Hk Hi) as (d & -> & _).
  cbn [mbind outcome_bind]. edestruct Aes_roundtrip as (d' & -> & _); [exact Hk|exact Hi|]. eexists. reflexivity.
Qed.

Lemma EncodePacket_recv p version : exists data, EncodePacket (FRecv p) version = Ret data /\ data <> [].
Proof.
  unfold EncodePacket. cbn. eexists. split; [reflexivity|]. unfold encodeFramer. cbn. discriminate.
Qed.

(** Writing to an open connection. *)
Definition wrote (data : list byte) (co : Conn) : Conn :=
  if Closed co then co else mkConn (Version co) (Status co) (Closed co) (Written co ++ [data]).

Lemma WritePacket_recv c co p l : l_conns l !! GetID c = Some co ->
  WritePacket c (FRecv p) l =
    (Ret tt, set_l_conns (alter (wrote (encodedOf (EncodePacket (FRecv p) (Version co)))) (GetID c) (l_conns l)) l).
Proof.
  intros Hc. unfold WritePacket, conn_Version. unfold GetID in Hc. unfold mbind, io_bind, gets. rewrite Hc.
  destruct (EncodePacket_recv p (Version co)) as (data & -> & Hne). cbn [encodedOf].
  rewrite bool_decide_false by (destruct data; done). reflexivity.
Qed.

Lemma alter_ext_at {A} (f g : A -> A) k (m : gmap Z A) x : m !! k = Some x -> f x = g x -> alter f k m = alter g k m.
Proof.
  intros Hx E. apply map_eq. intros i. destruct (decide (i = k)) as [->|Hi].
  - rewrite !lookup_alter_eq, Hx. cbn. by rewrite E.
  - by rewrite !lookup_alter_ne by done.
Qed.

Context (deadline : Z) (msg : Lim.Message) (seqs : gmap string Z).

Abbreviation p0 := (Lim.RecvPacket msg).

(** The channel a subscriber sees, and the packet for one of his clients. *)
Definition channel_seen (subscriber : string) : string :=
  if (Recv.ChannelType p0 =? ChannelTypePerson) && bool_decide (Recv.ChannelID p0 = subscriber)
  then Recv.FromUID p0 else Recv.ChannelID p0.
Definition target_bytes (version : Z) (t : string * Client) : list byte :=
  packet_bytes version (snd t) (packetFor (messageFor msg seqs (fst t) (snd t)) (channel_seen (fst t))).
Definition target_key (t : string * Client) : string := Sprintf_d_d (Recv.MessageID p0) (GetID (snd t)).

(** The targets of a message among the clients connected. *)
Definition targets (l : LiMao C S) (subscribers : list string) : list (string * Client) :=
  subscribers ≫= fun s => (fun c => (s, c)) <$> getRecvClients msg s l.

(** The state in which exactly the targets [ts] have been served. *)
Definition sent_to (ts : list (string * Client)) (id : Z) (co : Conn) : Conn :=
  mkConn (Version co) (Status co) (Closed co)
    (Written co ++ (target_bytes (Version co) <$> filter (fun t => GetID (snd t) = id) ts)).

Record served (l0 : LiMao C S) (ts : list (string * Client)) l : Prop := {
  sv_conns id : l_conns l !! id = sent_to ts id <$> l_conns l0 !! id;
  sv_retry : in_flight_ok (l_retry l);
  sv_in_flight t : t ∈ ts -> exists a, inFlightMessages (l_retry l) !! target_key t = Some a /\
    prio (inFlightPQ (l_retry l)) a = deadline;
  sv_others k : (forall t, t ∈ ts -> target_key t <> k) ->
    inFlightMessages (l_retry l) !! k = inFlightMessages (l_retry l0) !! k;
  sv_clients : l_clients l = l_clients l0;
  sv_channels : l_channels l = l_channels l0;
  sv_events : l_events l = l_events l0
}.

Lemma served_nil l : in_flight_ok (l_retry l) -> served l [] l.
Proof.
  intros Hok. split; try done.
  - intros id. unfold sent_to. cbn. destruct (l_conns l !! id) as [co|]; [|done]. cbn. rewrite app_nil_r. by destruct co.
  - intros t Ht. inversion Ht.
Qed.

Lemma target_key_inj t1 t2 : target_key t1 = target_key t2 -> GetID (snd t1) = GetID (snd t2).
Proof. intros E. by apply (inj2 Sprintf_d_d) in E as [_ E]. Qed.

(** Putting the copy of a message in flight. *)
Lemma startInFlight_spec m l : in_flight_ok (l_retry l) -> inFlightMessages (l_retry l) !! qkey m = None ->
  exists q a, startInFlight deadline m l = (Ret tt, set_l_retry q l) /\ in_flight_ok q /\
    inFlightMessages q = <[qkey m := a]> (inFlightMessages (l_retry l)) /\ prio (inFlightPQ q) a = deadline /\
    forall k b, inFlightMessages (l_retry l) !! k = Some b -> prio (inFlightPQ q) b = prio (inFlightPQ (l_retry l)) b.
Proof.
  intros Hok Hk. unfold startInFlight. set (h := inFlightPQ (l_retry l)). set (a := fresh (dom (store h))).
  assert (store h !! a = None) as Hfresh by (apply not_elem_of_dom, is_fresh).
  assert (forall b, b ∈ pq h -> b <> a) as Hnew.
  { intros b Hb ->. destruct (wf_lookup h a (if_wf _ Hok) Hb) as (i & x & _ & Hx & _). congruence. }
  assert (a ∉ pq h) as Ha by (intros Hx; by apply (Hnew a)).
  set (q1 := with_PQ _ _). assert (in_flight_ok q1) as Hok1 by (by apply in_flight_store).
  destruct (start_spec deadline a m q1 Hok1 Ha) as (q2 & -> & Hok2 & _ & Hpa & Hpb & _ & _ & Hm); [|done|].
  { unfold q1. cbn. apply lookup_insert_eq. }
  exists q2, a. split; [done|]. split; [done|]. split; [done|]. split; [done|].
  intros k b Hb. apply (if_map _ Hok) in Hb as [Hb _]. rewrite Hpb by (by apply Hnew).
  unfold prio, q1. cbn. by rewrite lookup_insert_ne by (intros E; by apply (Hnew b)).
Qed.

(** Serving one more target. *)
Lemma deliverTo_served l0 ts l t co : served l0 ts l -> Lim.toClientID msg = 0 -> writable l0 (snd t) co ->
  GetID (snd t) ∉ (fun t => GetID (snd t)) <$> ts ->
  inFlightMessages (l_retry l0) !! target_key t = None ->
  exists l', deliverTo deadline msg seqs (fst t) (channel_seen (fst t)) (snd t) l = (Ret tt, l') /\
    served l0 (ts ++ [t]) l'.
Proof.
  intros [Cn Ro Fl Ot Cl Ch Ev] Hto [Hw Hopen Hkey] Hid Hk. destruct t as [s c]. cbn [fst snd] in *.
  unfold deliverTo. rewrite Hto. cbn [negb andb Z.eqb].
  assert (forall t, t ∈ ts -> target_key t <> target_key (s, c)) as Hnew.
  { intros t Ht E%target_key_inj. apply Hid. cbn [snd] in E. rewrite <- E.
    exact (list_elem_of_fmap_2 (fun t => GetID (snd t)) ts t Ht). }
  set (nm := messageFor msg seqs s c). assert (qkey nm = target_key (s, c)) as Eq by reflexivity.
  destruct (startInFlight_spec nm l Ro) as (q & a & E & Hokq & Hmq & Hpa & Hpb); [rewrite Eq, Ot; done|].
  io_step E. set (l1 := set_l_retry q l).
  assert (l_conns l1 !! GetID c = Some (sent_to ts (GetID c) co)) as Hc1 by (change (l_conns l1) with (l_conns l); by rewrite Cn, Hw).
  set (p := packetFor nm (channel_seen s)).
  assert (exists p', (version ← conn_Version (conn c);
      if version >? 2 then match encryptFor c p with
        | Ret p => WritePacket c (FRecv p) | Err _ => mret tt | Panic => lift Panic end
      else WritePacket c (FRecv p)) l1 = WritePacket c (FRecv p') l1 /\
    target_bytes (Version co) (s, c) = encodedOf (EncodePacket (FRecv p') (Version co))) as (p' & -> & Hb).
  { unfold mbind, io_bind, conn_Version, gets. unfold GetID in Hc1. rewrite Hc1. cbn [sent_to Version].
    unfold target_bytes, packet_bytes. cbn [fst snd]. fold nm. fold p.
    destruct (Z.gtb_spec (Version co) 2) as [Hv|Hv]; [|exists p; done].
    destruct (Hkey ltac:(lia)) as [Hk1 Hk2]. destruct (encryptFor_total c p Hk1 Hk2) as (p' & ->). exists p'. done. }
  rewrite (WritePacket_recv c _ p' l1 Hc1). cbn [sent_to Version]. rewrite <- Hb. eexists. split; [reflexivity|].
  split; cbn [set_l_conns l_conns l_retry l_clients l_channels l_events]; change (l_retry l1) with q; auto.
  - intros id. destruct (decide (id = GetID c)) as [->|Hne].
    + rewrite lookup_alter_eq, Hc1, Hw. cbn. f_equal. unfold wrote, sent_to. cbn. rewrite Hopen. f_equal.
      rewrite filter_app, filter_cons, filter_nil, decide_True by done. rewrite fmap_app, app_assoc. done.
    + rewrite lookup_alter_ne by done. change (l_conns l1) with (l_conns l). rewrite Cn.
      destruct (l_conns l0 !! id) as [co'|]; [|done]. cbn. f_equal. unfold sent_to. f_equal.
      rewrite filter_app, filter_cons, filter_nil, decide_False by done. by rewrite app_nil_r.
  - intros t [Ht| ->%list_elem_of_singleton]%elem_of_app.
    + destruct (Fl t Ht) as (b & Hb1 & Hb2). exists b. rewrite Hmq, lookup_insert_ne by (rewrite Eq; by apply not_eq_sym, Hnew).
      split; [done|]. by rewrite (Hpb _ _ Hb1).
    + exists a. rewrite Hmq, Eq, lookup_insert_eq. done.
  - intros k Hk'. rewrite Hmq, Eq, lookup_insert_ne.
    + apply Ot. intros t Ht. apply Hk'. apply elem_of_app. by left.
    + apply Hk'. apply elem_of_app. right. constructor.
Qed.

(** What makes a list of targets one that can be served from [l0]. *)
Record servable (l0 : LiMao C S) (ts : list (string * Client)) : Prop := {
  sb_writable t : t ∈ ts -> exists co, writable l0 (snd t) co;
  sb_distinct : NoDup ((fun t => GetID (snd t)) <$> ts);
  sb_new t : t ∈ ts -> inFlightMessages (l_retry l0) !! target_key t = None
}.

Lemma servable_prefix l0 ts1 ts2 : servable l0 (ts1 ++ ts2) -> servable l0 ts1.
Proof.
  intros [Hw Hd Hn]. split.
  - intros t Ht. apply Hw, elem_of_app. by left.
  - rewrite fmap_app in Hd. by apply NoDup_app in Hd as [? _].
  - intros t Ht. apply Hn, elem_of_app. by left.
Qed.

Lemma serve_clients l0 s cs ts l : servable l0 (ts ++ ((fun c => (s, c)) <$> cs)) -> Lim.toClientID msg = 0 ->
  served l0 ts l ->
  exists l', for_each (deliverTo deadline msg seqs s (channel_seen s)) cs l = (Ret tt, l') /\
    served l0 (ts ++ ((fun c => (s, c)) <$> cs)) l'.
Proof.
  intros Hsb Hto Hs.
  destruct (for_each_inv (deliverTo deadline msg seqs s (channel_seen s))
    (fun done => served l0 (ts ++ ((fun c => (s, c)) <$> done))) cs l) as (l' & E & Hs'); [|by rewrite app_nil_r|eauto].
  intros c l1 l2 l3 Ecs Hs3. subst cs.
  replace (ts ++ ((fun c => (s, c)) <$> (l1 ++ c :: l2)))
    with ((ts ++ ((fun c => (s, c)) <$> l1)) ++ ((s, c) :: ((fun c => (s, c)) <$> l2))) in Hsb
    by (rewrite <- app_assoc; f_equal; by rewrite fmap_app).
  replace (ts ++ ((fun c => (s, c)) <$> (l1 ++ [c]))) with ((ts ++ ((fun c => (s, c)) <$> l1)) ++ [(s, c)])
    by (rewrite <- app_assoc; f_equal; by rewrite fmap_app).
  set (t := (s, c)) in *. destruct Hsb as [Hw Hd Hn].
  assert (t ∈ (ts ++ ((fun c => (s, c)) <$> l1)) ++ t :: ((fun c => (s, c)) <$> l2)) as Ht
    by (apply elem_of_app; right; constructor).
  destruct (Hw t Ht) as (co & Hco).
  apply (deliverTo_served l0 (ts ++ ((fun c => (s, c)) <$> l1)) l3 t co Hs3 Hto Hco); [|by apply Hn].
  rewrite fmap_app in Hd. apply NoDup_app in Hd as (_ & Hd & _). intros Hx. apply (Hd _ Hx). constructor.
Qed.

Definition counts_offline (l0 : LiMao C S) (s : string) : bool :=
  bool_decide (getRecvClients msg s l0 = []) && negb (bool_decide (s = Recv.FromUID p0)).

Lemma targets_cons l0 s subs : targets l0 (s :: subs) = ((fun c => (s, c)) <$> getRecvClients msg s l0) ++ targets l0 subs.
Proof. reflexivity. Qed.

Lemma getRecvClients_served l0 ts l s : served l0 ts l -> getRecvClients msg s l = getRecvClients msg s l0.
Proof. intros Hs. unfold getRecvClients. by rewrite (sv_clients _ _ _ Hs). Qed.

Lemma serve_subscriber l0 s ts l : servable l0 (ts ++ ((fun c => (s, c)) <$> getRecvClients msg s l0)) ->
  Lim.toClientID msg = 0 -> served l0 ts l ->
  exists l', deliverToSubscriber deadline msg seqs s l = (Ret (counts_offline l0 s), l') /\
    served l0 (ts ++ ((fun c => (s, c)) <$> getRecvClients msg s l0)) l'.
Proof.
  intros Hsb Hto Hs. unfold deliverToSubscriber, counts_offline.
  assert (gets (getRecvClients msg s) l = (Ret (getRecvClients msg s l0), l)) as E
    by (unfold gets; by rewrite (getRecvClients_served l0 ts l s Hs)).
  io_step E. clear E. fold (channel_seen s). destruct (getRecvClients msg s l0) as [|c cs].
  - rewrite Hto. cbn [negb Z.eqb fmap list_fmap]. rewrite app_nil_r. eexists. split; [reflexivity|done].
  - destruct (serve_clients l0 s (c :: cs) ts l Hsb Hto Hs) as (l' & E & Hs').
    io_step E. eexists. split; [reflexivity|done].
Qed.

Lemma DeliveryMsg_loop_spec l0 subs ts l : servable l0 (ts ++ targets l0 subs) -> Lim.toClientID msg = 0 ->
  served l0 ts l ->
  exists l', DeliveryMsg_loop deadline msg seqs subs l = (Ret (filter (fun s => counts_offline l0 s = true) subs), l') /\
    served l0 (ts ++ targets l0 subs) l'.
Proof.
  revert ts l. induction subs as [|s subs IH]; intros ts l Hsb Hto Hs.
  - eexists. split; [reflexivity|]. cbn. by rewrite app_nil_r.
  - rewrite targets_cons, app_assoc in *. cbn [DeliveryMsg_loop].
    destruct (serve_subscriber l0 s ts l (servable_prefix _ _ _ Hsb) Hto Hs) as (l1 & E1 & Hs1). io_step E1.
    destruct (IH _ _ Hsb Hto Hs1) as (l2 & E2 & Hs2). io_step E2. eexists. split; [|exact Hs2].
    rewrite filter_cons. unfold mret, io_ret. destruct (counts_offline l0 s); reflexivity.
Qed.
End DeliveryProperties.

(** C4: a message delivered for the first time: every connection is sent, in
    order, one packet for each subscriber it belongs to a client of, and
    nothing else; the sender's own device gets none. Every packet sent is in
    flight with the deadline until it is acknowledged, what was in flight
    stays, and the subscribers without a client to send to, save the sender,
    are reported in one event. *)
Theorem DeliveryMsg_delivers {C S} `{CryptoLaws} deadline (d : delivery) (l : LiMao C S)
    (msg := d_msg d) (ts := targets msg l (d_subscribers d))
    (offline := filter (fun s => counts_offline msg l s = true) (d_subscribers d)) :
  Lim.toClientID msg = 0 -> in_flight_ok (l_retry l) -> servable msg l ts ->
  exists l', DeliveryMsg deadline d l = (Ret tt, l') /\
    (forall id, l_conns l' !! id =
       (fun co => mkConn (Version co) (Status co) (Closed co)
          (Written co ++ (target_bytes msg (d_seqs d) (Version co) <$> filter (fun t => GetID (snd t) = id) ts)))
       <$> l_conns l !! id) /\
    in_flight_ok (l_retry l') /\
    (forall t, t ∈ ts -> exists a, inFlightMessages (l_retry l') !! target_key msg t = Some a /\
       prio (inFlightPQ (l_retry l')) a = deadline) /\
    (forall k, (forall t, t ∈ ts -> target_key msg t <> k) ->
       inFlightMessages (l_retry l') !! k = inFlightMessages (l_retry l) !! k) /\
    l_events l' = l_events l ++ (if bool_decide (offline = []) then [] else [EventMsgOffline msg offline]).
Proof.
  intros Hto Hok Hsb. destruct (DeliveryMsg_loop_spec deadline msg (d_seqs d) l (d_subscribers d) [] l Hsb Hto
    (served_nil deadline msg (d_seqs d) l Hok)) as (l1 & E & [Cn Ro Fl Ot Cl Ch Ev]).
  cbn [app] in *. fold ts in Cn, Fl, Ot. fold offline in E. unfold DeliveryMsg. fold msg. io_step E.
  destruct offline as [|s off].
  - exists l1. rewrite app_nil_r. split; [reflexivity|]. auto.
  - eexists. split; [reflexivity|]. cbn [set_l_events l_conns l_retry l_events]. rewrite Ev. auto.
Qed.

(** * Witnesses *)
#[local] Existing Instance toyCrypto.
Definition bob5 : Client := mkClient 5 "bob" APP DeviceLevelMaster "0123456789abcdef" "fedcba9876543210".
Definition open_conn (version : Z) : Conn := mkConn version ConnStatusAuthed false [].

(** Alice on two devices, bob with a client that encrypts. *)
Definition example_server : LiMao (listCache Db.Conversation) Memory.store :=
  mkLiMao (mkState ∅ ∅ ∅ ∅ false Memory.empty_store) (NewConversationManager tt)
    (ClientManager.Add bob5 (ClientManager.Add ClientManager.alice2
      (ClientManager.Add ClientManager.alice1 ClientManager.NewClientManager)))
    {[1 := open_conn 2; 2 := open_conn 2; 5 := open_conn 4]} retry_empty
    (NodeInFlightQueue.NewNodeInFlightQueue ∅) [] [] [] 0.

Definition example_delivery : delivery := mkDelivery (group_message 5 true) ∅ ["alice"; "bob"; "carol"].
Definition example_targets : list (string * Client) := [("alice", ClientManager.alice2); ("bob", bob5)].

Lemma example_targets_eq : targets (d_msg example_delivery) example_server (d_subscribers example_delivery) = example_targets.
Proof. vm_compute. reflexivity. Qed.

Lemma example_servable : servable (C := listCache Db.Conversation) (S := Memory.store) (group_message 5 true)
  example_server example_targets.
Proof.
  split.
  - intros t Ht. apply elem_of_cons in Ht as [->|Ht]; [|apply list_elem_of_singleton in Ht as ->].
    + exists (open_conn 2). split; [reflexivity|reflexivity|]. cbn. lia.
    + exists (open_conn 4). split; [reflexivity|reflexivity|]. intros _. split; reflexivity.
  - apply (bool_decide_unpack _). vm_compute. exact I.
  - intros t Ht. apply elem_of_cons in Ht as [->|Ht]; [|apply list_elem_of_singleton in Ht as ->]; vm_compute; reflexivity.
Qed.

Lemma DeliveryMsg_delivers_witness :
  let msg := d_msg example_delivery in
  let ts := targets msg example_server (d_subscribers example_delivery) in
  let offline := filter (fun s => counts_offline msg example_server s = true) (d_subscribers example_delivery) in
  exists l', DeliveryMsg 20 example_delivery example_server = (Ret tt, l') /\
    (forall id, l_conns l' !! id =
       (fun co => mkConn (Version co) (Status co) (Closed co)
          (Written co ++ (target_bytes msg (d_seqs example_delivery) (Version co)
             <$> filter (fun t => GetID (snd t) = id) ts)))
       <$> l_conns example_server !! id) /\
    in_flight_ok (l_retry l') /\
    (forall t, t ∈ ts -> exists a, inFlightMessages (l_retry l') !! target_key msg t = Some a /\
       prio (inFlightPQ (l_retry l')) a = 20) /\
    (forall k, (forall t, t ∈ ts -> target_key msg t <> k) ->
       inFlightMessages (l_retry l') !! k = inFlightMessages (l_retry example_server) !! k) /\
    l_events l' = l_events example_server ++ (if bool_decide (offline = []) then [] else [EventMsgOffline msg offline]).
Proof.
  apply (DeliveryMsg_delivers 20 example_delivery example_server).
  - reflexivity.
  - exact (new_ok retry_store).
  - rewrite example_targets_eq. exact example_servable.
Defined.
