(* ===== verification/Handler.v ===== *)
(** The packets of clients: [PacketHandler] (internal/lim/handler.go),
    [PutMessage] and [calNodeSubscribers] of internal/lim/channel.go. *)
From stdpp Require Import base list gmap strings.
From Stdlib Require Import ZArith Lia Strings.Byte.
From S2P Require Import Prelude Effects Keys Wire Frames Ids Protocol PQueue Model Queues Clients Storage Channels Conversations Encodings Aes Server.

(** What the handler uses from outside the server: the options and the
    datasource, whether the delivery pool takes a task, the ids of the
    snowflake generator and the UUIDs, both by how many were generated, the
    node of the cluster a name belongs to, and the calls to other nodes. *)
Record Env := mkEnv {
  e_opts : Options;
  e_datasource : Datasource;
  e_pool : list delivery -> bool;
  messageIDs : nat -> Z;
  uuids : nat -> string;
  GetNode : string -> option Z;
  ForwardSendPacket : list byte -> string -> DeviceFlag -> Z -> outcome (Z * Z * ReasonCode);
  ForwardRecvPacket : Lim.NodeInFlightData -> bool
}.

(** The random choices of one connection: the private key of the server and
    the initial vector. *)
Record Handshake := mkHandshake {
  hs_private : list byte;
  hs_iv : string
}.

(** * Subscribers by node *)

(** [nodeSubscribers]: a node and the subscribers on it. *)
Definition nodeSubscribers : Type := Z * list string.

(** [existNodeSub.subscribers = append(...)], or a new group at the end. *)
Fixpoint add_to_node (node : Z) (s : string) (groups : list nodeSubscribers) : list nodeSubscribers :=
  match groups with
  | [] => [(node, [s])]
  | (n, l) :: rest => if n =? node then (n, l ++ [s]) :: rest else (n, l) :: add_to_node node s rest
  end.

(** The subscribers of this node, none for [nil], and the others by node. A
    subscriber without a node is a nil dereference. *)
Fixpoint calNodeSubscribers_loop (getNode : string -> option Z) (self : Z) (subscribers : list string)
    (local : list string) (others : list nodeSubscribers) : outcome (list string * list nodeSubscribers) :=
  match subscribers with
  | [] => Ret (local, others)
  | s :: rest =>
      match getNode s with
      | None => Panic
      | Some n =>
          if n =? self then calNodeSubscribers_loop getNode self rest (local ++ [s]) others
          else calNodeSubscribers_loop getNode self rest local (add_to_node n s others)
      end
  end.
Definition calNodeSubscribers (getNode : string -> option Z) (self : Z) (subscribers : list string) :
    outcome (list string * list nodeSubscribers) := calNodeSubscribers_loop getNode self subscribers [] [].

Section Handler.
Context {C S : Type} `{LRU C Db.Conversation} `{Storage S} `{Crypto}.
Context (env : Env).
Implicit Type l : LiMao C S.
Let opts := e_opts env.

Definition genMessageID : io (LiMao C S) Z := fun l =>
  (Ret (messageIDs env (l_ids l)), set_l_ids (Datatypes.S (l_ids l)) l).
Definition GenUUID : io (LiMao C S) string := fun l =>
  (Ret (uuids env (l_ids l)), set_l_ids (Datatypes.S (l_ids l)) l).

Definition handlePing (c : Client) : io (LiMao C S) unit := WritePacket c FPong.

Definition handleRecvack (c : Client) (recvack : Recvack.RecvackPacket) : io (LiMao C S) unit :=
  attempt (finishRetry (GetID c) (Recvack.MessageID recvack)) ;;
  let f := Recvack.framer recvack in
  if f_SyncOnce f && negb (f_NoPersist f) then
    attempt (in_store (UpdateMessageOfUserCursorIfNeed (uid c) (Recvack.MessageSeq recvack))) ;; mret tt
  else mret tt.

(** ** Connecting *)
Definition writeConnack (id : Z) (timeDiff : Z) (code : ReasonCode) : io (LiMao C S) unit :=
  version ← conn_Version id;
  match EncodePacket (FConnack (Connack.mkConnackPacket zeroFramer EmptyString EmptyString timeDiff code)) version with
  | Ret data => conn_Write id data
  | Err e => raise e
  | Panic => lift Panic
  end.

(** The key, the initial vector and the server's public key of a new client;
    [None] when the client's key is not base64. *)
Definition handshake (hs : Handshake) (p : Connect.ConnectPacket) : outcome (option (string * string * string)) :=
  if Connect.Version p >? 2 then
    match base64_DecodeString (Connect.ClientKey p) with
    | Err _ => Ret None
    | Panic => Panic
    | Ret clientKeyBytes =>
        dhClientPubKeyArray ← first32 (Connect.ClientKey p) clientKeyBytes;
        let shareKey := GetCurve25519Key (hs_private hs) dhClientPubKeyArray in
        Ret (Some (aesKeyOf shareKey, hs_iv hs, base64_EncodeToString (ScalarBaseMult (hs_private hs))))
    end
  else Ret (Some (EmptyString, EmptyString, EmptyString)).

(** The client that is connected on the same device is taken out of the
    manager at once; its connection is closed four seconds later
    ([l_closing]). *)
Definition replaceClient (p : Connect.ConnectPacket) : io (LiMao C S) unit :=
  old ← gets (fun l => ClientManager.GetClientWith (Connect.UID p) (Connect.deviceFlag p) (l_clients l));
  match old with
  | None => mret tt
  | Some oldClient =>
      modify (fun l => set_l_clients (ClientManager.Remove (GetID oldClient) (l_clients l)) l) ;;
      match EncodePacket (FDisconnect (Disconnect.mkDisconnectPacket zeroFramer 0 "Account login on other devices"))
              (Connect.Version p) with
      | Ret data => conn_Write (GetID oldClient) data
      | Err _ => conn_Write (GetID oldClient) []
      | Panic => lift Panic
      end ;;
      modify (fun l => set_l_closing (l_closing l ++ [GetID oldClient]) l)
  end.

(** [s.l.store.GetUserToken] and the comparison: the device level of a client
    that may connect, or the reason why it may not. *)
Definition authenticate (p : Connect.ConnectPacket) : io (LiMao C S) (DeviceLevel + ReasonCode) :=
  if InTestMode opts then mret (inl DeviceLevelMaster)
  else
    r ← attempt (in_store (GetUserToken (Connect.UID p) (Connect.deviceFlag p)));
    match r with
    | inr _ => mret (inr ReasonError)
    | inl (token, level) =>
        if bool_decide (token = Connect.Token p) then mret (inl level) else mret (inr ReasonAuthFail)
    end.

Definition acceptClient (nowMs : Z) (id : Z) (p : Connect.ConnectPacket) (level : DeviceLevel)
    (keys : string * string * string) : io (LiMao C S) unit :=
  let '(aesKey, aesIV, serverKey) := keys in
  replaceClient p ;;
  conn_SetStatus id ConnStatusAuthed ;;
  let client := mkClient id (Connect.UID p) (Connect.deviceFlag p) level aesKey aesIV in
  modify (fun l => set_l_clients (ClientManager.Add client (l_clients l)) l) ;;
  WritePacket client (FConnack (Connack.mkConnackPacket zeroFramer serverKey aesIV
    (i64 (nowMs - Connect.ClientTimestamp p)) ReasonSuccess)) ;;
  TriggerEvent (EventOnline (Connect.UID p) (Connect.deviceFlag p)).

(** Whether the user belongs to this node. *)
Inductive placement := Here | Elsewhere | Nowhere.
Definition placed (who : string) : placement :=
  if IsCluster opts then
    match GetNode env who with
    | None => Nowhere
    | Some n => if n =? NodeID opts then Here else Elsewhere
    end
  else Here.

Definition handleConnect (hs : Handshake) (nowMs : Z) (id : Z)
    (p : Connect.ConnectPacket) : io (LiMao C S) unit :=
  match placed (Connect.UID p) with
  | Nowhere => conn_Close id
  | Elsewhere => attempt (writeConnack id 0 ReasonUserNotOnNode) ;; mret tt
  | Here =>
      conn_SetVersion id (Connect.Version p) ;;
      a ← authenticate p;
      match a with
      | inr code => attempt (writeConnack id 0 code) ;; mret tt
      | inl level =>
          k ← lift (handshake hs p);
          match k with
          | None => attempt (writeConnack id 0 ReasonAuthFail) ;; mret tt
          | Some keys => acceptClient nowMs id p level keys
          end
      end
  end.

Definition handleDisconnect (id : Z) : io (LiMao C S) unit :=
  c ← gets (fun l => ClientManager.Get id (l_clients l));
  match c with
  | None => mret tt
  | Some client =>
      modify (fun l => set_l_clients (ClientManager.Remove id (l_clients l)) l) ;;
      newClient ← gets (fun l => ClientManager.GetClientWith (uid client) (deviceFlag client) (l_clients l));
      match newClient with
      | None => TriggerEvent (EventOffline (uid client) (deviceFlag client))
      | Some _ => mret tt
      end
  end.

(** ** Putting a message into a channel *)
Definition deliverNodeData (deadline : Z) (d : Lim.NodeInFlightData) : io (LiMao C S) unit := fun l =>
  let q := l_nodes l in
  let h := inFlightPQ q in
  let a := fresh (dom (store h)) in
  let q1 := with_PQ (mkHeap (<[a := d]> (store h)) (pq h) (pcap h)) q in
  match NodeInFlightQueue.startDeliveryNodeData deadline (ForwardRecvPacket env d) a q1 with
  | Ret q2 => (Ret tt, set_l_nodes q2 l)
  | Err e => (Err e, set_l_nodes q1 l)
  | Panic => (Panic, set_l_nodes q1 l)
  end.

Definition forwardToNode (deadline : Z) (m : Lim.Message) (recvPacketData : list byte) (g : nodeSubscribers) :
    io (LiMao C S) unit :=
  reqNo ← GenUUID;
  no ← GenUUID;
  let req := Db.mkForwardRecvPacketReq reqNo (snd g) recvPacketData (i32 (Lim.fromDeviceFlag m)) in
  deliverNodeData deadline (Lim.mkNodeInFlightData (Db.mkNodeInFlightDataModel no (fst g) req) 0 0).

Definition handleLocal (m : Lim.Message) (subscribers : list string) : io (LiMao C S) unit :=
  handleLocalSubscribersMessage (e_pool env) m subscribers.

(** Outside a cluster the error of [handleLocalSubscribersMessage] is
    dropped. *)
Definition PutMessage (deadline : Z) (c : Channel) (m : Lim.Message) : io (LiMao C S) unit :=
  let subscribers := if bool_decide (length (Lim.Subscribers m) = 0%nat) then GetAllSubscribers c
                     else Lim.Subscribers m in
  if IsCluster opts then
    '(local, others) ← lift (calNodeSubscribers (GetNode env) (NodeID opts) subscribers);
    let recvPacketData := encodedOf (EncodePacket (FRecv (Lim.RecvPacket m)) LatestVersion) in
    for_each (forwardToNode deadline m recvPacketData) others ;;
    if bool_decide (length local = 0%nat) then mret tt else handleLocal m local
  else attempt (handleLocal m subscribers) ;; mret tt.

(** ** Sending *)
Definition getChannel (c : chan) : io (LiMao C S) (option Channel) :=
  in_channels (Channels.GetChannel opts (e_datasource env) c).

Definition allowSendOfPersonChannel (fromUID toUID : string) : io (LiMao C S) bool :=
  r ← attempt (getChannel (fromUID, ChannelTypePerson));
  match r with
  | inr _ => raise (ErrMsg "获取发送者的频道失败！")
  | inl None => mret false
  | inl (Some fromChannel) =>
      system ← gets (fun l => systemUIDs (l_channels l));
      mret (Allow system toUID fromChannel)
  end.

(** The channel to send to, or the reason why there is none. *)
Definition getSendChannel (fromUID : string) (c : chan) : io (LiMao C S) (option Channel * ReasonCode) :=
  channel ← getChannel c;
  match channel with
  | None => mret (None, ReasonError)
  | Some ch =>
      if InTestMode opts then mret (Some ch, ReasonSuccess)
      else
        system ← gets (fun l => systemUIDs (l_channels l));
        if negb (Allow system fromUID ch) then mret (None, ReasonNotAllowSend)
        else if negb (ChannelType (info ch) =? ChannelTypePerson) && negb (IsSubscriber fromUID ch)
        then mret (None, ReasonNotAllowSend)
        else mret (Some ch, ReasonSuccess)
  end.

(** The result of [handleSendPacketWithFrom], without its error. *)
Record sendResult := mkSendResult { r_id : Z; r_seq : Z; r_code : ReasonCode }.

Definition recvOf (now messageID messageSeq : Z) (fromUID : string) (p : Send.SendPacket) : Recv.RecvPacket :=
  let f := Send.framer p in
  Recv.mkRecvPacket (mkFramer 0 0 (f_NoPersist f) (f_RedDot f) (f_SyncOnce f) false) (Send.setting p) EmptyString
    messageID messageSeq (Send.ClientMsgNo p) (i32 now) fromUID (Send.ChannelID p) (Send.ChannelType p)
    (Send.Payload p).
Definition messageOf (r : Recv.RecvPacket) (fakeChannelID : string) : Db.Message :=
  Db.mkMessage (ToFixHeaderUint8 RECV (Recv.framer r)) 0 0 (Setting_ToUint8 (Recv.setting r)) (Recv.MessageID r)
    (Recv.MessageSeq r) (Recv.ClientMsgNo r) (Recv.Timestamp r) (Recv.FromUID r) EmptyString fakeChannelID
    (Recv.ChannelType r) (Recv.Payload r).

(** Messages that are kept have a number. *)
Definition persists (p : Send.SendPacket) : bool :=
  negb (f_NoPersist (Send.framer p)) && negb (f_SyncOnce (Send.framer p)).

(** Everything that happens to a message once the channel [ch] takes it; the
    errors become [ReasonError]. *)
Definition storeAndPut (now deadline messageID messageSeq : Z) (fromUID fakeChannelID : string)
    (fromDeviceFlag : DeviceFlag) (p : Send.SendPacket) (ch : Channel) : io (LiMao C S) unit :=
  let recvPacket := recvOf now messageID messageSeq fromUID p in
  let messageD := messageOf recvPacket fakeChannelID in
  (if persists p then in_store (AppendMessage messageD) else mret tt) ;;
  (if WebhookOn opts then in_store (AppendMessageOfNotifyQueue messageD) else mret tt) ;;
  PutMessage deadline ch (Lim.mkMessage recvPacket EmptyString [] fromDeviceFlag 0 0 0).

Definition fakeChannel (fromUID : string) (p : Send.SendPacket) : string :=
  if Send.ChannelType p =? ChannelTypePerson then GetFakeChannelIDWith fromUID (Send.ChannelID p)
  else Send.ChannelID p.

(** Whether the sender may send to a person: [ReasonSuccess] if so. *)
Definition personCheck (fromUID : string) (p : Send.SendPacket) : io (LiMao C S) ReasonCode :=
  if Send.ChannelType p =? ChannelTypePerson then
    r ← attempt (allowSendOfPersonChannel fromUID (Send.ChannelID p));
    match r with
    | inr _ => mret ReasonError
    | inl allow => mret (if allow : bool then ReasonSuccess else ReasonNotAllowSend)
    end
  else mret ReasonSuccess.

(** The number of a message that is kept; 0 for others. *)
Definition nextSeq (fromUID : string) (p : Send.SendPacket) : io (LiMao C S) Z :=
  if persists p then in_store (GetNextMessageSeq (fakeChannel fromUID p, Send.ChannelType p)) else mret 0.

Definition sendToChannel (now deadline messageID : Z) (fromUID : string) (fromDeviceFlag : DeviceFlag)
    (p : Send.SendPacket) (ch : Channel) : io (LiMao C S) sendResult :=
  s ← attempt (nextSeq fromUID p);
  match s with
  | inr _ => mret (mkSendResult messageID 0 ReasonError)
  | inl messageSeq =>
      r ← attempt (storeAndPut now deadline messageID messageSeq fromUID (fakeChannel fromUID p) fromDeviceFlag p ch);
      mret (mkSendResult messageID messageSeq (match r with inl _ => ReasonSuccess | inr _ => ReasonError end))
  end.

Definition handleSendPacketWithFrom (now deadline : Z) (fromUID : string) (fromDeviceFlag : DeviceFlag)
    (p : Send.SendPacket) : io (LiMao C S) sendResult :=
  if IsCluster opts && bool_decide (GetNode env fromUID = None) then mret (mkSendResult 0 0 ReasonUserNotOnNode)
  else
    code ← personCheck fromUID p;
    if negb (code =? ReasonSuccess) then mret (mkSendResult 0 0 code)
    else
      messageID ← genMessageID;
      r ← attempt (getSendChannel fromUID (fakeChannel fromUID p, Send.ChannelType p));
      match r with
      | inr _ => mret (mkSendResult messageID 0 ReasonError)
      | inl (None, _) => mret (mkSendResult messageID 0 ReasonSubscriberNotExist)
      | inl (Some ch, _) => sendToChannel now deadline messageID fromUID fromDeviceFlag p ch
      end.

Definition sendack (p : Send.SendPacket) (r : sendResult) : Frame :=
  FSendack (Sendack.mkSendackPacket zeroFramer (r_id r) (r_seq r) (Send.ClientSeq p) (Send.ClientMsgNo p) (r_code r)).

Definition handleLocalSend (now deadline : Z) (c : Client) (p : Send.SendPacket) : io (LiMao C S) unit :=
  r ← handleSendPacketWithFrom now deadline (uid c) (deviceFlag c) p;
  WritePacket c (sendack p r).

(** The packet with its payload decrypted, or the reason to refuse it. *)
Definition set_send_payload (payload : list byte) (p : Send.SendPacket) : Send.SendPacket :=
  Send.mkSendPacket (Send.framer p) (Send.setting p) (Send.MsgKey p) (Send.ClientSeq p) (Send.ClientMsgNo p)
    (Send.ChannelID p) (Send.ChannelType p) payload.
Definition openPacket (c : Client) (version : Z) (p : Send.SendPacket) : outcome (Send.SendPacket + ReasonCode) :=
  if version >? 2 then
    let key := bytes_of_string (aesKey c) in
    let iv := bytes_of_string (aesIV c) in
    match AesEncryptPkcs7Base64 (bytes_of_string (Send.SendPacket_VerityString p)) key iv with
    | Err _ => Ret (inr ReasonMsgKeyError)
    | Panic => Panic
    | Ret actMsgKey =>
        if negb (bool_decide (Send.MsgKey p = MD5 (string_of_bytes actMsgKey))) then Ret (inr ReasonMsgKeyError)
        else
          match AesDecryptPkcs7Base64 (Send.Payload p) key iv with
          | Err _ => Ret (inr ReasonPayloadDecodeError)
          | Panic => Panic
          | Ret payload => Ret (inl (set_send_payload payload p))
          end
    end
  else Ret (inl p).

(** What happens to a packet that was opened, in a cluster: the user and the
    channel may belong to other nodes. *)
Definition routeSend (now deadline messageID : Z) (c : Client) (p : Send.SendPacket) : io (LiMao C S) unit :=
  match placed (uid c) with
  | Nowhere => mret tt
  | Elsewhere => conn_Close (conn c)
  | Here =>
      if negb (IsCluster opts) then handleLocalSend now deadline c p
      else
        match GetNode env (fakeChannel (uid c) p) with
        | None => mret tt
        | Some node =>
            if node =? NodeID opts then handleLocalSend now deadline c p
            else
              let packetData := encodedOf (EncodePacket (FSend p) LatestVersion) in
              match ForwardSendPacket env packetData (uid c) (i32 (deviceFlag c)) node with
              | Ret (id, seq, code) => WritePacket c (sendack p (mkSendResult id (u32 seq) (u8 code)))
              | _ => WritePacket c (sendack p (mkSendResult messageID 0 ReasonError))
              end
        end
  end.

Definition HandleSend (now deadline : Z) (c : Client) (p : Send.SendPacket) : io (LiMao C S) unit :=
  messageID ← genMessageID;
  version ← conn_Version (conn c);
  o ← lift (openPacket c version p);
  match o with
  | inr code => WritePacket c (sendack p (mkSendResult messageID 0 code))
  | inl p' => routeSend now deadline messageID c p'
  end.

(** ** Dispatch *)

(** What [handlePacket] leaves to the goroutines of [messagePool]. *)
Inductive task := TaskConnect (p : Connect.ConnectPacket) | TaskSend (client : Client) (p : Send.SendPacket).

(** [LiMao.handlePacket]: pings and acknowledgements are handled at once; all
    but CONNECT need the client of the connection. *)
Definition handlePacket (id : Z) (packet : Frame) : io (LiMao C S) (option task) :=
  match packet with
  | FConnect p => mret (Some (TaskConnect p))
  | FPing =>
      client ← gets (fun l => ClientManager.Get id (l_clients l));
      match client with None => mret None | Some c => handlePing c ;; mret None end
  | FSend p =>
      client ← gets (fun l => ClientManager.Get id (l_clients l));
      match client with None => mret None | Some c => mret (Some (TaskSend c p)) end
  | FRecvack p =>
      client ← gets (fun l => ClientManager.Get id (l_clients l));
      match client with None => mret None | Some c => handleRecvack c p ;; mret None end
  | _ => mret None
  end.

Definition OnClose (id : Z) : io (LiMao C S) unit := handleDisconnect id.

(** ** Calls from other nodes *)
Definition OnSendPacket := handleSendPacketWithFrom.

Definition OnRecvPacket (fromDeviceFlag : DeviceFlag) (p : Recv.RecvPacket) (users : list string) :
    io (LiMao C S) unit :=
  handleLocal (Lim.mkMessage p EmptyString [] fromDeviceFlag 0 0 0) users.

Definition OnGetSubscribers (c : chan) : io (LiMao C S) (list string) :=
  ch ← getChannel c;
  match ch with
  | None => raise (ErrMsg "频道不存在！")
  | Some ch => mret (GetAllSubscribers ch)
  end.

Definition OnGetChannelMessageSeq (c : chan) : io (LiMao C S) Z := in_store (GetNextMessageSeq c).
End Handler.

(** * A server to run *)
Definition no_datasource : Datasource := mkDatasource (fun _ _ => Ret []) (Ret []).
Definition example_env : Env := mkEnv (mkOptions false 1 false "@tmp" false false false) no_datasource (fun _ => true)
  (fun n => 100 + Z.of_nat n) (fun _ => "uuid"%string) (fun _ => None) (fun _ _ _ _ => Panic) (fun _ => false).
