(* ===== verification/Sending.v ===== *)
(** Sending a message to a channel on a server that is not part of a cluster:
    what [handleSendPacketWithFrom] of internal/lim/handler.go decides and
    brings about, in terms of the storage. *)
From stdpp Require Import base list gmap strings.
From Stdlib Require Import ZArith Lia Strings.Byte.
From S2P Require Import Prelude Effects Keys Wire Frames Ids Protocol PQueue Model Queues Clients Storage Channels Conversations Encodings Aes Server Handler.

(** * Sending, on one server that keeps its own data *)
Section Sending.
Context {C S : Type} `{LRU C Db.Conversation} `{StorageLaws S} `{Crypto}.
Context (env : Env).
Implicit Type l : LiMao C S.
Let opts := e_opts env.
Hypothesis alone : IsCluster opts = false.
Hypothesis own_data : HasDatasource opts = false.

Abbreviation data l := (db (l_channels l)).
Abbreviation handle := (handleSendPacketWithFrom (C := C) (S := S) env).

Lemma in_store_spec {A} (m : io S A) l o d : m (data l) = (o, d) ->
  in_store m l = (o, set_l_channels (set_db d (l_channels l)) l).
Proof. intros E. unfold in_store, in_channels, Channels.stored, zoom. rewrite E. reflexivity. Qed.

(** Everything but the channels and the storage is as it was. *)
Definition only_channels l l' : Prop := l' = set_l_channels (l_channels l') l.

Lemma only_set st l : only_channels l (set_l_channels st l).
Proof. reflexivity. Qed.

Lemma only_refl l : only_channels l l.
Proof. by destruct l. Qed.

Lemma only_channels_trans l1 l2 l3 : only_channels l1 l2 -> only_channels l2 l3 -> only_channels l1 l3.
Proof. unfold only_channels. intros -> ->. reflexivity. Qed.

Lemma getChannel_spec c l : coherent opts (l_channels l) -> chan_ok c ->
  HasSuffix (fst c) (TmpChannelSuffix opts) = false ->
  exists o l', getChannel env c l = (Ret o, l') /\ only_channels l l' /\ data l' = data l /\
    systemUIDs (l_channels l') = systemUIDs (l_channels l) /\ coherent opts (l_channels l') /\
    match o with
    | Some ch => coherent_channel opts (data l) c ch
    | None => info_at (data l) c = None /\ CreateIfChannelNotExist opts = false /\ snd c <> ChannelTypePerson
    end.
Proof.
  intros Hco Hc Ht. destruct (GetChannel_coherent opts (e_datasource env) own_data c (l_channels l) Hco Hc Ht)
    as (o & st & E & Hd & Hs & Hco' & Ho).
  exists o, (set_l_channels st l). split; [unfold getChannel, in_channels, zoom; fold opts; by rewrite E|].
  split; [apply only_set|]. auto.
Qed.

(** Why a message is refused, in terms of the storage and the system
    accounts; [ReasonSuccess] when it is not. *)
Definition verdict (sys : gset string) (d : S) (fromUID : string) (p : Send.SendPacket) : ReasonCode :=
  let person := Send.ChannelType p =? ChannelTypePerson in
  let c := (fakeChannel fromUID p, Send.ChannelType p) in
  if person && negb (allowed sys d (fromUID, ChannelTypePerson) (Send.ChannelID p)) then ReasonNotAllowSend
  else if person then ReasonSuccess
  else if bool_decide (info_at d c = None) && negb (CreateIfChannelNotExist opts) then ReasonSubscriberNotExist
  else if InTestMode opts then ReasonSuccess
  else if negb (allowed sys d c fromUID) || negb (is_member d c fromUID) then ReasonSubscriberNotExist
  else ReasonSuccess.

(** The names a packet uses are not those of temporary channels. *)
Definition plain (fromUID : string) (p : Send.SendPacket) : Prop :=
  chan_ok (fakeChannel fromUID p, Send.ChannelType p) /\
  HasSuffix fromUID (TmpChannelSuffix opts) = false /\
  HasSuffix (fakeChannel fromUID p) (TmpChannelSuffix opts) = false.

Lemma allowSendOfPersonChannel_spec fromUID toUID l : coherent opts (l_channels l) ->
  HasSuffix fromUID (TmpChannelSuffix opts) = false ->
  exists l', allowSendOfPersonChannel env fromUID toUID l =
      (Ret (allowed (systemUIDs (l_channels l)) (data l) (fromUID, ChannelTypePerson) toUID), l') /\
    only_channels l l' /\ data l' = data l /\ systemUIDs (l_channels l') = systemUIDs (l_channels l) /\
    coherent opts (l_channels l').
Proof.
  intros Hco Hf. destruct (getChannel_spec (fromUID, ChannelTypePerson) l Hco) as (o & l1 & E & Ho & Hd & Hs & Hco1 & Hch);
    [done|done|]. destruct o as [ch|]; [|destruct Hch as (_ & _ & Hne); by destruct (Hne eq_refl)].
  exists l1. split; [|done]. unfold allowSendOfPersonChannel. io_step (attempt_Ret _ _ _ _ E).
  unfold mbind, io_bind, gets, mret, io_ret. by rewrite Hs, (Allow_coherent opts _ _ _ _ _ Hch).
Qed.

(** A state of the server that differs from [l] in what it has cached. *)
Record same_data l l' : Prop := {
  sd_only : only_channels l l';
  sd_data : data l' = data l;
  sd_system : systemUIDs (l_channels l') = systemUIDs (l_channels l);
  sd_coherent : coherent opts (l_channels l')
}.

Lemma personCheck_spec fromUID p l : coherent opts (l_channels l) -> plain fromUID p ->
  exists l', personCheck env fromUID p l =
      (Ret (if (Send.ChannelType p =? ChannelTypePerson) &&
              negb (allowed (systemUIDs (l_channels l)) (data l) (fromUID, ChannelTypePerson) (Send.ChannelID p))
            then ReasonNotAllowSend else ReasonSuccess), l') /\ same_data l l'.
Proof.
  intros Hco (_ & Hf & _). unfold personCheck. destruct (Send.ChannelType p =? ChannelTypePerson); cbn [andb].
  - destruct (allowSendOfPersonChannel_spec fromUID (Send.ChannelID p) l Hco Hf) as (l1 & E & Ho & Hd & Hs & Hco1).
    exists l1. split; [|by split]. io_step (attempt_Ret _ _ _ _ E). by destruct (allowed _ _ _ _).
  - exists l. split; [reflexivity|]. split; auto using only_refl.
Qed.

(** The channel to send to, and the reason when there is none. *)
Lemma getSendChannel_spec fromUID p l (c := (fakeChannel fromUID p, Send.ChannelType p)) :
  coherent opts (l_channels l) -> plain fromUID p ->
  (if Send.ChannelType p =? ChannelTypePerson
   then allowed (systemUIDs (l_channels l)) (data l) (fromUID, ChannelTypePerson) (Send.ChannelID p) = true else True) ->
  exists o l', getSendChannel env fromUID c l = (Ret o, l') /\ same_data l l' /\
    match fst o with
    | Some ch => coherent_channel opts (data l) c ch /\ verdict (systemUIDs (l_channels l)) (data l) fromUID p = ReasonSuccess
    | None => verdict (systemUIDs (l_channels l)) (data l) fromUID p = ReasonSubscriberNotExist
    end.
Proof.
  intros Hco (Hc & _ & Hf) Hp. destruct (getChannel_spec c l Hco Hc Hf) as (o & l1 & E & Ho & Hd & Hs & Hco1 & Hch).
  assert (same_data l l1) as Hsd by (by split). unfold getSendChannel, verdict. fold c.
  destruct o as [ch|].
  - destruct (Z.eqb_spec (Send.ChannelType p) ChannelTypePerson) as [Et|Et].
    + rewrite Hp. cbn [andb negb]. exists (Some ch, ReasonSuccess), l1. split; [|done]. io_step E. fold opts.
      destruct (InTestMode opts); [reflexivity|]. unfold mbind, io_bind, gets. rewrite Hs, (Allow_coherent opts _ _ _ _ _ Hch).
      rewrite allowed_pair; [|done|unfold c, fakeChannel; cbn; rewrite (proj2 (Z.eqb_eq _ _)) by done; apply fake_is_fake].
      cbn [negb]. pose proof (f_equal snd (co_id _ _ _ _ Hch)) as Ety. cbn in Ety. rewrite Ety, Et. reflexivity.
    + assert (bool_decide (info_at (data l) c = None) && negb (CreateIfChannelNotExist opts) = false) as ->.
      { destruct (co_exists _ _ _ _ Hch) as [?|[Hi|Hcr]]; [done|by rewrite bool_decide_false|].
        by rewrite Hcr, andb_false_r. }
      assert (verdict_rest : getSendChannel env fromUID c l = (Ret (
          if InTestMode opts then (Some ch, ReasonSuccess)
          else if negb (allowed (systemUIDs (l_channels l)) (data l) c fromUID) || negb (is_member (data l) c fromUID)
          then (None, ReasonNotAllowSend) else (Some ch, ReasonSuccess)), l1)).
      { unfold getSendChannel. io_step E. fold opts. destruct (InTestMode opts); [reflexivity|].
        unfold mbind, io_bind, gets. rewrite Hs, (Allow_coherent opts _ _ _ _ _ Hch).
        destruct (allowed _ _ c fromUID); [|reflexivity]. cbn [negb orb].
        pose proof (f_equal snd (co_id _ _ _ _ Hch)) as Ety. cbn in Ety. rewrite Ety, (proj2 (Z.eqb_neq _ _)) by done.
        rewrite (IsSubscriber_coherent opts _ _ _ _ Hch) by done. by destruct (is_member _ c fromUID). }
      unfold getSendChannel in verdict_rest. rewrite verdict_rest. cbn [andb].
      eexists _, l1. split; [reflexivity|]. split; [done|]. destruct (InTestMode opts); [done|].
      by destruct (_ || _).
  - destruct Hch as (Hi & Hcr & Hne). exists (None, ReasonError), l1. split; [by io_step E|]. split; [done|].
    cbn [fst]. cbn [c snd] in Hne. rewrite (proj2 (Z.eqb_neq _ _)) by done. cbn [andb].
    by rewrite Hi, Hcr.
Qed.

(** ** Storing and handing over *)

(** A storage that says the same of every channel. *)
Definition quiet (d d' : S) : Prop := forall c, (forall k, lists d' k c = lists d k c) /\ info_at d' c = info_at d c /\
  log d' c = log d c /\ lastSeq d' c = lastSeq d c.

Lemma quiet_refl d : quiet d d.
Proof. done. Qed.

Lemma quiet_trans d1 d2 d3 : quiet d1 d2 -> quiet d2 d3 -> quiet d1 d3.
Proof.
  intros H12 H23 c. destruct (H12 c) as (A1 & A2 & A3 & A4), (H23 c) as (B1 & B2 & B3 & B4).
  split; [intros k; by rewrite B1|]. by rewrite B2, B3, B4.
Qed.

(** The user queues change nothing a channel can see. *)
Lemma userQueue_spec m subs seqs l :
  exists seqs' d', storeMessageToUserQueueIfNeed_loop m subs seqs l =
      (Ret seqs', set_l_channels (set_db d' (l_channels l)) l) /\ quiet (data l) d'.
Proof.
  revert seqs l. induction subs as [|u subs IH]; intros seqs l.
  - exists seqs, (data l). split; [destruct l as [[] ? ? ? ? ? ? ? ? ?]; reflexivity|apply quiet_refl].
  - cbn [storeMessageToUserQueueIfNeed_loop]. destruct (to_user_queue m); [|apply IH].
    destruct (GetUserNextMessageSeq_law u (data l)) as (n & d1 & E1 & Q1).
    io_step (in_store_spec _ l _ _ E1). set (l1 := set_l_channels _ l).
    destruct (AppendMessageOfUser_law (queuedMessage m u n) (data l1)) as (d2 & E2 & Q2).
    io_step (in_store_spec _ l1 _ _ E2).
    destruct (IH (<[u := n]> seqs) (set_l_channels (set_db d2 (l_channels l1)) l1)) as (seqs' & d3 & E3 & Q3).
    exists seqs', d3. split; [rewrite E3; reflexivity|].
    eapply quiet_trans; [exact Q1|]. eapply quiet_trans; [exact Q2|exact Q3].
Qed.

(** Whether a message goes into its readers' recent conversations. *)
Definition counted_in_conversations (m : Lim.Message) (subs : list string) : bool :=
  let f := Recv.framer (Lim.RecvPacket m) in
  negb (bool_decide (length subs = 0%nat)) && negb (f_SyncOnce f || f_NoPersist f).

(** The server after the message [m] was handed over for [subs]. *)
Record handed_over (m : Lim.Message) (subs : list string) l l' : Prop := {
  ho_quiet : quiet (data l) (data l');
  ho_channels : l_channels l' = set_db (data l') (l_channels l);
  ho_conversations : queue (l_conversations l') =
    queue (l_conversations l) ++ (if counted_in_conversations m subs then [(m, subs)] else []);
  ho_deliveries : exists seqs, l_deliveries l' =
    l_deliveries l ++ (if e_pool env (l_deliveries l) then [mkDelivery m seqs subs] else []);
  ho_clients : l_clients l' = l_clients l;
  ho_conns : l_conns l' = l_conns l;
  ho_retry : l_retry l' = l_retry l
}.

Lemma handleLocal_spec m subs l : exists l', handleLocal env m subs l = (Ret tt, l') /\ handed_over m subs l l'.
Proof.
  destruct (userQueue_spec m subs ∅ l) as (seqs & d & E & Q).
  unfold handleLocal, handleLocalSubscribersMessage, storeMessageToUserQueueIfNeed. io_step E.
  set (l1 := set_l_channels _ l).
  assert (exists c2, pushMessage m subs l1 = (Ret tt, set_l_conversations c2 l1) /\ queue c2 =
    queue (l_conversations l) ++ (if counted_in_conversations m subs then [(m, subs)] else [])) as (c2 & E2 & Hq).
  { unfold pushMessage, PushMessage, counted_in_conversations, zoom.
    destruct (bool_decide (length subs = 0%nat)); cbn [negb andb];
      [|destruct (_ || _); cbn [negb]]; eexists; (split; [reflexivity|]); rewrite ?app_nil_r; reflexivity. }
  io_step E2. unfold startDeliveryMsg, modify. eexists. split; [reflexivity|].
  change (l_deliveries (set_l_conversations c2 l1)) with (l_deliveries l).
  destruct (e_pool env (l_deliveries l)) eqn:Ep; (split; [exact Q|reflexivity|exact Hq|exists seqs|reflexivity..]);
    rewrite Ep; [reflexivity|by rewrite app_nil_r].
Qed.

(** Those named by the message, or the members of the channel. *)
Definition receivers (ch : Channel) (m : Lim.Message) : list string :=
  if bool_decide (length (Lim.Subscribers m) = 0%nat) then GetAllSubscribers ch else Lim.Subscribers m.

Lemma PutMessage_hands_over deadline ch m l :
  exists l', PutMessage env deadline ch m l = (Ret tt, l') /\ handed_over m (receivers ch m) l l'.
Proof.
  unfold PutMessage. fold opts. rewrite alone.
  destruct (handleLocal_spec m (receivers ch m) l) as (l' & E & Hh).
  exists l'. split; [|done]. io_step (attempt_Ret _ _ _ _ E). reflexivity.
Qed.

Lemma PutMessage_spec deadline ch m l : Lim.Subscribers m = [] ->
  exists l', PutMessage env deadline ch m l = (Ret tt, l') /\ handed_over m (GetAllSubscribers ch) l l'.
Proof.
  intros Hs. destruct (PutMessage_hands_over deadline ch m l) as (l' & E & Hh). exists l'. split; [done|].
  revert Hh. unfold receivers. by rewrite Hs.
Qed.

(** The numbers of the messages kept of a channel do not exceed the last one
    given out, which is not the last there is. *)
Record numbered (d : S) (c : chan) : Prop := {
  nb_range : 0 <= lastSeq d c < 2 ^ 32 - 1;
  nb_le : Forall (fun x => Db.MessageSeq x <= lastSeq d c) (log d c)
}.

Lemma in_store_quiet {A} (m : io S A) l o d : m (data l) = (o, d) -> quiet (data l) d ->
  exists l', in_store m l = (o, l') /\ quiet (data l) (data l') /\ l_channels l' = set_db (data l') (l_channels l) /\
    l_conversations l' = l_conversations l /\ l_deliveries l' = l_deliveries l /\ l_clients l' = l_clients l /\
    l_conns l' = l_conns l /\ l_retry l' = l_retry l.
Proof. intros E Q. eexists. split; [apply in_store_spec, E|]. done. Qed.

(** A step that touches the storage alone, and nothing of it that a channel
    can see. *)
Record unseen l l' : Prop := {
  un_quiet : quiet (data l) (data l');
  un_channels : l_channels l' = set_db (data l') (l_channels l);
  un_conversations : l_conversations l' = l_conversations l;
  un_deliveries : l_deliveries l' = l_deliveries l
}.

Lemma unseen_refl l : unseen l l.
Proof. split; [apply quiet_refl|by destruct l as [[] ? ? ? ? ? ? ? ? ?]|done..]. Qed.

(** Notifying the application, when it wants to be. *)
Lemma notify_spec m l : exists l', (if WebhookOn opts then in_store (AppendMessageOfNotifyQueue m) else mret tt) l = (Ret tt, l') /\
  unseen l l'.
Proof.
  destruct (WebhookOn opts); [|exists l; split; [reflexivity|apply unseen_refl]].
  destruct (AppendMessageOfNotifyQueue_law m (data l)) as (d & E & Q).
  destruct (in_store_quiet _ l _ _ E Q) as (l' & E' & ? & ? & ? & ? & _). exists l'. by split.
Qed.

Definition messageFrom (now messageID messageSeq : Z) (fromUID : string) (flag : DeviceFlag) (p : Send.SendPacket) :
    Lim.Message := Lim.mkMessage (recvOf now messageID messageSeq fromUID p) EmptyString [] flag 0 0 0.

(** The server after a message was kept, or not, for the channel [c]. *)
Record kept_for (c : chan) (kept : option Db.Message) l l' : Prop := {
  kf_log c' : log (data l') c' = if decide (c' = c) then log (data l) c' ++ option_list kept else log (data l) c';
  kf_same c' : (forall k, lists (data l') k c' = lists (data l) k c') /\ info_at (data l') c' = info_at (data l) c' /\
    lastSeq (data l') c' = lastSeq (data l) c';
  kf_channels : l_channels l' = set_db (data l') (l_channels l);
  kf_conversations : l_conversations l' = l_conversations l;
  kf_deliveries : l_deliveries l' = l_deliveries l
}.

Lemma keep_spec (keep : bool) md l (c := (Db.ChannelID md, Db.ChannelType md)) :
  (keep = true -> Forall (fun x => Db.MessageSeq x < Db.MessageSeq md) (log (data l) c)) ->
  exists l', (if keep then in_store (AppendMessage md) else mret tt) l = (Ret tt, l') /\
    kept_for c (if keep then Some md else None) l l'.
Proof.
  intros Hseq. destruct keep.
  - destruct (AppendMessage_law md (data l) (Hseq eq_refl)) as (d & E & Hl & Q).
    eexists. split; [apply in_store_spec, E|]. by split.
  - exists l. split; [reflexivity|]. split; [intros c'; cbn; by rewrite app_nil_r; destruct (decide _)|done| |done..].
    by destruct l as [[] ? ? ? ? ? ? ? ? ?].
Qed.

(** What the server keeps of a message that its channel [c] takes. *)
Record taken_in (c : chan) (m : Lim.Message) (kept : option Db.Message) (subs : list string) l l' : Prop := {
  ti_log c' : log (data l') c' = if decide (c' = c) then log (data l) c' ++ option_list kept else log (data l) c';
  ti_same c' : (forall k, lists (data l') k c' = lists (data l) k c') /\ info_at (data l') c' = info_at (data l) c' /\
    lastSeq (data l') c' = lastSeq (data l) c';
  ti_channels : l_channels l' = set_db (data l') (l_channels l);
  ti_conversations : queue (l_conversations l') =
    queue (l_conversations l) ++ (if counted_in_conversations m subs then [(m, subs)] else []);
  ti_deliveries : exists seqs, l_deliveries l' =
    l_deliveries l ++ (if e_pool env (l_deliveries l) then [mkDelivery m seqs subs] else [])
}.

(** Keeping, notifying, handing over. *)
Lemma taken_in_steps c m kept subs l l1 l2 l3 : kept_for c kept l l1 -> unseen l1 l2 -> handed_over m subs l2 l3 ->
  taken_in c m kept subs l l3.
Proof.
  intros [L1 Q1 C1 V1 D1] [Q2 C2 V2 D2] [Q3 C3 V3 (seqs & D3) _ _ _]. split.
  - intros c'. destruct (Q3 c') as (_ & _ & G3 & _), (Q2 c') as (_ & _ & G2 & _). rewrite G3, G2. apply L1.
  - intros c'. destruct (Q3 c') as (A3 & B3 & _ & N3), (Q2 c') as (A2 & B2 & _ & N2), (Q1 c') as (A1 & B1 & N1).
    split; [intros k; by rewrite A3, A2|]. split; congruence.
  - rewrite C3, C2, C1. reflexivity.
  - by rewrite V3, V2, V1.
  - exists seqs. by rewrite D3, D2, D1.
Qed.

Lemma storeAndPut_spec now deadline id seq fromUID flag p ch l (c := (fakeChannel fromUID p, Send.ChannelType p))
    (m := messageFrom now id seq fromUID flag p) (md := messageOf (Lim.RecvPacket m) (fst c)) :
  (persists p = true -> Forall (fun x => Db.MessageSeq x < seq) (log (data l) c)) ->
  exists l', storeAndPut env now deadline id seq fromUID (fst c) flag p ch l = (Ret tt, l') /\
    taken_in c m (if persists p then Some md else None) (GetAllSubscribers ch) l l'.
Proof.
  intros Hseq. unfold storeAndPut. fold opts.
  destruct (keep_spec (persists p) md l Hseq) as (l1 & E1 & K1). io_step E1.
  destruct (notify_spec md l1) as (l2 & E2 & U2). io_step E2.
  destruct (PutMessage_spec deadline ch m l2 eq_refl) as (l3 & E3 & H3).
  exists l3. split; [exact E3|]. by eapply taken_in_steps.
Qed.
(** The cached channels stay coherent when the storage changes in other
    respects than lists and information. *)
Lemma coherent_data d st : coherent opts st ->
  (forall c, (forall k, lists d k c = lists (db st) k c) /\ info_at d c = info_at (db st) c) ->
  coherent opts (set_db d st).
Proof.
  intros Hco Hd c ch Hc Hl. destruct (Hco c ch Hc Hl) as [Hm Hi Hp He]. destruct (Hd c) as [Hk Hx]. cbn [set_db db].
  split; rewrite ?Hx; auto. intros k. rewrite Hm. unfold due_members, list_set. by rewrite Hk.
Qed.

(** The server after the next number of [c] was taken, if [b]. *)
Record number_taken (b : bool) (c : chan) l l' : Prop := {
  nt_same c' : log (data l') c' = log (data l) c' /\ (forall k, lists (data l') k c' = lists (data l) k c') /\
    info_at (data l') c' = info_at (data l) c';
  nt_seq : lastSeq (data l') c = (if b then lastSeq (data l) c + 1 else lastSeq (data l) c);
  nt_only : l' = set_l_channels (set_db (data l') (l_channels l)) l
}.

Lemma take_number_spec (b : bool) c l : numbered (data l) c ->
  exists l', (if b then in_store (GetNextMessageSeq c) else mret 0) l =
      (Ret (if b then lastSeq (data l) c + 1 else 0), l') /\ number_taken b c l l'.
Proof.
  intros [Hr _]. destruct b.
  - destruct (GetNextMessageSeq_law c (data l)) as (d & E & Hs & Q).
    rewrite wrapU_id in E, Hs by (unfold inU; lia). eexists. split; [apply in_store_spec, E|]. split; [|..|done].
    + intros c'. by destruct (Q c') as (? & ? & ?).
    + change (lastSeq d c = lastSeq (data l) c + 1). rewrite Hs. by rewrite decide_True by done.
  - exists l. split; [reflexivity|]. split; [done|done|]. by destruct l as [[] ? ? ? ? ? ? ? ? ?].
Qed.

(** The two together. *)
Record taken (b : bool) (c : chan) (m : Lim.Message) (md : Db.Message) (subs : list string) l l' : Prop := {
  tk_log c' : log (data l') c' = if decide (c' = c) then log (data l) c' ++ (if b then [md] else []) else log (data l) c';
  tk_seq : lastSeq (data l') c = (if b then lastSeq (data l) c + 1 else lastSeq (data l) c);
  tk_coherent : coherent opts (l_channels l');
  tk_conversations : queue (l_conversations l') =
    queue (l_conversations l) ++ (if counted_in_conversations m subs then [(m, subs)] else []);
  tk_deliveries : exists seqs, l_deliveries l' =
    l_deliveries l ++ (if e_pool env (l_deliveries l) then [mkDelivery m seqs subs] else [])
}.

Lemma taken_steps b c m md subs l l1 l2 : coherent opts (l_channels l) -> number_taken b c l l1 ->
  taken_in c m (if b then Some md else None) subs l1 l2 -> taken b c m md subs l l2.
Proof.
  intros Hco [Q1 N1 Hl1] [L2 Q2 C2 V2 (seqs & D2)]. split.
  - intros c'. rewrite L2. destruct (Q1 c') as (-> & _ & _). by destruct b.
  - destruct (Q2 c) as (_ & _ & ->). exact N1.
  - rewrite C2, Hl1. cbn [set_l_channels l_channels]. change (set_db ?x (set_db ?y ?z)) with (set_db x z).
    apply coherent_data; [done|]. intros c'. destruct (Q2 c') as (A & B & _), (Q1 c') as (_ & A1 & B1).
    split; [intros k; by rewrite A, A1|]. by rewrite B, B1.
  - rewrite V2, Hl1. reflexivity.
  - exists seqs. rewrite D2, Hl1. reflexivity.
Qed.

(** The number just taken is above those of the messages kept. *)
Lemma number_above b c l l1 n : numbered (data l) c -> number_taken b c l l1 -> lastSeq (data l) c < n ->
  Forall (fun x => Db.MessageSeq x < n) (log (data l1) c).
Proof.
  intros [_ Hle] Hnt Hn. destruct (nt_same _ _ _ _ Hnt c) as (-> & _ & _). eapply Forall_impl; [exact Hle|]. cbn. lia.
Qed.

Lemma sendToChannel_spec now deadline id fromUID flag p ch l (c := (fakeChannel fromUID p, Send.ChannelType p))
    (seq := if persists p then lastSeq (data l) c + 1 else 0)
    (m := messageFrom now id seq fromUID flag p) (md := messageOf (Lim.RecvPacket m) (fst c)) :
  numbered (data l) c -> coherent opts (l_channels l) ->
  exists l', sendToChannel env now deadline id fromUID flag p ch l = (Ret (mkSendResult id seq ReasonSuccess), l') /\
    taken (persists p) c m md (GetAllSubscribers ch) l l'.
Proof.
  intros Hn Hco. destruct (take_number_spec (persists p) c l Hn) as (l1 & E1 & N1). fold seq in E1.
  unfold sendToChannel, nextSeq. fold c. io_step (attempt_Ret _ _ _ _ E1).
  destruct (storeAndPut_spec now deadline id seq fromUID flag p ch l1) as (l2 & E2 & T2).
  { intros Hp. apply (number_above _ _ _ _ _ Hn N1). unfold seq. rewrite Hp. lia. }
  io_step (attempt_Ret _ _ _ _ E2). exists l2. split; [reflexivity|]. by eapply taken_steps.
Qed.

(** What accepting the message of a packet, under the id [id], makes of the
    server. *)
Record accepted (now id : Z) (fromUID : string) (flag : DeviceFlag) (p : Send.SendPacket) (r : sendResult) l l' : Prop := {
  ac_result : r = mkSendResult id (if persists p then lastSeq (data l) (fakeChannel fromUID p, Send.ChannelType p) + 1 else 0)
                    ReasonSuccess;
  ac_log c' : log (data l') c' =
    if decide (c' = (fakeChannel fromUID p, Send.ChannelType p))
    then log (data l) c' ++ (if persists p
      then [messageOf (recvOf now id (r_seq r) fromUID p) (fakeChannel fromUID p)] else [])
    else log (data l) c';
  ac_seq : lastSeq (data l') (fakeChannel fromUID p, Send.ChannelType p) =
    if persists p then lastSeq (data l) (fakeChannel fromUID p, Send.ChannelType p) + 1
    else lastSeq (data l) (fakeChannel fromUID p, Send.ChannelType p);
  ac_handed : exists subs seqs,
    list_to_set subs = due_members (data l) (fakeChannel fromUID p, Send.ChannelType p) Subscribers /\ NoDup subs /\
    let m := messageFrom now id (r_seq r) fromUID flag p in
    queue (l_conversations l') = queue (l_conversations l) ++ (if counted_in_conversations m subs then [(m, subs)] else []) /\
    l_deliveries l' = l_deliveries l ++ (if e_pool env (l_deliveries l) then [mkDelivery m seqs subs] else [])
}.

(** What refusing it leaves. *)
Record refused (r : sendResult) l l' : Prop := {
  re_seq : r_seq r = 0;
  re_data : data l' = data l;
  re_conversations : l_conversations l' = l_conversations l;
  re_deliveries : l_deliveries l' = l_deliveries l;
  re_conns : l_conns l' = l_conns l
}.

(** The server differs from [l] in its caches, and in how many ids were
    generated. *)
Record prepared l l' : Prop := {
  pr_data : data l' = data l;
  pr_system : systemUIDs (l_channels l') = systemUIDs (l_channels l);
  pr_coherent : coherent opts (l_channels l');
  pr_conversations : l_conversations l' = l_conversations l;
  pr_deliveries : l_deliveries l' = l_deliveries l;
  pr_conns : l_conns l' = l_conns l
}.

Lemma same_prepared l l' n : same_data l l' -> prepared l (set_l_ids n l') /\ prepared l l'.
Proof. intros [Ho Hd Hs Hc]. split; (split; [done..| | |]); by rewrite Ho. Qed.

Lemma prepared_trans l1 l2 l3 : prepared l1 l2 -> prepared l2 l3 -> prepared l1 l3.
Proof. intros [A1 A2 A3 A4 A5 A6] [B1 B2 B3 B4 B5 B6]. split; [..|exact B3| | |]; congruence. Qed.

Lemma prepared_refused r l l' : prepared l l' -> r_seq r = 0 -> refused r l l'.
Proof. intros [] Hr. by split. Qed.

Lemma sendToChannel_accepted now deadline id fromUID flag p ch l0 l (c := (fakeChannel fromUID p, Send.ChannelType p)) :
  prepared l0 l -> numbered (data l0) c -> coherent_channel opts (data l0) c ch ->
  exists r l', sendToChannel env now deadline id fromUID flag p ch l = (Ret r, l') /\ r_code r = ReasonSuccess /\
    coherent opts (l_channels l') /\ accepted now id fromUID flag p r l0 l'.
Proof.
  intros [Hd Hs Hco Hv Hdl _] Hn Hch. rewrite <- Hd in Hn.
  destruct (sendToChannel_spec now deadline id fromUID flag p ch l Hn Hco) as (l' & E & [L N Hco' V (seqs & D)]).
  fold c in E, L, N, V, D. rewrite Hd in E, L, N, V, D. rewrite Hv in V. rewrite Hdl in D.
  eexists _, l'. split; [exact E|]. split; [done|]. split; [done|]. split; [reflexivity|exact L|exact N|].
  exists (GetAllSubscribers ch), seqs. split; [|split; [exact (NoDup_elements (subscriberMap ch))|split; [exact V|exact D]]].
  unfold GetAllSubscribers, subscriberMap. rewrite <- (co_members _ _ _ _ Hch). apply (list_to_set_elements_L (members ch Subscribers)).
Qed.

(** The rest of [handleSendPacketWithFrom], for a sender who may send to the
    person, if the message is for one. *)
Lemma toChannel_decides now deadline id fromUID flag p l0 l (c := (fakeChannel fromUID p, Send.ChannelType p))
    (code := verdict (systemUIDs (l_channels l0)) (data l0) fromUID p) :
  prepared l0 l -> plain fromUID p -> numbered (data l0) c ->
  (if Send.ChannelType p =? ChannelTypePerson
   then allowed (systemUIDs (l_channels l0)) (data l0) (fromUID, ChannelTypePerson) (Send.ChannelID p) = true else True) ->
  exists r l', (r ← attempt (getSendChannel env fromUID c);
      match r with
      | inr _ => mret (mkSendResult id 0 ReasonError)
      | inl (None, _) => mret (mkSendResult id 0 ReasonSubscriberNotExist)
      | inl (Some ch, _) => sendToChannel env now deadline id fromUID flag p ch
      end) l = (Ret r, l') /\ r_code r = code /\ coherent opts (l_channels l') /\
    if code =? ReasonSuccess then accepted now id fromUID flag p r l0 l' else refused r l0 l'.
Proof.
  intros Hpr Hp Hn Ha. pose proof Hpr as [Hd Hs Hco _ _ _].
  destruct (getSendChannel_spec fromUID p l Hco Hp) as (o & l1 & E & S1 & Ho); [by rewrite Hs, Hd|].
  fold c in E. io_step (attempt_Ret _ _ _ _ E). rewrite Hs, Hd in Ho. fold code in Ho.
  assert (prepared l0 l1) as P1 by (eapply prepared_trans; [exact Hpr|apply (same_prepared _ _ 0 S1)]).
  destruct o as [[ch|] ?]; cbn [fst] in Ho.
  - destruct Ho as [Hch ->]. fold c in Hch. apply (sendToChannel_accepted _ _ _ _ _ _ _ _ _ P1 Hn Hch).
  - rewrite Ho. eexists _, l1. split; [reflexivity|]. split; [done|]. split; [apply P1|]. by apply prepared_refused.
Qed.
End Sending.


(** * Witnesses *)
#[local] Existing Instance toyCrypto.

(** A group of three whose list of the denied names mallory. *)
Definition group_store : Memory.store :=
  snd ((AddOrUpdateChannel (mkChannelInfo "g" ChannelTypeGroup false EmptyString) ;;
        AddList Subscribers ("g"%string, ChannelTypeGroup) ["alice"; "bob"; "mallory"] ;;
        AddList Denylist ("g"%string, ChannelTypeGroup) ["mallory"]) Memory.empty_store).
Definition group_server : LiMao (listCache Db.Conversation) Memory.store :=
  set_l_channels (mkState ∅ ∅ ∅ ∅ false group_store) example_server.
Definition example_send (c : chan) : Send.SendPacket :=
  Send.mkSendPacket zeroFramer (mkSetting false) EmptyString 7 "no-1" (fst c) (snd c) [Byte.x68; Byte.x69].
Lemma empty_coherent opts (d : Memory.store) : coherent opts (mkState ∅ ∅ ∅ ∅ false d).
Proof. intros c ch _. unfold cached. cbn [personChannelMap channelMap]. rewrite !lookup_empty. by destruct (_ =? _). Qed.


(** ** The lists of a person *)

(** Bob denies mallory: his own channel's list names her. *)
Definition person_store : Memory.store :=
  snd (AddList Denylist ("bob"%string, ChannelTypePerson) ["mallory"] Memory.empty_store).
Definition person_server : LiMao (listCache Db.Conversation) Memory.store :=
  set_l_channels (mkState ∅ ∅ ∅ ∅ false person_store) example_server.
Definition send_person (fromUID toUID : string) : outcome sendResult * LiMao (listCache Db.Conversation) Memory.store :=
  handleSendPacketWithFrom example_env 10 20 fromUID APP (example_send (toUID, ChannelTypePerson)) person_server.

(** The lists of the receiver of a personal message are not looked at, but
    those of the sender: mallory, whom bob's list denies, is told that her
    message to bob was taken, it is kept and handed over for bob; bob is
    refused when he writes to mallory. *)
Theorem receivers_denylist_ignored :
  fst (send_person "mallory" "bob") = Ret (mkSendResult 100 1 ReasonSuccess) /\
  (d_subscribers <$> l_deliveries (snd (send_person "mallory" "bob"))) = [["mallory"; "bob"]] /\
  fst (send_person "bob" "mallory") = Ret (mkSendResult 0 0 ReasonNotAllowSend) /\
  l_deliveries (snd (send_person "bob" "mallory")) = [].
Proof. vm_compute. repeat split. Qed.
