(* ===== verification/ImClient.v ===== *)
(** The client of the repository (pkg/client/client.go): connecting, sending
    sealed messages, and what it does with the packets of the server. *)
From stdpp Require Import base list gmap strings.
From Stdlib Require Import ZArith Lia Strings.Byte.
From S2P Require Import Prelude Effects Keys Wire Frames Ids Protocol PQueue Model Queues Clients Storage Channels Conversations Encodings Aes Server Handler.

(** [bufio.Writer] over the connection: what was passed on to the connection,
    and what waits in the buffer. *)
Record Writer := mkWriter { passed : list byte; buffered : list byte }.
Definition bufferSize : Z := 4096.
Definition Flush_writer (w : Writer) : Writer := mkWriter (passed w ++ buffered w) [].
Definition available (w : Writer) : Z := bufferSize - zlen (buffered w).

(** What does not fit fills the buffer, which is passed on, and a rest that
    fills a buffer again goes to the connection as it is. *)
Definition Write_writer (p : list byte) (w : Writer) : Writer :=
  if zlen p <=? available w then mkWriter (passed w) (buffered w ++ p)
  else if bool_decide (buffered w = []) then mkWriter (passed w ++ p) []
  else
    let n := Z.to_nat (available w) in
    let w1 := mkWriter (passed w ++ buffered w ++ take n p) [] in
    if zlen (drop n p) <=? bufferSize then mkWriter (passed w1) (drop n p)
    else mkWriter (passed w1 ++ drop n p) [].

(** [Options]. *)
Record ClientOptions := mkClientOptions { ProtoVersion : Z; UID : string; Token : string }.
Definition NewOptions : ClientOptions := mkClientOptions LatestVersion EmptyString EmptyString.

(** [SendOptions] and what it starts from. *)
Record SendOptions := mkSendOptions { NoPersist : bool; SyncOnce : bool; Flush : bool; RedDot : bool }.
Definition NewSendOptions : SendOptions := mkSendOptions false false true true.

(** [Client]. [waiting] are the ids registered with [wait] (pkg/wait/wait.go)
    and [answers] what their channels were given; [handed] is what [onRecv]
    was called with, [acked] what [onSendack] was. *)
Record IMClient := mkIMClient {
  c_opts : ClientOptions;
  sending : list Send.SendPacket;
  connected : bool;
  retryPingCount : Z;
  clientIDGen : Z;
  sendTotalMsgBytes : Z;
  recvMsgCount : Z;
  sendFailMsgCount : Z;
  clientPrivKey : list byte;
  c_aesKey : string;
  salt : string;
  waiting : gset Z;
  answers : list (Z * Sendack.SendackPacket);
  handed : list Recv.RecvPacket;
  acked : list Sendack.SendackPacket;
  rw : Writer
}.

Definition New (opts : ClientOptions) : IMClient :=
  mkIMClient opts [] false 0 0 0 0 0 [] EmptyString EmptyString ∅ [] [] [] (mkWriter [] []).

Definition set_rw (w : Writer) (n : Z) (c : IMClient) : IMClient :=
  mkIMClient (c_opts c) (sending c) (connected c) (retryPingCount c) (clientIDGen c) n (recvMsgCount c)
    (sendFailMsgCount c) (clientPrivKey c) (c_aesKey c) (salt c) (waiting c) (answers c) (handed c) (acked c) w.
Definition set_session (priv : list byte) (key iv : string) (conn : bool) (c : IMClient) : IMClient :=
  mkIMClient (c_opts c) (sending c) conn (retryPingCount c) (clientIDGen c) (sendTotalMsgBytes c) (recvMsgCount c)
    (sendFailMsgCount c) priv key iv (waiting c) (answers c) (handed c) (acked c) (rw c).
Definition set_sending (l : list Send.SendPacket) (n : Z) (ids : gset Z) (c : IMClient) : IMClient :=
  mkIMClient (c_opts c) l (connected c) (retryPingCount c) n (sendTotalMsgBytes c) (recvMsgCount c)
    (sendFailMsgCount c) (clientPrivKey c) (c_aesKey c) (salt c) ids (answers c) (handed c) (acked c) (rw c).
Definition set_pings (n : Z) (c : IMClient) : IMClient :=
  mkIMClient (c_opts c) (sending c) (connected c) n (clientIDGen c) (sendTotalMsgBytes c) (recvMsgCount c)
    (sendFailMsgCount c) (clientPrivKey c) (c_aesKey c) (salt c) (waiting c) (answers c) (handed c) (acked c) (rw c).
Definition set_received (n : Z) (l : list Recv.RecvPacket) (c : IMClient) : IMClient :=
  mkIMClient (c_opts c) (sending c) (connected c) (retryPingCount c) (clientIDGen c) (sendTotalMsgBytes c) n
    (sendFailMsgCount c) (clientPrivKey c) (c_aesKey c) (salt c) (waiting c) (answers c) l (acked c) (rw c).
Definition set_answered (fails : Z) (ids : gset Z) (ans : list (Z * Sendack.SendackPacket))
    (acks : list Sendack.SendackPacket) (c : IMClient) : IMClient :=
  mkIMClient (c_opts c) (sending c) (connected c) (retryPingCount c) (clientIDGen c) (sendTotalMsgBytes c)
    (recvMsgCount c) fails (clientPrivKey c) (c_aesKey c) (salt c) ids ans (handed c) acks (rw c).

Section Client.
Context `{Crypto}.

(** The callbacks of the application; [None] when not set. *)
Context (onRecv : option (Recv.RecvPacket -> outcome unit)) (onSendack : bool).

Definition client_version (c : IMClient) : Z := ProtoVersion (c_opts c).
Definition c_flush : io IMClient unit :=
  modify (fun c => set_rw (Flush_writer (rw c)) (sendTotalMsgBytes c) c).

(** [sendPacket] leaves the bytes in the buffer. *)
Definition sendPacket (packet : Frame) : io IMClient unit :=
  version ← gets client_version;
  data ← lift (EncodePacket packet version);
  modify (fun c => set_rw (Write_writer data (rw c)) (i64 (sendTotalMsgBytes c + zlen data)) c).

(** ** Connecting *)
Definition connectPacket (priv : list byte) (now : Z) (c : IMClient) : Connect.ConnectPacket :=
  Connect.mkConnectPacket zeroFramer (client_version c) (base64_EncodeToString (ScalarBaseMult priv)) EmptyString APP
    now (UID (c_opts c)) (Token (c_opts c)).

(** The first half of [Connect], up to the reply: a new connection. *)
Definition Connect_request (priv : list byte) (now : Z) : io IMClient unit :=
  modify (fun c => set_session priv (c_aesKey c) (salt c) (connected c)
    (set_rw (mkWriter [] []) (sendTotalMsgBytes c) c)) ;;
  c ← gets Datatypes.id;
  sendPacket (FConnect (connectPacket priv now c)) ;;
  c_flush.

(** The second half; the packets that were not acknowledged on an earlier
    connection are sent again as they are. *)
Definition Connect_reply (reply : list byte) : io IMClient unit :=
  version ← gets client_version;
  r ← lift (DecodePacketWithConn version reply);
  match fst r with
  | FConnack connack =>
      if negb (Connack.reasonCode connack =? ReasonSuccess) then raise (ErrMsg "连接失败！")
      else
        c ← gets Datatypes.id;
        for_each (fun p => attempt (sendPacket (FSend p)) ;; mret tt) (sending c) ;;
        modify (fun c => set_session (clientPrivKey c) (c_aesKey c) (Connack.Salt connack) (connected c) c) ;;
        serverKey ← lift (base64_DecodeString (Connack.ServerKey connack));
        serverPubKey ← lift (first32 (Connack.ServerKey connack) serverKey);
        modify (fun c => set_session (clientPrivKey c) (aesKeyOf (GetCurve25519Key (clientPrivKey c) serverPubKey))
          (salt c) true c)
  | _ => raise (ErrMsg "返回包类型有误！不是连接回执包！")
  end.

Definition handleClose : io IMClient unit :=
  modify (fun c => set_session (clientPrivKey c) (c_aesKey c) (salt c) false c).

(** ** Sending *)

(** The packet of [SendMessage] and [SendMessageSync]: the payload encrypted,
    the packet signed. *)
Definition sealed (c : IMClient) (framer : Framer) (seq : Z) (msgNo : string) (channel : chan) (payload : list byte) :
    outcome Send.SendPacket :=
  let key := bytes_of_string (c_aesKey c) in
  let iv := bytes_of_string (salt c) in
  encPayload ← AesEncryptPkcs7Base64 payload key iv;
  let packet := Send.mkSendPacket framer (mkSetting false) EmptyString seq msgNo (fst channel) (snd channel) encPayload in
  actMsgKey ← AesEncryptPkcs7Base64 (bytes_of_string (Send.SendPacket_VerityString packet)) key iv;
  Ret (Send.mkSendPacket framer (mkSetting false) (MD5 (string_of_bytes actMsgKey)) seq msgNo (fst channel) (snd channel)
    encPayload).

Definition sendFramer (o : SendOptions) : Framer := mkFramer 0 0 (NoPersist o) true (SyncOnce o) false.

(** The id is generated once the payload was encrypted. *)
Definition nextID : io IMClient Z :=
  modify (fun c => set_sending (sending c) (u64 (clientIDGen c + 1)) (waiting c) c) ;; gets clientIDGen.

Definition seal (framer : Framer) (msgNo : string) (channel : chan) (payload : list byte) : io IMClient Send.SendPacket :=
  c ← gets Datatypes.id;
  lift (AesEncryptPkcs7Base64 payload (bytes_of_string (c_aesKey c)) (bytes_of_string (salt c))) ;;
  seq ← nextID;
  lift (sealed c framer seq msgNo channel payload).

Definition SendMessage (o : SendOptions) (msgNo : string) (channel : chan) (payload : list byte) : io IMClient unit :=
  packet ← seal (sendFramer o) msgNo channel payload;
  modify (fun c => set_sending (sending c ++ [packet]) (clientIDGen c) (waiting c) c) ;;
  sendPacket (FSend packet) ;;
  if Flush o then c_flush else mret tt.

(** [SendMessageSync] up to where it waits; the result is the id it waits
    for. A second registration of an id panics. *)
Definition SendMessageSync_begin (msgNo : string) (channel : chan) (payload : list byte) : io IMClient Z :=
  packet ← seal (mkFramer 0 0 false true false false) msgNo channel payload;
  c ← gets Datatypes.id;
  if bool_decide (Send.ClientSeq packet ∈ waiting c) then lift Panic
  else
    modify (fun c => set_sending (sending c) (clientIDGen c) ({[Send.ClientSeq packet]} ∪ waiting c) c) ;;
    r ← attempt (sendPacket (FSend packet));
    match r with
    | inl _ => mret (Send.ClientSeq packet)
    | inr e =>
        modify (fun c => set_sending (sending c) (clientIDGen c) (waiting c ∖ {[Send.ClientSeq packet]}) c) ;; raise e
    end.

Definition ping : io IMClient unit := attempt (sendPacket FPing) ;; mret tt.

(** A tick of [loopPing]: whether the loop goes on. *)
Definition loopPing_tick : io IMClient bool :=
  n ← gets retryPingCount;
  if n >=? 3 then mret false
  else ping ;; modify (fun c => set_pings (retryPingCount c + 1) c) ;; mret true.

(** ** Packets of the server *)
Fixpoint remove_seq (seq : Z) (l : list Send.SendPacket) : list Send.SendPacket :=
  match l with
  | [] => []
  | p :: l' => if Send.ClientSeq p =? seq then l' else p :: remove_seq seq l'
  end.

Definition handleSendackPacket (packet : Sendack.SendackPacket) : io IMClient unit :=
  let seq := Sendack.ClientSeq packet in
  modify (fun c =>
    let c1 := set_answered
      (if Sendack.reasonCode packet =? ReasonSuccess then sendFailMsgCount c else sendFailMsgCount c + 1)
      (waiting c ∖ {[seq]})
      (if bool_decide (seq ∈ waiting c) then answers c ++ [(seq, packet)] else answers c)
      (if onSendack then acked c ++ [packet] else acked c) c in
    set_sending (remove_seq seq (sending c1)) (clientIDGen c1) (waiting c1) c1).

(** The error of [onRecv] goes to a variable of the inner block; the one
    tested afterwards is still [nil]. *)
Definition handleRecvPacket (packet : Recv.RecvPacket) : io IMClient unit :=
  modify (fun c => set_received (recvMsgCount c + 1) (handed c) c) ;;
  c ← gets Datatypes.id;
  match onRecv with
  | None => mret tt
  | Some callback =>
      match AesDecryptPkcs7Base64 (Recv.Payload packet) (bytes_of_string (c_aesKey c)) (bytes_of_string (salt c)) with
      | Ret payload =>
          let opened := set_Payload payload (Recv.MsgKey packet) packet in
          modify (fun c => set_received (recvMsgCount c) (handed c ++ [opened]) c) ;;
          attempt (lift (callback opened)) ;; mret tt
      | _ => lift Panic
      end
  end ;;
  attempt (sendPacket (FRecvack (Recvack.mkRecvackPacket (Recv.framer packet) (Recv.MessageID packet)
    (Recv.MessageSeq packet)))) ;; mret tt.

Definition handlePacket (f : Frame) : io IMClient unit :=
  modify (set_pings 0) ;;
  match f with
  | FSendack p => handleSendackPacket p
  | FRecv p => handleRecvPacket p
  | _ => mret tt
  end.
End Client.

(** * What the operations do *)
Definition stream (w : Writer) : list byte := passed w ++ buffered w.

Lemma stream_Write p w : stream (Write_writer p w) = stream w ++ p.
Proof.
  unfold stream, Write_writer. destruct (_ <=? _); [cbn; by rewrite app_assoc|].
  case_bool_decide as Eb; [cbn; by rewrite Eb, !app_nil_r|]. cbn [passed].
  pose proof (take_drop (Z.to_nat (available w)) p) as E.
  destruct (_ <=? _); cbn; rewrite ?app_nil_r; by rewrite <- !app_assoc, E.
Qed.

Lemma stream_Flush w : stream (Flush_writer w) = stream w.
Proof. unfold stream. cbn. by rewrite app_nil_r. Qed.

(** Two states of a client that agree on everything but the writer and its
    count. *)
Definition same_session (c c' : IMClient) : Prop :=
  c_opts c' = c_opts c /\ clientPrivKey c' = clientPrivKey c /\ c_aesKey c' = c_aesKey c /\ salt c' = salt c /\
  sending c' = sending c /\ clientIDGen c' = clientIDGen c /\ waiting c' = waiting c /\ connected c' = connected c.

Lemma sendPacket_spec f c data : EncodePacket f (client_version c) = Ret data ->
  sendPacket f c = (Ret tt, set_rw (Write_writer data (rw c)) (i64 (sendTotalMsgBytes c + zlen data)) c).
Proof. intros E. unfold sendPacket, mbind, io_bind, gets, lift. by rewrite E. Qed.

Lemma EncodePacket_no_panic f v : EncodePacket f v <> Panic.
Proof.
  unfold EncodePacket. destruct (packetEncodeMap f v) as [b|]; cbn; repeat case_match; discriminate.
Qed.

(** Sending again what was not acknowledged. *)
Lemma resend_spec l c : exists c', for_each (fun p => attempt (sendPacket (FSend p)) ;; mret tt) l c = (Ret tt, c') /\
  same_session c c'.
Proof.
  destruct (for_each_inv (fun p => attempt (sendPacket (FSend p)) ;; mret tt) (fun _ => same_session c) l c)
    as (c' & E & Hs); [|done|eauto].
  intros p l1 l2 c1 _ Hs. unfold attempt, sendPacket, mbind, io_bind, gets, lift.
  destruct (EncodePacket (FSend p) (client_version c1)) as [data|e|] eqn:E; [| |by destruct (EncodePacket_no_panic _ _ E)];
    eexists; (split; [reflexivity|exact Hs]).
Qed.
