(* ===== verification/Exchange.v ===== *)
(** The client and the server together: they agree on a key, and what one
    seals the other opens (pkg/client/client.go with [handleConnect] and
    [HandleSend] of internal/lim/handler.go, and delivery.go). *)
From stdpp Require Import base list gmap strings.
From Stdlib Require Import ZArith Lia Strings.Byte.
From S2P Require Import Prelude Effects Keys Wire Frames Ids Protocol PQueue Model Queues Clients Storage Channels Conversations Encodings Aes Server Handler ImClient.

Section Exchange.
Context `{CryptoLaws}.

(** ** Connecting *)
Lemma short_key a : short (base64_EncodeToString (ScalarBaseMult a)).
Proof.
  unfold short, base64_EncodeToString. rewrite bytes_of_string_of_bytes, length_encode64.
  unfold zlen. rewrite length_ScalarBaseMult. reflexivity.
Qed.

(** What a client says of itself fits the protocol. *)
Record presentable (o : ClientOptions) (now : Z) : Prop := {
  pt_version : inU 8 (ProtoVersion o);
  pt_uid : short (UID o);
  pt_token : short (Token o);
  pt_now : inS 64 now
}.

Lemma connect_sendable priv now c v : presentable (c_opts c) now -> sendable v (FConnect (connectPacket priv now c)).
Proof.
  intros [Hv Hu Ht Hn]. assert (Connect.ok (connectPacket priv now c)) as Hok.
  { split; cbn [connectPacket Connect.Version Connect.ClientKey Connect.deviceFlag Connect.DeviceID
      Connect.ClientTimestamp Connect.UID Connect.Token]; [exact Hv|apply short_key| | |exact Hn|exact Hu|exact Ht];
    vm_compute; intuition congruence. }
  split; [exact Hok|]. destruct Hok as [_ Hk _ Hd _ _ _]. unfold short in Hk, Hd, Hu, Ht.
  unfold body. cbn [packetEncodeMap]. unfold Connect.encodeConnect. case_versions; to_image;
    unfold MaxRemaingLength, put_string, str_image; autorewrite with go; rewrite ?zlen_be;
    cbn [connectPacket Connect.ClientKey Connect.DeviceID Connect.UID Connect.Token] in *; lia.
Qed.

Lemma connack_sendable priv iv t v : short iv -> inS 64 t ->
  sendable v (FConnack (Connack.mkConnackPacket zeroFramer (base64_EncodeToString (ScalarBaseMult priv)) iv t ReasonSuccess)).
Proof.
  intros Hi Ht. pose proof (short_key priv) as Hk. split.
  - split; cbn [Connack.ServerKey Connack.Salt Connack.TimeDiff Connack.reasonCode]; [done..|]. vm_compute. intuition congruence.
  - unfold short in *. unfold body. cbn [packetEncodeMap]. unfold Connack.encodeConnack. case_versions; to_image;
      unfold MaxRemaingLength, put_string, str_image; autorewrite with go; rewrite ?zlen_be;
      cbn [Connack.ServerKey Connack.Salt] in *; lia.
Qed.

Lemma Connect_request_spec priv now c : presentable (c_opts c) now ->
  exists c' data, Connect_request priv now c = (Ret tt, c') /\
    EncodePacket (FConnect (connectPacket priv now c)) (client_version c) = Ret data /\
    passed (rw c') = data /\ buffered (rw c') = [] /\ clientPrivKey c' = priv /\ c_opts c' = c_opts c /\
    sending c' = sending c.
Proof.
  intros Hp. destruct (EncodePacket_total _ _ (connect_sendable priv now c (client_version c) Hp)) as (data & E).
  set (c1 := set_session priv (c_aesKey c) (salt c) (connected c) (set_rw (mkWriter [] []) (sendTotalMsgBytes c) c)).
  unfold Connect_request, mbind at 1, io_bind at 1, modify at 1. fold c1. unfold mbind at 1, io_bind at 1, gets at 1.
  change (Datatypes.id c1) with c1.
  assert (connectPacket priv now c1 = connectPacket priv now c) as -> by reflexivity.
  io_step (sendPacket_spec _ c1 data E). eexists _, data. split; [reflexivity|]. split; [exact E|].
  cbn [c_flush modify set_rw rw passed buffered Flush_writer]. split; [|repeat split].
  change (stream (Write_writer data (rw c1)) = data). rewrite stream_Write. reflexivity.
Qed.

Lemma Connect_reply_spec c serverPriv iv t rest : 2 < client_version c -> short iv -> inS 64 t ->
  exists c', Connect_reply (encodedOf (EncodePacket (FConnack (Connack.mkConnackPacket zeroFramer
      (base64_EncodeToString (ScalarBaseMult serverPriv)) iv t ReasonSuccess)) (client_version c)) ++ rest) c = (Ret tt, c') /\
    c_aesKey c' = aesKeyOf (GetCurve25519Key (clientPrivKey c) (ScalarBaseMult serverPriv)) /\ salt c' = iv /\
    connected c' = true /\ c_opts c' = c_opts c.
Proof.
  intros Hv Hi Ht. set (f := FConnack _). pose proof (connack_sendable serverPriv iv t (client_version c) Hi Ht) as Hs.
  fold f in Hs. destruct (EncodePacket_total _ _ Hs) as (data & E). rewrite E. cbn [encodedOf].
  unfold Connect_reply. io_step (eq_refl : gets client_version c = (Ret (client_version c), c)).
  assert (lift (DecodePacketWithConn (client_version c) (data ++ rest)) c = (Ret (received (client_version c) f, rest), c))
    as Ed by (unfold lift; by rewrite (DecodePacketWithConn_encoded _ _ _ rest Hs E)).
  io_step Ed. cbn [fst received frame_on_wire f Connack.on_wire Connack.reasonCode].
  change (negb (ReasonSuccess =? ReasonSuccess)) with false. cbv iota.
  io_step (eq_refl : gets Datatypes.id c = (Ret c, c)).
  destruct (resend_spec (sending c) c) as (c1 & E1 & (O & P & _ & _ & _ & _ & _ & Cn)). io_step E1.
  unfold Connack.ServerKey, Connack.Salt, Connack.on_wire. rewrite (proj2 (Z.gtb_lt _ _) Hv). clear Ed E E1. cbn [Connack.ServerKey Connack.Salt].
  unfold mbind, io_bind, modify, lift. rewrite Decode_Encode, first32_public. eexists. split; [reflexivity|].
  cbn. by rewrite P, O.
Qed.

(** The server's half of the exchange, for the packet as it arrives. *)
Lemma handshake_spec hs fr priv now c : 2 < client_version c ->
  handshake hs (Connect.on_wire fr (connectPacket priv now c)) =
    Ret (Some (aesKeyOf (GetCurve25519Key (hs_private hs) (ScalarBaseMult priv)), hs_iv hs,
      base64_EncodeToString (ScalarBaseMult (hs_private hs)))).
Proof.
  intros Hv. unfold handshake, connectPacket, Connect.on_wire. cbn [Connect.Version Connect.ClientKey].
  rewrite (proj2 (Z.gtb_lt _ _) Hv), Decode_Encode, first32_public. reflexivity.
Qed.

(** ** Sealing and opening *)
Definition keyed (key iv : string) : Prop :=
  NewCipher (bytes_of_string key) = Ret tt /\ zlen (bytes_of_string iv) = BlockSize.

Lemma sealed_total c framer seq msgNo channel payload : keyed (c_aesKey c) (salt c) ->
  exists enc sign, AesEncryptPkcs7Base64 payload (bytes_of_string (c_aesKey c)) (bytes_of_string (salt c)) = Ret enc /\
    sealed c framer seq msgNo channel payload =
      Ret (Send.mkSendPacket framer (mkSetting false) (MD5 sign) seq msgNo (fst channel) (snd channel) enc).
Proof.
  intros [Hk Hi]. destruct (Aes_roundtrip payload _ _ Hk Hi) as (enc & E & _).
  unfold sealed. rewrite E. cbn [mbind outcome_bind].
  edestruct Aes_roundtrip as (m & Em & _); [exact Hk|exact Hi|]. rewrite Em. exists enc, (string_of_bytes m). done.
Qed.

Lemma openPacket_sealed c sc fr framer seq msgNo channel payload packet v : keyed (c_aesKey c) (salt c) ->
  Clients.aesKey sc = c_aesKey c -> Clients.aesIV sc = salt c -> 2 < v -> inU 32 seq ->
  sealed c framer seq msgNo channel payload = Ret packet ->
  openPacket sc v (Send.on_wire fr v packet) = Ret (inl (set_send_payload payload (Send.on_wire fr v packet))).
Proof.
  intros [Hk Hi] Ek Ei Hv Hseq Hs. unfold sealed in Hs. destruct (Aes_roundtrip payload _ _ Hk Hi) as (enc & E & D).
  rewrite E in Hs. cbn [mbind outcome_bind] in Hs. set (p0 := Send.mkSendPacket framer _ EmptyString _ _ _ _ _) in Hs.
  destruct (Aes_roundtrip (bytes_of_string (Send.SendPacket_VerityString p0)) _ _ Hk Hi) as (m & Em & _).
  rewrite Em in Hs. injection Hs as <-. unfold openPacket. rewrite (proj2 (Z.gtb_lt _ _) Hv), Ek, Ei.
  match goal with |- context [Send.SendPacket_VerityString ?q] =>
    assert (Send.SendPacket_VerityString q = Send.SendPacket_VerityString p0) as -> end.
  { unfold Send.SendPacket_VerityString, Send.on_wire, p0.
    cbn [Send.ClientSeq Send.ClientMsgNo Send.ChannelID Send.ChannelType Send.Payload].
    rewrite wrapU_id by done. by rewrite (proj2 (Z.gtb_lt v 1)) by lia. }
  rewrite Em. cbn [Send.on_wire Send.MsgKey Send.Payload]. rewrite (proj2 (Z.gtb_lt _ _) Hv).
  rewrite bool_decide_true by done. cbn [negb]. rewrite D. reflexivity.
Qed.

Lemma sealed_sendable framer sign seq msgNo channel payload enc key iv v : zlen (bytes_of_string iv) = BlockSize ->
  AesEncryptPkcs7Base64 payload (bytes_of_string key) (bytes_of_string iv) = Ret enc ->
  short msgNo -> short (fst channel) -> inU 8 (snd channel) -> zlen payload <= 700000 ->
  sendable v (FSend (Send.mkSendPacket framer (mkSetting false) (MD5 sign) seq msgNo (fst channel) (snd channel) enc)).
Proof.
  intros Hi He Hm Hc Ht Hl. apply Aes_length in He; [|done].
  assert (zlen (bytes_of_string (MD5 sign)) = 32) as Hk by (unfold zlen; by rewrite length_MD5).
  split; [split; [unfold short; cbn [Send.MsgKey]; rewrite Hk; reflexivity|exact Hm|exact Hc|exact Ht]|].
  unfold short in *. unfold body. cbn [packetEncodeMap]. unfold Send.encodeSend. case_versions; to_image;
    unfold MaxRemaingLength, put_string, str_image; autorewrite with go; rewrite ?zlen_be;
    cbn [Send.MsgKey Send.ClientMsgNo Send.ChannelID Send.Payload] in *; Z.to_euclidean_division_equations; lia.
Qed.

Lemma seal_spec framer msgNo channel payload c enc packet :
  AesEncryptPkcs7Base64 payload (bytes_of_string (c_aesKey c)) (bytes_of_string (salt c)) = Ret enc ->
  0 <= clientIDGen c < 2 ^ 32 - 1 -> sealed c framer (clientIDGen c + 1) msgNo channel payload = Ret packet ->
  seal framer msgNo channel payload c = (Ret packet, set_sending (sending c) (clientIDGen c + 1) (waiting c) c).
Proof.
  intros E Hg Hs. unfold seal. unfold mbind at 1, io_bind at 1, gets at 1. change (Datatypes.id c) with c. cbv beta iota.
  unfold lift, nextID, mbind, io_bind, modify, gets. rewrite E. cbv beta iota.
  rewrite (wrapU_id 64) by (unfold inU; lia). cbn [clientIDGen set_sending]. by rewrite Hs.
Qed.
End Exchange.

(** C9: a client and the server agree on a key. The bytes [Connect] writes
    are one CONNECT packet in whichever version the server reads it, with the
    user, the token and the version of the client; the server's
    half of the key exchange succeeds on it, and when the client is answered
    with the CONNACK of an accepted connection, whatever follows it, [Connect]
    succeeds and leaves the client with the key and the initial vector of the
    server, a key that is fit for the cipher. *)
Theorem Connect_agrees_on_key `{CryptoLaws} (c : IMClient) priv now hs timeDiff rest :
  presentable (c_opts c) now -> 2 < ProtoVersion (c_opts c) -> short (hs_iv hs) -> inS 64 timeDiff ->
  exists c1 p key serverKey, Connect_request priv now c = (Ret tt, c1) /\
    (forall v, DecodePacket (passed (rw c1)) v = Ret (Some (FConnect p), zlen (passed (rw c1)))) /\
    Connect.UID p = UID (c_opts c) /\ Connect.Token p = Token (c_opts c) /\
    Connect.Version p = ProtoVersion (c_opts c) /\
    handshake hs p = Ret (Some (key, hs_iv hs, serverKey)) /\ NewCipher (bytes_of_string key) = Ret tt /\
    exists c2, Connect_reply (encodedOf (EncodePacket (FConnack (Connack.mkConnackPacket zeroFramer serverKey (hs_iv hs)
        timeDiff ReasonSuccess)) (Connect.Version p)) ++ rest) c1 = (Ret tt, c2) /\
      c_aesKey c2 = key /\ salt c2 = hs_iv hs /\ connected c2 = true.
Proof.
  intros Hp Hv Hi Ht. destruct (Connect_request_spec priv now c Hp) as (c1 & data & E1 & Ed & Pw & _ & Pk & Po & _).
  destruct (Connect_reply_spec c1 (hs_private hs) (hs_iv hs) timeDiff rest) as (c2 & E2 & K2 & I2 & C2 & _);
    [unfold client_version; by rewrite Po|done|done|].
  exists c1, (Connect.on_wire (wire_framer (FConnect (connectPacket priv now c)) 0) (connectPacket priv now c)).
  exists (aesKeyOf (GetCurve25519Key (hs_private hs) (ScalarBaseMult priv))).
  exists (base64_EncodeToString (ScalarBaseMult (hs_private hs))).
  split; [exact E1|]. split; [|split; [reflexivity|split; [reflexivity|split; [reflexivity|split; [by apply handshake_spec|]]]]].
  - intros v. rewrite Pw. rewrite <- (app_nil_r data) at 1.
    exact (DecodePacket_encoded v _ data [] (connect_sendable priv now c v Hp) Ed).
  - split; [apply aesKeyOf_key|]. exists c2. unfold client_version in E2. rewrite Po in E2. split; [exact E2|].
    rewrite K2, Pk. unfold GetCurve25519Key. by rewrite ScalarMult_comm.
Qed.

(** C8: what a connected client sends, the server opens. [SendMessage] of up
    to 700,000 bytes appends one packet to the stream of the connection
    (flushed, unless told not to) and remembers it as being sent. Whatever
    follows it, the server decodes it whole, the signature holds, and the
    payload that comes out is the one that went in, for the same channel,
    under the same numbers and with the options' header. *)
Theorem sent_message_opens `{CryptoLaws} (c : IMClient) (sc : Clients.Client) (o : SendOptions) msgNo channel payload :
  keyed (c_aesKey c) (salt c) -> Clients.aesKey sc = c_aesKey c -> Clients.aesIV sc = salt c ->
  2 < ProtoVersion (c_opts c) -> 0 <= clientIDGen c < 2 ^ 32 - 1 ->
  short msgNo -> short (fst channel) -> inU 8 (snd channel) -> zlen payload <= 700000 ->
  exists c' packet data, SendMessage o msgNo channel payload c = (Ret tt, c') /\
    sending c' = sending c ++ [packet] /\ Send.ClientSeq packet = clientIDGen c + 1 /\
    stream (rw c') = stream (rw c) ++ data /\ (Flush o = true -> buffered (rw c') = []) /\
    forall rest, exists p, DecodePacket (data ++ rest) (ProtoVersion (c_opts c)) = Ret (Some (FSend p), zlen data) /\
      openPacket sc (ProtoVersion (c_opts c)) p = Ret (inl (set_send_payload payload p)) /\
      (Send.ChannelID p, Send.ChannelType p) = channel /\ Send.ClientMsgNo p = msgNo /\
      Send.ClientSeq p = Send.ClientSeq packet /\ f_NoPersist (Send.framer p) = NoPersist o /\
      f_SyncOnce (Send.framer p) = SyncOnce o /\ f_RedDot (Send.framer p) = true.
Proof.
  intros Hk Ek Ei Hv Hg Hm Hc Ht Hl.
  destruct (sealed_total c (sendFramer o) (clientIDGen c + 1) msgNo channel payload Hk) as (enc & sign & E & Es).
  set (packet := Send.mkSendPacket _ _ _ _ _ _ _ _) in Es. set (v := ProtoVersion (c_opts c)) in *.
  pose proof (sealed_sendable (sendFramer o) sign (clientIDGen c + 1) msgNo channel payload enc _ _ v (proj2 Hk) E Hm Hc Ht Hl) as Hs.
  fold packet in Hs. destruct (EncodePacket_total _ _ Hs) as (data & Ed).
  set (c1 := set_sending (sending c) (clientIDGen c + 1) (waiting c) c).
  set (c2 := set_sending (sending c ++ [packet]) (clientIDGen c + 1) (waiting c) c1).
  set (c3 := set_rw (Write_writer data (rw c2)) (i64 (sendTotalMsgBytes c2 + zlen data)) c2).
  assert (SendMessage o msgNo channel payload c = (if Flush o then c_flush else mret tt) c3) as Em.
  { unfold SendMessage. io_step (seal_spec (sendFramer o) msgNo channel payload c enc packet E Hg Es). fold c1.
    unfold modify at 1. unfold mbind at 1, io_bind at 1. change (set_sending (sending c1 ++ [packet]) (clientIDGen c1) (waiting c1) c1) with c2.
    by io_step (sendPacket_spec (FSend packet) c2 data Ed). }
  assert (forall rest, exists p, DecodePacket (data ++ rest) v = Ret (Some (FSend p), zlen data) /\
      openPacket sc v p = Ret (inl (set_send_payload payload p)) /\
      (Send.ChannelID p, Send.ChannelType p) = channel /\ Send.ClientMsgNo p = msgNo /\
      Send.ClientSeq p = Send.ClientSeq packet /\ f_NoPersist (Send.framer p) = NoPersist o /\
      f_SyncOnce (Send.framer p) = SyncOnce o /\ f_RedDot (Send.framer p) = true) as Hd.
  { intros rest. eexists. split; [exact (DecodePacket_encoded v (FSend packet) data rest Hs Ed)|]. split.
    - apply (openPacket_sealed c sc _ (sendFramer o) (clientIDGen c + 1) msgNo channel); auto. unfold inU. lia.
    - cbn [Send.on_wire Send.ChannelID Send.ChannelType Send.ClientMsgNo Send.ClientSeq Send.framer packet].
      rewrite wrapU_id by (unfold inU; lia). rewrite (proj2 (Z.gtb_lt v 1)) by lia. by destruct channel. }
  rewrite Em. destruct (Flush o).
  - eexists _, packet, data. split; [reflexivity|]. split; [done|]. split; [done|]. split; [|split; [done|exact Hd]].
    etransitivity; [apply (stream_Flush (Write_writer data (rw c)))|apply stream_Write].
  - eexists _, packet, data. split; [reflexivity|]. split; [done|]. split; [done|]. split; [|split; [done|exact Hd]].
    apply (stream_Write data (rw c)).
Qed.

(** * Witnesses *)
#[local] Existing Instance toyCrypto.

Definition phone_options : ClientOptions := mkClientOptions LatestVersion "alice" "secret".
Definition phone_handshake : Handshake := mkHandshake (bytes_of_string "server") "fedcba9876543210".

Lemma phone_presentable : presentable phone_options 1000.
Proof. split; vm_compute; intuition congruence. Qed.

Lemma Connect_agrees_on_key_witness :
  let c := New phone_options in
  exists c1 p key serverKey, Connect_request (bytes_of_string "phone") 1000 c = (Ret tt, c1) /\
    (forall v, DecodePacket (passed (rw c1)) v = Ret (Some (FConnect p), zlen (passed (rw c1)))) /\
    Connect.UID p = UID (c_opts c) /\ Connect.Token p = Token (c_opts c) /\
    Connect.Version p = ProtoVersion (c_opts c) /\
    handshake phone_handshake p = Ret (Some (key, hs_iv phone_handshake, serverKey)) /\
    NewCipher (bytes_of_string key) = Ret tt /\
    exists c2, Connect_reply (encodedOf (EncodePacket (FConnack (Connack.mkConnackPacket zeroFramer serverKey
        (hs_iv phone_handshake) 4000 ReasonSuccess)) (Connect.Version p)) ++ [Byte.xd0]) c1 = (Ret tt, c2) /\
      c_aesKey c2 = key /\ salt c2 = hs_iv phone_handshake /\ connected c2 = true.
Proof.
  apply (Connect_agrees_on_key (New phone_options) (bytes_of_string "phone") 1000 phone_handshake 4000 [Byte.xd0]).
  - exact phone_presentable.
  - reflexivity.
  - reflexivity.
  - split; [discriminate|reflexivity].
Defined.

(** A connected client. *)
Definition phone : IMClient :=
  set_session (bytes_of_string "phone") "0123456789abcdef" "fedcba9876543210" true (New phone_options).

Lemma sent_message_opens_witness :
  exists c' packet data,
    SendMessage NewSendOptions "no-1" ("bob"%string, ChannelTypePerson) (bytes_of_string "hi") phone = (Ret tt, c') /\
    sending c' = sending phone ++ [packet] /\ Send.ClientSeq packet = clientIDGen phone + 1 /\
    stream (rw c') = stream (rw phone) ++ data /\ (Flush NewSendOptions = true -> buffered (rw c') = []) /\
    forall rest, exists p, DecodePacket (data ++ rest) (ProtoVersion (c_opts phone)) = Ret (Some (FSend p), zlen data) /\
      openPacket bob5 (ProtoVersion (c_opts phone)) p = Ret (inl (set_send_payload (bytes_of_string "hi") p)) /\
      (Send.ChannelID p, Send.ChannelType p) = ("bob"%string, ChannelTypePerson) /\ Send.ClientMsgNo p = "no-1"%string /\
      Send.ClientSeq p = Send.ClientSeq packet /\ f_NoPersist (Send.framer p) = NoPersist NewSendOptions /\
      f_SyncOnce (Send.framer p) = SyncOnce NewSendOptions /\ f_RedDot (Send.framer p) = true.
Proof.
  apply (sent_message_opens phone bob5 NewSendOptions "no-1" ("bob"%string, ChannelTypePerson) (bytes_of_string "hi"));
    [split; reflexivity|reflexivity|reflexivity|reflexivity|split; [discriminate|reflexivity]|reflexivity|reflexivity
    |split; [discriminate|reflexivity]|discriminate].
Defined.

(** ** What stays in the buffer

    [SendMessageSync] and [ping] never flush: for the server, nothing was
    sent. *)

(** [SendMessageSync] of an ordinary message returns to its caller waiting
    for the answer to a packet that is still in the client's buffer; nothing
    of it was passed on to the connection. The same message sent with
    [SendMessage] was. *)
Theorem SendMessageSync_not_flushed :
  let channel := ("bob"%string, ChannelTypePerson) in
  let payload := bytes_of_string "hi" in
  let sync := SendMessageSync_begin "no-1" channel payload phone in
  let async := SendMessage NewSendOptions "no-1" channel payload phone in
  fst sync = Ret 1 /\ 1 ∈ waiting (snd sync) /\ passed (rw (snd sync)) = [] /\
  passed (rw (snd async)) = buffered (rw (snd sync)) /\ passed (rw (snd async)) <> [].
Proof.
  split; [vm_compute; reflexivity|]. split; [apply (bool_decide_unpack _); vm_compute; exact I|].
  split; [vm_compute; reflexivity|]. split; [vm_compute; reflexivity|]. vm_compute. discriminate.
Qed.
