(* ===== verification/Sessions.v ===== *)
(** Clients that come and go: what [handleConnect] and [handleDisconnect] of
    internal/lim/handler.go make of the registry of connected clients, and the
    packets a client seals that [HandleSend] opens. *)
From stdpp Require Import base list gmap strings.
From Stdlib Require Import ZArith Lia Strings.Byte.
From S2P Require Import Prelude Effects Keys Wire Frames Ids Protocol PQueue Model Queues Clients Storage Channels Conversations Encodings Aes Server Handler.

Section Sessions.
Context {C S : Type} `{LRU C Db.Conversation} `{Storage S} `{Crypto} (env : Env).
Implicit Type l : LiMao C S.
Let opts := e_opts env.

(** ** Writing *)
Lemma EncodePacket_connack p version : exists data, EncodePacket (FConnack p) version = Ret data /\ data <> [].
Proof.
  unfold EncodePacket. cbn. eexists. split; [reflexivity|]. unfold encodeFramer. cbn. discriminate.
Qed.
Lemma EncodePacket_disconnect p version : exists data, EncodePacket (FDisconnect p) version = Ret data /\ data <> [].
Proof.
  unfold EncodePacket. cbn. eexists. split; [reflexivity|]. unfold encodeFramer. cbn. discriminate.
Qed.

Definition connack (timeDiff : Z) (code : ReasonCode) (serverKey salt : string) : Frame :=
  FConnack (Connack.mkConnackPacket zeroFramer serverKey salt timeDiff code).
Definition kicked : Frame :=
  FDisconnect (Disconnect.mkDisconnectPacket zeroFramer 0 "Account login on other devices").

Lemma alter_id_at {A} (f : A -> A) k (m : gmap Z A) x : m !! k = Some x -> alter f k m = <[k := f x]> m.
Proof. 
  intros Hx. apply map_eq. intros i. destruct (decide (i = k)) as [->|Hi].
  - by rewrite lookup_alter_eq, lookup_insert_eq, Hx.
  - by rewrite lookup_alter_ne, lookup_insert_ne.
Qed.

(** A refusal: one packet, on the connection that asked. *)
Lemma writeConnack_spec id code l co : l_conns l !! id = Some co -> Closed co = false ->
  writeConnack id 0 code l = (Ret tt, set_l_conns (<[id := mkConn (Version co) (Status co) false
    (Written co ++ [encodedOf (EncodePacket (connack 0 code EmptyString EmptyString) (Version co))])]> (l_conns l)) l).
Proof.
  intros Hc Ho. unfold writeConnack, conn_Version, mbind, io_bind, gets. rewrite Hc. fold (connack 0 code "" "").
  destruct (EncodePacket_connack (Connack.mkConnackPacket zeroFramer "" "" 0 code) (Version co)) as (data & E & _).
  unfold connack. rewrite E. unfold conn_Write, alter_conn, modify. rewrite (alter_id_at _ _ _ _ Hc), Ho. reflexivity.
Qed.

(** ** The client that was there *)
Definition previous (p : Connect.ConnectPacket) (r : ClientManager.registry) : option Client :=
  List.find (fun c => deviceFlag c =? Connect.deviceFlag p) (ClientManager.reg_of (Connect.UID p) r).
Definition without_previous (p : Connect.ConnectPacket) (r : ClientManager.registry) : ClientManager.registry :=
  match previous p r with Some c => ClientManager.reg_remove (GetID c) r | None => r end.

Lemma previous_online p r c : previous p r = Some c -> c ∈ ClientManager.online r.
Proof.
  intros E. apply find_some in E as [Hc _]. apply list_elem_of_In in Hc. unfold ClientManager.reg_of in Hc.
  by apply list_elem_of_filter in Hc as [_ Hc].
Qed.

(** What [replaceClient] does to the connections. *)
Definition kick (p : Connect.ConnectPacket) (o : option Client) (conns : gmap Z Conn) : gmap Z Conn :=
  match o with
  | Some c => alter (wrote (encodedOf (EncodePacket kicked (Connect.Version p)))) (GetID c) conns
  | None => conns
  end.

Lemma replaceClient_spec p l r : ClientManager.represents (l_clients l) r ->
  exists l', replaceClient p l = (Ret tt, l') /\
    ClientManager.represents (l_clients l') (without_previous p r) /\
    l_conns l' = kick p (previous p r) (l_conns l) /\
    l_closing l' = l_closing l ++ (GetID <$> option_list (previous p r)) /\
    l_events l' = l_events l /\ l_channels l' = l_channels l.
Proof.
  intros R. unfold replaceClient, without_previous, kick, mbind, io_bind, gets, ClientManager.GetClientWith.
  rewrite (ClientManager.GetClientsWithUID_represents _ r _ R). fold (previous p r).
  destruct (previous p r) as [c|] eqn:Ep.
  - unfold modify. destruct (EncodePacket_disconnect (Disconnect.mkDisconnectPacket zeroFramer 0
      "Account login on other devices") (Connect.Version p)) as (data & E & _).
    unfold kicked. rewrite E. eexists. split; [reflexivity|]. split; [|done].
    apply (ClientManager.represents_Remove _ _ _ R).
  - exists l. cbn. by rewrite app_nil_r.
Qed.

(** The connection of an accepted client. *)
Definition accepted_conn (nowMs : Z) (p : Connect.ConnectPacket) (serverKey iv : string) (co : Conn) : Conn :=
  mkConn (Connect.Version p) ConnStatusAuthed false (Written co ++
    [encodedOf (EncodePacket (connack (i64 (nowMs - Connect.ClientTimestamp p)) ReasonSuccess serverKey iv)
       (Connect.Version p))]).
Definition accepted_client (id : Z) (p : Connect.ConnectPacket) (level : DeviceLevel) (key iv : string) : Client :=
  mkClient id (Connect.UID p) (Connect.deviceFlag p) level key iv.

Lemma WritePacket_connack c t code sk iv l co : l_conns l !! conn c = Some co -> Closed co = false ->
  WritePacket c (connack t code sk iv) l = (Ret tt, set_l_conns (<[conn c := mkConn (Version co) (Status co) false
    (Written co ++ [encodedOf (EncodePacket (connack t code sk iv) (Version co))])]> (l_conns l)) l).
Proof.
  intros Hc Ho. unfold WritePacket, conn_Version, mbind, io_bind, gets. rewrite Hc.
  destruct (EncodePacket_connack (Connack.mkConnackPacket zeroFramer sk iv t code) (Version co)) as (data & E & Hne).
  unfold connack. rewrite E, bool_decide_false by (by destruct data).
  unfold conn_Write, alter_conn, modify. rewrite (alter_id_at _ _ _ _ Hc), Ho. reflexivity.
Qed.

Lemma kick_other p o conns id : (forall c, o = Some c -> GetID c <> id) -> kick p o conns !! id = conns !! id.
Proof. intros Ho. destruct o as [c|]; [|done]. cbn. apply lookup_alter_ne. auto. Qed.

Lemma online_without_previous p r c : c ∈ ClientManager.online (without_previous p r) -> c ∈ ClientManager.online r.
Proof.
  unfold without_previous. destruct (previous p r); [|done]. cbn [ClientManager.reg_remove ClientManager.online].
  intros Hc. by apply list_elem_of_filter in Hc as [_ Hc].
Qed.

Lemma acceptClient_spec nowMs id p level key iv sk l r co :
  ClientManager.represents (l_clients l) r -> id ∉ GetID <$> ClientManager.online r ->
  l_conns l !! id = Some co -> Closed co = false -> Version co = Connect.Version p ->
  exists l', acceptClient nowMs id p level (key, iv, sk) l = (Ret tt, l') /\
    ClientManager.represents (l_clients l') (ClientManager.reg_add (accepted_client id p level key iv) (without_previous p r)) /\
    l_conns l' = <[id := accepted_conn nowMs p sk iv co]> (kick p (previous p r) (l_conns l)) /\
    l_closing l' = l_closing l ++ (GetID <$> option_list (previous p r)) /\
    l_events l' = l_events l ++ [EventOnline (Connect.UID p) (Connect.deviceFlag p)] /\ l_channels l' = l_channels l.
Proof.
  intros R Hid Hc Ho Hv. unfold acceptClient. destruct (replaceClient_spec p l r R) as (l1 & E1 & R1 & C1 & K1 & V1 & D1).
  io_step E1. unfold conn_SetStatus, alter_conn.
  assert (forall c, c ∈ ClientManager.online r -> GetID c <> id) as Hnew.
  { intros c Hc' <-. apply Hid. by apply list_elem_of_fmap_2. }
  assert (l_conns l1 !! id = Some co) as Hc1.
  { rewrite C1, kick_other; [done|]. intros c Hp. apply Hnew, (previous_online _ _ _ Hp). }
  set (client := accepted_client id p level key iv).
  set (l2 := set_l_conns (<[id := mkConn (Version co) ConnStatusAuthed (Closed co) (Written co)]> (l_conns l1)) l1).
  assert (modify (fun l => set_l_conns (alter (fun c => mkConn (Version c) ConnStatusAuthed (Closed c) (Written c)) id
    (l_conns l)) l) l1 = (Ret tt, l2)) as E2 by (unfold modify; by rewrite (alter_id_at _ _ _ _ Hc1)).
  io_step E2. unfold mbind at 1. unfold io_bind at 1. unfold modify at 1.
  set (l3 := set_l_clients _ l2). fold client. fold (connack (i64 (nowMs - Connect.ClientTimestamp p)) ReasonSuccess sk iv).
  assert (l_conns l3 !! conn client = Some (mkConn (Version co) ConnStatusAuthed (Closed co) (Written co))) as Hc3
    by apply lookup_insert_eq.
  io_step (WritePacket_connack client (i64 (nowMs - Connect.ClientTimestamp p)) ReasonSuccess sk iv l3 _ Hc3 Ho).
  eexists. split; [reflexivity|]. split; [|split; [|split; [|split]]].
  - apply ClientManager.represents_Add; [exact R1|]. intros x Hx. apply Hnew, (online_without_previous _ _ _ Hx).
  - change (<[id := mkConn (Version co) ConnStatusAuthed false (Written co ++ [encodedOf (EncodePacket
      (connack (i64 (nowMs - Connect.ClientTimestamp p)) ReasonSuccess sk iv) (Version co))])]>
      (<[id := mkConn (Version co) ConnStatusAuthed (Closed co) (Written co)]> (l_conns l1)) =
      <[id := accepted_conn nowMs p sk iv co]> (kick p (previous p r) (l_conns l))).
    rewrite insert_insert_eq, C1, Hv. reflexivity.
  - exact K1.
  - cbn. by rewrite V1.
  - exact D1.
Qed.
End Sessions.


(** * Witnesses *)
#[local] Existing Instance toyCrypto.

Definition reconnect : Connect.ConnectPacket :=
  Connect.mkConnectPacket zeroFramer 4 (base64_EncodeToString (ScalarBaseMult (bytes_of_string "phone"))) "device"
    APP 1000 "alice" "secret".
Definition session_handshake : Handshake := mkHandshake (bytes_of_string "server") "fedcba9876543210".
Definition session_keys : option (string * string * string) :=
  match handshake session_handshake reconnect with Ret k => k | _ => None end.
Definition token_store : Memory.store :=
  snd (UpdateUserToken "alice" APP DeviceLevelMaster "secret" Memory.empty_store).
Definition session_server : LiMao (listCache Db.Conversation) Memory.store :=
  set_l_conns (<[9 := mkConn 0 ConnStatusNoAuth false []]> (l_conns example_server))
    (set_l_channels (mkState ∅ ∅ ∅ ∅ false token_store) example_server).
Definition session_ops : list ClientManager.op :=
  [ClientManager.OpAdd ClientManager.alice1; ClientManager.OpAdd ClientManager.alice2; ClientManager.OpAdd bob5].
Definition session_registry : ClientManager.registry :=
  foldl ClientManager.reg_op (ClientManager.mkRegistry [] ∅) session_ops.

Lemma session_represented : ClientManager.represents (l_clients session_server) session_registry.
Proof.
  apply (ClientManager.represents_run ClientManager.NewClientManager _ session_ops ClientManager.represents_new).
  cbn. repeat split; apply (bool_decide_unpack _); vm_compute; exact I.
Qed.

