(* ===== verification/Nodes.v ===== *)
(** Calls between the nodes of a cluster: [NodeRemoteCall]
    (internal/lim/node_node.go) and [nodeServiceImp.SendCMD]
    (internal/lim/rpc/server.go), over the servers of all nodes. gRPC and
    protobuf are parameters. *)
From stdpp Require Import base countable list gmap strings pretty.
From Stdlib Require Import ZArith Lia Strings.Byte.
From S2P Require Import Prelude Effects Keys Json Wire Frames Ids Protocol PQueue Model JsonTypes Queues Clients Storage Channels Conversations Encodings Aes Server Handler Sending.

(** * The messages of rpc/service.proto

    [Db.ForwardRecvPacketReq] is in Model.v, because it is stored. *)
Definition CMDType : Type := Z.
Definition CMDType_ForwardSendPacket : CMDType := 1.
Definition CMDType_ForwardRecvPacket : CMDType := 2.
Definition CMDType_GetSubscribers : CMDType := 3.
Definition CMDType_GenChannelMessageSeq : CMDType := 4.
Definition Status_Error : Z := 0.
Definition Status_Success : Z := 1.

Record CMDReq := mkCMDReq { Cmd : CMDType; ReqData : list byte }.
Record CMDResp := mkCMDResp { RespStatus : Z; RespData : list byte }.

Record ForwardSendPacketReq := mkForwardSendPacketReq { SendPacketData : list byte; FromUID : string; FromDeviceFlag : Z }.
Record ForwardSendPacketResp := mkForwardSendPacketResp { MessageID : Z; ReasonCode : Z; MessageSeq : Z }.
Record GetSubscribersReq := mkGetSubscribersReq { gs_ChannelID : string; gs_ChannelType : Z }.
Record GetSubscribersResp := mkGetSubscribersResp { Subscribers : list string }.
Record GetChannelMessageSeqReq := mkGetChannelMessageSeqReq { gc_ChannelID : string; gc_ChannelType : Z }.
Record GetChannelMessageSeqResp := mkGetChannelMessageSeqResp { gc_MessageSeq : Z }.

(** Protobuf at one type of messages: what [proto.Marshal] writes,
    [proto.Unmarshal] reads, if the strings are UTF-8 and the integers have
    the width of their fields. *)
Class Proto (A : Type) := { Marshal : A -> outcome (list byte); Unmarshal : list byte -> outcome A }.
Class ProtoLaws (A : Type) `{Proto A} (ok : A -> Prop) : Prop :=
  Unmarshal_Marshal a : ok a -> exists d, Marshal a = Ret d /\ Unmarshal d = Ret a.

Definition send_req_ok (r : ForwardSendPacketReq) : Prop := utf8 (FromUID r) /\ inS 32 (FromDeviceFlag r).
Definition send_resp_ok (r : ForwardSendPacketResp) : Prop :=
  inS 64 (MessageID r) /\ inS 32 (ReasonCode r) /\ inS 32 (MessageSeq r).
Definition recv_req_ok (r : Db.ForwardRecvPacketReq) : Prop :=
  utf8 (Db.ReqNo r) /\ Forall utf8 (Db.Users r) /\ inS 32 (Db.ReqFromDeviceFlag r).
Definition subscribers_req_ok (r : GetSubscribersReq) : Prop := utf8 (gs_ChannelID r) /\ inS 32 (gs_ChannelType r).
Definition subscribers_resp_ok (r : GetSubscribersResp) : Prop := Forall utf8 (Subscribers r).
Definition seq_req_ok (r : GetChannelMessageSeqReq) : Prop := utf8 (gc_ChannelID r) /\ inS 32 (gc_ChannelType r).
Definition seq_resp_ok (r : GetChannelMessageSeqResp) : Prop := inS 32 (gc_MessageSeq r).

(** All the types of messages the calls use. *)
Class Protobuf := {
  #[global] pb_send_req :: Proto ForwardSendPacketReq;
  #[global] pb_send_resp :: Proto ForwardSendPacketResp;
  #[global] pb_recv_req :: Proto Db.ForwardRecvPacketReq;
  #[global] pb_subscribers_req :: Proto GetSubscribersReq;
  #[global] pb_subscribers_resp :: Proto GetSubscribersResp;
  #[global] pb_seq_req :: Proto GetChannelMessageSeqReq;
  #[global] pb_seq_resp :: Proto GetChannelMessageSeqResp
}.
Class ProtobufLaws `{Protobuf} : Prop := {
  #[global] pl_send_req :: ProtoLaws ForwardSendPacketReq send_req_ok;
  #[global] pl_send_resp :: ProtoLaws ForwardSendPacketResp send_resp_ok;
  #[global] pl_recv_req :: ProtoLaws Db.ForwardRecvPacketReq recv_req_ok;
  #[global] pl_subscribers_req :: ProtoLaws GetSubscribersReq subscribers_req_ok;
  #[global] pl_subscribers_resp :: ProtoLaws GetSubscribersResp subscribers_resp_ok;
  #[global] pl_seq_req :: ProtoLaws GetChannelMessageSeqReq seq_req_ok;
  #[global] pl_seq_resp :: ProtoLaws GetChannelMessageSeqResp seq_resp_ok
}.

(** What becomes of a call: gRPC gives the answer, or an error, which says
    nothing about whether the other side has got the request. *)
Inductive fate := Answered | RequestLost | AnswerLost.
Definition ErrUnavailable : error := ErrMsg "rpc error: code = Unavailable".

(** The type assertions: a panic at another type, or [nil]. *)
Definition as_SendPacket (f : option Frame) : outcome Send.SendPacket := match f with Some (FSend p) => Ret p | _ => Panic end.
Definition as_RecvPacket (f : option Frame) : outcome Recv.RecvPacket := match f with Some (FRecv p) => Ret p | _ => Panic end.

(** The reasons with which [handleSendPacketWithFrom] returns an error. *)
Definition failed (code : Frames.ReasonCode) : bool := negb ((code =? ReasonSuccess) || (code =? ReasonSubscriberNotExist)).

Section Service.
Context {C S : Type} `{LRU C Db.Conversation} `{Storage S} `{Crypto} `{Protobuf}.
Context (env : Env).
Implicit Type l : LiMao C S.

(** * The node that is called *)
Definition onForwardSendPacket (now deadline : Z) (data : list byte) : io (LiMao C S) CMDResp :=
  req ← lift (Unmarshal data);
  '(packet, _) ← lift (DecodePacket (SendPacketData req) LatestVersion);
  sendPacket ← lift (as_SendPacket packet);
  r ← OnSendPacket env now deadline (FromUID req) (u8 (FromDeviceFlag req)) sendPacket;
  if failed (r_code r) then raise (ErrMsg "OnSendPacket")
  else
    respData ← lift (Marshal (mkForwardSendPacketResp (r_id r) (i32 (r_code r)) (i32 (r_seq r))));
    mret (mkCMDResp Status_Success respData).

Definition onForwardRecvPacket (data : list byte) : io (LiMao C S) CMDResp :=
  req ← lift (Unmarshal data);
  '(packet, _) ← lift (DecodePacket (Db.ReqMessage req) LatestVersion);
  recvPacket ← lift (as_RecvPacket packet);
  OnRecvPacket env (u8 (Db.ReqFromDeviceFlag req)) recvPacket (Db.Users req) ;;
  mret (mkCMDResp Status_Success []).

Definition onGetSubscribers (data : list byte) : io (LiMao C S) CMDResp :=
  req ← lift (Unmarshal data);
  subscribers ← OnGetSubscribers env (gs_ChannelID req, u8 (gs_ChannelType req));
  respData ← lift (Marshal (mkGetSubscribersResp subscribers));
  mret (mkCMDResp Status_Success respData).

Definition onGetChannelMessageSeq (data : list byte) : io (LiMao C S) CMDResp :=
  req ← lift (Unmarshal data);
  messageSeq ← OnGetChannelMessageSeq (gc_ChannelID req, u8 (gc_ChannelType req));
  respData ← lift (Marshal (mkGetChannelMessageSeqResp (i32 messageSeq)));
  mret (mkCMDResp Status_Success respData).

(** [nodeServiceImp.SendCMD]. *)
Definition serve (now deadline : Z) (req : CMDReq) : io (LiMao C S) CMDResp :=
  if Cmd req =? CMDType_ForwardSendPacket then onForwardSendPacket now deadline (ReqData req)
  else if Cmd req =? CMDType_ForwardRecvPacket then onForwardRecvPacket (ReqData req)
  else if Cmd req =? CMDType_GetSubscribers then onGetSubscribers (ReqData req)
  else if Cmd req =? CMDType_GenChannelMessageSeq then onGetChannelMessageSeq (ReqData req)
  else mret (mkCMDResp Status_Error []).
End Service.

(** * The node that calls *)
Section Calls.
Context {C S : Type} `{LRU C Db.Conversation} `{Storage S} `{Crypto} `{Protobuf}.

(** The environment of each node, and the nodes the cluster manager of the
    caller knows ([GetNodeWithID]). *)
Context (host : Z -> Env) (GetNodeWithID : Z -> bool).
Abbreviation cluster := (gmap Z (LiMao C S)).

(** [NodeRemoteCall.SendCMD], with the other node at the other end. A panic
    there ends its process. *)
Definition SendCMD (f : fate) (now deadline : Z) (nodeID : Z) (cmd : CMDReq) : io cluster CMDResp := fun cl =>
  if negb (GetNodeWithID nodeID) then (Err (ErrMsg "节点不存在！"), cl)
  else
    match cl !! nodeID, f with
    | None, _ | _, RequestLost => (Err ErrUnavailable, cl)
    | Some l, _ =>
        match serve (host nodeID) now deadline cmd l with
        | (Ret resp, l') => (match f with Answered => Ret resp | _ => Err ErrUnavailable end, <[nodeID := l']> cl)
        | (Err e, l') => (Err e, <[nodeID := l']> cl)
        | (Panic, _) => (Err ErrUnavailable, delete nodeID cl)
        end
    end.

(** The callers drop the errors of [proto.Marshal]. *)
Definition GetChannelMessageSeq (f : fate) (now deadline : Z) (c : chan) (nodeID : Z) : io cluster Z :=
  let reqData := encodedOf (Marshal (mkGetChannelMessageSeqReq c.1 (i32 c.2))) in
  resp ← SendCMD f now deadline nodeID (mkCMDReq CMDType_GenChannelMessageSeq reqData);
  r ← lift (Unmarshal (RespData resp));
  mret (u32 (gc_MessageSeq r)).

Definition CallForwardSendPacket (f : fate) (now deadline : Z) (req : ForwardSendPacketReq) (nodeID : Z) :
    io cluster ForwardSendPacketResp :=
  resp ← SendCMD f now deadline nodeID (mkCMDReq CMDType_ForwardSendPacket (encodedOf (Marshal req)));
  if negb (RespStatus resp =? Status_Success) then raise (ErrMsg "转发发送包返回结果失败！")
  else lift (Unmarshal (RespData resp)).

Definition CallForwardRecvPacket (f : fate) (now deadline : Z) (req : Db.ForwardRecvPacketReq) (nodeID : Z) :
    io cluster unit :=
  resp ← SendCMD f now deadline nodeID (mkCMDReq CMDType_ForwardRecvPacket (encodedOf (Marshal req)));
  if negb (RespStatus resp =? Status_Success) then raise (ErrMsg "转发发送包返回结果失败！") else mret tt.

Definition GetSubscribers (f : fate) (now deadline : Z) (c : chan) (nodeID : Z) : io cluster (list string) :=
  let data := encodedOf (Marshal (mkGetSubscribersReq c.1 (i32 c.2))) in
  resp ← SendCMD f now deadline nodeID (mkCMDReq CMDType_GetSubscribers data);
  if negb (RespStatus resp =? Status_Success) then raise (ErrMsg "转发获取订阅者包返回结果失败！")
  else r ← lift (Unmarshal (RespData resp)); mret (Subscribers r).
End Calls.

(** * The subscribers of a channel, by node *)
Section Partition.
Context (getNode : string -> option Z) (self : Z).

Definition on_node (n : Z) (subscribers : list string) : list string := filter (fun s => getNode s = Some n) subscribers.

(** Each other node once, with its subscribers in their order. *)
Definition grouped (subscribers : list string) (groups : list nodeSubscribers) : Prop :=
  NoDup (fst <$> groups) /\
  forall n us, (n, us) ∈ groups <-> n <> self /\ us = on_node n subscribers /\ us <> [].

Lemma add_to_node_names n s groups : fst <$> add_to_node n s groups =
  if decide (n ∈ fst <$> groups) then fst <$> groups else (fst <$> groups) ++ [n].
Proof.
  induction groups as [|[n' us] groups IH]; [done|]. cbn [add_to_node]. destruct (Z.eqb_spec n' n) as [->|Hne].
  - rewrite decide_True by (cbn; set_solver). reflexivity.
  - rewrite !fmap_cons, IH. cbn [fst]. repeat case_decide; set_solver.
Qed.

Lemma add_to_node_elem n s groups n' us : NoDup (fst <$> groups) -> (n', us) ∈ add_to_node n s groups <->
  (n' <> n /\ (n', us) ∈ groups) \/
  (n' = n /\ ((exists us0, (n, us0) ∈ groups /\ us = us0 ++ [s]) \/ (n ∉ fst <$> groups /\ us = [s]))).
Proof.
  induction groups as [|[n1 us1] groups IH]; intros Hd; [cbn; set_solver|].
  cbn [add_to_node]. rewrite fmap_cons in Hd. apply NoDup_cons in Hd as [Hn Hd]. specialize (IH Hd).
  assert (forall us', (n1, us') ∉ groups) as Hout by (intros us' Hi; apply Hn, list_elem_of_fmap; by exists (n1, us')).
  rewrite fmap_cons. destruct (Z.eqb_spec n1 n) as [->|Hne]; repeat setoid_rewrite elem_of_cons; rewrite ?IH; cbn [fst].
  - split.
    + intros [[= -> ->]|Hi]; [right; split; [done|]; left; exists us1; set_solver|].
      left. split; [|by right]. intros ->. by destruct (Hout us).
    + intros [(Hn' & [[= -> ->]|Hi])|(-> & [(us0 & [[= ->]|Hi] & ->)|(Hn' & ->)])]; auto; try done.
      * by destruct (Hout us0).
      * set_solver.
  - split.
    + intros [[= -> ->]|[(Hn' & Hi)|(-> & [(us0 & Hi & ->)|(Hn' & ->)])]]; [left; auto|left; auto|right|right].
      * split; [done|]. left. exists us0. auto.
      * split; [done|]. right. set_solver.
    + intros [(Hn' & [E|Hi])|(-> & [(us0 & [[= <- ->]|Hi] & ->)|(Hn' & ->)])]; auto; try done.
      * right. right. split; [done|]. left. by exists us0.
      * right. right. split; [done|]. right. set_solver.
Qed.

Lemma on_node_snoc n us s : on_node n (us ++ [s]) = on_node n us ++ (if decide (getNode s = Some n) then [s] else []).
Proof. unfold on_node. by rewrite filter_app. Qed.

Lemma grouped_add us groups n s : grouped us groups -> getNode s = Some n -> n <> self ->
  grouped (us ++ [s]) (add_to_node n s groups).
Proof.
  intros [Hd Hg] Hs Hne. assert (n ∈ fst <$> groups <-> on_node n us <> []) as Hin.
  { rewrite list_elem_of_fmap. split.
    - intros ([n' us'] & -> & Hi). by apply Hg in Hi as (_ & -> & ?).
    - intros Hx. exists (n, on_node n us). split; [done|]. by apply Hg. }
  split.
  - rewrite add_to_node_names. case_decide; [done|]. apply NoDup_app. split; [done|]. split; [set_solver|].
    apply NoDup_singleton.
  - intros n' us'. rewrite add_to_node_elem by done. rewrite on_node_snoc, Hs. split.
    + intros [(Hn & Hi)|(-> & [(us0 & Hi & ->)|(Hn & ->)])].
      * apply Hg in Hi as (? & -> & ?). rewrite decide_False by congruence. by rewrite app_nil_r.
      * apply Hg in Hi as (? & -> & ?). rewrite decide_True by done. split; [done|]. split; [done|]. by destruct (on_node n us).
      * rewrite decide_True by done. rewrite Hin in Hn. destruct (on_node n us) as [|x r]; [done|]. by destruct Hn.
    + intros (Hn' & -> & Hx). destruct (decide (n' = n)) as [->|Hnn].
      * right. split; [done|]. rewrite decide_True by done. destruct (on_node n us) as [|x r] eqn:E.
        -- right. split; [|done]. rewrite Hin. by intros ?.
        -- left. exists (x :: r). split; [|done]. apply Hg. by rewrite E.
      * left. split; [done|]. rewrite decide_False in * by congruence. rewrite app_nil_r in *. by apply Hg.
Qed.

Lemma grouped_nil : grouped [] [].
Proof. split; [apply NoDup_nil_2|]. intros n us. unfold on_node. rewrite filter_nil. set_solver. Qed.

Lemma calNodeSubscribers_loop_spec rest : forall us local groups, Forall (fun s => is_Some (getNode s)) rest ->
  local = on_node self us -> grouped us groups ->
  exists groups', calNodeSubscribers_loop getNode self rest local groups = Ret (on_node self (us ++ rest), groups') /\
    grouped (us ++ rest) groups'.
Proof.
  induction rest as [|s rest IH]; intros us local groups Hs Hl Hg; cbn [calNodeSubscribers_loop].
  - exists groups. rewrite app_nil_r. by subst.
  - apply Forall_cons in Hs as [[n Hn] Hs]. rewrite Hn. rewrite (cons_middle s us rest), app_assoc.
    destruct (Z.eqb_spec n self) as [->|Hne].
    + apply IH; [done| |].
      * rewrite on_node_snoc, Hn, decide_True by done. by subst.
      * destruct Hg as [Hd Hg]. split; [done|]. intros n us'. rewrite Hg, on_node_snoc, Hn.
        destruct (decide (n = self)) as [->|Hx]; [tauto|]. by rewrite decide_False, app_nil_r by congruence.
    + apply IH; [done| |by apply grouped_add].
      rewrite on_node_snoc, Hn, decide_False by congruence. by rewrite app_nil_r.
Qed.

Lemma calNodeSubscribers_spec subscribers : Forall (fun s => is_Some (getNode s)) subscribers ->
  exists groups, calNodeSubscribers getNode self subscribers = Ret (on_node self subscribers, groups) /\
    grouped subscribers groups.
Proof. intros Hs. by apply (calNodeSubscribers_loop_spec subscribers [] [] []); [|symmetry; apply filter_nil|apply grouped_nil]. Qed.
End Partition.

(** * A message for the subscribers on every node *)

(** A message for which the queues of the users are not touched is handed to
    the counting of conversations and to the delivery. *)
Section Handed.
Context {C S : Type} `{LRU C Db.Conversation} `{Storage S} `{Crypto}.
Implicit Type l : LiMao C S.

Definition handed (env : Env) (m : Lim.Message) (subscribers : list string) l : LiMao C S :=
  let l1 := set_l_conversations (snd (PushMessage m subscribers (l_conversations l))) l in
  if e_pool env (l_deliveries l) then set_l_deliveries (l_deliveries l ++ [mkDelivery m ∅ subscribers]) l1 else l1.

Lemma no_user_queue (m : Lim.Message) us seqs l : to_user_queue m = false ->
  storeMessageToUserQueueIfNeed_loop m us seqs l = (Ret seqs, l).
Proof. intros Hm. induction us as [|u us IH]; cbn [storeMessageToUserQueueIfNeed_loop]; [done|]. by rewrite Hm. Qed.

Lemma handleLocal_handed env m us l : to_user_queue m = false -> handleLocal env m us l = (Ret tt, handed env m us l).
Proof.
  intros Hm. unfold handleLocal, handleLocalSubscribersMessage, storeMessageToUserQueueIfNeed.
  io_step (no_user_queue m us ∅ l Hm). unfold handed, pushMessage, zoom.
  destruct (PushMessage m us (l_conversations l)) as [o cm] eqn:E.
  assert (o = Ret tt) as ->.
  { revert E. unfold PushMessage. case_bool_decide; [by intros [= <- _]|]. destruct (_ || _); by intros [= <- _]. }
  unfold mbind, io_bind, startDeliveryMsg, modify. rewrite E. cbn [snd l_deliveries set_l_conversations].
  by destruct (e_pool env (l_deliveries l)).
Qed.

Lemma handed_set_nodes env m us q i l :
  handed env m us (set_l_ids i (set_l_nodes q l)) = set_l_ids i (set_l_nodes q (handed env m us l)).
Proof. unfold handed. cbn [l_deliveries l_conversations set_l_ids set_l_nodes]. by destruct (e_pool env (l_deliveries l)). Qed.
End Handed.

(** The requests in the queue, as they are stored when the server stops. *)
Definition waiting (q : inflight Lim.NodeInFlightData) : list (option Db.NodeInFlightDataModel) :=
  (fun a => Lim.NodeInFlightDataModel <$> store (inFlightPQ q) !! a) <$> pq (inFlightPQ q).

Lemma strip_model (s s' : gmap loc Lim.NodeInFlightData) a : strip s' = strip s ->
  Lim.NodeInFlightDataModel <$> s' !! a = Lim.NodeInFlightDataModel <$> s !! a.
Proof.
  intros Hs. apply (f_equal (fun s => s !! a)) in Hs. rewrite !strip_lookup in Hs.
  destruct (s !! a) as [[]|], (s' !! a) as [[]|]; try discriminate; [|done]. by injection Hs as ->.
Qed.

Section Deliver.
Context {C S : Type} `{LRU C Db.Conversation} `{Storage S} `{Crypto}.
Context (env : Env).
Implicit Type l : LiMao C S.

(** A request that was answered leaves the queue of the node as it was, and
    another one waits in it. *)
Lemma deliver_waits deadline d l (ok := ForwardRecvPacket env d) : in_flight_ok (l_nodes l) ->
  inFlightMessages (l_nodes l) !! qkey d = None ->
  exists q, deliverNodeData env deadline d l = (Ret tt, set_l_nodes q l) /\ in_flight_ok q /\
    waiting q ≡ₚ (if ok then [] else [Some (Lim.NodeInFlightDataModel d)]) ++ waiting (l_nodes l) /\
    forall k, k <> qkey d -> inFlightMessages q !! k = inFlightMessages (l_nodes l) !! k.
Proof.
  intros Hok Hk. unfold deliverNodeData. cbv zeta. set (h := inFlightPQ (l_nodes l)). set (a := fresh (dom (store h))).
  assert (a ∉ pq h) as Ha.
  { intros Hi. destruct (wf_lookup _ a (if_wf _ Hok) Hi) as (i & x & _ & Hx & _).
    apply (is_fresh (dom (store h))), elem_of_dom. by exists x. }
  pose proof (in_flight_store a d (l_nodes l) Hok Ha) as Hok1. fold h in Hok1. set (q1 := with_PQ _ _) in *.
  destruct (delivery_stored deadline ok a d q1 Hok1) as (q & E & Hq & Hp & _ & _ & Hs & Hm);
    [done|unfold q1; cbn; apply lookup_insert_eq|done|].
  fold ok. rewrite E. exists q. split; [done|]. split; [done|]. split.
  - unfold waiting. rewrite Hp. change (pq (inFlightPQ q1)) with (pq h).
    assert (forall b, b <> a -> Lim.NodeInFlightDataModel <$> store (inFlightPQ q) !! b = Lim.NodeInFlightDataModel <$> store h !! b) as Hb.
    { intros b Hb. rewrite (strip_model _ _ b Hs). unfold q1. cbn [with_PQ inFlightPQ store].
      by rewrite !lookup_insert_ne by congruence. }
    assert ((fun b => Lim.NodeInFlightDataModel <$> store (inFlightPQ q) !! b) <$> pq h =
      (fun b => Lim.NodeInFlightDataModel <$> store h !! b) <$> pq h) as E'.
    { apply list_fmap_ext. intros i b Hi. apply Hb. intros ->. apply Ha. by apply list_elem_of_lookup_2 in Hi. }
    destruct ok; [by rewrite E'|]. rewrite fmap_cons, E', (strip_model _ _ a Hs), lookup_insert_eq. by destruct d.
  - intros k Hne. rewrite Hm. destruct ok; [done|]. by rewrite lookup_insert_ne.
Qed.

(** The request [forwardToNode] makes, from the UUIDs [i] and [i + 1]. *)
Definition request (i : nat) (m : Lim.Message) (data : list byte) (g : nodeSubscribers) : Lim.NodeInFlightData :=
  Lim.mkNodeInFlightData (Db.mkNodeInFlightDataModel (uuids env (Datatypes.S i)) (fst g)
    (Db.mkForwardRecvPacketReq (uuids env i) (snd g) data (i32 (Lim.fromDeviceFlag m)))) 0 0.

Lemma forwardToNode_delivers deadline m data g l : forwardToNode env deadline m data g l =
  deliverNodeData env deadline (request (l_ids l) m data g) (set_l_ids (Datatypes.S (Datatypes.S (l_ids l))) l).
Proof. reflexivity. Qed.
End Deliver.

Section Cluster.
Context {C S : Type} `{LRU C Db.Conversation} `{Storage S} `{Crypto} `{ProtobufLaws}.

(** The fate of the calls to each node. *)
Context (host : Z -> Env) (GetNodeWithID : Z -> bool) (fates : Z -> fate) (now deadline : Z).
Abbreviation cluster := (gmap Z (LiMao C S)).
Implicit Type cl : cluster.

Definition call (d : Lim.NodeInFlightData) : io cluster unit :=
  let model := Lim.NodeInFlightDataModel d in
  CallForwardRecvPacket host GetNodeWithID (fates (Db.NodeID model)) now deadline (Db.Req model) (Db.NodeID model).
Definition answer_to_send (data : list byte) (from : string) (flag : DeviceFlag) (nodeID : Z) :
    io cluster (Z * Z * Frames.ReasonCode) :=
  r ← CallForwardSendPacket host GetNodeWithID (fates nodeID) now deadline (mkForwardSendPacketReq data from flag) nodeID;
  mret (MessageID r, MessageSeq r, ReasonCode r).

Definition returned {A} (o : outcome A) : bool := match o with Ret _ => true | _ => false end.

(** The environment of a node whose calls reach the others as they are now. *)
Definition with_cluster cl (env : Env) : Env :=
  mkEnv (e_opts env) (e_datasource env) (e_pool env) (messageIDs env) (uuids env) (GetNode env)
    (fun data from flag nodeID => fst (answer_to_send data from flag nodeID cl))
    (fun d => returned (fst (call d cl))).

(** An operation of one node. *)
Definition at_node (self : Z) (m : io (LiMao C S) unit) : io cluster unit := fun cl =>
  match cl !! self with
  | None => (Ret tt, cl)
  | Some l => let '(o, l') := m l in (o, <[self := l']> cl)
  end.

(** [forwardToNode] on the node [self], and its call at the other node. *)
Definition forwardToNode_in (self : Z) (m : Lim.Message) (data : list byte) (g : nodeSubscribers) : io cluster unit :=
  fun cl =>
    match cl !! self with
    | None => (Ret tt, cl)
    | Some l =>
        let '(o, l') := forwardToNode (with_cluster cl (host self)) deadline m data g l in
        (o, <[self := l']> (snd (call (request (host self) (l_ids l) m data g) cl)))
    end.

(** [PutMessage] on the node [self] of a cluster. *)
Definition PutMessage_in (self : Z) (c : Channel) (m : Lim.Message) : io cluster unit :=
  let env := host self in
  let subscribers := if bool_decide (length (Lim.Subscribers m) = 0%nat) then GetAllSubscribers c
                     else Lim.Subscribers m in
  '(local, others) ← lift (calNodeSubscribers (GetNode env) (NodeID (e_opts env)) subscribers);
  let recvPacketData := encodedOf (EncodePacket (FRecv (Lim.RecvPacket m)) LatestVersion) in
  for_each (forwardToNode_in self m recvPacketData) others ;;
  if bool_decide (length local = 0%nat) then mret tt else at_node self (handleLocal env m local).

Lemma marshalled {A} `{ProtoLaws A ok} a : ok a -> Unmarshal (encodedOf (Marshal a)) = Ret a.
Proof. intros Ha. by destruct (Unmarshal_Marshal a Ha) as (d & -> & ?). Qed.

(** The message as another node gets it. *)
Definition forwarded (m : Lim.Message) : Lim.Message :=
  let r := Lim.RecvPacket m in
  Lim.mkMessage (Recv.on_wire (wire_framer (FRecv r) LatestVersion) LatestVersion r) EmptyString []
    (Lim.fromDeviceFlag m) 0 0 0.
Definition recv_data (m : Lim.Message) : list byte := encodedOf (EncodePacket (FRecv (Lim.RecvPacket m)) LatestVersion).

(** What a message must be to be carried to another node. *)
Record portable (m : Lim.Message) : Prop := {
  po_sendable : sendable LatestVersion (FRecv (Lim.RecvPacket m));
  po_flag : inU 8 (Lim.fromDeviceFlag m);
  po_queue : to_user_queue m = false
}.

Lemma decode_sent f : sendable LatestVersion f ->
  DecodePacket (encodedOf (EncodePacket f LatestVersion)) LatestVersion =
    Ret (Some (received LatestVersion f), zlen (encodedOf (EncodePacket f LatestVersion))).
Proof.
  intros Hs. destruct (EncodePacket_total _ _ Hs) as [data E]. rewrite E. cbn [encodedOf].
  rewrite <- (app_nil_r data) at 1. by apply DecodePacket_encoded.
Qed.

Lemma flag_carried z : inU 8 z -> u8 (i32 z) = z.
Proof. intros Hz. rewrite (wrapS_id 32) by (unfold inU, inS in *; lia). by apply wrapU_id. Qed.

Definition recv_req (no : string) (m : Lim.Message) (us : list string) : Db.ForwardRecvPacketReq :=
  Db.mkForwardRecvPacketReq no us (recv_data m) (i32 (Lim.fromDeviceFlag m)).

Lemma recv_req_carried no m us : utf8 no -> Forall utf8 us -> inU 8 (Lim.fromDeviceFlag m) ->
  Unmarshal (encodedOf (Marshal (recv_req no m us))) = Ret (recv_req no m us).
Proof.
  intros Hn Hu Hf. apply marshalled. split; [done|]. split; [done|]. cbn. rewrite (wrapS_id 32) by (unfold inU, inS in *; lia).
  unfold inU, inS in *. lia.
Qed.

Lemma serve_recv env no m us (l : LiMao C S) : portable m -> utf8 no -> Forall utf8 us ->
  serve env now deadline (mkCMDReq CMDType_ForwardRecvPacket (encodedOf (Marshal (recv_req no m us)))) l =
    (Ret (mkCMDResp Status_Success []), handed env (forwarded m) us l).
Proof.
  intros [Hs Hf Hq] Hn Hu. unfold serve. cbn [Cmd ReqData]. change (_ =? CMDType_ForwardSendPacket) with false.
  change (_ =? CMDType_ForwardRecvPacket) with true. cbv iota. unfold onForwardRecvPacket.
  assert (forall {A} (o : outcome A) a (s : LiMao C S), o = Ret a -> lift o s = (Ret a, s)) as Hlift by (by intros A o a s ->).
  io_step (Hlift _ _ _ l (recv_req_carried no m us Hn Hu Hf)). cbn [recv_req Db.ReqMessage].
  io_step (Hlift _ _ _ l (decode_sent _ Hs)). cbn [received frame_on_wire as_RecvPacket].
  cbn [recv_req Db.ReqFromDeviceFlag Db.Users]. rewrite flag_carried by done. unfold OnRecvPacket.
  assert (to_user_queue (forwarded m) = false) as Hq' by (rewrite <- Hq; reflexivity).
  unfold mbind, io_bind, lift. by rewrite (handleLocal_handed env (forwarded m) us l Hq').
Qed.

(** The calls that reach node [n], and those whose answer comes back. *)
Definition reaches (n : Z) : bool := GetNodeWithID n && match fates n with RequestLost => false | _ => true end.
Definition answers cl (n : Z) : bool :=
  GetNodeWithID n && match fates n with Answered => true | _ => false end && bool_decide (is_Some (cl !! n)).

Lemma SendCMD_served cmd resp (f : LiMao C S -> LiMao C S) n cl :
  (forall l, serve (host n) now deadline cmd l = (Ret resp, f l)) ->
  SendCMD host GetNodeWithID (fates n) now deadline n cmd cl =
    (if answers cl n then Ret resp else fst (SendCMD host GetNodeWithID (fates n) now deadline n cmd cl),
     if reaches n then alter f n cl else cl) /\
  (answers cl n = false -> exists e, fst (SendCMD host GetNodeWithID (fates n) now deadline n cmd cl) = Err e).
Proof.
  intros Hs. unfold SendCMD, answers, reaches. destruct (GetNodeWithID n); cbn [negb andb]; [|by eauto].
  destruct (cl !! n) as [l|] eqn:E.
  - rewrite bool_decide_true by eauto. assert (alter f n cl = <[n := f l]> cl) as ->.
    { apply map_eq. intros k. destruct (decide (n = k)) as [<-|Hne];
        [by rewrite lookup_alter_eq, lookup_insert_eq, E|by rewrite lookup_alter_ne, lookup_insert_ne]. }
    rewrite Hs. by destruct (fates n); eauto.
  - rewrite bool_decide_false by (intros [? ?]; done). rewrite andb_false_r.
    assert (alter f n cl = cl) as -> by (by apply alter_id'). by destruct (fates n); eauto.
Qed.

Lemma call_served no reqNo m us n cl : portable m -> utf8 reqNo -> Forall utf8 us ->
  let d := Lim.mkNodeInFlightData (Db.mkNodeInFlightDataModel no n (recv_req reqNo m us)) 0 0 in
  returned (fst (call d cl)) = answers cl n /\
  snd (call d cl) = if reaches n then alter (handed (host n) (forwarded m) us) n cl else cl.
Proof.
  intros Hp Hn Hu d. destruct (SendCMD_served _ _ (handed (host n) (forwarded m) us) n cl
    (fun l => serve_recv (host n) reqNo m us l Hp Hn Hu)) as [E Herr].
  unfold call, CallForwardRecvPacket. cbn [d Lim.NodeInFlightDataModel Db.NodeID Db.Req].
  unfold mbind, io_bind. rewrite E. destruct (answers cl n); [done|]. destruct (Herr eq_refl) as [e ->]. done.
Qed.

(** ** What a message brings about *)
Section Message.
Context (self : Z) (m : Lim.Message) (subs : list string) cl (l : LiMao C S).
Let env := host self.
Let at_n n := on_node (GetNode env) n subs.

(** The UUIDs from now on are new ones. *)
Record new_uuids : Prop := {
  nu_utf8 i : utf8 (uuids env i);
  nu_inj i j : uuids env i = uuids env j -> i = j;
  nu_fresh i : (l_ids l <= i)%nat -> inFlightMessages (l_nodes l) !! uuids env i = None
}.

Definition requests (groups : list nodeSubscribers) : list Lim.NodeInFlightData :=
  imap (fun j g => request env (l_ids l + 2 * j) m (recv_data m) g) groups.

(** The requests that are not answered, and are tried again. *)
Definition unanswered (groups : list nodeSubscribers) : list (option Db.NodeInFlightDataModel) :=
  (fun d => Some (Lim.NodeInFlightDataModel d)) <$>
    filter (fun d => answers cl (Db.NodeID (Lim.NodeInFlightDataModel d)) = false) (requests groups).

(** The other nodes and the own one, when the groups [gs] have been served. *)
Record served (gs : list nodeSubscribers) (cl' : cluster) : Prop := {
  sv_others n : n <> self -> cl' !! n =
    (fun ln => if reaches n && bool_decide (n ∈ fst <$> gs) then handed (host n) (forwarded m) (at_n n) ln else ln) <$> cl !! n;
  sv_self : exists q, cl' !! self = Some (set_l_ids (l_ids l + 2 * length gs) (set_l_nodes q l)) /\ in_flight_ok q /\
    waiting q ≡ₚ unanswered gs ++ waiting (l_nodes l) /\
    forall i, (l_ids l + 2 * length gs <= i)%nat -> inFlightMessages q !! uuids env i = None
}.

Lemma unanswered_snoc (gs : list nodeSubscribers) g : unanswered (gs ++ [g]) = unanswered gs ++
  (if answers cl (fst g) then [] else [Some (Lim.NodeInFlightDataModel (request env (l_ids l + 2 * length gs) m (recv_data m) g))]).
Proof.
  unfold unanswered, requests. rewrite imap_app, filter_app, fmap_app. f_equal. cbn [imap].
  rewrite filter_cons, filter_nil. cbn [compose]. rewrite Nat.add_0_r. cbn [request Lim.NodeInFlightDataModel Db.NodeID].
  by destruct (answers cl (fst g)).
Qed.

Lemma serve_group (gs : list nodeSubscribers) n us cl' : portable m -> new_uuids -> Forall utf8 us -> us = at_n n -> n <> self ->
  n ∉ fst <$> gs -> served gs cl' ->
  exists cl2, forwardToNode_in self m (recv_data m) (n, us) cl' = (Ret tt, cl2) /\ served (gs ++ [(n, us)]) cl2.
Proof.
  intros Hp Hu Hutf Hus Hn Hin [Ho (q & El & Hq & Hw & Hfr)].
  unfold forwardToNode_in. rewrite El, forwardToNode_delivers. set (i := (l_ids l + 2 * length gs)%nat) in *.
  cbn [l_ids set_l_ids set_l_nodes]. fold env.
  change (request (with_cluster cl' env)) with (request env). set (d := request env i m (recv_data m) (n, us)).
  destruct (call_served (uuids env (Datatypes.S i)) (uuids env i) m us n cl' Hp (nu_utf8 Hu i) Hutf) as [Ea Es].
  change (Lim.mkNodeInFlightData _ 0 0) with d in Ea, Es.
  destruct (deliver_waits (with_cluster cl' env) deadline d
    (set_l_ids (Datatypes.S (Datatypes.S i)) (set_l_ids i (set_l_nodes q l)))) as (q2 & E & Hq2 & Hw2 & Hk2);
    [done|apply (Hfr (Datatypes.S i)); unfold i; lia|].
  rewrite E, Es. cbn [ForwardRecvPacket with_cluster l_nodes set_l_ids set_l_nodes] in Hw2, Hk2.
  eexists. split; [reflexivity|]. assert (answers cl' n = answers cl n) as Ean.
  { unfold answers. f_equal. f_equal. apply bool_decide_ext. rewrite Ho, fmap_is_Some by done. done. }
  split.
  - intros k Hk. rewrite lookup_insert_ne by done. rewrite fmap_app. cbn [fmap list_fmap fst].
    destruct (decide (k = n)) as [->|Hkn].
    + rewrite (bool_decide_true (n ∈ _ ++ [n])) by set_solver. rewrite andb_true_r.
      destruct (reaches n) eqn:Er.
      * rewrite lookup_alter_eq, Ho by done. rewrite (bool_decide_false (n ∈ _)) by done. rewrite andb_false_r.
        rewrite <- option_fmap_compose. subst us. by destruct (cl !! n).
      * rewrite Ho by done. by rewrite Er.
    + rewrite (bool_decide_ext (k ∈ _ ++ [n]) (k ∈ fst <$> gs)) by set_solver.
      destruct (reaches n); [rewrite lookup_alter_ne by done|]; by apply Ho.
  - exists q2. rewrite lookup_insert_eq, length_app. cbn [length].
    replace (l_ids l + 2 * (length gs + 1))%nat with (Datatypes.S (Datatypes.S i)) by (unfold i; lia).
    split; [done|]. split; [done|]. split.
    + rewrite Hw2, Ea, Ean, Hw, unanswered_snoc. fold i d. cbn [fst]. rewrite !app_assoc. f_equiv.
      apply Permutation_app_comm.
    + intros j Hj. rewrite Hk2; [apply Hfr; lia|]. intros Ej%(nu_inj Hu). unfold i in Ej. lia.
Qed.

Lemma serve_groups gs : cl !! self = Some l -> in_flight_ok (l_nodes l) -> portable m -> new_uuids ->
  Forall utf8 subs -> grouped (GetNode env) self subs gs ->
  exists cl2, for_each (forwardToNode_in self m (recv_data m)) gs cl = (Ret tt, cl2) /\ served gs cl2.
Proof.
  intros El Hq Hp Hu Hutf [Hd Hg]. apply (for_each_inv _ served).
  - intros [n us] gs1 gs2 cl1 E Hs. assert ((n, us) ∈ gs) as Hin by (rewrite E; set_solver).
    apply Hg in Hin as (Hn & Hus & _). apply serve_group; try done.
    + subst us. apply Forall_forall. intros s (_ & Hs')%list_elem_of_filter. by apply (proj1 (Forall_forall _ _) Hutf).
    + rewrite E, fmap_app, fmap_cons in Hd. apply NoDup_app in Hd as (_ & Hd & _). intros Hi. apply (Hd n Hi). cbn. set_solver.
  - split.
    + intros n Hn. rewrite bool_decide_false by (cbn; set_solver). rewrite andb_false_r. by destruct (cl !! n).
    + exists (l_nodes l). rewrite El. cbn [length]. rewrite Nat.mul_0_r, Nat.add_0_r. split; [by destruct l|].
      split; [done|]. split; [done|]. intros i Hi. apply (nu_fresh Hu). lia.
Qed.
End Message.

(** The subscribers a message goes to. *)
Definition addressees (c : Channel) (m : Lim.Message) : list string :=
  if bool_decide (length (Lim.Subscribers m) = 0%nat) then GetAllSubscribers c else Lim.Subscribers m.


(** ** Sending to a channel of another node *)

(** The packet as the other node gets it. *)
Definition send_received (p : Send.SendPacket) : Send.SendPacket :=
  Send.on_wire (wire_framer (FSend p) LatestVersion) LatestVersion p.

Lemma send_received_same env from flag p (l : LiMao C S) :
  handleSendPacketWithFrom env now deadline from flag (send_received p) l =
    handleSendPacketWithFrom env now deadline from flag p l.
Proof. by destruct p as [fr [receipt] key seq no ch ty payload]. Qed.

(** The id and the number of a result have the width of their types. *)
Definition result_ok (r : sendResult) : Prop := inS 64 (r_id r) /\ inU 32 (r_seq r) /\ inU 8 (r_code r).

Lemma result_carried r : result_ok r ->
  let resp := mkForwardSendPacketResp (r_id r) (i32 (r_code r)) (i32 (r_seq r)) in
  Unmarshal (encodedOf (Marshal resp)) = Ret resp /\ is_Ret (Marshal resp) /\
  mkSendResult (MessageID resp) (u32 (MessageSeq resp)) (u8 (ReasonCode resp)) = r.
Proof.
  intros (Hi & Hs & Hc) resp. assert (send_resp_ok resp) as Hok.
  { split; [done|]. split; apply (wrapS_range 32); lia. }
  split; [by apply marshalled|]. split; [by destruct (Unmarshal_Marshal _ Hok) as (d & -> & _); eexists|].
  unfold resp. cbn [MessageID MessageSeq ReasonCode]. rewrite flag_carried by done.
  destruct r as [id seq code]. f_equal. cbn. rewrite (wrapU_wrapS 32) by lia. by apply wrapU_id.
Qed.

Definition send_req (p : Send.SendPacket) (c : Client) : ForwardSendPacketReq :=
  mkForwardSendPacketReq (encodedOf (EncodePacket (FSend p) LatestVersion)) (uid c) (i32 (deviceFlag c)).

(** What the node that was called answers. *)
Lemma serve_send env p c (l : LiMao C S) r l' : sendable LatestVersion (FSend p) -> utf8 (uid c) -> inU 8 (deviceFlag c) ->
  handleSendPacketWithFrom env now deadline (uid c) (deviceFlag c) p l = (Ret r, l') -> result_ok r ->
  serve env now deadline (mkCMDReq CMDType_ForwardSendPacket (encodedOf (Marshal (send_req p c)))) l =
    (if failed (r_code r) then Err (ErrMsg "OnSendPacket")
     else Ret (mkCMDResp Status_Success (encodedOf (Marshal (mkForwardSendPacketResp (r_id r) (i32 (r_code r)) (i32 (r_seq r)))))), l').
Proof.
  intros Hs Hutf Hf Eh Hr. unfold serve. cbn [Cmd ReqData]. change (_ =? CMDType_ForwardSendPacket) with true.
  cbv iota. unfold onForwardSendPacket.
  assert (forall {A} (o : outcome A) a (s : LiMao C S), o = Ret a -> lift o s = (Ret a, s)) as Hlift by (by intros A o a s ->).
  assert (send_req_ok (send_req p c)) as Hok by (split; [done|apply (wrapS_range 32); lia]).
  io_step (Hlift _ _ _ l (marshalled _ Hok)). cbn [send_req SendPacketData FromUID FromDeviceFlag].
  io_step (Hlift _ _ _ l (decode_sent _ Hs)). cbn [received frame_on_wire as_SendPacket]. fold (send_received p).
  io_step (Hlift _ (Ret (send_received p)) _ l eq_refl).
  rewrite flag_carried by done. unfold OnSendPacket. rewrite <- send_received_same in Eh. io_step Eh.
  destruct (failed (r_code r)); [done|]. destruct (result_carried r Hr) as (_ & [d Ed] & _).
  io_step (Hlift _ _ _ l' Ed). by rewrite Ed.
Qed.

(** C39: a message a client of the node sends to a channel of node [n] is
    handled there as if it had been sent there, unless the request gets lost;
    the client is told what node [n] decided when the answer comes back and
    the decision is not one of the refusals that are errors
    ([ReasonNotAllowSend] among them), and [ReasonError] under another id
    otherwise, also when the message has been stored. *)
Theorem forwarded_send_answers self n messageID c p cl (l : LiMao C S) ln r ln' (env := with_cluster cl (host self)) :
  IsCluster (e_opts env) = true -> placed env (uid c) = Here ->
  GetNode env (fakeChannel (uid c) p) = Some n -> n <> NodeID (e_opts env) ->
  GetNodeWithID n = true -> cl !! n = Some ln ->
  sendable LatestVersion (FSend p) -> utf8 (uid c) -> inU 8 (deviceFlag c) ->
  handleSendPacketWithFrom (host n) now deadline (uid c) (deviceFlag c) p ln = (Ret r, ln') -> result_ok r ->
  snd (answer_to_send (SendPacketData (send_req p c)) (uid c) (i32 (deviceFlag c)) n cl) =
    (if reaches n then <[n := ln']> cl else cl) /\
  routeSend env now deadline messageID c p l =
    WritePacket c (sendack p (if answers cl n && negb (failed (r_code r)) then r else mkSendResult messageID 0 ReasonError)) l.
Proof.
  intros Hc Hpl Hg Hne Hk En Hs Hutf Hf Eh Hr.
  assert (answer_to_send (SendPacketData (send_req p c)) (uid c) (i32 (deviceFlag c)) n cl =
    (if answers cl n && negb (failed (r_code r)) then Ret (r_id r, i32 (r_seq r), i32 (r_code r))
     else Err (if failed (r_code r) && reaches n then ErrMsg "OnSendPacket" else ErrUnavailable),
     if reaches n then <[n := ln']> cl else cl)) as Ea.
  { unfold answer_to_send, CallForwardSendPacket.
    change (mkForwardSendPacketReq (SendPacketData (send_req p c)) (uid c) (i32 (deviceFlag c))) with (send_req p c). unfold mbind, io_bind, SendCMD, answers, reaches.
    rewrite Hk, En, bool_decide_true by eauto. cbn [negb andb].
    rewrite (serve_send (host n) p c ln r ln' Hs Hutf Hf Eh Hr).
    destruct (result_carried r Hr) as (Eu & _ & _). cbv zeta in Eu.
    destruct (fates n), (failed (r_code r)); try reflexivity.
    cbn [RespStatus RespData andb negb]. change (Status_Success =? Status_Success) with true. cbn [negb]. unfold lift. by rewrite Eu. }
  split; [by rewrite Ea|]. unfold routeSend. rewrite Hpl, Hc. cbn [negb]. rewrite Hg, (proj2 (Z.eqb_neq _ _)) by done.
  cbn [ForwardSendPacket env with_cluster]. cbn [send_req SendPacketData] in Ea. rewrite Ea. cbn [fst].
  destruct (answers cl n && negb (failed (r_code r))); [|done]. destruct (result_carried r Hr) as (_ & _ & Er). cbv zeta in Er.
  cbn [MessageID MessageSeq ReasonCode] in Er. by rewrite Er.
Qed.

(** An empty packet, which is what an absent field reads as, ends the process
    of the node that is called. *)
Lemma empty_request_crashes n cl (l : LiMao C S) data req : GetNodeWithID n = true -> reaches n = true -> cl !! n = Some l ->
  Unmarshal data = Ret req -> SendPacketData req = [] ->
  SendCMD host GetNodeWithID (fates n) now deadline n (mkCMDReq CMDType_ForwardSendPacket data) cl =
    (Err ErrUnavailable, delete n cl).
Proof.
  intros Hk Hr El Eu Ed. unfold SendCMD. rewrite Hk, El. cbn [negb].
  assert (serve (host n) now deadline (mkCMDReq CMDType_ForwardSendPacket data) l = (Panic, l)) as ->.
  { unfold serve. cbn [Cmd ReqData]. change (_ =? CMDType_ForwardSendPacket) with true. cbv iota.
    unfold onForwardSendPacket, mbind, io_bind, lift. by rewrite Eu, Ed. }
  unfold reaches in Hr. rewrite Hk in Hr. by destruct (fates n).
Qed.
End Cluster.

(** * Two nodes *)

(** Any countable type can be written as bytes: the binary digits of its
    code. *)
Fixpoint digits (p : positive) : list byte :=
  match p with xH => [] | xO q => x00 :: digits q | xI q => x01 :: digits q end.
Fixpoint number (l : list byte) : positive :=
  match l with [] => xH | b :: l' => if bool_decide (b = x00) then xO (number l') else xI (number l') end.
Definition countable_proto {A} `{Countable A} : Proto A := {|
  Marshal a := Ret (digits (encode a));
  Unmarshal d := match decode (number d) with Some a => Ret a | None => Err (ErrMsg "proto") end
|}.

Lemma number_digits p : number (digits p) = p.
Proof. induction p as [q IH|q IH|]; cbn [digits number]; [|by rewrite bool_decide_true, IH by done|done]. by rewrite bool_decide_false, IH by done. Qed.

Lemma countable_laws {A} `{Countable A} ok : @ProtoLaws A countable_proto ok.
Proof. intros a _. eexists. split; [reflexivity|]. cbn. by rewrite number_digits, decode_encode. Qed.

#[local] Instance bytes_countable : Countable (list byte) :=
  inj_countable' string_of_bytes bytes_of_string bytes_of_string_of_bytes.
#[local] Instance send_req_eq : EqDecision ForwardSendPacketReq.
Proof. solve_decision. Defined.
#[local] Instance send_req_countable : Countable ForwardSendPacketReq.
Proof.
  by refine (inj_countable' (fun r => (SendPacketData r, FromUID r, FromDeviceFlag r))
    (fun x => mkForwardSendPacketReq x.1.1 x.1.2 x.2) _); intros [].
Defined.
#[local] Instance send_resp_eq : EqDecision ForwardSendPacketResp.
Proof. solve_decision. Defined.
#[local] Instance send_resp_countable : Countable ForwardSendPacketResp.
Proof.
  by refine (inj_countable' (fun r => (MessageID r, ReasonCode r, MessageSeq r))
    (fun x => mkForwardSendPacketResp x.1.1 x.1.2 x.2) _); intros [].
Defined.
#[local] Instance recv_req_eq : EqDecision Db.ForwardRecvPacketReq.
Proof. solve_decision. Defined.
#[local] Instance recv_req_countable : Countable Db.ForwardRecvPacketReq.
Proof.
  by refine (inj_countable' (fun r => (Db.ReqNo r, Db.Users r, Db.ReqMessage r, Db.ReqFromDeviceFlag r))
    (fun x => Db.mkForwardRecvPacketReq x.1.1.1 x.1.1.2 x.1.2 x.2) _); intros [].
Defined.
#[local] Instance subscribers_req_eq : EqDecision GetSubscribersReq.
Proof. solve_decision. Defined.
#[local] Instance subscribers_req_countable : Countable GetSubscribersReq.
Proof.
  by refine (inj_countable' (fun r => (gs_ChannelID r, gs_ChannelType r)) (fun x => mkGetSubscribersReq x.1 x.2) _); intros [].
Defined.
#[local] Instance subscribers_resp_eq : EqDecision GetSubscribersResp.
Proof. solve_decision. Defined.
#[local] Instance subscribers_resp_countable : Countable GetSubscribersResp.
Proof. by refine (inj_countable' Subscribers mkGetSubscribersResp _); intros []. Defined.
#[local] Instance seq_req_eq : EqDecision GetChannelMessageSeqReq.
Proof. solve_decision. Defined.
#[local] Instance seq_req_countable : Countable GetChannelMessageSeqReq.
Proof.
  by refine (inj_countable' (fun r => (gc_ChannelID r, gc_ChannelType r)) (fun x => mkGetChannelMessageSeqReq x.1 x.2) _); intros [].
Defined.
#[local] Instance seq_resp_eq : EqDecision GetChannelMessageSeqResp.
Proof. solve_decision. Defined.
#[local] Instance seq_resp_countable : Countable GetChannelMessageSeqResp.
Proof. by refine (inj_countable' gc_MessageSeq mkGetChannelMessageSeqResp _); intros []. Defined.

#[local] Instance toyProtobuf : Protobuf.
Proof. split; apply countable_proto. Defined.
#[local] Instance toyProtobufLaws : ProtobufLaws.
Proof. split; apply countable_laws. Qed.
#[local] Existing Instance toyCrypto.

(** Alice is on node 1; bob, mallory and the group are on node 2, whose
    answers get lost. *)
Definition node_of (name : string) : option Z := if bool_decide (name = "alice"%string) then Some 1 else Some 2.
Definition node_env (n : Z) : Env :=
  mkEnv (mkOptions true n false "@tmp" false false false) no_datasource (fun _ => true) (fun k => 100 + Z.of_nat k)
    (fun k => pretty (Z.of_nat k)) node_of (fun _ _ _ _ => Panic) (fun _ => false).
Definition two_nodes : gmap Z (LiMao (listCache Db.Conversation) Memory.store) := {[1 := group_server; 2 := group_server]}.
Definition lossy (n : Z) : fate := if n =? 2 then AnswerLost else Answered.
Definition to_three : Lim.Message :=
  Lim.mkMessage (Lim.RecvPacket (group_message 5 true)) EmptyString ["alice"; "bob"; "mallory"] APP 0 0 0.

Lemma three_portable : portable to_three.
Proof. split; [split; [constructor; vm_compute; intuition congruence|vm_compute; congruence]|vm_compute; intuition congruence|reflexivity]. Qed.

Lemma counted_uuids : new_uuids node_env 1 (group_server : LiMao (listCache Db.Conversation) Memory.store).
Proof.
  split; [intros i; apply utf8_pretty; lia|intros i j E%(inj pretty); lia|done].
Qed.


Definition handled_there : outcome sendResult * LiMao (listCache Db.Conversation) Memory.store :=
  handleSendPacketWithFrom (node_env 2) 10 20 "alice" APP (example_send ("g"%string, ChannelTypeGroup)) group_server.

Lemma pair_of_fst {A B} (p : A * B) a : fst p = a -> p = (a, snd p).
Proof. destruct p. by intros <-. Qed.

Lemma handled_there_eq : handled_there = (Ret (mkSendResult 100 1 ReasonSuccess), snd handled_there).
Proof. apply pair_of_fst. vm_compute. reflexivity. Qed.

(** Alice's message is kept on node 2, and she is told that it failed. *)
Lemma forwarded_send_answers_witness :
  let c := ClientManager.alice1 in
  let p := example_send ("g"%string, ChannelTypeGroup) in
  let env := with_cluster node_env (fun _ => true) lossy 10 20 two_nodes (node_env 1) in
  let r := mkSendResult 100 1 ReasonSuccess in
  snd (answer_to_send node_env (fun _ => true) lossy 10 20 (SendPacketData (send_req p c)) (uid c) (i32 (deviceFlag c)) 2 two_nodes) =
    (if reaches (fun _ => true) lossy 2 then <[2 := snd handled_there]> two_nodes else two_nodes) /\
  routeSend env 10 20 7 c p group_server =
    WritePacket c (sendack p (if answers (fun _ => true) lossy two_nodes 2 && negb (failed (r_code r)) then r
      else mkSendResult 7 0 ReasonError)) group_server.
Proof.
  apply (forwarded_send_answers node_env (fun _ => true) lossy 10 20 1 2 7 ClientManager.alice1
    (example_send ("g"%string, ChannelTypeGroup)) two_nodes group_server group_server).
  - reflexivity.
  - reflexivity.
  - reflexivity.
  - discriminate.
  - reflexivity.
  - reflexivity.
  - split; [constructor; vm_compute; intuition congruence|vm_compute; congruence].
  - reflexivity.
  - vm_compute. intuition congruence.
  - exact handled_there_eq.
  - split; [|split]; vm_compute; intuition congruence.
Defined.
