(* ===== verification/ChannelAPI.v ===== *)
(** The requests of the application about channels: internal/lim/api_channel.go
    and the requests' checks in internal/lim/api_model.go. A handler is an
    operation on the channels and the storage: [Ret tt] answers OK, an error
    is the answer of [ResponseError]. The JSON of a request is not modelled. *)
From stdpp Require Import base list gmap strings.
From Stdlib Require Import ZArith Lia Strings.Byte.
From S2P Require Import Prelude Effects Keys Frames Ids PQueue Model Clients Storage Channels Conversations Encodings Aes Server.

(** [strings.TrimSpace(s) == ""]: [s] is white space only, in UTF-8. *)
Definition code (a : Ascii.ascii) : Z := Z.of_N (Ascii.N_of_ascii a).
Definition space1 (a : Z) : bool := ((9 <=? a) && (a <=? 13)) || (a =? 32).
Definition space2 (a b : Z) : bool := (a =? 0xC2) && ((b =? 0x85) || (b =? 0xA0)).
Definition space3 (a b c : Z) : bool :=
  ((a =? 0xE1) && (b =? 0x9A) && (c =? 0x80)) ||
  ((a =? 0xE2) && (b =? 0x80) && (((0x80 <=? c) && (c <=? 0x8A)) || (c =? 0xA8) || (c =? 0xA9) || (c =? 0xAF))) ||
  ((a =? 0xE2) && (b =? 0x81) && (c =? 0x9F)) ||
  ((a =? 0xE3) && (b =? 0x80) && (c =? 0x80)).
Fixpoint blank (s : string) : bool :=
  match s with
  | EmptyString => true
  | String a r =>
      if space1 (code a) then blank r
      else match r with
           | String b r2 =>
               if space2 (code a) (code b) then blank r2
               else match r2 with
                    | String c r3 => space3 (code a) (code b) (code c) && blank r3
                    | EmptyString => false
                    end
           | EmptyString => false
           end
  end.

Example blank_examples : blank "" = true /\
  blank (string_of_bytes [Byte.x20; Byte.x09; Byte.xc2; Byte.xa0; Byte.xe3; Byte.x80; Byte.x80]) = true /\ blank " a " = false.
Proof. repeat split; reflexivity. Qed.

(** [blacklistReq] and [whitelistReq], and [subscriberRemoveReq]. *)
Record listReq := mkListReq { l_channel : chan; l_UIDs : list string }.
(** [subscriberAddReq]. *)
Record subscriberAddReq := mkSubscriberAddReq { a_channel : chan; Reset_ : Z; a_Subscribers : list string }.
(** [ChannelCreateReq]. *)
Record ChannelCreateReq := mkChannelCreateReq {
  c_channel : chan;
  Bind : string;
  Forbidden : Z;
  c_Subscribers : list string
}.

(** [Check] of [blacklistReq] and [whitelistReq]. *)
Definition listReq_Check (r : listReq) : outcome unit :=
  if bool_decide (fst (l_channel r) = EmptyString) then Err (ErrMsg "channel_id不能为空！")
  else if snd (l_channel r) =? 0 then Err (ErrMsg "频道类型不能为0！")
  else if bool_decide (length (l_UIDs r) = 0%nat) then Err (ErrMsg "uids不能为空！")
  else Ret tt.
(** [Check] of [subscriberAddReq] and [subscriberRemoveReq]. *)
Definition subscribers_Check (c : chan) (subscribers : list string) : outcome unit :=
  if blank (fst c) then Err (ErrMsg "频道ID不能为空！")
  else if bool_decide (length subscribers = 0%nat) then Err (ErrMsg "订阅者不能为空！")
  else Ret tt.
Definition ChannelCreateReq_Check (r : ChannelCreateReq) : outcome unit :=
  if blank (fst (c_channel r)) then Err (ErrMsg "频道ID不能为空！")
  else if snd (c_channel r) =? 0 then Err (ErrMsg "频道类型错误！")
  else Ret tt.

Section Handlers.
Context {S : Type} `{Storage S} (opts : Options) (datasource : Datasource).
Implicit Type st : state S.

(** [GetChannel] returns the channel that the manager's map keeps: a change
    to it is a change of the map. *)
Definition put_channel (c : chan) (ch : Channel) st : state S :=
  if HasSuffix (fst c) (TmpChannelSuffix opts) then set_tmp (<[key c := ch]> (tmpChannelMap st)) st
  else if snd c =? ChannelTypePerson then set_person (<[key c := ch]> (personChannelMap st)) st
  else set_channels (<[key c := ch]> (channelMap st)) st.

(** [channelObj, err := GetChannel(...)] and a method of [channelObj]; it is
    nil for a channel that does not exist. *)
Definition mutate (c : chan) (method : Channel -> Channel) : io (state S) unit :=
  o ← GetChannel opts datasource c;
  match o with
  | None => lift Panic
  | Some ch => modify (put_channel c (method ch))
  end.

(** [blacklistAdd], [whitelistAdd]. *)
Definition listAdd (k : listKind) (r : listReq) : io (state S) unit :=
  lift (listReq_Check r) ;;
  Channels.stored (AddList k (l_channel r) (l_UIDs r)) ;;
  mutate (l_channel r) (Channels.Add k (l_UIDs r)).

(** [blacklistRemove], [whitelistRemove]. *)
Definition listRemove (k : listKind) (r : listReq) : io (state S) unit :=
  lift (listReq_Check r) ;;
  Channels.stored (RemoveList k (l_channel r) (l_UIDs r)) ;;
  mutate (l_channel r) (Channels.Remove k (l_UIDs r)).

(** [blacklistSet], [whitelistSet], which answer for any error of
    [RemoveAllDenylist] or [RemoveAllAllowlist] with a text of their own. *)
Definition listSet (k : listKind) (set : list string -> Channel -> Channel) (failed : error) (r : listReq) :
    io (state S) unit :=
  if blank (fst (l_channel r)) then raise (ErrMsg "频道ID不能为空！")
  else
    o ← attempt (Channels.stored (RemoveAllList k (l_channel r)));
    match o with
    | inr _ => raise failed
    | inl _ =>
        (if bool_decide (length (l_UIDs r) = 0%nat) then mret tt
         else Channels.stored (AddList k (l_channel r) (l_UIDs r))) ;;
        mutate (l_channel r) (set (l_UIDs r))
    end.

Definition blacklistAdd := listAdd Denylist.
Definition whitelistAdd := listAdd Allowlist.
Definition blacklistRemove := listRemove Denylist.
Definition whitelistRemove := listRemove Allowlist.
Definition blacklistSet := listSet Denylist SetDenylist (ErrMsg "移除所有黑明单失败！").
Definition whitelistSet := listSet Allowlist SetAllowlist (ErrMsg "移除所有白明单失败！").

Definition channelCreateOrUpdate (r : ChannelCreateReq) : io (state S) unit :=
  lift (ChannelCreateReq_Check r) ;;
  if snd (c_channel r) =? ChannelTypePerson then raise (ErrMsg "暂不支持个人频道！")
  else
    let channelInfo := mkChannelInfo (fst (c_channel r)) (snd (c_channel r)) false (Bind r) in
    Channels.stored (AddOrUpdateChannel channelInfo) ;;
    o ← attempt (Channels.stored (RemoveAllList Subscribers (c_channel r)));
    match o with
    | inr _ => raise (ErrMsg "移除所有订阅者失败！")
    | inl _ =>
        Channels.stored (AddList Subscribers (c_channel r) (c_Subscribers r)) ;;
        DeleteChannelFromCache (c_channel r)
    end.

(** The subscribers that are not there yet; the storage gets them, and the
    channel in memory does not. *)
Definition newSubscribers (existSubscribers subscribers : list string) : list string :=
  filter (fun s => ArrayContains existSubscribers s = false) subscribers.

Definition addSubscriber (r : subscriberAddReq) : io (state S) unit :=
  lift (subscribers_Check (a_channel r) (a_Subscribers r)) ;;
  if snd (a_channel r) =? ChannelTypePerson then raise (ErrMsg "个人频道不支持添加订阅者！")
  else
    let c := (fst (a_channel r), if snd (a_channel r) =? 0 then ChannelTypeGroup else snd (a_channel r)) in
    channel ← wrap_io "获取频道失败！" (GetChannel opts datasource c);
    match channel with
    | None => raise (ErrMsg "频道并不存在！")
    | Some ch =>
        existSubscribers ← (if Reset_ r =? 1 then
            Channels.stored (RemoveAllList Subscribers c) ;;
            modify (put_channel c (RemoveAllSubscriber ch)) ;;
            mret []
          else Channels.stored (GetList Subscribers c));
        let new := newSubscribers existSubscribers (a_Subscribers r) in
        if bool_decide (length new = 0%nat) then mret tt
        else Channels.stored (AddList Subscribers c new)
    end.

(** The part of [removeSubscriber] that comes before the conversations. *)
Definition dropSubscribers (r : listReq) : io (state S) unit :=
  lift (subscribers_Check (l_channel r) (l_UIDs r)) ;;
  channel ← wrap_io "获取频道失败！" (GetChannel opts datasource (l_channel r));
  Channels.stored (RemoveList Subscribers (l_channel r) (l_UIDs r)) ;;
  match channel with
  | None => lift Panic
  | Some ch => modify (put_channel (l_channel r) (Channels.Remove Subscribers (l_UIDs r) ch))
  end.

(** The error of [DeleteChannel] is dropped. *)
Definition channelDelete (c : chan) : io (state S) unit :=
  Channels.stored (DeleteChannelAndClearMessages c) ;;
  attempt (Channels.DeleteChannel c) ;;
  mret tt.
End Handlers.

(** * What the requests do

    For a server that keeps its own data. [c] is a channel whose members are
    those of the storage. *)
Section Coherent.
Context {S : Type} `{StorageLaws S} (opts : Options) (datasource : Datasource).
Implicit Type st : state S.
Hypothesis own_data : HasDatasource opts = false.

(** A channel that is not a temporary one, nor that of two persons. *)
Record own_lists (c : chan) : Prop := {
  ol_type : chan_ok c;
  ol_kept : HasSuffix (fst c) (TmpChannelSuffix opts) = false;
  ol_lists : (snd c =? ChannelTypePerson) && IsFakeChannel (fst c) = false
}.

(** [GetChannel] finds it. *)
Definition exists_in (d : S) (c : chan) : Prop :=
  snd c = ChannelTypePerson \/ info_at d c <> None \/ CreateIfChannelNotExist opts = true.

Lemma due_own d c k : own_lists c -> due_members d c k = list_to_set (lists d k c).
Proof. intros Hc. unfold due_members. by rewrite (ol_lists c Hc). Qed.

Lemma GetChannel_cached c ch st : HasSuffix (fst c) (TmpChannelSuffix opts) = false -> cached st c ch ->
  GetChannel opts datasource c st = (Ret (Some ch), st).
Proof.
  unfold cached, GetChannel, GetPersonChannel, fmap, io_fmap, mbind, io_bind, gets. intros ->.
  by destruct (snd c =? ChannelTypePerson); intros ->.
Qed.

Lemma cached_put c ch st c' ch' : HasSuffix (fst c) (TmpChannelSuffix opts) = false -> chan_ok c -> chan_ok c' ->
  cached (put_channel opts c ch st) c' ch' -> c' = c /\ ch' = ch \/ c' <> c /\ cached st c' ch'.
Proof.
  unfold cached, put_channel. intros -> Hc Hc'.
  destruct (Z.eqb_spec (snd c) ChannelTypePerson) as [E|E], (Z.eqb_spec (snd c') ChannelTypePerson) as [E'|E'];
    cbn [set_person set_channels personChannelMap channelMap]; intros Hl;
    try (right; split; [intros ->|]; done);
    (apply lookup_insert_Some in Hl as [[Ek <-]|[Hne Hl]];
      [left; by apply key_inj in Ek|right; split; [intros ->|]; done]).
Qed.

(** The cache agrees with the storage about all channels but [c]. *)
Definition coherent_but (c : chan) st : Prop :=
  forall c' ch, chan_ok c' -> c' <> c -> cached st c' ch -> coherent_channel opts (db st) c' ch.

Lemma db_put c ch st : db (put_channel opts c ch st) = db st.
Proof. unfold put_channel. destruct (HasSuffix _ _); [done|]. by destruct (snd c =? ChannelTypePerson). Qed.

Lemma systemUIDs_put c ch st : systemUIDs (put_channel opts c ch st) = systemUIDs st.
Proof. unfold put_channel. destruct (HasSuffix _ _); [done|]. by destruct (snd c =? ChannelTypePerson). Qed.

Lemma coherent_put c ch st : own_lists c -> coherent_but c st -> coherent_channel opts (db st) c ch ->
  coherent opts (put_channel opts c ch st).
Proof.
  intros Hc Hco Hch c' ch' Hc' Hl. rewrite db_put.
  apply cached_put in Hl as [[-> ->]|[Hne Hl]]; [done| |apply (ol_kept c Hc)|apply (ol_type c Hc)|done].
  by apply Hco.
Qed.

(** The storage changes for one channel. *)
Definition changes_only (c : chan) (d d' : S) : Prop :=
  forall c', c' <> c -> (forall k, lists d' k c' = lists d k c') /\ info_at d' c' = info_at d c'.

Lemma coherent_channel_other c d d' c' ch : changes_only c d d' -> c' <> c ->
  coherent_channel opts d c' ch -> coherent_channel opts d' c' ch.
Proof.
  intros Hd Hne [Hm Hid Hp He]. destruct (Hd c' Hne) as [Hl Hi].
  split; [|done|by rewrite Hi|by rewrite Hi]. intros k. rewrite Hm. unfold due_members, list_set. by rewrite Hl.
Qed.

(** A method that makes of the channel of the old storage that of the new,
    and keeps that of the new. *)
Definition brings (c : chan) (d d' : S) (method : Channel -> Channel) : Prop :=
  forall ch, coherent_channel opts d c ch \/ coherent_channel opts d' c ch -> coherent_channel opts d' c (method ch).

(** After a change of the storage, the method is run on the channel that was
    in the cache or, when there was none, on the one loaded now. *)
Lemma mutate_finds c method d st : own_lists c -> coherent opts st -> exists_in d c -> changes_only c (db st) d ->
  exists ch st', (coherent_channel opts (db st) c ch \/ coherent_channel opts d c ch) /\
    mutate opts datasource c method (set_db d st) = (Ret tt, st') /\ db st' = d /\
    systemUIDs st' = systemUIDs st /\ coherent_but c st' /\ cached st' c (method ch).
Proof.
  intros Hc Hco Hex Hd.
  assert (forall ch st1, db st1 = d -> systemUIDs st1 = systemUIDs st -> coherent_but c st1 ->
    GetChannel opts datasource c (set_db d st) = (Ret (Some ch), st1) ->
    exists st', mutate opts datasource c method (set_db d st) = (Ret tt, st') /\ db st' = d /\
      systemUIDs st' = systemUIDs st /\ coherent_but c st' /\ cached st' c (method ch)) as Hput.
  { intros ch st1 Hdb Hsys Hb E. exists (put_channel opts c (method ch) st1). unfold mutate. io_step E.
    rewrite db_put, systemUIDs_put. repeat (split; [done|]). split.
    - intros c' ch' Hc' Hne Hl. rewrite db_put.
      apply cached_put in Hl as [[? _]|[_ Hl]]; [done|by apply Hb|apply (ol_kept c Hc)|apply (ol_type c Hc)|done].
    - unfold cached, put_channel. rewrite (ol_kept c Hc).
      destruct (snd c =? ChannelTypePerson); cbn; by rewrite lookup_insert_eq. }
  assert (coherent_but c (set_db d st)) as Hb.
  { intros c' ch Hc' Hne Hch. apply (coherent_channel_other c (db st)); [done..|]. by apply Hco. }
  destruct (if snd c =? ChannelTypePerson then personChannelMap st !! key c else channelMap st !! key c) as [ch|] eqn:El.
  - assert (cached st c ch) as Hch by (unfold cached; by destruct (snd c =? ChannelTypePerson)).
    destruct (Hput ch (set_db d st)) as [st' Hst']; [done..| |].
    + apply GetChannel_cached; [apply (ol_kept c Hc)|done].
    + exists ch, st'. split; [|done]. left. apply Hco; [apply (ol_type c Hc)|done].
  - destruct (GetChannel_coherent opts datasource own_data c (set_db d st)) as (o & st1 & E & Hdb & Hsys & Hco1 & Ho).
    + intros c' ch Hc' Hch. destruct (decide (c' = c)) as [->|Hne]; [|by apply Hb].
      revert El Hch. unfold cached. cbn [set_db personChannelMap channelMap].
      destruct (snd c =? ChannelTypePerson); congruence.
    + apply (ol_type c Hc).
    + apply (ol_kept c Hc).
    + destruct o as [ch|].
      * destruct (Hput ch st1) as [st' Hst']; [done|done| |done|by exists ch, st'; split; [right|]].
        intros c' ch' Hc' _ Hch'. by apply Hco1.
      * destruct Ho as (Hn & Hn2 & Hn3). exfalso. cbn [set_db db] in Hn. destruct Hex as [Hx|[Hx|Hx]]; congruence.
Qed.

(** A method that follows the storage makes the cache agree again. *)
Lemma mutate_spec c method d st : own_lists c -> coherent opts st -> exists_in d c ->
  changes_only c (db st) d -> brings c (db st) d method ->
  exists st', mutate opts datasource c method (set_db d st) = (Ret tt, st') /\ db st' = d /\
    systemUIDs st' = systemUIDs st /\ coherent opts st' /\ exists ch, cached st' c ch.
Proof.
  intros Hc Hco Hex Hd Hm. destruct (mutate_finds c method d st) as (ch & st' & Hch & E & Hdb & Hs & Hb & Hl); [done..|].
  exists st'. repeat (split; [done|]). split; [|by exists (method ch)].
  intros c' ch' Hc' Hl'. destruct (decide (c' = c)) as [->|Hne]; [|by apply Hb].
  assert (ch' = method ch) as -> by (revert Hl Hl'; unfold cached; destruct (snd c =? ChannelTypePerson); congruence).
  rewrite Hdb. by apply Hm.
Qed.

(** The lists of one channel after a request. *)
Definition sets_list (k : listKind) (c : chan) (l : list string) (d d' : S) : Prop :=
  (forall k' c', lists d' k' c' = if decide ((k', c') = (k, c)) then l else lists d k' c') /\
  forall c', info_at d' c' = info_at d c'.

Lemma sets_list_only k c l d d' : sets_list k c l d d' -> changes_only c d d'.
Proof.
  intros [Hl Hi] c' Hne. split; [|apply Hi]. intros k'. rewrite Hl. apply decide_False. intros [= _ E]. done.
Qed.

(** A method on one list, whose result on the list of the old storage and
    on that of the new is that of the new. *)
Lemma brings_members k c l d d' method m : own_lists c -> sets_list k c l d d' ->
  (forall ch, info (method ch) = info ch /\
    forall k', members (method ch) k' = if decide (k' = k) then m (members ch k) else members ch k') ->
  m (list_to_set (lists d k c)) = list_to_set l -> m (list_to_set l) = list_to_set l -> brings c d d' method.
Proof.
  intros Hc [Hl Hi] Hmethod Hm Hm' ch Hch. destruct (Hmethod ch) as [Hinfo Hmem].
  assert (forall x, coherent_channel opts x c ch -> forall k', members ch k' = list_to_set (lists x k' c)) as Hdue
    by (intros x Hx k'; rewrite (co_members _ _ _ _ Hx); by apply due_own).
  split.
  - intros k'. rewrite due_own, Hmem, Hl by done. destruct (decide (k' = k)) as [->|Hk].
    + rewrite decide_True by done. destruct Hch as [Hx|Hx]; rewrite (Hdue _ Hx); [done|].
      by rewrite Hl, decide_True.
    + rewrite decide_False by congruence. destruct Hch as [Hx|Hx]; rewrite (Hdue _ Hx); [done|].
      by rewrite Hl, decide_False by congruence.
  - unfold channel_id. rewrite Hinfo. by destruct Hch as [[]|[]].
  - rewrite Hinfo. destruct Hch as [[]|[]]; by rewrite ?Hi in *.
  - destruct Hch as [[]|[]]; by rewrite ?Hi in *.
Qed.

Lemma stored_step {A} (m : io S A) st o d : m (db st) = (o, d) -> Channels.stored m st = (o, set_db d st).
Proof. intros E. unfold Channels.stored, zoom. by rewrite E. Qed.

Lemma set_db_set_db d d' st : set_db d' (set_db d st) = set_db d' st.
Proof. reflexivity. Qed.

(** ** The lists of members who may and may not send *)
Inductive list_request := BlacklistAdd | BlacklistSet | BlacklistRemove | WhitelistAdd | WhitelistSet | WhitelistRemove.
Definition run_list (q : list_request) : listReq -> io (state S) unit :=
  match q with
  | BlacklistAdd => blacklistAdd opts datasource
  | BlacklistSet => blacklistSet opts datasource
  | BlacklistRemove => blacklistRemove opts datasource
  | WhitelistAdd => whitelistAdd opts datasource
  | WhitelistSet => whitelistSet opts datasource
  | WhitelistRemove => whitelistRemove opts datasource
  end.
Definition list_of (q : list_request) : listKind :=
  match q with BlacklistAdd | BlacklistSet | BlacklistRemove => Denylist | _ => Allowlist end.
(** What the list should be. *)
Definition wanted (q : list_request) (old uids : list string) : list string :=
  match q with
  | BlacklistAdd | WhitelistAdd => old ++ uids
  | BlacklistSet | WhitelistSet => uids
  | BlacklistRemove | WhitelistRemove => filter (fun u => u ∉ uids) old
  end.
Definition list_check (q : list_request) (r : listReq) : outcome unit :=
  match q with
  | BlacklistSet | WhitelistSet =>
      if blank (fst (l_channel r)) then Err (ErrMsg "频道ID不能为空！") else Ret tt
  | _ => listReq_Check r
  end.
(** What the handler does to the channel in memory. *)
Definition list_method (q : list_request) (uids : list string) : Channel -> Channel :=
  match q with
  | BlacklistAdd | WhitelistAdd => Channels.Add (list_of q) uids
  | BlacklistRemove | WhitelistRemove => Channels.Remove (list_of q) uids
  | BlacklistSet => SetDenylist uids
  | WhitelistSet => SetAllowlist uids
  end.

Lemma lift_step {A} (a : A) st : lift (Ret a) st = (Ret a, st).
Proof. reflexivity. Qed.

Lemma listAdd_stored k r st : listReq_Check r = Ret tt -> exists d,
  sets_list k (l_channel r) (lists (db st) k (l_channel r) ++ l_UIDs r) (db st) d /\
  listAdd opts datasource k r st = mutate opts datasource (l_channel r) (Channels.Add k (l_UIDs r)) (set_db d st).
Proof.
  intros Hb. unfold listAdd. rewrite Hb. io_step (lift_step tt st).
  destruct (AddList_law k (l_channel r) (l_UIDs r) (db st)) as (d & E & Hl & Hi).
  exists d. split; [split; [done|intros c'; apply Hi]|]. by io_step (stored_step _ st _ _ E).
Qed.

Lemma listRemove_stored k r st : listReq_Check r = Ret tt -> exists d,
  sets_list k (l_channel r) (filter (fun u => u ∉ l_UIDs r) (lists (db st) k (l_channel r))) (db st) d /\
  listRemove opts datasource k r st = mutate opts datasource (l_channel r) (Channels.Remove k (l_UIDs r)) (set_db d st).
Proof.
  intros Hb. unfold listRemove. rewrite Hb. io_step (lift_step tt st).
  destruct (RemoveList_law k (l_channel r) (l_UIDs r) (db st)) as (d & E & Hl & Hi).
  exists d. split; [split; [done|intros c'; apply Hi]|]. by io_step (stored_step _ st _ _ E).
Qed.

Lemma listSet_stored k set failed r st : blank (fst (l_channel r)) = false -> exists d,
  sets_list k (l_channel r) (l_UIDs r) (db st) d /\
  listSet opts datasource k set failed r st = mutate opts datasource (l_channel r) (set (l_UIDs r)) (set_db d st).
Proof.
  intros Hb. unfold listSet. rewrite Hb.
  destruct (RemoveAllList_law k (l_channel r) (db st)) as (d1 & E1 & Hl1 & Hi1).
  io_step (attempt_Ret _ _ _ _ (stored_step _ _ _ _ E1)). case_bool_decide as Hn.
  - exists d1. split; [|done]. apply nil_length_inv in Hn. rewrite Hn. split; [apply Hl1|intros c'; apply Hi1].
  - destruct (AddList_law k (l_channel r) (l_UIDs r) d1) as (d2 & E2 & Hl2 & Hi2). exists d2. split.
    + split; [|intros c'; by rewrite (proj1 (Hi2 c')), (proj1 (Hi1 c'))]. intros k' c'. rewrite Hl2, !Hl1.
      rewrite (decide_True _ _ (eq_refl (k, l_channel r))). by destruct (decide (_ = _)).
    + io_step (stored_step _ (set_db d1 st) _ _ E2). by rewrite set_db_set_db.
Qed.

(** Every one of them changes the storage as it should and then runs its
    method on the channel. *)
Lemma run_list_stored q r st : list_check q r = Ret tt -> exists d,
  sets_list (list_of q) (l_channel r) (wanted q (lists (db st) (list_of q) (l_channel r)) (l_UIDs r)) (db st) d /\
  run_list q r st = mutate opts datasource (l_channel r) (list_method q (l_UIDs r)) (set_db d st).
Proof.
  intros Hok. destruct q; cbn [list_check] in Hok;
    first [by apply listAdd_stored | by apply listRemove_stored | apply listSet_stored; by destruct (blank _)].
Qed.

(** A request that is refused changes nothing. *)
Lemma run_list_refused q r st e : list_check q r = Err e -> run_list q r st = (Err e, st).
Proof.
  destruct q; cbn [list_check run_list];
    unfold blacklistAdd, blacklistRemove, blacklistSet, whitelistAdd, whitelistRemove, whitelistSet,
      listAdd, listRemove, listSet;
    first [by intros -> | destruct (blank _); [by intros [= <-]|done]].
Qed.

Lemma list_to_set_filter_out (l us : list string) :
  list_to_set (filter (fun u => u ∉ us) l) = (list_to_set l ∖ list_to_set us : gset string).
Proof.
  apply set_eq. intros x. rewrite elem_of_difference, !elem_of_list_to_set, list_elem_of_filter. tauto.
Qed.

(** The methods follow the storage, but for that of [whitelistSet]. *)
Lemma list_method_brings q c us d d' : own_lists c -> q <> WhitelistSet ->
  sets_list (list_of q) c (wanted q (lists d (list_of q) c) us) d d' -> brings c d d' (list_method q us).
Proof.
  intros Hc Hq Hs.
  apply (brings_members _ _ _ _ _ _ (match q with
    | BlacklistAdd | WhitelistAdd => fun s => s ∪ list_to_set us
    | BlacklistRemove | WhitelistRemove => fun s => s ∖ list_to_set us
    | BlacklistSet | WhitelistSet => fun _ => list_to_set us end) Hc Hs).
  - intros ch. destruct q; split; try reflexivity; try done; intros k'; cbn [list_method list_of].
    unfold SetDenylist. rewrite members_Add. cbn [with_members members]. destruct (decide (k' = Denylist)); [|done].
    cbn. set_solver.
  - destruct q; cbn [wanted list_of]; rewrite ?list_to_set_app_L, ?list_to_set_filter_out; done.
  - destruct q; cbn [wanted list_of]; rewrite ?list_to_set_app_L, ?list_to_set_filter_out; set_solver.
Qed.


(** [whitelistSet] with members puts them on the list of the storage,
    and in memory empties that list and puts them on the other one: those
    who alone may send are refused. *)
Theorem whitelistSet_refuses_its_members r st u : coherent opts st -> own_lists (l_channel r) ->
  exists_in (db st) (l_channel r) -> list_check WhitelistSet r = Ret tt -> u ∈ l_UIDs r -> u ∉ systemUIDs st ->
  exists ch st', whitelistSet opts datasource r st = (Ret tt, st') /\ cached st' (l_channel r) ch /\
    Allow (systemUIDs st') u ch = false /\ allowed (systemUIDs st') (db st') (l_channel r) u = true.
Proof.
  intros Hco Hc Hex Hok Hu Hsys. destruct (run_list_stored WhitelistSet r st Hok) as (d & Hd & E0).
  destruct (mutate_finds (l_channel r) (list_method WhitelistSet (l_UIDs r)) d st) as (ch & st' & Hch & E & Hdb & Hs & _ & Hl);
    [done|done|by destruct Hd as [_ Hi]; unfold exists_in; rewrite Hi|by eapply sets_list_only|].
  exists (SetAllowlist (l_UIDs r) ch), st'. cbn [run_list] in E0. rewrite E0. split; [done|]. split; [done|].
  rewrite Hs, Hdb. unfold Allow, allowed. rewrite !due_own by done. destruct Hd as [Hd _]. cbn [list_of wanted] in Hd.
  rewrite Hd, decide_True by done. rewrite (bool_decide_false (u ∈ systemUIDs st)) by done.
  assert (u ∈ (list_to_set (l_UIDs r) : gset string)) as Hin by (by apply elem_of_list_to_set).
  split.
  - unfold whitelist, SetAllowlist, IsBlacklist, blacklist. rewrite !members_Add. cbn.
    rewrite bool_decide_false by (intros Hx; by apply Hx). rewrite bool_decide_true by set_solver. done.
  - rewrite bool_decide_true by (intros Hx; rewrite Hx in Hin; by apply not_elem_of_empty in Hin).
    by apply bool_decide_true.
Qed.

(** For a channel that does not exist the handlers change the storage
    and then dereference nil. *)
Theorem list_request_absent q r st : HasSuffix (fst (l_channel r)) (TmpChannelSuffix opts) = false ->
  snd (l_channel r) <> ChannelTypePerson -> channelMap st !! key (l_channel r) = None ->
  info_at (db st) (l_channel r) = None -> CreateIfChannelNotExist opts = false -> list_check q r = Ret tt ->
  exists d, run_list q r st = (Panic, set_db d st) /\
    lists d (list_of q) (l_channel r) = wanted q (lists (db st) (list_of q) (l_channel r)) (l_UIDs r).
Proof.
  intros Ht Hp Hm Hi Hx Hok. destruct (run_list_stored q r st Hok) as (d & [Hd Hid] & ->). exists d.
  split; [|by rewrite Hd, decide_True].
  unfold mutate, GetChannel. rewrite Ht, (proj2 (Z.eqb_neq _ _) Hp).
  unfold mbind, io_bind, gets. cbn [set_db channelMap]. rewrite Hm.
  rewrite (stored_step _ (set_db d st) _ _ (GetChannel_law _ _)). cbn [set_db db].
  by rewrite Hid, Hi, Hx.
Qed.

(** ** Subscribers *)

(** Dropping a channel from the cache. *)
Lemma coherent_drop c st : chan_ok c -> coherent_but c st -> snd c <> ChannelTypePerson ->
  coherent opts (mkState (delete (key c) (channelMap st)) (tmpChannelMap st) (personChannelMap st)
    (systemUIDs st) (loaded st) (db st)).
Proof.
  intros Hc Hco Hp c' ch Hc' Hch. unfold cached in Hch. cbn [personChannelMap channelMap] in Hch.
  assert (c' <> c /\ cached st c' ch) as [Hne Hch'].
  { unfold cached. destruct (Z.eqb_spec (snd c') ChannelTypePerson) as [E|E]; [split; [by intros ->|done]|].
    apply lookup_delete_Some in Hch as [Hne Hch]. split; [by intros ->|done]. }
  by apply (Hco c' ch Hc').
Qed.

(** [channelCreateOrUpdate] leaves the channel with the subscribers and
    the parent of the request, not muted whatever the request says, and a
    cache that agrees with the storage; its other lists stay. *)
Theorem channelCreateOrUpdate_served r st : coherent opts st -> chan_ok (c_channel r) ->
  snd (c_channel r) <> ChannelTypePerson -> ChannelCreateReq_Check r = Ret tt ->
  exists st', channelCreateOrUpdate r st = (Ret tt, st') /\ coherent opts st' /\
    (forall k c, lists (db st') k c =
       if decide ((k, c) = (Subscribers, c_channel r)) then c_Subscribers r else lists (db st) k c) /\
    (forall c, info_at (db st') c = if decide (c = c_channel r)
       then Some (mkChannelInfo (fst c) (snd c) false (Bind r)) else info_at (db st) c).
Proof.
  intros Hco Hc Hp Hok. unfold channelCreateOrUpdate. rewrite Hok. io_step (lift_step tt st).
  rewrite (proj2 (Z.eqb_neq _ _) Hp). set (i := mkChannelInfo _ _ _ _).
  destruct (AddOrUpdateChannel_law i (db st)) as (d1 & E1 & Hi1 & Hl1). io_step (stored_step _ st _ _ E1).
  destruct (RemoveAllList_law Subscribers (c_channel r) d1) as (d2 & E2 & Hl2 & Hi2).
  io_step (attempt_Ret _ _ _ _ (stored_step _ (set_db d1 st) _ _ E2)).
  destruct (AddList_law Subscribers (c_channel r) (c_Subscribers r) d2) as (d3 & E3 & Hl3 & Hi3).
  io_step (stored_step _ (set_db d2 (set_db d1 st)) _ _ E3). eexists. split; [reflexivity|].
  assert (forall k c, lists d3 k c =
    if decide ((k, c) = (Subscribers, c_channel r)) then c_Subscribers r else lists (db st) k c) as Hl.
  { intros k c. rewrite Hl3, !Hl2. rewrite (decide_True _ _ (eq_refl (Subscribers, c_channel r))).
    destruct (decide (_ = _)); [done|]. apply Hl1. }
  assert (forall c, info_at d3 c = if decide (c = c_channel r)
    then Some (mkChannelInfo (fst c) (snd c) false (Bind r)) else info_at (db st) c) as Hi.
  { intros c. rewrite (proj1 (Hi3 c)), (proj1 (Hi2 c)), Hi1. unfold i. cbn [ChannelID ChannelType].
    destruct (c_channel r) as [n t]. cbn [fst snd]. destruct (decide (c = (n, t))) as [->|]; done. }
  split; [|done]. apply (coherent_drop _ (set_db d3 st)); [done| |done]. intros c ch Hc' Hne Hch.
  apply (coherent_channel_other (c_channel r) (db st)); [|done|by apply Hco]. intros c2 Hne2. split.
  - intros k. cbn [set_db db]. rewrite Hl. by rewrite decide_False by congruence.
  - cbn [set_db db]. rewrite Hi. by rewrite decide_False.
Qed.

(** The channel [addSubscriber] works on. *)
Definition group_of (c : chan) : chan := (fst c, if snd c =? 0 then ChannelTypeGroup else snd c).

Lemma newSubscribers_spec u old us : u ∈ newSubscribers old us <-> u ∈ us /\ u ∉ old.
Proof.
  unfold newSubscribers. rewrite list_elem_of_filter. unfold ArrayContains. split.
  - intros [Hx Hu]. split; [done|]. intros Ho. assert (existsb (fun e => bool_decide (u = e)) old = true) as Ht; [|congruence].
    apply existsb_exists. exists u. split; [by apply list_elem_of_In|by apply bool_decide_true].
  - intros [Hu Ho]. split; [|done]. apply not_true_is_false. intros (e & He & ->%bool_decide_eq_true)%existsb_exists.
    apply Ho. by apply list_elem_of_In.
Qed.

Lemma append_new_subscribers c new st : exists d',
  (if bool_decide (length new = 0%nat) then mret tt else Channels.stored (AddList Subscribers c new)) st =
    (Ret tt, set_db d' st) /\
  sets_list Subscribers c (lists (db st) Subscribers c ++ new) (db st) d'.
Proof.
  case_bool_decide as Hn.
  - exists (db st). split; [by destruct st|]. apply nil_length_inv in Hn as ->. split; [|done]. intros k' c'.
    rewrite app_nil_r. destruct (decide ((k', c') = (Subscribers, c))) as [[= -> ->]|]; done.
  - destruct (AddList_law Subscribers c new (db st)) as (d' & E & Hl & Hi). exists d'.
    split; [by apply stored_step|]. split; [done|]. intros c'. apply Hi.
Qed.

(** What [GetChannel] returns is in the cache. *)
Lemma GetChannel_caches c ch st st1 : HasSuffix (fst c) (TmpChannelSuffix opts) = false ->
  GetChannel opts datasource c st = (Ret (Some ch), st1) -> cached st1 c ch.
Proof.
  unfold GetChannel, cached. intros ->. destruct (snd c =? ChannelTypePerson).
  - unfold GetPersonChannel, fmap, io_fmap, mbind, io_bind, gets, mret, io_ret.
    destruct (personChannelMap st !! key c) as [x|] eqn:E; [by intros [= <- <-]|].
    destruct (LoadData _ _ _ _) as [[x|e|] st2]; [|done..]. intros [= <- <-]. cbn. by rewrite lookup_insert_eq.
  - unfold mbind, io_bind, gets, mret, io_ret.
    destruct (channelMap st !! key c) as [x|] eqn:E; [by intros [= <- <-]|].
    destruct (Channels.stored _ _) as [[x|e|] st2]; [|done..]. destruct (_ || _); [|done].
    destruct (LoadData _ _ _ _) as [[y|e|] st3]; [|done..]. intros [= <- <-]. cbn. by rewrite lookup_insert_eq.
Qed.

Lemma cached_put_same c ch st : HasSuffix (fst c) (TmpChannelSuffix opts) = false -> cached (put_channel opts c ch st) c ch.
Proof.
  intros Ht. unfold cached, put_channel. rewrite Ht.
  destruct (snd c =? ChannelTypePerson); cbn; by rewrite lookup_insert_eq.
Qed.

(** [addSubscriber] answers OK and puts the subscribers who are not there
    yet (all of them, after a reset) behind those of the storage, but the
    channel it found, which is the one the server delivers to, does not get
    them: they receive nothing. *)
Theorem addSubscriber_misses_cache r st (c := group_of (a_channel r)) : coherent opts st -> own_lists c ->
  exists_in (db st) c -> snd (a_channel r) <> ChannelTypePerson ->
  subscribers_Check (a_channel r) (a_Subscribers r) = Ret tt ->
  let old := if Reset_ r =? 1 then [] else lists (db st) Subscribers c in
  exists ch st', addSubscriber opts datasource r st = (Ret tt, st') /\
    GetChannel opts datasource c st' = (Ret (Some ch), st') /\
    sets_list Subscribers c (old ++ newSubscribers old (a_Subscribers r)) (db st) (db st') /\
    forall u, u ∈ GetAllSubscribers ch <-> u ∈ old.
Proof.
  intros Hco Hc Hex Hp Hok old. unfold addSubscriber. rewrite Hok. io_step (lift_step tt st).
  rewrite (proj2 (Z.eqb_neq _ _) Hp). fold (group_of (a_channel r)). fold c. cbv zeta.
  destruct (GetChannel_coherent opts datasource own_data c st Hco (ol_type c Hc) (ol_kept c Hc))
    as (o & st1 & E & Hd & _ & _ & Ho).
  destruct o as [ch|]; [|by destruct Ho as (? & ? & ?), Hex as [?|[?|?]]; congruence].
  pose proof (GetChannel_caches c ch st st1 (ol_kept c Hc) E) as Hch.
  assert (wrap_io "获取频道失败！" (GetChannel opts datasource c) st = (Ret (Some ch), st1)) as Ew
    by (unfold wrap_io; by rewrite E).
  io_step Ew. destruct (Z.eqb_spec (Reset_ r) 1) as [Hr|Hr].
  - destruct (RemoveAllList_law Subscribers c (db st1)) as (d2 & E2 & Hl2 & Hi2).
    set (st2 := put_channel opts c (RemoveAllSubscriber ch) (set_db d2 st1)).
    assert ((Channels.stored (RemoveAllList Subscribers c) ;; modify (put_channel opts c (RemoveAllSubscriber ch)) ;;
      mret ([] : list string)) st1 = (Ret [], st2)) as Es by (by io_step (stored_step _ st1 _ _ E2)).
    io_step Es. destruct (append_new_subscribers c (newSubscribers [] (a_Subscribers r)) st2) as (d3 & -> & Hd3 & Hi3).
    assert (db st2 = d2) as Hd2 by apply db_put. rewrite Hd2 in Hd3, Hi3.
    exists (RemoveAllSubscriber ch), (set_db d3 st2). split; [done|]. split; [|split].
    + apply GetChannel_cached; [apply (ol_kept c Hc)|]. apply (cached_put_same c _ _ (ol_kept c Hc)).
    + unfold old. split.
      * intros k' c'. cbn [set_db db]. rewrite Hd3, !Hl2, (decide_True _ _ (eq_refl (Subscribers, c))), Hd.
        by destruct (decide (_ = _)).
      * intros c'. cbn [set_db db]. by rewrite Hi3, (proj1 (Hi2 c')), Hd.
    + intros u. unfold GetAllSubscribers. rewrite elem_of_elements. unfold old. cbn. set_solver.
  - io_step (stored_step _ st1 _ _ (GetList_law Subscribers c (db st1))).
    assert (set_db (db st1) st1 = st1) as -> by (by destruct st1).
    rewrite Hd. fold old.
    destruct (append_new_subscribers c (newSubscribers old (a_Subscribers r)) st1) as (d3 & -> & Hd3).
    exists ch, (set_db d3 st1). split; [done|]. split; [|split].
    + by apply GetChannel_cached; [apply (ol_kept c Hc)|].
    + by rewrite Hd in Hd3.
    + intros u. unfold GetAllSubscribers. rewrite elem_of_elements. unfold subscriberMap.
      rewrite (co_members _ _ _ _ Ho), due_own by done. apply elem_of_list_to_set.
Qed.

(** [removeSubscriber], before it comes to the conversations: the
    subscribers are gone from the storage and from the cache. *)
Lemma dropSubscribers_served r st : coherent opts st -> own_lists (l_channel r) -> exists_in (db st) (l_channel r) ->
  subscribers_Check (l_channel r) (l_UIDs r) = Ret tt ->
  exists st', dropSubscribers opts datasource r st = (Ret tt, st') /\ coherent opts st' /\
    sets_list Subscribers (l_channel r)
      (filter (fun u => u ∉ l_UIDs r) (lists (db st) Subscribers (l_channel r))) (db st) (db st').
Proof.
  intros Hco Hc Hex Hok. set (c := l_channel r) in *. unfold dropSubscribers. fold c. rewrite Hok. io_step (lift_step tt st).
  destruct (GetChannel_coherent opts datasource own_data c st Hco (ol_type c Hc) (ol_kept c Hc))
    as (o & st1 & E & Hd & _ & Hco1 & Ho).
  destruct o as [ch|]; [|by destruct Ho as (? & ? & ?), Hex as [?|[?|?]]; congruence].
  assert (wrap_io "获取频道失败！" (GetChannel opts datasource c) st = (Ret (Some ch), st1)) as Ew
    by (unfold wrap_io; by rewrite E).
  io_step Ew. destruct (RemoveList_law Subscribers c (l_UIDs r) (db st1)) as (d & E2 & Hl & Hi).
  io_step (stored_step _ st1 _ _ E2). eexists. split; [reflexivity|]. rewrite db_put. cbn [set_db db].
  rewrite Hd in Hl. assert (sets_list Subscribers c (filter (fun u => u ∉ l_UIDs r) (lists (db st) Subscribers c)) (db st) d) as Hs.
  { split; [done|]. intros c'. by rewrite (proj1 (Hi c')), Hd. }
  split; [|done]. apply coherent_put; [done| |].
  - intros c' ch' Hc' Hne Hch'. apply (coherent_channel_other c (db st)); [by eapply sets_list_only|done|].
    rewrite <- Hd. by apply Hco1.
  - cbn [set_db db]. apply (brings_members Subscribers c _ (db st) d _ (fun s => s ∖ list_to_set (l_UIDs r)) Hc Hs).
    + intros x. by split.
    + by rewrite list_to_set_filter_out.
    + rewrite list_to_set_filter_out. set_solver.
    + by left.
Qed.

(** [channelDelete] forgets the channel but not its subscribers, its
    deny list and its allow list: a channel created again has them. *)
Theorem channelDelete_keeps_lists c st : coherent opts st -> chan_ok c -> snd c <> ChannelTypePerson ->
  exists st', channelDelete c st = (Ret tt, st') /\ coherent opts st' /\ info_at (db st') c = None /\
    forall k c', lists (db st') k c' = lists (db st) k c'.
Proof.
  intros Hco Hc Hp. unfold channelDelete.
  destruct (DeleteChannelAndClearMessages_law c (db st)) as (d1 & E1 & Hl1 & Hi1). io_step (stored_step _ st _ _ E1).
  destruct (DeleteChannel_law c d1) as (d2 & E2 & Hl2 & Hi2).
  assert (Channels.DeleteChannel c (set_db d1 st) =
    (Ret tt, mkState (delete (key c) (channelMap st)) (tmpChannelMap st) (personChannelMap st) (systemUIDs st) (loaded st) d2))
    as Ed by (unfold Channels.DeleteChannel; by io_step (stored_step _ (set_db d1 st) _ _ E2)).
  io_step (attempt_Ret _ _ _ _ Ed). eexists. split; [reflexivity|]. split; [|split].
  - apply (coherent_drop c (set_db d2 st)); [done| |done]. intros c' ch Hc' Hne Hch.
    apply (coherent_channel_other c (db st)); [|done|by apply Hco]. intros c2 Hne2. cbn [set_db db]. split.
    + intros k. by rewrite Hl2, Hl1.
    + by rewrite Hi2, Hi1, !decide_False.
  - cbn [db]. by rewrite Hi2, decide_True.
  - intros k c'. cbn [db]. by rewrite Hl2, Hl1.
Qed.
End Coherent.

(** * Removing subscribers

    [removeSubscriber] also takes the channel out of their recent
    conversations. *)
Section RemoveSubscriber.
Context {C S : Type} `{LRULaws C Db.Conversation} `{StorageLaws S} (opts : Options) (datasource : Datasource).
Context (ConversationOfUserMaxCount : Z).
Implicit Type l : LiMao C S.

Definition removeSubscriber (r : listReq) : io (LiMao C S) unit :=
  in_channels (dropSubscribers opts datasource r) ;;
  zoom l_conversations set_l_conversations
    (DeleteConversation ConversationOfUserMaxCount (l_UIDs r) (fst (l_channel r)) (snd (l_channel r))).

(** [removeSubscriber] takes the subscribers off the channel, in the
    storage and in memory, and the channel out of the recent conversations of
    each of them. *)
Theorem removeSubscriber_served r l : HasDatasource opts = false -> coherent opts (l_channels l) ->
  well_formed (l_conversations l) -> own_lists opts (l_channel r) -> exists_in opts (db (l_channels l)) (l_channel r) ->
  subscribers_Check (l_channel r) (l_UIDs r) = Ret tt ->
  exists l', removeSubscriber r l = (Ret tt, l') /\ coherent opts (l_channels l') /\
    sets_list Subscribers (l_channel r)
      (filter (fun u => u ∉ l_UIDs r) (lists (db (l_channels l)) Subscribers (l_channel r)))
      (db (l_channels l)) (db (l_channels l')) /\
    forall u, u ∈ l_UIDs r -> exists c, cache_of u (l_conversations l') = Some c /\
      getChannelKey (fst (l_channel r)) (snd (l_channel r)) ∉ Keys c.
Proof.
  intros Hown Hco Hw Hc Hex Hok.
  destruct (dropSubscribers_served opts datasource Hown r (l_channels l) Hco Hc Hex Hok) as (st & E & Hco' & Hs).
  assert (in_channels (dropSubscribers opts datasource r) l = (Ret tt, set_l_channels st l)) as E1
    by (unfold in_channels, zoom; by rewrite E).
  destruct (DeleteConversation_spec (S := unit) ConversationOfUserMaxCount (l_UIDs r) (fst (l_channel r)) (snd (l_channel r))
    (l_conversations l) Hw) as (cm & E2 & _ & Hin & _).
  exists (set_l_conversations cm (set_l_channels st l)). split; [|done].
  unfold removeSubscriber. io_step E1. unfold zoom. cbn [set_l_channels l_conversations]. by rewrite E2.
Qed.
End RemoveSubscriber.

(** * A group with a channel in the cache *)
Definition api_opts : Options := mkOptions false 1 false "@tmp" false false false.
Definition api_datasource : Datasource := mkDatasource (fun _ _ => Ret []) (Ret []).
Definition api_group : chan := ("g"%string, ChannelTypeGroup).
Definition api_store : Memory.store :=
  snd ((AddOrUpdateChannel (mkChannelInfo "g" ChannelTypeGroup false EmptyString) ;;
        AddList Subscribers api_group ["alice"; "bob"] ;;
        AddList Denylist api_group ["mallory"]) Memory.empty_store).
Definition api_empty : state Memory.store := mkState ∅ ∅ ∅ ∅ false api_store.
Definition api_state : state Memory.store := snd (Channels.GetChannel api_opts api_datasource api_group api_empty).

Lemma api_group_ok : own_lists api_opts api_group.
Proof. split; [discriminate|reflexivity..]. Qed.

Lemma api_state_coherent : coherent api_opts api_state.
Proof.
  destruct (GetChannel_coherent api_opts api_datasource eq_refl api_group api_empty) as (o & st & E & _ & _ & Hco & _).
  - intros c ch _. unfold cached. cbn [api_empty personChannelMap channelMap]. rewrite !lookup_empty. by destruct (_ =? _).
  - discriminate.
  - reflexivity.
  - unfold api_state. by rewrite E.
Qed.


Lemma whitelistSet_refuses_its_members_witness :
  let r := mkListReq api_group ["alice"] in
  exists ch st', whitelistSet api_opts api_datasource r api_state = (Ret tt, st') /\ cached st' (l_channel r) ch /\
    Allow (systemUIDs st') "alice" ch = false /\ allowed (systemUIDs st') (db st') (l_channel r) "alice" = true.
Proof.
  apply (whitelistSet_refuses_its_members api_opts api_datasource eq_refl (mkListReq api_group ["alice"]) api_state "alice").
  - exact api_state_coherent.
  - exact api_group_ok.
  - right; left. vm_compute. discriminate.
  - reflexivity.
  - by left.
  - apply not_elem_of_empty.
Defined.

Lemma addSubscriber_misses_cache_witness :
  let r := mkSubscriberAddReq api_group 0 ["carol"; "bob"] in
  let c := group_of (a_channel r) in
  let old := if Reset_ r =? 1 then [] else lists (db api_state) Subscribers c in
  newSubscribers old (a_Subscribers r) = ["carol"%string] /\
  exists ch st', addSubscriber api_opts api_datasource r api_state = (Ret tt, st') /\
    Channels.GetChannel api_opts api_datasource c st' = (Ret (Some ch), st') /\
    sets_list Subscribers c (old ++ newSubscribers old (a_Subscribers r)) (db api_state) (db st') /\
    forall u, u ∈ GetAllSubscribers ch <-> u ∈ old.
Proof.
  split; [vm_compute; reflexivity|].
  apply (addSubscriber_misses_cache api_opts api_datasource eq_refl (mkSubscriberAddReq api_group 0 ["carol"; "bob"]) api_state).
  - exact api_state_coherent.
  - exact api_group_ok.
  - right; left. vm_compute. discriminate.
  - discriminate.
  - reflexivity.
Defined.
