(* ===== verification/MessageAPI.v ===== *)
(** The requests of the application about messages: [send] and
    [sendMessageToChannel] of internal/lim/api_message.go, [syncMessages] of
    internal/lim/api_channel.go and [MessageResp] of
    internal/lim/api_model.go. *)
From stdpp Require Import base list gmap strings.
From Stdlib Require Import ZArith Lia Strings.Byte.
From S2P Require Import Prelude Effects Keys Strconv Wire Frames Ids Protocol PQueue Model Queues Clients Storage Channels Conversations Encodings Aes Server Handler Sending ChannelAPI.

(** [BoolToInt], [IntToBool] and [RemoveRepeatedElement] of
    pkg/util/common.go: of equal names the last stays. *)
Definition BoolToInt (b : bool) : Z := if b then 1 else 0.
Definition IntToBool (b : Z) : bool := b =? 1.
Fixpoint RemoveRepeatedElement (arr : list string) : list string :=
  match arr with
  | [] => []
  | x :: rest => if existsb (fun y => bool_decide (x = y)) rest then RemoveRepeatedElement rest
                 else x :: RemoveRepeatedElement rest
  end.

Lemma repeated_spec x (l : list string) : existsb (fun y => bool_decide (x = y)) l = true <-> x ∈ l.
Proof.
  rewrite existsb_exists. split.
  - intros (y & Hy & ->%bool_decide_eq_true). by apply list_elem_of_In.
  - intros Hx. exists x. split; [by apply list_elem_of_In|by apply bool_decide_true].
Qed.

Lemma RemoveRepeatedElement_elem x l : x ∈ RemoveRepeatedElement l <-> x ∈ l.
Proof.
  induction l as [|y l IH]; [done|]. cbn [RemoveRepeatedElement].
  destruct (existsb _ l) eqn:E.
  - rewrite IH, elem_of_cons. apply repeated_spec in E. split; [auto|]. by intros [->|].
  - by rewrite !elem_of_cons, IH.
Qed.

Lemma RemoveRepeatedElement_nodup l : NoDup (RemoveRepeatedElement l).
Proof.
  induction l as [|y l IH]; [constructor|]. cbn [RemoveRepeatedElement].
  destruct (existsb _ l) eqn:E; [done|]. constructor; [|done].
  rewrite RemoveRepeatedElement_elem, <- repeated_spec, E. done.
Qed.

(** * Sending *)
Record MessageHeader := mkMessageHeader { NoPersist : Z; RedDot : Z; SyncOnce : Z }.
Record MessageSendReq := mkMessageSendReq {
  s_Header : MessageHeader;
  s_ClientMsgNo : string;
  s_FromUID : string;
  s_channel : chan;
  s_Subscribers : list string;
  s_Payload : list byte
}.

Definition MessageSendReq_Check (m : MessageSendReq) : outcome unit :=
  if bool_decide (length (s_Payload m) = 0%nat) then Err (ErrMsg "payload不能为空！") else Ret tt.

(** [x, err := m; if err != nil { return errors.New(msg) }]. *)
Definition or_else {S A} (msg : string) (m : io S A) : io S A :=
  o ← attempt m;
  match o with inr _ => raise (ErrMsg msg) | inl a => mret a end.

Lemma or_else_Ret {S A} msg (m : io S A) s a s' : m s = (Ret a, s') -> or_else msg m s = (Ret a, s').
Proof. intros E. unfold or_else. by io_step (attempt_Ret _ _ _ _ E). Qed.

Section Send.
Context {C S : Type} `{LRU C Db.Conversation} `{Storage S} `{Crypto}.
Context (env : Env).
Implicit Type l : LiMao C S.
Let opts := e_opts env.

Definition api_fake (req : MessageSendReq) (channelID : string) (channelType : Z) : string :=
  if (channelType =? ChannelTypePerson) && bool_decide (s_FromUID req <> EmptyString)
  then GetFakeChannelIDWith (s_FromUID req) channelID else channelID.

(** A message that takes a number; one that is kept. *)
Definition takes_number (req : MessageSendReq) : bool :=
  (NoPersist (s_Header req) =? 0) && negb (SyncOnce (s_Header req) =? 1).
Definition api_keeps (req : MessageSendReq) (channelID : string) : bool :=
  negb (IntToBool (NoPersist (s_Header req))) && negb (IntToBool (SyncOnce (s_Header req))) &&
  negb (HasSuffix channelID (TmpChannelSuffix opts)).

Definition api_recv (now messageID messageSeq : Z) (req : MessageSendReq) (clientMsgNo channelID : string)
    (channelType : Z) : Recv.RecvPacket :=
  let h := s_Header req in
  Recv.mkRecvPacket (mkFramer 0 0 (IntToBool (NoPersist h)) (IntToBool (RedDot h)) (IntToBool (SyncOnce h)) false)
    (mkSetting false) EmptyString messageID messageSeq clientMsgNo (i32 now) (s_FromUID req) channelID channelType
    (s_Payload req).

Definition sendMessageToChannel (now deadline : Z) (req : MessageSendReq) (channelID : string) (channelType : Z) :
    io (LiMao C S) unit :=
  messageID ← genMessageID env;
  let fakeChannelID := api_fake req channelID channelType in
  channel ← or_else "查询频道信息失败！" (getChannel env (fakeChannelID, channelType));
  match channel with
  | None => raise (ErrMsg "频道信息不存在！")
  | Some ch =>
      clientMsgNo ← (if blank (s_ClientMsgNo req) then GenUUID env else mret (s_ClientMsgNo req));
      messageSeq ← (if takes_number req
                    then or_else "获取频道消息序列号失败！" (in_store (GetNextMessageSeq (fakeChannelID, channelType)))
                    else mret 0);
      let subscribers := RemoveRepeatedElement (s_Subscribers req) in
      let r := api_recv now messageID messageSeq req clientMsgNo channelID channelType in
      let messageD := messageOf r fakeChannelID in
      (if api_keeps req channelID then or_else "Failed to save history message" (in_store (AppendMessage messageD))
       else mret tt) ;;
      (if WebhookOn opts then or_else "添加消息到通知队列失败！" (in_store (AppendMessageOfNotifyQueue messageD))
       else mret tt) ;;
      or_else "将消息放入频道内失败！"
        (PutMessage env deadline ch (Lim.mkMessage r EmptyString subscribers SYSTEM 0 0 0))
  end.

(** Without a channel but with subscribers the message goes to a temporary
    channel of its own. *)
Definition send (now deadline : Z) (req : MessageSendReq) : io (LiMao C S) unit :=
  lift (MessageSendReq_Check req) ;;
  '(channelID, channelType) ←
    (if blank (fst (s_channel req)) && negb (bool_decide (length (s_Subscribers req) = 0%nat)) then
       uuid ← GenUUID env;
       let c := (uuid +:+ TmpChannelSuffix opts, ChannelTypeGroup) in
       in_channels (CreateTmpChannel c (s_Subscribers req)) ;;
       mret c
     else mret (s_channel req));
  if blank channelID then raise (ErrMsg "无法处理发送消息请求！")
  else sendMessageToChannel now deadline req channelID channelType.

(** [syncackReq.Check] and [syncack]. *)
Definition syncack (uid : string) (lastMessageSeq : Z) : io (LiMao C S) unit :=
  if blank uid then raise (ErrMsg "用户UID不能为空！")
  else if lastMessageSeq =? 0 then raise (ErrMsg "最后一次messageSeq不能为0！")
  else in_store (UpdateMessageOfUserCursorIfNeed uid lastMessageSeq).
End Send.

(** ** What sending brings about *)
Section Sent.
Context {C S : Type} `{LRU C Db.Conversation} `{StorageLaws S} `{Crypto}.
Context (env : Env).
Implicit Type l : LiMao C S.
Let opts := e_opts env.
Hypothesis alone : IsCluster opts = false.
Hypothesis own_data : HasDatasource opts = false.
Abbreviation data l := (db (l_channels l)).

(** The flags of a request, 0 or 1. *)
Definition proper_flags (req : MessageSendReq) : Prop :=
  (NoPersist (s_Header req) = 0 \/ NoPersist (s_Header req) = 1) /\
  (SyncOnce (s_Header req) = 0 \/ SyncOnce (s_Header req) = 1).

Lemma keeps_numbered req channelID : proper_flags req -> HasSuffix channelID (TmpChannelSuffix opts) = false ->
  api_keeps env req channelID = takes_number req.
Proof.
  intros [Hn Hs] Ht. unfold api_keeps, takes_number, IntToBool. fold opts. rewrite Ht. cbn [negb]. rewrite andb_true_r.
  by destruct Hn as [-> | ->], Hs as [-> | ->].
Qed.

Lemma or_else_if {S' A} (b : bool) msg (m m' : io S' A) s a s' :
  (if b then m else m') s = (Ret a, s') -> (if b then or_else msg m else m') s = (Ret a, s').
Proof. destruct b; [apply or_else_Ret|done]. Qed.

(** The steps of [sendMessageToChannel] once the channel [ch] is found. *)
Lemma sendMessageToChannel_on now deadline req channelID channelType ch l l1
    (c := (api_fake req channelID channelType, channelType))
    (seq := if takes_number req then lastSeq (data l) c + 1 else 0)
    (no := if blank (s_ClientMsgNo req) then uuids env (Datatypes.S (l_ids l)) else s_ClientMsgNo req)
    (r := api_recv now (messageIDs env (l_ids l)) seq req no channelID channelType)
    (m := Lim.mkMessage r EmptyString (RemoveRepeatedElement (s_Subscribers req)) SYSTEM 0 0 0) :
  getChannel env c (set_l_ids (Datatypes.S (l_ids l)) l) = (Ret (Some ch), l1) ->
  only_channels (set_l_ids (Datatypes.S (l_ids l)) l) l1 -> data l1 = data l -> numbered (data l) c ->
  (api_keeps env req channelID = true -> takes_number req = true) ->
  exists n l3 l', sendMessageToChannel env now deadline req channelID channelType l = (Ret tt, l') /\
    number_taken (takes_number req) c (set_l_ids n l1) l3 /\
    taken_in env c m (if api_keeps env req channelID then Some (messageOf r (fst c)) else None) (receivers ch m) l3 l'.
Proof.
  intros E1 O1 D1 Hn Hk. unfold sendMessageToChannel. fold c.
  set (l0 := set_l_ids (Datatypes.S (l_ids l)) l) in *.
  assert (genMessageID env l = (Ret (messageIDs env (l_ids l)), l0)) as Eid by reflexivity. io_step Eid.
  cbv zeta. io_step (or_else_Ret "查询频道信息失败！" _ _ _ _ E1).
  set (n := if blank (s_ClientMsgNo req) then Datatypes.S (l_ids l1) else l_ids l1).
  assert ((if blank (s_ClientMsgNo req) then GenUUID env else mret (s_ClientMsgNo req)) l1 = (Ret no, set_l_ids n l1)) as Eno.
  { assert (l_ids l1 = Datatypes.S (l_ids l)) as Ei by (by rewrite O1).
    unfold no, n, GenUUID. rewrite Ei. destruct (blank _); [by rewrite Ei|]. unfold mret, io_ret. rewrite <- Ei. by destruct l1. }
  io_step Eno. set (l2 := set_l_ids n l1). assert (data l2 = data l) as D2 by exact D1.
  rewrite <- D2 in Hn. destruct (take_number_spec (takes_number req) c l2 Hn) as (l3 & E3 & N3).
  io_step (or_else_if _ "获取频道消息序列号失败！" _ _ _ _ _ E3). rewrite D2. fold seq. fold r. fold m.
  destruct (keep_spec (api_keeps env req channelID) (messageOf r (fst c)) l3) as (l4 & E4 & K4).
  { intros Hkeep. apply (number_above _ _ _ _ _ Hn N3). rewrite D2. cbn [messageOf r api_recv Db.MessageSeq Recv.MessageSeq].
    unfold seq. rewrite (Hk Hkeep). lia. }
  io_step (or_else_if _ "Failed to save history message" _ _ _ _ _ E4).
  destruct (notify_spec env (messageOf r (fst c)) l4) as (l5 & E5 & U5).
  io_step (or_else_if _ "添加消息到通知队列失败！" _ _ _ _ _ E5).
  destruct (PutMessage_hands_over env alone deadline ch m l5) as (l6 & E6 & H6).
  exists n, l3, l6. split; [exact (or_else_Ret _ _ _ _ _ E6)|]. split; [done|]. by eapply taken_in_steps.
Qed.

(** Those named by a request, each once. *)
Lemma receivers_named ch m us : Lim.Subscribers m = RemoveRepeatedElement us -> us <> [] ->
  receivers ch m = RemoveRepeatedElement us.
Proof.
  intros Hm Hs. unfold receivers. rewrite Hm, bool_decide_false; [done|].
  intros Hl%nil_length_inv. destruct us as [|x rest]; [done|].
  assert (x ∈ RemoveRepeatedElement (x :: rest)) as Hx by (apply RemoveRepeatedElement_elem; left).
  rewrite Hl in Hx. by apply elem_of_nil in Hx.
Qed.


(** A message sent to names instead of a channel is handed over once for
    exactly these names, each once, and kept nowhere; the temporary channel
    made for it still takes a number of the storage. *)
Theorem send_to_names now deadline req l (c := (uuids env (l_ids l) +:+ TmpChannelSuffix opts, ChannelTypeGroup))
    (seq := if takes_number req then lastSeq (data l) c + 1 else 0)
    (no := if blank (s_ClientMsgNo req) then uuids env (Datatypes.S (Datatypes.S (l_ids l))) else s_ClientMsgNo req)
    (m := Lim.mkMessage (api_recv now (messageIDs env (Datatypes.S (l_ids l))) seq req no (fst c) (snd c)) EmptyString
            (RemoveRepeatedElement (s_Subscribers req)) SYSTEM 0 0 0) :
  blank (fst (s_channel req)) = true -> s_Subscribers req <> [] -> s_Payload req <> [] ->
  blank (fst c) = false -> HasSuffix (fst c) (TmpChannelSuffix opts) = true -> numbered (data l) c ->
  exists l' seqs, send env now deadline req l = (Ret tt, l') /\
    l_deliveries l' = l_deliveries l ++
      (if e_pool env (l_deliveries l) then [mkDelivery m seqs (RemoveRepeatedElement (s_Subscribers req))] else []) /\
    (forall c', log (data l') c' = log (data l) c') /\
    lastSeq (data l') c = (if takes_number req then lastSeq (data l) c + 1 else lastSeq (data l) c).
Proof.
  intros Hb Hs Hp Hnb Ht Hn.
  set (ch := Channels.Add Subscribers (s_Subscribers req) (NewChannel (NewChannelInfo (fst c) (snd c)))).
  set (st := set_tmp (<[key c := ch]> (tmpChannelMap (l_channels l))) (l_channels l)).
  set (l0 := set_l_channels st (set_l_ids (Datatypes.S (l_ids l)) l)).
  assert (send env now deadline req l = sendMessageToChannel env now deadline req (fst c) (snd c) l0) as Es.
  { unfold send, MessageSendReq_Check. rewrite bool_decide_false by (by intros Hl%nil_length_inv).
    unfold mbind at 1, io_bind, lift. rewrite Hb, bool_decide_false by (by intros Hl%nil_length_inv).
    cbn [andb negb]. fold opts.
    assert ((uuid ← GenUUID env; in_channels (CreateTmpChannel (uuid +:+ TmpChannelSuffix opts, ChannelTypeGroup)
      (s_Subscribers req)) ;; mret (uuid +:+ TmpChannelSuffix opts, ChannelTypeGroup)) l = (Ret c, l0)) as Ec by reflexivity.
    cbv zeta. io_step Ec. change (blank (fst c) = false) in Hnb. unfold c. cbn beta iota. unfold c in Hnb. cbn [fst] in Hnb.
    by rewrite Hnb. }
  rewrite Es.
  assert (getChannel env c (set_l_ids (Datatypes.S (l_ids l0)) l0) = (Ret (Some ch), set_l_ids (Datatypes.S (l_ids l0)) l0)) as E1.
  { unfold getChannel, in_channels, zoom. unfold Channels.GetChannel. fold opts. rewrite Ht.
    unfold GetTmpChannel, gets. cbn [l_channels set_l_ids l0 set_l_channels st set_tmp tmpChannelMap].
    by rewrite lookup_insert_eq. }
  destruct (sendMessageToChannel_on now deadline req (fst c) (snd c) ch l0 (set_l_ids (Datatypes.S (l_ids l0)) l0))
    as (n & l3 & l' & E & N & T).
  - exact E1.
  - by destruct l0.
  - done.
  - exact Hn.
  - unfold api_keeps. fold opts. rewrite Ht, andb_false_r. done.
  - change (api_fake req (fst c) (snd c), snd c) with c in *. change (data l0) with (data l) in *.
    change (l_ids l0) with (Datatypes.S (l_ids l)) in *. fold seq no m in T.
    assert (api_keeps env req (fst c) = false) as Hk by (unfold api_keeps; fold opts; by rewrite Ht, andb_false_r).
    rewrite Hk in T. rewrite (receivers_named ch m (s_Subscribers req)) in T by done.
    destruct N as [Q1 N1 Hl3], T as [L2 Q2 _ _ (seqs & D2)]. exists l', seqs. split; [done|]. split; [|split].
    + rewrite D2, Hl3. reflexivity.
    + intros c'. rewrite L2. destruct (Q1 c') as (-> & _). cbn [option_list]. rewrite app_nil_r. by destruct (decide _).
    + destruct (Q2 c) as (_ & _ & ->). exact N1.
Qed.
End Sent.

(** * Witnesses *)
#[local] Existing Instance toyCrypto.

Definition example_req (c : chan) (names : list string) : MessageSendReq :=
  mkMessageSendReq (mkMessageHeader 0 1 0) EmptyString "system" c names [Byte.x68; Byte.x69].


(** Flags other than 0 and 1: the message takes no number, and is stored
    under the number 0. *)
Example unnumbered_is_kept :
  let req := mkMessageSendReq (mkMessageHeader 2 0 0) "no" "system" ("g"%string, ChannelTypeGroup) [] [Byte.x68] in
  takes_number req = false /\ api_keeps example_env req "g" = true.
Proof. split; reflexivity. Qed.
