(* ===== verification/UserAPI.v ===== *)
(** The requests of the application about users and conversations:
    internal/lim/api_user.go and the requests of
    internal/lim/api_conversation.go that change something. *)
From stdpp Require Import base list gmap strings.
From Stdlib Require Import ZArith Lia Strings.Byte.
From S2P Require Import Prelude Effects Keys Wire Frames Ids Protocol PQueue Model Queues Clients Storage Channels Conversations Encodings Aes Server Handler Sending Sessions ChannelAPI MessageAPI.

Record UpdateTokenReq := mkUpdateTokenReq {
  t_UID : string;
  t_Token : string;
  t_DeviceFlag : DeviceFlag;
  t_DeviceLevel : DeviceLevel
}.
Definition UpdateTokenReq_Check (u : UpdateTokenReq) : outcome unit :=
  if bool_decide (t_UID u = EmptyString) then Err (ErrMsg "uid不能为空！")
  else if bool_decide (t_Token u = EmptyString) then Err (ErrMsg "token不能为空！")
  else Ret tt.

(** [clearConversationUnreadReq] and the request of [setConversationUnread]. *)
Record unreadReq := mkUnreadReq { un_UID : string; un_channel : chan; un_Unread : Z }.
(** [deleteChannelReq]. *)
Record deleteChannelReq := mkDeleteChannelReq { dc_UIDS : list string; dc_channel : chan }.

Definition no_channel (c : chan) : bool := bool_decide (fst c = EmptyString) || (snd c =? 0).

Section Requests.
Context {C S : Type} `{LRU C Db.Conversation} `{Storage S} `{Crypto}.
Context (ConversationOfUserMaxCount : Z).
Implicit Type l : LiMao C S.

Definition token_kick : Frame :=
  FDisconnect (Disconnect.mkDisconnectPacket zeroFramer 0 "账号在其他设备上登录").

Definition updateToken (req : UpdateTokenReq) : io (LiMao C S) unit :=
  lift (UpdateTokenReq_Check req) ;;
  wrap_io "更新用户token失败！" (in_store (UpdateUserToken (t_UID req) (t_DeviceFlag req) (t_DeviceLevel req) (t_Token req))) ;;
  oldClient ← gets (fun l => ClientManager.GetClientWith (t_UID req) (t_DeviceFlag req) (l_clients l));
  match oldClient with
  | None => mret tt
  | Some c => WritePacket c token_kick
  end ;;
  or_else "创建个人频道失败！" (in_channels (CreateOrUpdatePersonChannel (t_UID req))).

Definition systemUIDsAdd (uids : list string) : io (LiMao C S) unit :=
  for_each (fun uid => in_channels (AddSystemUID uid)) uids.
Definition systemUIDsRemove (uids : list string) : io (LiMao C S) unit :=
  for_each (fun uid => in_channels (RemoveSystemUID uid)) uids.

Definition getOnlineStatus (uids : list string) : io (LiMao C S) (list string) :=
  gets (fun l => ClientManager.GetOnlineUIDs uids (l_clients l)).

Definition in_conversations {A} (m : io (manager C unit) A) : io (LiMao C S) A := zoom l_conversations set_l_conversations m.

Definition setUnread (missing : string) (req : unreadReq) (unread : Z) : io (LiMao C S) unit :=
  if bool_decide (un_UID req = EmptyString) then raise (ErrMsg missing)
  else if no_channel (un_channel req) then raise (ErrMsg "channel_id or channel_type cannot be empty")
  else in_conversations (SetConversationUnread ConversationOfUserMaxCount (un_UID req) (fst (un_channel req))
         (snd (un_channel req)) unread).
Definition clearConversationUnread (req : unreadReq) := setUnread "uid cannot be empty" req 0.
Definition setConversationUnread (req : unreadReq) := setUnread "UID cannot be empty" req (un_Unread req).

Definition deleteConversation (req : deleteChannelReq) : io (LiMao C S) unit :=
  if bool_decide (length (dc_UIDS req) = 0%nat) then raise (ErrMsg "Uids cannot be empty")
  else if no_channel (dc_channel req) then raise (ErrMsg "channel_id or channel_type cannot be empty")
  else in_conversations (DeleteConversation ConversationOfUserMaxCount (dc_UIDS req) (fst (dc_channel req))
         (snd (dc_channel req))).
End Requests.

(** * What a new token brings about *)
Section Token.
Context {C S : Type} `{LRU C Db.Conversation} `{StorageLaws S} `{Crypto}.
Implicit Type l : LiMao C S.
Abbreviation data l := (db (l_channels l)).

(** The channel of a person, with the person as a subscriber. *)
Definition has_own_channel (d : S) (u : string) : Prop :=
  is_Some (info_at d (u, ChannelTypePerson)) /\ u ∈ lists d Subscribers (u, ChannelTypePerson).

Lemma wrap_step {A} msg (m : io S A) (st : state S) a d : m (db st) = (Ret a, d) ->
  wrap_io msg (Channels.stored m) st = (Ret a, set_db d st).
Proof. intros E. unfold wrap_io, Channels.stored, zoom. by rewrite E. Qed.

Lemma ArrayContains_elem u (us : list string) : ArrayContains us u = true <-> u ∈ us.
Proof.
  unfold ArrayContains. rewrite existsb_exists. split.
  - intros (y & Hy & ->%bool_decide_eq_true). by apply list_elem_of_In.
  - intros Hu. exists u. split; [by apply list_elem_of_In|by apply bool_decide_true].
Qed.

(** [CreateOrUpdatePersonChannel] makes what is missing of it, and leaves the
    tokens alone. *)
Lemma CreateOrUpdatePersonChannel_spec u (st : state S) : exists d,
  CreateOrUpdatePersonChannel u st = (Ret tt, set_db d st) /\ has_own_channel d u /\ token_at d = token_at (db st) /\
  (forall c, c <> (u, ChannelTypePerson) -> info_at d c = info_at (db st) c /\ forall k, lists d k c = lists (db st) k c) /\
  (forall k, k <> Subscribers -> lists d k (u, ChannelTypePerson) = lists (db st) k (u, ChannelTypePerson)).
Proof.
  set (c := (u, ChannelTypePerson)).
  unfold CreateOrUpdatePersonChannel. fold c. io_step (wrap_step "查询是否存在频道信息失败！" _ _ _ _ (ExistChannel_law c (db st))).
  assert (exists d1, (if bool_decide (is_Some (info_at (db st) c)) then mret tt
      else wrap_io "创建个人频道失败！" (Channels.stored (AddOrUpdateChannel (NewChannelInfo u ChannelTypePerson))))
      (set_db (db st) st) = (Ret tt, set_db d1 st) /\ is_Some (info_at d1 c) /\ token_at d1 = token_at (db st) /\
      (forall c', c' <> c -> info_at d1 c' = info_at (db st) c') /\ forall c' k, lists d1 k c' = lists (db st) k c')
    as (d1 & E1 & Hi1 & Ht1 & Ho1 & Hl1).
  { case_bool_decide as Hi; [exists (db st); by split|].
    destruct (AddOrUpdateChannel_law (NewChannelInfo u ChannelTypePerson) (db st)) as (d1 & E & Hinfo & Hrest).
    pose proof (AddOrUpdateChannel_token (NewChannelInfo u ChannelTypePerson) (db st)) as Ht. rewrite E in Ht.
    exists d1. split; [by apply (wrap_step _ _ (set_db (db st) st))|].
    split; [rewrite Hinfo; by rewrite decide_True|]. split; [done|].
    split; [intros c' Hc'; rewrite Hinfo; by rewrite decide_False|]. intros c' k. apply Hrest. }
  io_step E1. io_step (wrap_step "获取频道订阅者失败！" _ (set_db d1 st) _ _ (GetList_law Subscribers c d1)).
  change (set_db d1 (set_db d1 st)) with (set_db d1 st). set (subs := lists d1 Subscribers c).
  destruct (bool_decide (length subs = 0%nat) || negb (ArrayContains subs u)) eqn:Ex.
  - destruct (AddList_law Subscribers c [u] d1) as (d2 & E2 & Hl2 & Hi2).
    pose proof (AddList_token Subscribers c [u] d1) as Ht2. rewrite E2 in Ht2. cbn in Ht2.
    exists d2. split; [by apply (wrap_step _ _ (set_db d1 st))|]. split; [split|split; [congruence|split]].
    + by rewrite (proj1 (Hi2 _)).
    + fold c. rewrite Hl2, decide_True by done. set_solver.
    + intros c' Hc'. split; [by rewrite (proj1 (Hi2 _)), Ho1|]. intros k.
      rewrite Hl2, decide_False by congruence. apply Hl1.
    + intros k Hk. fold c. rewrite Hl2, decide_False by congruence. apply Hl1.
  - apply orb_false_iff in Ex as [_ Ex%negb_false_iff%ArrayContains_elem].
    exists d1. split; [reflexivity|]. split; [by split|]. split; [done|]. split; [|done]. auto.
Qed.

(** Writing to a client changes its connection alone. *)
Lemma WritePacket_kick (c : Client) l : exists conns, WritePacket c token_kick l = (Ret tt, set_l_conns conns l) /\
  forall id, Closed <$> conns !! id = Closed <$> l_conns l !! id.
Proof.
  unfold WritePacket, token_kick, conn_Version, gets, mbind, io_bind.
  match goal with |- context [EncodePacket (FDisconnect ?p) ?v] => destruct (EncodePacket_disconnect p v) as (bs & -> & Hbs) end.
  rewrite bool_decide_false by (by intros ?%nil_length_inv). eexists. split; [reflexivity|]. intros id.
  rewrite lookup_alter. case_decide as E; [|done]. rewrite E. destruct (l_conns l !! id) as [x|]; [|done]. cbn.
  by destruct x as [? ? []].
Qed.

(** C35: [updateToken] makes the token the one that admits the user's device,
    and sees to it that the user has a channel of the user's own. The client
    that is connected on the device is told to disconnect; it stays
    registered and its connection stays open. *)
Theorem updateToken_admits (env : Env) (req : UpdateTokenReq) l : UpdateTokenReq_Check req = Ret tt ->
  InTestMode (e_opts env) = false ->
  exists l', updateToken req l = (Ret tt, l') /\ has_own_channel (data l') (t_UID req) /\
    l_clients l' = l_clients l /\ l_closing l' = l_closing l /\
    (forall id, Closed <$> l_conns l' !! id = Closed <$> l_conns l !! id) /\
    forall p, Connect.UID p = t_UID req -> Connect.deviceFlag p = t_DeviceFlag req ->
      fst (authenticate env p l') =
        Ret (if bool_decide (t_Token req = Connect.Token p) then inl (t_DeviceLevel req) else inr ReasonAuthFail).
Proof.
  intros Hok Htm. unfold updateToken. rewrite Hok. rewrite (bind_Ret_io (lift (Ret tt)) _ l tt l eq_refl).
  destruct (UpdateUserToken_law (t_UID req) (t_DeviceFlag req) (t_DeviceLevel req) (t_Token req) (data l)) as (d1 & E1 & Ht1 & _).
  set (l1 := set_l_channels (set_db d1 (l_channels l)) l).
  assert (wrap_io "更新用户token失败！" (in_store (UpdateUserToken (t_UID req) (t_DeviceFlag req) (t_DeviceLevel req)
    (t_Token req))) l = (Ret tt, l1)) as Ew.
  { unfold wrap_io, in_store, in_channels, Channels.stored, zoom. by rewrite E1. }
  io_step Ew.
  io_step (eq_refl : gets (fun l => ClientManager.GetClientWith (t_UID req) (t_DeviceFlag req) (l_clients l)) l1 = (Ret _, l1)).
  assert (exists conns, match ClientManager.GetClientWith (t_UID req) (t_DeviceFlag req) (l_clients l1) with
      | None => mret tt | Some c => WritePacket c token_kick end l1 = (Ret tt, set_l_conns conns l1) /\
    forall id, Closed <$> conns !! id = Closed <$> l_conns l !! id) as (conns & Ek & Hcl).
  { destruct (ClientManager.GetClientWith _ _ _) as [c|]; [apply (WritePacket_kick c l1)|].
    exists (l_conns l). split; [reflexivity|done]. }
  io_step Ek. destruct (CreateOrUpdatePersonChannel_spec (t_UID req) (l_channels l1)) as (d & Ed & Hown & Ht & _).
  exists (set_l_channels (set_db d (l_channels l1)) (set_l_conns conns l1)). split; [|split; [exact Hown|]].
  - apply or_else_Ret. unfold in_channels, zoom. change (l_channels (set_l_conns conns l1)) with (l_channels l1). by rewrite Ed.
  - split; [done|]. split; [done|]. split; [exact Hcl|]. intros p Hu Hf. unfold authenticate. rewrite Htm.
    unfold mbind, io_bind, attempt, in_store, in_channels, Channels.stored, zoom.
    change (db (l_channels (set_l_channels (set_db d (l_channels l1)) (set_l_conns conns l1)))) with d.
    rewrite GetUserToken_law, Ht. change (data l1) with d1. rewrite Ht1, Hu, Hf, decide_True by done.
    by case_bool_decide.
Qed.
End Token.

#[local] Existing Instance toyCrypto.

Lemma updateToken_admits_witness :
  let req := mkUpdateTokenReq "bob" "secret" APP DeviceLevelMaster in
  UpdateTokenReq_Check req = Ret tt /\
  exists l', updateToken req group_server = (Ret tt, l') /\ has_own_channel (db (l_channels l')) "bob" /\
    l_clients l' = l_clients group_server /\ l_closing l' = l_closing group_server /\
    (forall id, Closed <$> l_conns l' !! id = Closed <$> l_conns group_server !! id) /\
    forall p, Connect.UID p = t_UID req -> Connect.deviceFlag p = t_DeviceFlag req ->
      fst (authenticate example_env p l') =
        Ret (if bool_decide (t_Token req = Connect.Token p) then inl (t_DeviceLevel req) else inr ReasonAuthFail).
Proof.
  split; [reflexivity|].
  apply (updateToken_admits example_env (mkUpdateTokenReq "bob" "secret" APP DeviceLevelMaster) group_server);
    reflexivity.
Defined.
