(* ===== verification/Sync.v ===== *)
(** Reading a channel back: [MessageResp] (internal/lim/api_model.go) and
    [syncMessages] (internal/lim/api_channel.go), over the messages of the
    data base. *)
From stdpp Require Import base list gmap strings.
From Stdlib Require Import ZArith Lia Strings.Byte.
From S2P Require Import Prelude Effects Keys Strconv Wire Frames Ids PQueue Model Storage Segment Topic Messages MessageLog MessageAPI.
Import Segment.

(** [MessageResp] without its JSON; [MessageIDStr] prints [MessageID]. *)
Record MessageResp := mkMessageResp {
  mr_Header : MessageHeader;
  mr_Setting : Z;
  mr_MessageID : Z;
  mr_ClientMsgNo : string;
  mr_MessageSeq : Z;
  mr_FromUID : string;
  mr_ChannelID : string;
  mr_ChannelType : Z;
  mr_Timestamp : Z;
  mr_Payload : list byte
}.

(** The last part of the id that is not the sender. *)
Definition realChannelID (m : Db.Message) : string :=
  if (Db.ChannelType m =? ChannelTypePerson) && Contains (Db.ChannelID m) at_sign then
    foldl (fun real id => if bool_decide (Db.FromUID m <> id) then id else real) (Db.ChannelID m)
      (Split (Db.ChannelID m) at_sign)
  else Db.ChannelID m.

(** [MessageResp.from]. *)
Definition MessageResp_from (m : Db.Message) : MessageResp :=
  let fm := FramerFromUint8 (Db.Header m) in
  mkMessageResp (mkMessageHeader (BoolToInt (f_NoPersist fm)) (BoolToInt (f_RedDot fm)) (BoolToInt (f_SyncOnce fm)))
    (Db.Setting m) (Db.MessageID m) (Db.ClientMsgNo m) (Db.MessageSeq m) (Db.FromUID m) (realChannelID m)
    (Db.ChannelType m) (Db.Timestamp m) (Db.Payload m).

(** Between two users, the channel of a message is the one who did not send it. *)
Lemma realChannelID_pair m a b : avoids at_sign a -> avoids at_sign b -> a <> b ->
  Db.ChannelType m = ChannelTypePerson -> Db.ChannelID m = GetFakeChannelIDWith a b -> Db.FromUID m = a ->
  realChannelID m = b.
Proof.
  intros Ha Hb Hne Ht Hc Hf. unfold realChannelID. rewrite Ht, Z.eqb_refl, Hc, Hf.
  change (Contains (GetFakeChannelIDWith a b) at_sign) with (IsFakeChannel (GetFakeChannelIDWith a b)).
  rewrite fake_is_fake. cbn [andb].
  destruct (fake_split a b Ha Hb) as [-> | ->]; cbn [foldl];
    rewrite (bool_decide_false (a <> a)), (bool_decide_true (a <> b)) by (try done; intros Hx; by apply Hx); done.
Qed.

Record syncReq := mkSyncReq {
  LoginUID : string;
  sy_channel : chan;
  MinMessageSeq : Z;
  MaxMessageSeq : Z;
  Limit : Z;
  Reverse : Z
}.
Record syncMessageResp := mkSyncMessageResp {
  r_MinMessageSeq : Z;
  r_MaxMessageSeq : Z;
  More : Z;
  r_Messages : list MessageResp
}.

Definition sync_channel (req : syncReq) : chan :=
  (if snd (sy_channel req) =? ChannelTypePerson then GetFakeChannelIDWith (LoginUID req) (fst (sy_channel req))
   else fst (sy_channel req), snd (sy_channel req)).

(** Whether the client is told that there is more. *)
Definition more_of (req : syncReq) (resps : list MessageResp) : bool :=
  negb (Z.of_nat (length resps) <? Limit req) &&
  match last resps with
  | None => true
  | Some r =>
      if Reverse req =? 1 then (MinMessageSeq req =? 0) || negb (MinMessageSeq req =? mr_MessageSeq r)
      else (MaxMessageSeq req =? 0) || negb (MaxMessageSeq req =? mr_MessageSeq r)
  end.

Section Sync.
Context {CP CS : Type} `{CacheLaws Z CP} `{CacheLaws string CS}.
Context (slotCount segmentMaxBytes : Z) (removed : string -> bool).
Implicit Type st : state CP CS.

Definition syncMessages (req : syncReq) : io (state CP CS) syncMessageResp :=
  messages ← GetMessagesWithOptions slotCount segmentMaxBytes removed (sync_channel req) (MinMessageSeq req)
    (u64 (Limit req)) (Reverse req =? 1) (MaxMessageSeq req);
  let messageResps := MessageResp_from <$> messages in
  mret (mkSyncMessageResp (MinMessageSeq req) (MaxMessageSeq req) (BoolToInt (more_of req messageResps)) messageResps).

Hypothesis some_slots : 0 < slotCount < 2 ^ 32.

(** The messages a request asks for. *)
Definition asked (req : syncReq) (ms : list Db.Message) : list Db.Message :=
  between (if (Reverse req =? 1) || negb (MinMessageSeq req =? 0) then MinMessageSeq req
           else MaxMessageSeq req - Limit req - 1) (MaxMessageSeq req) ms.

Lemma asked_bounds req ms m : m ∈ asked req ms ->
  (Reverse req = 1 -> MinMessageSeq req < Db.MessageSeq m) /\
  (MaxMessageSeq req <> 0 -> Db.MessageSeq m < MaxMessageSeq req).
Proof.
  unfold asked, between, below. intros [Hm [Hlo _]%list_elem_of_filter]%list_elem_of_filter. split; [|lia].
  intros Hr. by rewrite Hr in Hlo.
Qed.

(** The tests on the last message never say that there is no more. *)
Lemma more_by_length req resps :
  (forall r, last resps = Some r -> (Reverse req = 1 -> MinMessageSeq req < mr_MessageSeq r) /\
     (MaxMessageSeq req <> 0 -> mr_MessageSeq r < MaxMessageSeq req)) ->
  more_of req resps = negb (Z.of_nat (length resps) <? Limit req).
Proof.
  intros Hl. unfold more_of. destruct (last resps) as [r|] eqn:E; [|apply andb_true_r].
  destruct (Hl r eq_refl) as [Hmin Hmax]. destruct (Reverse req =? 1) eqn:Er; zbool.
  - rewrite (proj2 (Z.eqb_neq (MinMessageSeq req) (mr_MessageSeq r))) by lia. cbn [negb]. by rewrite orb_true_r, andb_true_r.
  - destruct (MaxMessageSeq req =? 0) eqn:Em; zbool; cbn [orb]; [by rewrite andb_true_r|].
    rewrite (proj2 (Z.eqb_neq (MaxMessageSeq req) (mr_MessageSeq r))) by lia. by rewrite andb_true_r.
Qed.

End Sync.

