(* ===== verification/UserQueue.v ===== *)
(** A user's queue of messages, which belongs to both halves of the data
    base: the cursor is in the bolt file and the messages are in a log.
    [GetMessagesOfUser] and [UpdateMessageOfUserCursorIfNeed] of
    internal/db/db_file_public.go, and the handlers [sync] and [syncack] of
    internal/lim/api_message.go over them. *)
From stdpp Require Import base list gmap strings.
From Stdlib Require Import ZArith Lia Strings.Byte.
From S2P Require Import Prelude Effects Keys Strconv Wire Frames Ids PQueue Model Storage FileDB Store Segment Topic Messages MessageLog ChannelAPI MessageAPI Sync.
Import Segment Topic.

(** The two halves of [FileDB]. *)
Record database (B CP CS : Type) := mkDatabase { bolt : B; messages : state CP CS }.
Arguments mkDatabase {B CP CS}. Arguments bolt {B CP CS}. Arguments messages {B CP CS}.

(** [syncReq] (internal/lim/api_model.go). *)
Record userSyncReq := mkUserSyncReq { us_UID : string; us_MessageSeq : Z; us_Limit : Z }.
Definition userSyncReq_Check (r : userSyncReq) : outcome unit :=
  if ChannelAPI.blank (us_UID r) then Err (ErrMsg "用户uid不能为空！")
  else if us_MessageSeq r <? 0 then Err (ErrMsg "最大序消息列号不能为空！")
  else if us_Limit r <? 0 then Err (ErrMsg "limit不能为负数！")
  else Ret tt.

(** What the callback of a read has collected when the read ends, with an
    error or without: a read goes from one message to the next and stops at
    its limit, so these are the messages of the greatest limit up to which
    there is no error. *)
Section SoFar.
Context {St A : Type} (read : Z -> io St (list A)).
Fixpoint longest (s : St) (n : nat) : list A :=
  match n with
  | O => []
  | S n' => match fst (read (Z.of_nat n) s) with Ret l => l | _ => longest s n' end
  end.
Definition so_far (limit : Z) : io St (list A) := fun s =>
  match read limit s with
  | (Err _, s') => (Ret (longest s (Z.to_nat limit)), s')
  | r => r
  end.
End SoFar.

Section Queue.
Context {B CP CS : Type} `{Bolt B} `{Cache Z CP} `{Cache string CS}.
Context (slotCount segmentMaxBytes : Z) (removed : string -> bool).
Abbreviation db := (database B CP CS).

Definition in_bolt {A} (m : io B A) : io db A := zoom bolt (fun b d => mkDatabase b (messages d)) m.
Definition in_log {A} (m : io (state CP CS) A) : io db A := zoom messages (fun st d => mkDatabase (bolt d) st) m.
Definition in_queue {A} (uid : string) (f : io (Topic Db.Message) A) : io db A :=
  slot ← lift (slotNum slotCount uid);
  in_log (on_topic segmentMaxBytes removed slot uid f).

(** [GetMessagesOfUser] does not look at the error of [ReadLogs]. *)
Definition GetMessagesOfUser (uid : string) (offset limit : Z) : io db (list Db.Message) :=
  empty ← lift (make_messages limit);
  maxOffset ← in_bolt (GetMessageOfUserCursor slotCount uid);
  let offst := if offset <? maxOffset then maxOffset else offset in
  in_queue uid (so_far (fun n => ReadLogs (u32 (offst + 1)) n collect empty) limit).

Definition UpdateCursorIfNeed (uid : string) (offset : Z) : io db unit :=
  lastSeq ← in_queue uid (gets GetLastSeq);
  in_bolt (UpdateMessageOfUserCursorIfNeed slotCount lastSeq uid offset).

(** [MessageAPI.sync], and [MessageAPI.syncack] on this data base. *)
Definition sync (req : userSyncReq) : io db (list MessageResp) :=
  lift (userSyncReq_Check req) ;;
  ms ← GetMessagesOfUser (us_UID req) (us_MessageSeq req) (u64 (us_Limit req));
  mret (MessageResp_from <$> ms).
Definition syncack_db (uid : string) (lastMessageSeq : Z) : io db unit :=
  if ChannelAPI.blank uid then raise (ErrMsg "用户UID不能为空！")
  else if lastMessageSeq =? 0 then raise (ErrMsg "最后一次messageSeq不能为0！")
  else UpdateCursorIfNeed uid lastMessageSeq.

(** ** A client
    asks for messages and acknowledges the last one it got, [n] times. *)
Definition round (uid : string) (limit : Z) : io db (list MessageResp) :=
  resps ← sync (mkUserSyncReq uid 0 limit);
  match last resps with
  | None => mret resps
  | Some r => syncack_db uid (mr_MessageSeq r) ;; mret resps
  end.
Fixpoint rounds (uid : string) (limit : Z) (n : nat) : io db (list MessageResp) :=
  match n with
  | O => mret []
  | S n' => first ← round uid limit; rest ← rounds uid limit n'; mret (first ++ rest)
  end.
End Queue.

(** * What a client gets *)
Section Client.
Context {B CP CS : Type} `{BoltLaws B} `{CacheLaws Z CP} `{CacheLaws string CS}.
Context (slotCount segmentMaxBytes : Z) (removed : string -> bool) (Hslots : 0 < slotCount < 2 ^ 32).
Abbreviation db := (database B CP CS).
Implicit Types (st : state CP CS) (d : db) (M : logs).

Lemma so_far_Ret {St A} (read : Z -> io St (list A)) limit s l s' :
  read limit s = (Ret l, s') -> so_far read limit s = (Ret l, s').
Proof. intros E. unfold so_far. by rewrite E. Qed.

(** A queue that is open, and how far the user has read it. *)
Record open_queue (uid : string) (ms : list Db.Message) (c : Z) d : Prop := {
  oq_logs : exists M, rep segmentMaxBytes M (messages d) /\ M (slot_of slotCount uid, uid) = ms;
  oq_topic : open_at (messages d) (slot_of slotCount uid, uid) ms;
  oq_bucket : bHas (slotBucket (Store.slot_of slotCount uid)) (bolt d) = true;
  oq_cursor : GetMessageOfUserCursor slotCount uid (bolt d) = (Ret c, bolt d)
}.

Lemma slotNum_here {A} key (f : Z -> io db A) d : (lift (slotNum slotCount key) ≫= f) d = f (slot_of slotCount key) d.
Proof. apply bind_Ret_io. unfold lift. by rewrite Store.slotNum_eq. Qed.

(** Reading from an open queue. *)
Lemma in_queue_reads {A} uid ms c d (f : io (Topic Db.Message) A) o : open_queue uid ms c d ->
  (forall t s es, live t s (as_record <$> ms) es -> marks_ok (as_record <$> ms) es -> modest (as_record <$> ms) ->
     Forall Db.ok ms -> lastSeq t = zlen ms -> f t = (o, t)) ->
  exists d', in_queue slotCount segmentMaxBytes removed uid f d = (o, d') /\ open_queue uid ms c d' /\ bolt d' = bolt d.
Proof.
  intros [(M & Hr & HM) (t & Ht & Hlast) Hb Hcur] Hf. unfold in_queue. rewrite slotNum_here.
  pose proof Hr as (Hh & _). destruct (Hh (slot_of slotCount uid, uid)) as [(es & Hme & Hmo & Hlog) Hok].
  rewrite Ht in Hlog. rewrite HM in *. destruct Hlog as (s & Hl & _).
  destruct (on_topic_open segmentMaxBytes removed (slot_of slotCount uid) uid f M (messages d) t o Hr Ht (Hf t s es Hl Hme Hmo Hok Hlast))
    as (st' & E & Hr' & Ht').
  unfold in_log, zoom. rewrite E. eexists. split; [reflexivity|]. split; [|done].
  split; cbn; [by eauto| |done..]. exists t. by rewrite Ht'.
Qed.

Lemma cursor_unmoved uid ms c d : open_queue uid ms c d -> in_bolt (GetMessageOfUserCursor slotCount uid) d = (Ret c, d).
Proof. intros [_ _ _ Hc]. unfold in_bolt, zoom. rewrite Hc. by destruct d. Qed.

Lemma small_count ms : log_size ms <= indexIntervalBytes -> zlen ms <= 4096.
Proof.
  intros Hs. pose proof (image_length (as_record <$> ms)) as Hl. unfold zlen in Hl at 1. rewrite length_fmap in Hl.
  fold (zlen ms) in Hl. unfold log_size in Hs. change indexIntervalBytes with 4096 in Hs. pose proof (zlen_nonneg ms). lia.
Qed.

(** The messages of the queue above the cursor and above the number asked
    for. *)
Lemma GetMessagesOfUser_spec uid ms c d offset limit : open_queue uid ms c d -> numbered ms ->
  log_size ms <= indexIntervalBytes -> 0 <= c <= zlen ms -> 0 <= offset < 2 ^ 32 - 1 -> 0 <= limit <= 2 ^ 45 ->
  exists d', GetMessagesOfUser slotCount segmentMaxBytes removed uid offset limit d =
      (Ret (plain <$> take (Z.to_nat limit) (filter (fun m => Z.max offset c < Db.MessageSeq m) ms)), d') /\
    open_queue uid ms c d'.
Proof.
  intros Hq Hn Hs Hc Ho Hlim. pose proof (small_count ms Hs). unfold GetMessagesOfUser, make_messages.
  rewrite Z.gtb_ltb, (proj2 (Z.ltb_ge _ _)) by lia. rewrite (bind_Ret_io (lift (Ret [])) _ d [] d eq_refl).
  io_step (cursor_unmoved uid ms c d Hq).
  assert ((if offset <? c then c else offset) = Z.max offset c) as -> by (destruct (Z.ltb_spec offset c); lia).
  rewrite wrapU_id by (unfold inU; lia).
  destruct (in_queue_reads uid ms c d (so_far (fun n => ReadLogs (Z.max offset c + 1) n collect []) limit)
    (Ret (plain <$> take (Z.to_nat limit) (from (Z.max offset c + 1) ms))) Hq) as (d' & E & Hq' & _).
  - intros t s es Hl Hme Hmo Hok _. apply so_far_Ret.
    destruct (read_log t s ms es (Z.max offset c + 1) Hl Hme Hmo Hok ltac:(lia)) as (l & Hcase & Hread).
    destruct Hcase as [->|(Hbig & _)]; [apply Hread|lia].
  - rewrite from_filter in E by (done || lia). replace (Z.max offset c + 1 - 1) with (Z.max offset c) in E by lia. eauto.
Qed.

(** An acknowledgement moves the cursor of an open queue forward. *)
Lemma UpdateCursorIfNeed_spec uid ms c d offset : open_queue uid ms c d -> log_size ms <= indexIntervalBytes ->
  zlen (bytes_of_string (getMessageOfUserCursorKey uid)) <= 32768 -> c < offset <= zlen ms ->
  0 <= c -> exists d', UpdateCursorIfNeed slotCount segmentMaxBytes removed uid offset d = (Ret tt, d') /\ open_queue uid ms offset d'.
Proof.
  intros Hq Hs Hk Ho Hc. pose proof (small_count ms Hs).
  destruct (in_queue_reads uid ms c d (gets GetLastSeq) (Ret (zlen ms)) Hq) as (d1 & E1 & Hq1 & _).
  { intros t s es _ _ _ _ Hlast. unfold gets, GetLastSeq. by rewrite Hlast. }
  destruct (UpdateCursor_spec slotCount uid (zlen ms) offset c (bolt d1)) as (s' & E & Hb & new & Enew & _ & _ & Hnew & _);
    [done|unfold inU; lia|unfold inU; lia|apply (oq_bucket _ _ _ _ Hq1)|done|apply (oq_cursor _ _ _ _ Hq1)|].
  exists (mkDatabase s' (messages d1)). unfold UpdateCursorIfNeed. io_step E1. unfold in_bolt, zoom. rewrite E.
  split; [done|]. destruct Hq1 as [Hl Ht _ _]. split; try done. cbn. rewrite Enew, Hnew by lia. f_equal. f_equal. lia.
Qed.

(** What one round gives. *)
Definition page (limit c : Z) (ms : list Db.Message) : list Db.Message := take (Z.to_nat limit) (drop (Z.to_nat c) ms).

Lemma page_last limit c ms m : numbered ms -> 0 <= c -> last (page limit c ms) = Some m ->
  Db.MessageSeq m = c + zlen (page limit c ms) /\ 0 < zlen (page limit c ms) /\ c + zlen (page limit c ms) <= zlen ms.
Proof.
  intros Hn Hc Hm. rewrite last_lookup in Hm. pose proof (lookup_lt_Some _ _ _ Hm) as Hlt.
  unfold page in *. apply lookup_take_Some in Hm as [Hm _]. rewrite lookup_drop in Hm.
  pose proof (lookup_lt_Some _ _ _ Hm) as Hlt'. apply numbered_lookup in Hm; [|done]. unfold zlen. lia.
Qed.

Lemma page_whole limit c (n : nat) ms : 0 <= c -> 0 <= limit ->
  page limit c ms ++ page (Z.of_nat n * limit) (c + zlen (page limit c ms)) ms = page (Z.of_nat (S n) * limit) c ms.
Proof.
  intros Hc Hl. unfold page. set (X := drop (Z.to_nat c) ms). set (k := Z.to_nat limit).
  replace (Z.to_nat (Z.of_nat n * limit)) with (n * k)%nat by (unfold k; lia).
  replace (Z.to_nat (Z.of_nat (S n) * limit)) with (k + n * k)%nat by (unfold k; lia).
  replace (Z.to_nat (c + zlen (take k X))) with (Z.to_nat c + length (take k X))%nat by (unfold zlen; lia).
  rewrite <- drop_drop. fold X. rewrite length_take. destruct (decide (k <= length X)%nat).
  - rewrite Nat.min_l by done. apply take_take_drop.
  - rewrite Nat.min_r, drop_all, take_nil, app_nil_r, !take_ge by lia. done.
Qed.

Context (uid : string) (ms : list Db.Message) (limit : Z).
Hypothesis named : ChannelAPI.blank uid = false.
Hypothesis short_key : zlen (bytes_of_string (getMessageOfUserCursorKey uid)) <= 32768.
Hypothesis whole : numbered ms.
Hypothesis small : log_size ms <= indexIntervalBytes.
Hypothesis some_limit : 0 < limit <= 2 ^ 45.

Lemma round_reads c d : open_queue uid ms c d -> 0 <= c <= zlen ms ->
  exists d', round slotCount segmentMaxBytes removed uid limit d =
      (Ret ((fun m => MessageResp_from (plain m)) <$> page limit c ms), d') /\
    open_queue uid ms (c + zlen (page limit c ms)) d'.
Proof.
  intros Hq Hc. destruct (GetMessagesOfUser_spec uid ms c d 0 limit Hq whole small Hc) as (d1 & E1 & Hq1); [lia|lia|].
  rewrite Z.max_r, (numbered_drop 1) in E1 by (done || lia). rewrite Z.sub_0_r in E1. fold (page limit c ms) in E1.
  assert (sync slotCount segmentMaxBytes removed (mkUserSyncReq uid 0 limit) d =
    (Ret ((fun m => MessageResp_from (plain m)) <$> page limit c ms), d1)) as E.
  { unfold sync. rewrite (bind_Ret_io (lift _) _ d tt d).
    - cbn [us_UID us_MessageSeq us_Limit]. rewrite wrapU_id by (unfold inU; lia). io_step E1. by rewrite <- list_fmap_compose.
    - unfold lift, userSyncReq_Check. cbn [us_UID us_MessageSeq us_Limit]. rewrite named, (proj2 (Z.ltb_ge limit 0)) by lia. done. }
  unfold round. io_step E. rewrite fmap_last. destruct (last (page limit c ms)) as [m|] eqn:El; cbn [fmap option_fmap option_map].
  - destruct (page_last limit c ms m whole ltac:(lia) El) as (Hm & Hpos & Hle).
    change (mr_MessageSeq (MessageResp_from (plain m))) with (Db.MessageSeq m). rewrite Hm.
    destruct (UpdateCursorIfNeed_spec uid ms c d1 (c + zlen (page limit c ms)) Hq1 small short_key ltac:(lia) ltac:(lia))
      as (d2 & E2 & Hq2).
    exists d2. split; [|done]. unfold syncack_db. rewrite named, (proj2 (Z.eqb_neq _ 0)) by lia. by io_step E2.
  - apply last_None in El. rewrite El. exists d1. split; [done|]. by rewrite Z.add_0_r.
Qed.

Lemma rounds_spec n : forall c d, open_queue uid ms c d -> 0 <= c <= zlen ms ->
  exists d', rounds slotCount segmentMaxBytes removed uid limit n d =
      (Ret ((fun m => MessageResp_from (plain m)) <$> page (Z.of_nat n * limit) c ms), d') /\
    open_queue uid ms (c + zlen (page (Z.of_nat n * limit) c ms)) d'.
Proof.
  induction n as [|n IH]; intros c d Hq Hc.
  - exists d. unfold page at 1 2. rewrite take_0. cbn [rounds fmap list_fmap]. by rewrite Z.add_0_r.
  - destruct (round_reads c d Hq Hc) as (d1 & E1 & Hq1). cbn [rounds]. io_step E1.
    assert (0 <= c + zlen (page limit c ms) <= zlen ms) as Hc1.
    { unfold page, zlen. rewrite length_take, length_drop. unfold zlen in Hc. lia. }
    destruct (IH _ d1 Hq1 Hc1) as (d2 & E2 & Hq2). io_step E2. exists d2.
    rewrite <- (page_whole limit c n ms) by lia. rewrite fmap_app. split; [done|].
    replace (zlen (page limit c ms ++ _)) with (zlen (page limit c ms) + zlen (page (Z.of_nat n * limit) (c + zlen (page limit c ms)) ms))
      by (unfold zlen; rewrite length_app; lia).
    by rewrite Z.add_assoc.
Qed.

End Client.

(** * Bob reads his queue *)
Definition queued : list Db.Message := [to_bob 1; to_bob 2].
Definition queue_logs : logs := foldl (fun M m => after1 4 M (OAppendMessageOfUser m)) no_logs queued.
Definition queue_state : state pools caches :=
  foldl (fun st m => snd (impl 4 (2 ^ 30) no_remove (OAppendMessageOfUser m) st)) (NewFileDB_on ∅) queued.
Definition bob_database : database MemBolt.file pools caches :=
  mkDatabase ({[slotBucket (Store.slot_of 4 "bob") := (0, ∅)]} : MemBolt.file) queue_state.

Lemma queue_stored : rep (2 ^ 30) queue_logs queue_state.
Proof.
  assert (forall m M (st : state pools caches), rep (2 ^ 30) M st -> permitted1 4 M (OAppendMessageOfUser m) ->
    rep (2 ^ 30) (after1 4 M (OAppendMessageOfUser m)) (snd (impl 4 (2 ^ 30) no_remove (OAppendMessageOfUser m) st))) as Hstep.
  { intros m M st Hr Hp.
    destruct (impl_explained 4 (2 ^ 30) no_remove large_segments four_slots _ M st Hr Hp) as (a & st' & -> & _ & Hr').
    exact Hr'. }
  assert (forall n, 0 < n < 3 -> Db.ok (to_bob n)) as Hok.
  { intros n Hn. constructor; unfold inU, inS, short; cbn; try lia; vm_compute; intuition congruence. }
  unfold queue_logs, queue_state, queued. cbn [foldl].
  apply Hstep; [apply Hstep; [apply empty_rep|]|]; (split; [reflexivity|]);
    (split; [apply Hok; lia|]); (split; [cbn; lia|]); (split; [vm_compute; repeat constructor|vm_compute; discriminate]).
Qed.

Lemma bob_open : open_queue 4 (2 ^ 30) "bob" queued 0 bob_database.
Proof.
  assert (match topics queue_state !! (slot_of 4 "bob", "bob"%string) with Some t => lastSeq t =? 2 | None => false end = true) as Ht
    by (vm_compute; reflexivity).
  split.
  - exists queue_logs. split; [exact queue_stored|vm_compute; reflexivity].
  - unfold open_at. cbn [messages bob_database]. destruct (topics queue_state !! _) as [t|]; [|discriminate]. exists t. split; [done|]. by apply Z.eqb_eq.
  - vm_compute. reflexivity.
  - vm_compute. reflexivity.
Qed.


(** Larger messages: the log has an index entry for the fourth one, and a
    read that starts there starts behind it. Read one by one, it is passed
    over and acknowledged with the fifth: bob never gets it. *)
Definition large (seq : Z) : Db.Message :=
  Db.mkMessage 0 7 0 0 (200 + seq) seq "no" 0 "alice" "bob" "alice" 1 (repeat x41 1500).
Definition large_database : database MemBolt.file pools caches :=
  mkDatabase (bolt bob_database)
    (foldl (fun st m => snd (impl 4 (2 ^ 30) no_remove (OAppendMessageOfUser m) st)) (NewFileDB_on ∅) (large <$> [1; 2; 3; 4; 5])).
Example indexed_message_is_lost :
  fmap (M := outcome) (fmap mr_MessageSeq) (fst (rounds 4 (2 ^ 30) no_remove "bob" 1 9 large_database)) = Ret [1; 2; 3; 5] /\
  fmap (M := outcome) (fmap mr_MessageSeq) (fst (rounds 4 (2 ^ 30) no_remove "bob" 5 9 large_database)) = Ret [1; 2; 3; 4; 5].
Proof. vm_compute. split; reflexivity. Qed.
