(* ===== verification/ConversationAPI.v ===== *)
(** What a user reads about conversations: the handlers of
    internal/lim/api_conversation.go that change nothing, over the manager of
    conversations and the messages of the data base. Those that change
    something are in UserAPI.v. *)
From stdpp Require Import base list gmap strings sorting.
From Stdlib Require Import ZArith Lia Strings.Byte.
From S2P Require Import Prelude Effects Keys Strconv Wire Frames Ids PQueue Model Storage Segment Topic Messages MessageLog Conversations ChannelAPI MessageAPI Sync.
Import Segment Topic.

(** The types of internal/lim/api_model.go. *)
Record conversationResp := mkConversationResp {
  cr_channel : chan;
  cr_Unread : Z;
  cr_Timestamp : Z;
  cr_LastMessage : MessageResp
}.
(** [OffsetMsgSeq] and [Recents] are never set. *)
Record syncUserConversationResp := mkSyncUserConversationResp {
  su_channel : chan;
  su_Unread : Z;
  su_Timestamp : Z;
  su_LastMsgSeq : Z;
  su_LastClientMsgNo : string;
  su_Version : Z
}.
Record channelRecentMessageReq := mkChannelRecentMessageReq { rr_channel : chan; rr_LastMsgSeq : Z }.
Record channelRecentMessage := mkChannelRecentMessage { rm_channel : chan; rm_Messages : list MessageResp }.

(** The requests of [syncUserConversation], whose [LastMsgSeqs] and
    [MsgCount] are not used, and of [syncRecentMessages]. *)
Record syncConversationReq := mkSyncConversationReq { sc_UID : string; sc_Version : Z; sc_LastMsgSeqs : string; sc_MsgCount : Z }.
Record recentReq := mkRecentReq { re_UID : string; re_Channels : list channelRecentMessageReq; re_MsgCount : Z }.

(** The name a channel has in the data base, for a user. *)
Definition stored_channel (uid : string) (c : chan) : chan :=
  (if c.2 =? ChannelTypePerson then GetFakeChannelIDWith uid c.1 else c.1, c.2).

Section Handlers.
Context {C S CP CS : Type} `{LRU C Db.Conversation} `{Storage S} `{Cache Z CP} `{Cache string CS}.
Context (slotCount segmentMaxBytes : Z) (removed : string -> bool) (ConversationOfUserMaxCount : Z).

(** [sort.Sort] is not stable: what it may do to the conversations and to the
    messages. *)
Context (sort_newest : list Db.Conversation -> list Db.Conversation) (sort_down : list MessageResp -> list MessageResp).

(** The manager of conversations and the messages. *)
Record reader := mkReader { conversations_of : manager C S; messages_of : state CP CS }.
Definition in_manager {A} (m : io (manager C S) A) : io reader A :=
  zoom conversations_of (fun cm r => mkReader cm (messages_of r)) m.
Definition in_messages {A} (m : io (state CP CS) A) : io reader A :=
  zoom messages_of (fun st r => mkReader (conversations_of r) st) m.

Definition conversations (uid : string) (version : Z) : io reader (list Db.Conversation) :=
  in_manager (GetConversations_of ConversationOfUserMaxCount sort_newest uid version).

(** The loop of [conversationsList]. *)
Fixpoint with_last_messages (uid : string) (cs : list Db.Conversation) : io reader (list conversationResp) :=
  match cs with
  | [] => mret []
  | c :: cs' =>
      let ch := (Db.cChannelID c, Db.cChannelType c) in
      message ← in_messages (GetMessage slotCount segmentMaxBytes removed (stored_channel uid ch) (Db.LastMsgSeq c));
      rest ← with_last_messages uid cs';
      mret (mkConversationResp ch (Db.UnreadCount c) (Db.cTimestamp c) (MessageResp_from message) :: rest)
  end.
Definition conversationsList (uid : string) : io reader (list conversationResp) :=
  if blank uid then raise (ErrMsg "uid cannot be empty")
  else cs ← conversations uid 0; with_last_messages uid cs.

Definition syncUserConversationResp_of (c : Db.Conversation) : syncUserConversationResp :=
  mkSyncUserConversationResp (Db.cChannelID c, Db.cChannelType c) (Db.UnreadCount c) (Db.cTimestamp c)
    (Db.LastMsgSeq c) (Db.LastClientMsgNo c) (Db.cVersion c).
Definition syncUserConversation (req : syncConversationReq) : io reader (list syncUserConversationResp) :=
  cs ← conversations (sc_UID req) (sc_Version req);
  mret (syncUserConversationResp_of <$> cs).

(** The loop of [syncRecentMessages]. *)
Fixpoint recent_of (uid : string) (msgCount : Z) (channels : list channelRecentMessageReq) : io reader (list channelRecentMessage) :=
  match channels with
  | [] => mret []
  | r :: channels' =>
      recentMessages ← in_messages (GetLastMessages slotCount segmentMaxBytes removed (stored_channel uid (rr_channel r))
        (rr_LastMsgSeq r) (u64 msgCount));
      rest ← recent_of uid msgCount channels';
      mret (mkChannelRecentMessage (rr_channel r) (sort_down (MessageResp_from <$> recentMessages)) :: rest)
  end.
Definition syncRecentMessages (req : recentReq) : io reader (list channelRecentMessage) :=
  let msgCount := if re_MsgCount req <=? 0 then 15 else re_MsgCount req in
  recent_of (re_UID req) msgCount (re_Channels req).
End Handlers.

(** * The newest messages *)
Definition newer (seq : Z) (m : Db.Message) : Prop := seq = 0 \/ seq < Db.MessageSeq m.
#[export] Instance newer_decision seq m : Decision (newer seq m).
Proof. unfold newer. apply _. Defined.

(** The messages above [seq] among the last [n]. *)
Definition newest_of (seq n : Z) (ms : list Db.Message) : list Db.Message :=
  filter (newer seq) (drop (Z.to_nat (zlen ms - n)) ms).

Lemma collect_after_all seq l acc : Forall Db.ok l ->
  callback_all (collect_after seq) (r_data <$> (as_record <$> l)) acc = Ret (acc ++ (plain <$> filter (newer seq) l)).
Proof.
  intros Hok. revert acc. induction Hok as [|m l Hm Hok IH]; intros acc; [by rewrite app_nil_r|].
  cbn [fmap list_fmap callback_all]. rewrite filter_cons.
  assert (collect_after seq (r_data (as_record m)) acc = Ret (if decide (newer seq m) then acc ++ [plain m] else acc)) as E.
  { unfold collect_after. change (r_data (as_record m)) with (Db.MarshalMessage m). unfold Db.Decode. rewrite (Unmarshal_Marshal m 0 Hm).
    cbn [mbind outcome_bind]. change (Db.MessageSeq (Db.set_AppliIndex 0 m)) with (Db.MessageSeq m). unfold newer.
    destruct (Z.eqb_spec seq 0), (Z.leb_spec (Db.MessageSeq m) seq); cbn [negb andb]; case_decide; try done; lia. }
  rewrite E. cbn [mbind outcome_bind]. case_decide; fold (r_data <$> (as_record <$> l)); rewrite IH; [|done].
  cbn [fmap list_fmap]. by rewrite <- app_assoc.
Qed.

Section Reads.
Context {CP CS : Type} `{CacheLaws Z CP} `{CacheLaws string CS}.
Context (slotCount segmentMaxBytes : Z) (removed : string -> bool) (Hslots : 0 < slotCount < 2 ^ 32).
Implicit Types (st : state CP CS) (M : logs).

Lemma GetLastMessages_spec c seq limit M st (ms := M (channel_place slotCount c)) : rep segmentMaxBytes M st ->
  open_at st (channel_place slotCount c) ms -> numbered ms -> log_size ms <= indexIntervalBytes -> 0 < limit <= 2 ^ 45 ->
  exists st', GetLastMessages slotCount segmentMaxBytes removed c seq limit st = (Ret (plain <$> newest_of seq limit ms), st') /\
    rep segmentMaxBytes M st' /\ topics st' = topics st.
Proof.
  intros Hr (t & Ht & Hlast) Hn Hs Hlim. pose proof Hr as (Hh & _).
  destruct (Hh (channel_place slotCount c)) as [(es & Hme & Hmo & Hlog) Hok]. rewrite Ht in Hlog. destruct Hlog as (s & Hl & _).
  fold ms in Hme, Hok, Hl. pose proof (zlen_nonneg ms) as Hz.
  assert (ReadLastLogs limit (collect_after seq) [] t = (Ret (plain <$> newest_of seq limit ms), t)) as E.
  { unfold ReadLastLogs. rewrite (bind_Ret_io (gets lastSeq) _ t (zlen ms) t) by (unfold gets; by rewrite Hlast).
    destruct (Z.ltb_spec (zlen ms) limit).
    - rewrite (read_small _ t s ms es 0 _ _ Hl Hme Hs) by lia. change (from 0 ms) with ms.
      rewrite take_ge by (unfold zlen; lia). rewrite collect_after_all by done. unfold newest_of.
      by replace (Z.to_nat (zlen ms - limit)) with O by lia.
    - rewrite (read_small _ t s ms es _ _ _ Hl Hme Hs) by lia. rewrite from_filter by (done || lia).
      replace (zlen ms - limit + 1 - 1) with (zlen ms - limit) by lia.
      rewrite (numbered_drop 1) by (done || lia). rewrite Z.sub_0_r.
      rewrite take_ge by (rewrite length_drop; unfold zlen; lia). rewrite collect_after_all by (by apply Forall_drop). done. }
  destruct (on_topic_open segmentMaxBytes removed (slot_of slotCount c.1) (topicName c) _ M st t _ Hr Ht E) as (st' & E' & Hr' & Ht').
  exists st'. split; [|done]. unfold GetLastMessages, make_messages.
  rewrite Z.gtb_ltb, (proj2 (Z.ltb_ge _ _)) by lia. rewrite (bind_Ret_io (lift (Ret [])) _ st [] st eq_refl).
  by rewrite slot_number_bind.
Qed.
End Reads.

(** * The order of the answer *)
Definition down (a b : MessageResp) : Prop := mr_MessageSeq b <= mr_MessageSeq a.

Lemma StronglySorted_reverse {A} (R : A -> A -> Prop) l : StronglySorted R l -> StronglySorted (fun a b => R b a) (reverse l).
Proof.
  induction 1 as [|x l Hs IH Hx]; [constructor|]. rewrite reverse_cons. apply StronglySorted_app_2; [|done|repeat constructor].
  intros y z Hy ->%list_elem_of_singleton. rewrite elem_of_reverse in Hy. by apply (proj1 (Forall_forall _ _) Hx).
Qed.

Definition responses (ms : list Db.Message) : list MessageResp := (fun m => MessageResp_from (plain m)) <$> ms.

Lemma ascending_inj l : StronglySorted (fun a b => mr_MessageSeq a < mr_MessageSeq b) l ->
  forall x y, x ∈ l -> y ∈ l -> mr_MessageSeq x = mr_MessageSeq y -> x = y.
Proof.
  induction 1 as [|a l Hs IH Ha]; intros x y Hx Hy E; [by apply not_elem_of_nil in Hx|]. rewrite Forall_forall in Ha.
  apply elem_of_cons in Hx as [->|Hx]; apply elem_of_cons in Hy as [->|Hy]; auto.
  - pose proof (Ha y Hy). lia.
  - pose proof (Ha x Hx). lia.
Qed.

(** Messages with ascending numbers are sorted one way only. *)
Lemma sorted_down sort ms : (forall l, sort l ≡ₚ l /\ StronglySorted down (sort l)) -> ascending ms ->
  sort (responses ms) = reverse (responses ms).
Proof.
  intros Hsort Ha. destruct (Hsort (responses ms)) as [Hp Hs].
  assert (StronglySorted (fun a b => mr_MessageSeq a < mr_MessageSeq b) (responses ms)) as Hup.
  { clear -Ha. induction Ha as [|m ms Hs IH Hm]; [constructor|]. constructor; [exact IH|].
    apply Forall_fmap. eapply Forall_impl; [exact Hm|]. intros x Hx. exact Hx. }
  apply (StronglySorted_unique_strong down); [|done| |by rewrite Hp, reverse_Permutation].
  - intros x y Hx Hy H1 H2. rewrite Hp in Hx. rewrite elem_of_reverse in Hy. unfold down in *.
    apply (ascending_inj _ Hup); [done..|lia].
  - eapply StronglySorted_impl; [|exact (StronglySorted_reverse _ _ Hup)]. intros a b Hab. cbn in Hab. unfold down. lia.
Qed.

Lemma newest_ascending seq n ms : numbered ms -> ascending (newest_of seq n ms).
Proof.
  intros Hn. unfold newest_of. apply ascending_filter.
  assert (drop (Z.to_nat (zlen ms - n)) ms = filter (fun m => Z.max 0 (zlen ms - n) < Db.MessageSeq m) ms) as ->.
  { rewrite (numbered_drop 1) by (done || lia). f_equal. lia. }
  by eapply numbered_ascending.
Qed.

Section Recent.
Context {C S CP CS : Type} `{LRU C Db.Conversation} `{Storage S} `{CacheLaws Z CP} `{CacheLaws string CS}.
Context (slotCount segmentMaxBytes : Z) (removed : string -> bool) (Hslots : 0 < slotCount < 2 ^ 32).
Context (sort_down : list MessageResp -> list MessageResp).
Hypothesis sorts : forall l, sort_down l ≡ₚ l /\ StronglySorted down (sort_down l).
Implicit Types (r : reader (C := C) (S := S) (CP := CP) (CS := CS)) (M : logs).

(** The channels of a request are open, and their logs are whole and small. *)
Definition readable M (uid : string) (q : channelRecentMessageReq) r : Prop :=
  let k := channel_place slotCount (stored_channel uid (rr_channel q)) in
  open_at (messages_of r) k (M k) /\ numbered (M k) /\ log_size (M k) <= indexIntervalBytes.

Definition recent_answer M (uid : string) (n : Z) (q : channelRecentMessageReq) : channelRecentMessage :=
  mkChannelRecentMessage (rr_channel q)
    (reverse (responses (newest_of (rr_LastMsgSeq q) n (M (channel_place slotCount (stored_channel uid (rr_channel q))))))).

Lemma recent_of_spec M uid n channels : 0 < n <= 2 ^ 45 -> forall r, rep segmentMaxBytes M (messages_of r) ->
  Forall (fun q => readable M uid q r) channels ->
  exists r', recent_of slotCount segmentMaxBytes removed sort_down uid n channels r =
    (Ret (recent_answer M uid n <$> channels), r').
Proof.
  intros Hn. induction channels as [|q channels IH]; intros r Hr Hq; [by exists r|].
  apply Forall_cons in Hq as [(Ho & Hw & Hs) Hq].
  destruct (GetLastMessages_spec slotCount segmentMaxBytes removed Hslots (stored_channel uid (rr_channel q)) (rr_LastMsgSeq q) n M
    (messages_of r) Hr Ho Hw Hs Hn) as (st & E & Hr1 & Ht).
  destruct (IH (mkReader (conversations_of r) st) Hr1) as (r2 & E2).
  { eapply Forall_impl; [exact Hq|]. intros q' ([t Hq'] & Hrest). split; [|done]. exists t. cbn [messages_of]. by rewrite Ht. }
  exists r2. cbn [recent_of]. rewrite (wrapU_id 64) by (unfold inU; lia).
  assert (in_messages (GetLastMessages slotCount segmentMaxBytes removed (stored_channel uid (rr_channel q)) (rr_LastMsgSeq q) n) r =
    (Ret (plain <$> newest_of (rr_LastMsgSeq q) n (M (channel_place slotCount (stored_channel uid (rr_channel q))))),
     mkReader (conversations_of r) st)) as E1 by (unfold in_messages, zoom; by rewrite E).
  io_step E1. io_step E2. rewrite <- list_fmap_compose.
  change ((MessageResp_from ∘ plain) <$> ?l) with (responses l).
  rewrite (sorted_down sort_down _ sorts (newest_ascending _ n _ Hw)). done.
Qed.

End Recent.

(** * The list of conversations *)
Section Lists.
Context {C S CP CS : Type} `{LRULaws C Db.Conversation} `{Storage S} `{CacheLaws Z CP} `{CacheLaws string CS}.
Context (slotCount segmentMaxBytes : Z) (removed : string -> bool) (Hslots : 0 < slotCount < 2 ^ 32).
Context (ConversationOfUserMaxCount : Z) (sort_newest : list Db.Conversation -> list Db.Conversation).
Definition newest_first (a b : Db.Conversation) : Prop := Db.cTimestamp b <= Db.cTimestamp a.
Hypothesis sorts : forall l, sort_newest l ≡ₚ l /\ StronglySorted newest_first (sort_newest l).
Implicit Types (r : reader (C := C) (S := S) (CP := CP) (CS := CS)) (M : logs).

(** The conversations of a user that have changed since a version (all of
    them when it is not positive), the newest first. *)
Lemma conversations_spec uid version r c cm : loadedCache ConversationOfUserMaxCount uid (conversations_of r) = (Ret c, cm) ->
  exists l r', conversations ConversationOfUserMaxCount sort_newest uid version r = (Ret l, r') /\
    l ≡ₚ filter (fun x => version <= 0 \/ version < Db.cVersion x) (snd <$> entries c) /\ StronglySorted newest_first l /\
    messages_of r' = messages_of r.
Proof.
  intros El. unfold conversations, in_manager, zoom, GetConversations_of.
  rewrite (bind_Ret_io _ _ _ _ _ (attempt_Ret _ _ _ _ El)).
  destruct (read_Keys c) as (Hread & _ & _). destruct (read_all (Keys c) c) as [l c'] eqn:E. cbn [fst] in Hread. subst l.
  destruct (sorts (filter (fun x => version <= 0 \/ version < Db.cVersion x) (snd <$> entries c))) as [Hp Hs].
  eexists _, _. split; [reflexivity|]. auto.
Qed.

Theorem syncUserConversation_changes req r c cm :
  loadedCache ConversationOfUserMaxCount (sc_UID req) (conversations_of r) = (Ret c, cm) ->
  exists l r', syncUserConversation ConversationOfUserMaxCount sort_newest req r = (Ret (syncUserConversationResp_of <$> l), r') /\
    (forall x, x ∈ l <-> x ∈ snd <$> entries c /\ (sc_Version req <= 0 \/ sc_Version req < Db.cVersion x)) /\
    StronglySorted newest_first l.
Proof.
  intros El. destruct (conversations_spec (sc_UID req) (sc_Version req) r c cm El) as (l & r' & E & Hp & Hs & _).
  exists l, r'. split; [unfold syncUserConversation; by io_step E|]. split; [|done].
  intros x. rewrite Hp, list_elem_of_filter. tauto.
Qed.

(** What a conversation is shown as: its last message is in the log. *)
Definition shown M (uid : string) (x : Db.Conversation) (resp : conversationResp) : Prop :=
  let ch := (Db.cChannelID x, Db.cChannelType x) in
  exists m, m ∈ M (channel_place slotCount (stored_channel uid ch)) /\ Db.MessageSeq m = Db.LastMsgSeq x /\
    resp = mkConversationResp ch (Db.UnreadCount x) (Db.cTimestamp x) (MessageResp_from (plain m)).

Lemma GetMessage_spec c n M (st : state CP CS) (ms := M (channel_place slotCount c)) : rep segmentMaxBytes M st -> 0 <= n ->
  exists o st', GetMessage slotCount segmentMaxBytes removed c n st = (o, st') /\ rep segmentMaxBytes M st' /\
    ((exists m, m ∈ ms /\ Db.MessageSeq m = n /\ o = Ret (plain m)) \/
     o = Err ErrorNotData /\ (n ∉ Db.MessageSeq <$> ms \/ indexIntervalBytes < log_size ms)).
Proof.
  intros Hr Hn. unfold GetMessage. rewrite slot_number_bind by done.
  apply (on_topic_reads segmentMaxBytes removed (slot_of slotCount c.1) (topicName c) _ _ M st Hr).
  intros t s es Hl Hme Hmo Hok. by apply (read_at t s _ es n Hl Hme Hok Hn).
Qed.

Lemma with_last_messages_spec M uid l : forall r, rep segmentMaxBytes M (messages_of r) ->
  Forall (fun x => 0 <= Db.LastMsgSeq x) l ->
  exists o r', with_last_messages slotCount segmentMaxBytes removed uid l r = (o, r') /\
    ((exists resps, o = Ret resps /\ Forall2 (shown M uid) l resps) \/
     o = Err ErrorNotData /\ Exists (fun x => let k := channel_place slotCount (stored_channel uid (Db.cChannelID x, Db.cChannelType x)) in
       Db.LastMsgSeq x ∉ Db.MessageSeq <$> M k \/ indexIntervalBytes < log_size (M k)) l).
Proof.
  induction l as [|x l IH]; intros r Hr Hl; [exists (Ret []), r; split; [done|left; by exists []]|].
  apply Forall_cons in Hl as [Hx Hl]. set (ch := (Db.cChannelID x, Db.cChannelType x)).
  destruct (GetMessage_spec (stored_channel uid ch) (Db.LastMsgSeq x) M (messages_of r) Hr Hx) as (o & st & E & Hr1 & Ho).
  assert (in_messages (GetMessage slotCount segmentMaxBytes removed (stored_channel uid ch) (Db.LastMsgSeq x)) r =
    (o, mkReader (conversations_of r) st)) as E1 by (unfold in_messages, zoom; by rewrite E).
  cbn [with_last_messages]. fold ch. destruct Ho as [(m & Hm & Hseq & ->)|(-> & Hno)].
  - io_step E1. destruct (IH (mkReader (conversations_of r) st) Hr1 Hl) as (o2 & r2 & E2 & [(resps & -> & Hf)|(-> & Hex)]).
    + io_step E2. eexists _, r2. split; [reflexivity|]. left. eexists. split; [reflexivity|]. constructor; [|done]. by exists m.
    + exists (Err ErrorNotData), r2. split; [unfold mbind, io_bind; by rewrite E2|]. right. split; [done|]. by right.
  - exists (Err ErrorNotData), (mkReader (conversations_of r) st). split; [unfold mbind, io_bind; by rewrite E1|].
    right. split; [done|]. by left.
Qed.

(** [conversationsList] shows every conversation with its last message, or
    fails as a whole because of one whose last message is not found. *)
Theorem conversationsList_shows M uid r c cm : blank uid = false ->
  loadedCache ConversationOfUserMaxCount uid (conversations_of r) = (Ret c, cm) ->
  rep segmentMaxBytes M (messages_of r) -> Forall (fun x => 0 <= Db.LastMsgSeq x) (snd <$> entries c) ->
  exists l o r', conversationsList slotCount segmentMaxBytes removed ConversationOfUserMaxCount sort_newest uid r = (o, r') /\
    l ≡ₚ snd <$> entries c /\ StronglySorted newest_first l /\
    ((exists resps, o = Ret resps /\ Forall2 (shown M uid) l resps) \/
     o = Err ErrorNotData /\ Exists (fun x => let k := channel_place slotCount (stored_channel uid (Db.cChannelID x, Db.cChannelType x)) in
       Db.LastMsgSeq x ∉ Db.MessageSeq <$> M k \/ indexIntervalBytes < log_size (M k)) l).
Proof.
  intros Hb El Hr Hpos. destruct (conversations_spec uid 0 r c cm El) as (l & r1 & E & Hp & Hs & Hm).
  rewrite (filter_all _ (snd <$> entries c)) in Hp by (intros; lia). rewrite <- Hm in Hr. rewrite <- Hp in Hpos.
  destruct (with_last_messages_spec M uid l r1 Hr Hpos) as (o & r2 & E2 & Ho).
  exists l, o, r2. split; [unfold conversationsList; rewrite Hb; by io_step E|]. auto.
Qed.
End Lists.

(** * A group of three messages *)
#[local] Instance down_total : Total down.
Proof. intros a b. unfold down. lia. Qed.
#[local] Instance down_trans : Transitive down.
Proof. intros a b c. unfold down. lia. Qed.
#[local] Instance down_decision : RelDecision down.
Proof. intros a b. unfold down. apply _. Defined.

Definition group_state : state pools caches :=
  foldl (fun st n => snd (impl 4 (2 ^ 30) no_remove (OAppendMessage (example_message n)) st)) (NewFileDB_on ∅) [1; 2; 3].
Definition group_reader : reader (C := listCache Db.Conversation) (S := Memory.store) (CP := pools) (CS := caches) :=
  mkReader example_manager group_state.

Lemma group_stored : rep (2 ^ 30) three group_state.
Proof.
  assert (forall n M (st : state pools caches), rep (2 ^ 30) M st -> permitted1 4 M (OAppendMessage (example_message n)) ->
    rep (2 ^ 30) (after1 4 M (OAppendMessage (example_message n)))
      (snd (impl 4 (2 ^ 30) no_remove (OAppendMessage (example_message n)) st))) as Hstep.
  { intros n M st Hr Hp.
    destruct (impl_explained 4 (2 ^ 30) no_remove large_segments four_slots _ M st Hr Hp) as (a & st' & -> & _ & Hr'). exact Hr'. }
  assert (forall n, 0 < n < 4 -> Db.ok (example_message n)) as Hok.
  { intros n Hn. constructor; unfold inU, inS, short; cbn; try lia; vm_compute; intuition congruence. }
  unfold three, group_state. cbn [foldl].
  apply Hstep; [apply Hstep; [apply Hstep; [apply empty_rep|]|]|]; (split; [apply Hok; lia|]); (split; [cbn; lia|]);
    (split; [vm_compute; repeat constructor|vm_compute; discriminate]).
Qed.

(** The client has the first message and asks for the last two. *)
Definition example_recent : recentReq := mkRecentReq "bob" [mkChannelRecentMessageReq group 1] 2.

