(* ===== verification/Webhook.v ===== *)
(** What the server tells the application over HTTP: the online states
    (internal/lim/onlinestatus_webhook.go) and the queue of notifications
    ([notifyQueueLoop] of internal/lim/webbhook.go). The HTTP library and the
    application are the answers the loops get; JSON is not modelled. *)
From stdpp Require Import base list sets strings pretty.
From Stdlib Require Import ZArith Lia Strings.Byte Relation_Operators.
From S2P Require Import Prelude Effects Keys Strconv Wire Frames PQueue Model Storage Sync.

(** An answer to [http.Post]: an error, or the status. *)
Definition answer : Type := option Z.
Definition accepts (a : answer) : bool := match a with Some s => s =? 200 | None => false end.

(** * The states of users *)
Module OnlineStatus.

(** Where [loopNotify] is: at the start of a round, waiting for the answer to
    a request, or about to take the lock. *)
Inductive place := AtStart | Waiting (batch : list string) | Answered.

(** [OnlineStatusWebhook], its loop, and what the application has accepted. *)
Record webhook := mkWebhook {
  statusList : list string;
  opLen : nat;
  at_ : place;
  accepted : list (list string)
}.
Definition NewOnlineStatusWebhook : webhook := mkWebhook [] 0 AtStart [].

(** [fmt.Sprintf("%s-%d-%d", uid, deviceFlag, online)]. *)
Definition status (uid : string) (deviceFlag : DeviceFlag) (online : Z) : string :=
  uid +:+ "-" +:+ pretty deviceFlag +:+ "-" +:+ pretty online.

Definition note (s : string) (w : webhook) : webhook := mkWebhook (statusList w ++ [s]) (opLen w) (at_ w) (accepted w).
Definition Online (uid : string) (deviceFlag : DeviceFlag) : webhook -> webhook := note (status uid deviceFlag 1).
Definition Offline (uid : string) (deviceFlag : DeviceFlag) : webhook -> webhook := note (status uid deviceFlag 0).

(** The start of a round of [loopNotify]: nothing to send, or a request. *)
Definition begin_round (w : webhook) : webhook :=
  let n := if (opLen w =? 0)%nat then length (statusList w) else opLen w in
  if (n =? 0)%nat then mkWebhook (statusList w) n AtStart (accepted w)
  else mkWebhook (statusList w) n (Waiting (take n (statusList w))) (accepted w).

(** The answer arrives. *)
Definition answered (batch : list string) (a : answer) (w : webhook) : webhook :=
  if accepts a then mkWebhook (statusList w) (opLen w) Answered (accepted w ++ [batch])
  else mkWebhook (statusList w) (opLen w) AtStart (accepted w).

(** The end of a round, under the lock. *)
Definition end_round (w : webhook) : webhook :=
  mkWebhook (drop (opLen w) (statusList w)) 0 AtStart (accepted w).

(** The goroutines that report states and the loop, interleaved: the label is
    what was reported. *)
Inductive step : webhook -> list string -> webhook -> Prop :=
  | step_online uid flag w : step w [status uid flag 1] (Online uid flag w)
  | step_offline uid flag w : step w [status uid flag 0] (Offline uid flag w)
  | step_begin w : at_ w = AtStart -> step w [] (begin_round w)
  | step_answer batch a w : at_ w = Waiting batch -> step w [] (answered batch a w)
  | step_end w : at_ w = Answered -> step w [] (end_round w).

(** [run reported w]: [w] is reached after these states were reported. *)
Inductive run : list string -> webhook -> Prop :=
  | run_start : run [] NewOnlineStatusWebhook
  | run_step reported s w w' : run reported w -> step w s w' -> run (reported ++ s) w'.

(** The reports the application has not accepted. *)
Definition pending (w : webhook) : list string :=
  match at_ w with Answered => drop (opLen w) (statusList w) | _ => statusList w end.

Record ok (reported : list string) (w : webhook) : Prop := {
  ok_all : reported = concat (accepted w) ++ pending w;
  ok_len : (opLen w <= length (statusList w))%nat;
  ok_batch batch : at_ w = Waiting batch -> batch = take (opLen w) (statusList w)
}.

Lemma concat_snoc {A} (l : list (list A)) x : concat (l ++ [x]) = concat l ++ x.
Proof. rewrite concat_app. cbn. by rewrite app_nil_r. Qed.

Lemma note_ok reported s w : ok reported w -> ok (reported ++ [s]) (note s w).
Proof.
  intros [Ha Hl Hb]. split; cbn [note statusList opLen at_ accepted].
  - rewrite Ha, <- app_assoc. f_equal. unfold pending. cbn [note statusList opLen at_].
    destruct (at_ w); [done|done|]. by rewrite drop_app_le.
  - rewrite length_app. lia.
  - intros batch E. rewrite take_app_le by done. by apply Hb.
Qed.

Lemma report_step_ok reported s w w' : ok reported w -> step w s w' -> ok (reported ++ s) w'.
Proof.
  intros Hok Hs. destruct Hs as [uid flag w|uid flag w|w E|batch a w E|w E]; [by apply note_ok|by apply note_ok|..];
    rewrite app_nil_r; destruct Hok as [Ha Hl Hb].
  - unfold begin_round. assert (pending w = statusList w) as Hp by (unfold pending; by rewrite E).
    destruct (Nat.eqb_spec (opLen w) 0) as [E0|E0].
    + destruct (Nat.eqb_spec (length (statusList w)) 0); split; cbn; congruence || lia.
    + rewrite (proj2 (Nat.eqb_neq _ _)) by done. split; cbn; congruence || done.
  - assert (pending w = statusList w) as Hp by (unfold pending; by rewrite E).
    unfold answered. destruct (accepts a); split; cbn; try done; [|by rewrite Ha, Hp].
    rewrite concat_snoc, Ha, Hp, (Hb batch E), <- app_assoc. unfold pending. cbn [at_ opLen statusList].
    by rewrite take_drop.
  - split; cbn; [|lia|done]. rewrite Ha. unfold pending. by rewrite E.
Qed.


(** A round whose request is accepted sends all that is waiting. *)
Lemma round_sends_all w s : at_ w = AtStart -> opLen w = 0%nat -> statusList w <> [] -> s = 200 ->
  let w1 := begin_round w in
  at_ w1 = Waiting (statusList w) /\
  end_round (answered (statusList w) (Some s) w1) = mkWebhook [] 0 AtStart (accepted w ++ [statusList w]).
Proof.
  intros Ha Ho Hne ->. unfold begin_round. rewrite Ho. cbn [Nat.eqb].
  rewrite (proj2 (Nat.eqb_neq _ _)) by (by destruct (statusList w)).
  cbn [at_]. rewrite firstn_all. split; [done|]. unfold answered, end_round. cbn. by rewrite drop_all.
Qed.

End OnlineStatus.

(** * The queue of notifications *)

(** What the loop needs of the storage. *)
Class NotifyQueue (Q : Type) := {
  AppendMessageOfNotifyQueue : Db.Message -> io Q unit;
  GetMessagesOfNotifyQueue : Z -> io Q (list Db.Message);
  RemoveMessagesOfNotifyQueue : list Z -> io Q unit
}.

(** First in, first out; a removal takes out the messages with the ids given,
    or fails and takes out none. *)
Class NotifyQueueLaws (Q : Type) `{NotifyQueue Q} := {
  waiting : Q -> list Db.Message;
  Append_law m q : exists q', AppendMessageOfNotifyQueue m q = (Ret tt, q') /\ waiting q' = waiting q ++ [m];
  Get_law count q : GetMessagesOfNotifyQueue count q = (Ret (take (Z.to_nat count) (waiting q)), q);
  Remove_law ids q : exists o q', RemoveMessagesOfNotifyQueue ids q = (o, q') /\
    match o with
    | Ret _ => waiting q' = filter (fun m => Db.MessageID m ∉ ids) (waiting q)
    | Err _ => waiting q' = waiting q
    | Panic => False
    end
}.

Section Loop.
Context {Q : Type} `{NotifyQueueLaws Q} (isCluster : bool) (MessageNotifyMaxCount : Z).
Implicit Type q : Q.

(** A round of [notifyQueueLoop], with what the application accepted in it.
    Every [continue] and the wait for the ticker end it. *)
Definition notify_round (isLeader : bool) (post : list MessageResp -> answer) : io Q (list Db.Message) :=
  if negb isCluster || negb isLeader then mret []
  else
    r ← attempt (GetMessagesOfNotifyQueue MessageNotifyMaxCount);
    match r with
    | inr _ => mret []
    | inl messages =>
        if bool_decide (length messages = 0%nat) then mret []
        else if negb (accepts (post (MessageResp_from <$> messages))) then mret []
        else
          attempt (RemoveMessagesOfNotifyQueue (Db.MessageID <$> messages)) ;;
          mret messages
    end.

(** What happens to a queue: messages are put in, and rounds of the loop. *)
Inductive event := Put (m : Db.Message) | Round (isLeader : bool) (post : list MessageResp -> answer).
Definition notify1 (e : event) : io Q (list Db.Message) :=
  match e with
  | Put m => AppendMessageOfNotifyQueue m ;; mret []
  | Round isLeader post => notify_round isLeader post
  end.
(** What the application is told in all. *)
Fixpoint notify (es : list event) : io Q (list Db.Message) :=
  match es with
  | [] => mret []
  | e :: rest => told ← notify1 e; more ← notify rest; mret (told ++ more)
  end.
Definition put_in (es : list event) : list Db.Message :=
  es ≫= fun e => match e with Put m => [m] | Round _ _ => [] end.

Definition never_fails : Prop := forall ids q, fst (RemoveMessagesOfNotifyQueue ids q) = Ret tt.

Lemma remove_prefix (l1 l2 : list Db.Message) : NoDup (Db.MessageID <$> (l1 ++ l2)) ->
  filter (fun m => Db.MessageID m ∉ (Db.MessageID <$> l1)) (l1 ++ l2) = l2.
Proof.
  rewrite fmap_app. intros (_ & Hd & _)%NoDup_app. rewrite filter_app, filter_none, app_nil_l.
  - apply filter_all. intros m Hm Hin. apply (Hd _ Hin). by apply list_elem_of_fmap_2.
  - intros m Hm Hx. apply Hx. by apply list_elem_of_fmap_2.
Qed.

Lemma remove_first n q : NoDup (Db.MessageID <$> waiting q) ->
  filter (fun m => Db.MessageID m ∉ (Db.MessageID <$> take n (waiting q))) (waiting q) = drop n (waiting q).
Proof.
  intros Hn. pose proof (remove_prefix (take n (waiting q)) (drop n (waiting q))) as Hr. rewrite take_drop in Hr. by apply Hr.
Qed.

(** A round, when the ids are distinct: what leaves the queue is its front,
    and was accepted. *)
Lemma round_spec isLeader post q : NoDup (Db.MessageID <$> waiting q) ->
  exists told gone q', notify_round isLeader post q = (Ret told, q') /\ waiting q = gone ++ waiting q' /\
    (gone = told \/ gone = [] /\ told = take (Z.to_nat MessageNotifyMaxCount) (waiting q)) /\
    (never_fails -> gone = told) /\ (isCluster && isLeader = false -> told = []).
Proof.
  intros Hn. unfold notify_round.
  assert (forall s : io Q (list Db.Message), s q = (Ret [], q) -> exists told gone q', s q = (Ret told, q') /\
    waiting q = gone ++ waiting q' /\
    (gone = told \/ gone = [] /\ told = take (Z.to_nat MessageNotifyMaxCount) (waiting q)) /\
    (never_fails -> gone = told) /\ (isCluster && isLeader = false -> told = [])) as Hnone
    by (intros s E; exists [], [], q; auto).
  destruct (negb isCluster || negb isLeader) eqn:El; [by apply (Hnone (mret []))|].
  io_step (attempt_Ret _ _ _ _ (Get_law MessageNotifyMaxCount q)). set (l := take _ _).
  destruct (bool_decide _); [by apply (Hnone (mret []))|]. destruct (accepts _); [|by apply (Hnone (mret []))]. cbn [negb].
  destruct (Remove_law (Db.MessageID <$> l) q) as (o & q' & E & Ho).
  assert (isCluster && isLeader = true) as Hlead by (by destruct isCluster, isLeader).
  destruct o as [[]|e|]; [| |done].
  - exists l, l, q'. io_step (attempt_Ret _ _ _ _ E). split; [reflexivity|]. split.
    + rewrite Ho. unfold l. by rewrite remove_first, take_drop.
    + split; [by left|]. split; [done|congruence].
  - exists l, [], q'. io_step (attempt_Err _ _ _ _ E). split; [reflexivity|]. split; [done|]. split; [by right|].
    split; [|congruence]. intros Hnf. specialize (Hnf (Db.MessageID <$> l) q). rewrite E in Hnf. discriminate.
Qed.

End Loop.

(** * A queue in memory *)
#[export] Instance memory_queue : NotifyQueue (list Db.Message) := {|
  AppendMessageOfNotifyQueue m := modify (fun q => q ++ [m]);
  GetMessagesOfNotifyQueue count := gets (take (Z.to_nat count));
  RemoveMessagesOfNotifyQueue ids := modify (filter (fun m => Db.MessageID m ∉ ids))
|}.
#[export] Instance memory_queue_laws : NotifyQueueLaws (list Db.Message).
Proof.
  refine {| waiting q := q |}.
  - intros m q. eexists. split; reflexivity.
  - reflexivity.
  - intros ids q. eexists _, _. split; reflexivity.
Defined.

(** Two messages, a refused request, an accepted one, a third message. *)
Definition notice (id : Z) : Db.Message := Db.mkMessage 0 0 0 0 id 1 "no" 1600000000 "alice" "" "g" 2 [].
Definition example_events : list event :=
  [Put (notice 1); Put (notice 2); Round true (fun _ => Some 500); Round true (fun _ => Some 200); Put (notice 3)].


Example example_told : notify true 10 example_events [] = (Ret [notice 1; notice 2], [notice 3]).
Proof. vm_compute. reflexivity. Qed.
