(* ===== verification/Wait.v ===== *)
(** Waiting for an answer by id (pkg/wait/wait.go): the channels of those who
    wait, in 64 maps each behind its lock. A call's part inside the lock is
    one atomic step; the send and the close that [Trigger] does outside of it
    are steps of their own, which others may come between. *)
From stdpp Require Import base list gmap.
From Stdlib Require Import ZArith Lia.
From S2P Require Import Prelude.

Section Wait.
Context {V : Type}.

(** A Go channel of capacity 1. *)
Record channel := mkChannel { buffer : list V; closed : bool }.
Definition newCh : channel := mkChannel [] false.
Definition capacity : nat := 1.

(** [chan] values are positions among the channels that were made; [e] are
    the maps. *)
Record waitList := mkWaitList { made : list channel; e : list (gmap Z nat) }.
Definition defaultListElementLength : Z := 64.
Definition New : waitList := mkWaitList [] (replicate (Z.to_nat defaultListElementLength) ∅).

Definition idx (id : Z) : nat := Z.to_nat (id mod defaultListElementLength).
Definition element (id : Z) (w : waitList) : gmap Z nat := default ∅ (e w !! idx id).
Definition in_element (id : Z) (f : gmap Z nat -> gmap Z nat) (w : waitList) : waitList :=
  mkWaitList (made w) (alter f (idx id) (e w)).

(** [Register]; [log.Panicf] on an id that is waited for. *)
Definition Register (id : Z) (w : waitList) : outcome nat * waitList :=
  let p := length (made w) in
  let w := mkWaitList (made w ++ [newCh]) (e w) in
  match element id w !! id with
  | Some _ => (Panic, w)
  | None => (Ret p, in_element id <[id := p]> w)
  end.

(** [Trigger], up to [Unlock]. *)
Definition Trigger_take (id : Z) (w : waitList) : option nat * waitList :=
  (element id w !! id, in_element id (delete id) w).
Definition IsRegistered (id : Z) (w : waitList) : bool := bool_decide (is_Some (element id w !! id)).

(** * Those who call

    A call of [Trigger] behind its lock, before the send and before the
    close. *)
Inductive trigger := Sending (p : nat) (x : V) | Closing (p : nat) | Finished.
Record world := mkWorld {
  wl : waitList;
  triggers : list trigger;
  got : list (nat * option V)      (* what was received, from which channel; [None] from a closed one *)
}.
Definition init : world := mkWorld New [] [].

Inductive event := CallRegister (id : Z) | CallTrigger (id : Z) (x : V) | Resume (k : nat) | Receive (p : nat).
(** [Fatal]: a panic. *)
Inductive result := Blocked | Next (w : world) | Fatal.

Definition set_made (f : list channel -> list channel) (w : world) : world :=
  mkWorld (mkWaitList (f (made (wl w))) (e (wl w))) (triggers w) (got w).

Definition exec (ev : event) (w : world) : result :=
  match ev with
  | CallRegister id =>
      match Register id (wl w) with
      | (Ret _, l) => Next (mkWorld l (triggers w) (got w))
      | _ => Fatal
      end
  | CallTrigger id x =>
      let '(ch, l) := Trigger_take id (wl w) in
      let t := match ch with Some p => Sending p x | None => Finished end in
      Next (mkWorld l (triggers w ++ [t]) (got w))
  | Resume k =>
      match triggers w !! k with
      | Some (Sending p x) =>
          match made (wl w) !! p with
          | Some (mkChannel b false) =>
              if (length b <? capacity)%nat
              then Next (set_made (insert p (mkChannel (b ++ [x]) false)) (mkWorld (wl w) (<[k := Closing p]> (triggers w)) (got w)))
              else Blocked
          | _ => Fatal
          end
      | Some (Closing p) =>
          match made (wl w) !! p with
          | Some (mkChannel b false) => Next (set_made (insert p (mkChannel b true)) (mkWorld (wl w) (<[k := Finished]> (triggers w)) (got w)))
          | _ => Fatal
          end
      | _ => Blocked
      end
  | Receive p =>
      match made (wl w) !! p with
      | Some (mkChannel (x :: b) c) => Next (set_made (insert p (mkChannel b c)) (mkWorld (wl w) (triggers w) (got w ++ [(p, Some x)])))
      | Some (mkChannel [] true) => Next (mkWorld (wl w) (triggers w) (got w ++ [(p, None)]))
      | _ => Blocked
      end
  end.

Fixpoint run (evs : list event) (w : world) : result :=
  match evs with
  | [] => Next w
  | ev :: evs' => match exec ev w with Next w' => run evs' w' | r => r end
  end.

(** * What it promises

    A future for each registration, in their order: an id that is waited
    for, or the value it was answered with. *)
Inductive future := Awaits (id : Z) | Answered (x : V).

Definition awaits (id : Z) (f : future) : Prop := match f with Awaits i => i = id | Answered _ => False end.
#[export] Instance awaits_dec id f : Decision (awaits id f).
Proof. destruct f; cbn; apply _. Defined.

Definition answer (id : Z) (x : V) (f : future) : future := if decide (awaits id f) then Answered x else f.
Definition spec_step (fs : list future) (ev : event) : list future :=
  match ev with
  | CallRegister id => fs ++ [Awaits id]
  | CallTrigger id x => answer id x <$> fs
  | _ => fs
  end.
Definition spec (evs : list event) : list future := foldl spec_step [] evs.

(** No id is registered while it is waited for. *)
Fixpoint no_dup_id (fs : list future) (evs : list event) : Prop :=
  match evs with
  | [] => True
  | ev :: evs' =>
      match ev with CallRegister id => Forall (fun f => ~ awaits id f) fs | _ => True end /\
      no_dup_id (spec_step fs ev) evs'
  end.

Definition received (p : nat) (w : world) : list (option V) := snd <$> filter (fun g => fst g = p) (got w).

(** * Why

    The channel a call of [Trigger] is about. *)
Definition target (t : trigger) : option nat :=
  match t with Sending p _ | Closing p => Some p | Finished => None end.
Definition runs (w : world) (p : nat) (t : trigger) : Prop := target t = Some p /\ exists k, triggers w !! k = Some t.

(** A channel and its future: not touched yet, about to be sent to, sent to
    and read or not. *)
Definition chan_ok (w : world) (p : nat) (ch : channel) (f : future) : Prop :=
  match f with
  | Awaits _ => ch = newCh /\ received p w = [] /\ forall t, ~ runs w p t
  | Answered x =>
      runs w p (Sending p x) /\ ch = newCh /\ received p w = [] \/
      (if closed ch then forall t, ~ runs w p t else runs w p (Closing p)) /\
      (buffer ch = [x] /\ received p w = [] \/
       buffer ch = [] /\ exists n, received p w = Some x :: replicate n None /\ (closed ch = false -> n = 0%nat))
  end.

Record Inv (fs : list future) (w : world) : Prop := {
  i_len : length (made (wl w)) = length fs;
  i_e : length (e (wl w)) = Z.to_nat defaultListElementLength;
  i_reg id p : element id (wl w) !! id = Some p <-> fs !! p = Some (Awaits id);
  i_once k1 k2 t1 t2 p : triggers w !! k1 = Some t1 -> triggers w !! k2 = Some t2 ->
    target t1 = Some p -> target t2 = Some p -> k1 = k2;
  i_bound p t : runs w p t -> (p < length fs)%nat;
  i_got p : (length fs <= p)%nat -> received p w = [];
  i_chan p ch f : made (wl w) !! p = Some ch -> fs !! p = Some f -> chan_ok w p ch f
}.

Lemma idx_bound (w : waitList) id : length (e w) = Z.to_nat defaultListElementLength -> (idx id < length (e w))%nat.
Proof.
  intros He. rewrite He. unfold idx, defaultListElementLength.
  pose proof (Z.mod_pos_bound id 64 ltac:(lia)). lia.
Qed.

Lemma element_in (w : waitList) id id' f : length (e w) = Z.to_nat defaultListElementLength ->
  element id' (in_element id f w) = if decide (idx id' = idx id) then f (element id w) else element id' w.
Proof.
  intros He. pose proof (idx_bound w id He) as Hb. unfold element, in_element. cbn.
  destruct (decide (idx id' = idx id)) as [->|Hne]; [|by rewrite list_lookup_alter_ne].
  rewrite list_lookup_alter_eq. by destruct (lookup_lt_is_Some_2 _ _ Hb) as [m ->].
Qed.

Lemma chan_ok_frame w w' p ch f : (forall t, runs w p t <-> runs w' p t) -> received p w' = received p w ->
  chan_ok w p ch f -> chan_ok w' p ch f.
Proof.
  intros Ht Hr. unfold chan_ok. rewrite Hr. destruct f as [|x].
  - setoid_rewrite Ht. done.
  - rewrite Ht. destruct (closed ch); setoid_rewrite Ht; done.
Qed.

Lemma runs_app w l p t g c : runs (mkWorld l (triggers w ++ [t]) g) p c <-> runs w p c \/ (c = t /\ target t = Some p).
Proof.
  unfold runs. cbn. split.
  - intros [Hc [k Hk]]. apply lookup_app_Some in Hk as [Hk|[_ Hk]]; [left; eauto|].
    apply list_lookup_singleton_Some in Hk as [_ <-]. right. done.
  - intros [[Hc [k Hk]]|[-> Hc]]; (split; [done|]).
    + exists k. by apply lookup_app_l_Some.
    + exists (length (triggers w)). by rewrite list_lookup_middle.
Qed.

Lemma received_app p q v l tr g (w : world) : got w = g ->
  received p (mkWorld l tr (g ++ [(q, v)])) = received p w ++ (if decide (q = p) then [v] else []).
Proof.
  intros <-. unfold received. cbn. rewrite filter_app, fmap_app. f_equal.
  rewrite filter_cons, filter_nil. cbn. by case_decide.
Qed.

Lemma Inv_init : Inv [] init.
Proof.
  split; cbn; try done.
  - intros id p. unfold element. cbn.
    destruct (replicate _ _ !! _) eqn:E; cbn; [apply lookup_replicate in E as [-> _]|]; by rewrite lookup_empty.
  - intros p t [_ [k Hk]]. done.
Qed.

Lemma future_at fs w p ch : Inv fs w -> made (wl w) !! p = Some ch -> exists f, fs !! p = Some f.
Proof. intros HI Hp. apply lookup_lt_is_Some_2. rewrite <- (i_len _ _ HI). by eapply lookup_lt_Some. Qed.

Lemma Register_inv fs w id : Inv fs w -> Forall (fun f => ~ awaits id f) fs -> exists w',
  exec (CallRegister id) w = Next w' /\ Inv (fs ++ [Awaits id]) w'.
Proof.
  intros HI Hno. pose proof (i_e _ _ HI) as He.
  assert (element id (wl w) !! id = None) as E.
  { destruct (element id (wl w) !! id) as [p|] eqn:E; [|done]. apply (i_reg _ _ HI) in E.
    by destruct (Forall_lookup_1 _ _ _ _ Hno E). }
  cbn. unfold Register. change (element id (mkWaitList (made (wl w) ++ [newCh]) (e (wl w)))) with (element id (wl w)).
  rewrite E. eexists. split; [reflexivity|]. split; cbn.
  - rewrite !length_app, (i_len _ _ HI). done.
  - by rewrite length_alter.
  - intros id' p. rewrite element_in by done.
    change (element ?i (mkWaitList _ (e (wl w)))) with (element i (wl w)). rewrite (i_len _ _ HI), lookup_snoc_Some.
    destruct (decide (idx id' = idx id)) as [Hi|Hi].
    + assert (element id (wl w) = element id' (wl w)) as Hel by (unfold element; by rewrite Hi).
      destruct (decide (id' = id)) as [->|Hne].
      * rewrite lookup_insert_eq. split; [intros [= <-]; by right|].
        intros [[Hp H]|[-> _]]; [|done]. apply (i_reg _ _ HI) in H. congruence.
      * rewrite lookup_insert_ne, Hel, (i_reg _ _ HI) by done. split; [|intros [[_ H]|[_ [= H]]]; congruence].
        intros H. left. split; [by eapply lookup_lt_Some|done].
    + rewrite (i_reg _ _ HI). split; [|intros [[_ H]|[_ [= ->]]]; congruence].
      intros H. left. split; [by eapply lookup_lt_Some|done].
  - intros k1 k2 t1 t2 p. apply (i_once _ _ HI).
  - intros p t H. rewrite length_app. pose proof (i_bound _ _ HI p t H). cbn. lia.
  - intros p. rewrite length_app. cbn. intros Hp. apply (i_got _ _ HI p). lia.
  - intros p ch f [[Hlt Hm]|[-> <-]]%lookup_snoc_Some.
    + rewrite (i_len _ _ HI) in Hlt. rewrite lookup_app_l by done.
      intros Hf. exact (chan_ok_frame w _ p ch f (fun t => iff_refl _) eq_refl (i_chan _ _ HI _ _ _ Hm Hf)).
    + rewrite (i_len _ _ HI), list_lookup_middle by done. intros [= <-].
      cbn [chan_ok]. split; [reflexivity|]. split.
      * apply (i_got _ _ HI). done.
      * intros t Hr. pose proof (i_bound _ _ HI _ _ Hr). lia.
Qed.

(** Only the future of an id that is waited for changes. *)
Lemma answer_lookup fs w id x p : Inv fs w -> element id (wl w) !! id = Some p ->
  answer id x <$> fs = <[p := Answered x]> fs.
Proof.
  intros HI E. apply list_eq. intros q. rewrite list_lookup_fmap, list_lookup_insert.
  pose proof (proj1 (i_reg _ _ HI id p) E) as Hp. pose proof (lookup_lt_Some _ _ _ Hp).
  destruct (decide _) as [[-> _]|Hq]; [rewrite Hp; cbn; unfold answer; by rewrite decide_True|].
  destruct (fs !! q) as [f|] eqn:Ef; [|done]. cbn. unfold answer. case_decide as Ha; [|done].
  destruct f as [i|]; [cbn in Ha; subst i|done]. apply (i_reg _ _ HI) in Ef.
  destruct Hq. split; [congruence|done].
Qed.

Lemma answer_none fs w id x : Inv fs w -> element id (wl w) !! id = None -> answer id x <$> fs = fs.
Proof.
  intros HI E. apply list_eq. intros q. rewrite list_lookup_fmap. destruct (fs !! q) as [f|] eqn:Ef; [|done].
  cbn. unfold answer. case_decide as Ha; [|done]. destruct f as [i|]; [cbn in Ha; subst i|done].
  apply (i_reg _ _ HI) in Ef. congruence.
Qed.

Lemma i_once_snoc fs w t : Inv fs w -> (forall p c, target t = Some p -> ~ runs w p c) ->
  forall k1 k2 t1 t2 p, (triggers w ++ [t]) !! k1 = Some t1 -> (triggers w ++ [t]) !! k2 = Some t2 ->
    target t1 = Some p -> target t2 = Some p -> k1 = k2.
Proof.
  intros HI Ht k1 k2 t1 t2 p H1 H2 T1 T2.
  apply lookup_snoc_Some in H1 as [[L1 H1]|[-> ->]]; apply lookup_snoc_Some in H2 as [[L2 H2]|[-> ->]]; try done.
  - by eapply (i_once _ _ HI).
  - destruct (Ht p t1 T2). split; eauto.
  - destruct (Ht p t2 T1). split; eauto.
Qed.

Lemma Trigger_inv fs w id x : Inv fs w -> exists w',
  exec (CallTrigger id x) w = Next w' /\ Inv (answer id x <$> fs) w'.
Proof.
  intros HI. pose proof (i_e _ _ HI) as He. cbn. eexists. split; [reflexivity|].
  set (t := match element id (wl w) !! id with Some p => Sending p x | None => Finished end).
  assert (forall p c, target t = Some p -> ~ runs w p c) as Hnew.
  { intros p c. unfold t. destruct (element id (wl w) !! id) as [q|] eqn:E; [|done]. intros [= ->].
    apply (i_reg _ _ HI) in E. destruct (lookup_lt_is_Some_2 (made (wl w)) p) as [ch Hch].
    - rewrite (i_len _ _ HI). by eapply lookup_lt_Some.
    - apply (i_chan _ _ HI _ _ _ Hch E). }
  split; cbn.
  - by rewrite length_fmap, (i_len _ _ HI).
  - by rewrite length_alter.
  - intros id' p. rewrite element_in, list_lookup_fmap by done.
    destruct (decide (id' = id)) as [->|Hne].
    + rewrite decide_True, lookup_delete_eq by done. split; [done|].
      destruct (fs !! p) as [f|] eqn:Ef; [|done]. cbn. unfold answer. case_decide as Ha; [done|].
      intros [= ->]. by destruct Ha.
    + assert ((if decide (idx id' = idx id) then delete id (element id (wl w)) else element id' (wl w)) !! id' = Some p
        <-> element id' (wl w) !! id' = Some p) as ->.
      { case_decide as Hi; [|done]. rewrite lookup_delete_ne by done. unfold element. by rewrite Hi. }
      rewrite (i_reg _ _ HI). destruct (fs !! p) as [f|] eqn:Ef; [|done]. cbn. unfold answer.
      case_decide as Ha; [|done]. destruct f as [i|]; [cbn in Ha; subst i|done]. split; congruence.
  - by apply (i_once_snoc fs).
  - intros p c. rewrite length_fmap. intros [H|[-> Ht]]%runs_app; [by apply (i_bound _ _ HI p c)|].
    unfold t in Ht. destruct (element id (wl w) !! id) as [q|] eqn:E; [|done]. injection Ht as ->.
    apply (i_reg _ _ HI) in E. by eapply lookup_lt_Some.
  - intros p. rewrite length_fmap. apply (i_got _ _ HI).
  - intros p ch f Hm. destruct (element id (wl w) !! id) as [q|] eqn:E.
    + rewrite (answer_lookup fs w id x q HI E), list_lookup_insert_Some.
      intros [(<- & <- & _)|[Hq Hf]].
      * apply (i_reg _ _ HI) in E. destruct (i_chan _ _ HI _ _ _ Hm E) as (-> & Hr & Hn). left.
        split; [|done]. apply runs_app. right. done.
      * eapply (chan_ok_frame w); [|reflexivity|exact (i_chan _ _ HI _ _ _ Hm Hf)]. intros c.
        rewrite runs_app. split; [by left|]. intros [H|[-> Ht]]; [done|]. by injection Ht.
    + rewrite (answer_none fs w id x HI E). intros Hf.
      eapply (chan_ok_frame w); [|reflexivity|exact (i_chan _ _ HI _ _ _ Hm Hf)]. intros c.
      rewrite runs_app. split; [by left|]. intros [H|[-> Ht]]; done.
Qed.

(** Sending, closing and receiving change one channel, its calls and what was
    received from it. *)
Lemma Inv_at fs w w' p ch f : Inv fs w -> e (wl w') = e (wl w) ->
  (p < length (made (wl w)))%nat -> made (wl w') = <[p := ch]> (made (wl w)) ->
  (forall q c, q <> p -> runs w q c <-> runs w' q c) -> (forall q, q <> p -> received q w' = received q w) ->
  (forall k1 k2 t1 t2 q, triggers w' !! k1 = Some t1 -> triggers w' !! k2 = Some t2 ->
    target t1 = Some q -> target t2 = Some q -> k1 = k2) ->
  fs !! p = Some f -> chan_ok w' p ch f -> Inv fs w'.
Proof.
  intros HI He Hp Hm Hr Hg Ho Hf Hc.
  assert (forall id, element id (wl w') = element id (wl w)) as Hel by (intros; unfold element; by rewrite He).
  split.
  - by rewrite Hm, length_insert, (i_len _ _ HI).
  - by rewrite He, (i_e _ _ HI).
  - intros id q. rewrite Hel. apply (i_reg _ _ HI).
  - done.
  - intros q c H. destruct (decide (q = p)) as [->|Hq]; [by eapply lookup_lt_Some|].
    apply (i_bound _ _ HI q c), Hr; done.
  - intros q Hq. destruct (decide (q = p)) as [->|Hne]; [apply lookup_lt_Some in Hf; lia|].
    rewrite Hg by done. by apply (i_got _ _ HI).
  - intros q ch' f' H1 H2. rewrite Hm in H1. apply list_lookup_insert_Some in H1 as [(<- & <- & _)|[Hq H1]].
    + rewrite Hf in H2. by injection H2 as <-.
    + eapply (chan_ok_frame w); [intros c; by apply Hr|by apply Hg|by apply (i_chan _ _ HI)].
Qed.

(** The one call on a channel goes on to its next stage. *)
Lemma runs_insert fs w l g k t t' p : Inv fs w -> triggers w !! k = Some t -> target t = Some p ->
  (target t' = Some p \/ target t' = None) ->
  (forall q c, q <> p -> runs w q c <-> runs (mkWorld l (<[k := t']> (triggers w)) g) q c) /\
  (forall c, runs (mkWorld l (<[k := t']> (triggers w)) g) p c <-> c = t' /\ target t' = Some p) /\
  (forall k1 k2 t1 t2 q, <[k := t']> (triggers w) !! k1 = Some t1 -> <[k := t']> (triggers w) !! k2 = Some t2 ->
    target t1 = Some q -> target t2 = Some q -> k1 = k2).
Proof.
  intros HI Hk Ht Ht'. pose proof (lookup_lt_Some _ _ _ Hk) as Hlt. unfold runs. cbn.
  split; [|split].
  - intros q c Hq. split; intros [Hc [k' Hk']]; (split; [done|]); exists k'.
    + rewrite list_lookup_insert_ne; [done|]. intros <-. congruence.
    + apply list_lookup_insert_Some in Hk' as [(<- & <- & _)|[_ ?]]; [|done]. destruct Ht'; congruence.
  - intros c. split.
    + intros [Hc [k' Hk']]. apply list_lookup_insert_Some in Hk' as [(<- & <- & _)|[Hne Hk']]; [done|].
      destruct Hne. by apply (i_once _ _ HI k k' t c p).
    + intros [-> Hc]. split; [done|]. exists k. by apply list_lookup_insert_eq.
  - intros k1 k2 t1 t2 q H1 H2 Q1 Q2.
    assert (forall k3 t3, <[k := t']> (triggers w) !! k3 = Some t3 -> target t3 = Some q ->
      exists t4, triggers w !! k3 = Some t4 /\ target t4 = Some q) as Hold.
    { intros k3 t3 H3 Q3. apply list_lookup_insert_Some in H3 as [(<- & <- & _)|[_ ?]]; [|by exists t3].
      exists t. split; [done|]. destruct Ht'; congruence. }
    destruct (Hold _ _ H1 Q1) as (? & ? & ?), (Hold _ _ H2 Q2) as (? & ? & ?).
    by eapply (i_once _ _ HI).
Qed.

Lemma runs_same fs w p c c' : Inv fs w -> runs w p c -> runs w p c' -> c = c'.
Proof.
  intros HI [Hc [k Hk]] [Hc' [k' Hk']]. rewrite (i_once _ _ HI k k' c c' p) in Hk by done. congruence.
Qed.

Lemma target_made fs w p c : Inv fs w -> runs w p c ->
  exists ch f, made (wl w) !! p = Some ch /\ fs !! p = Some f /\ chan_ok w p ch f.
Proof.
  intros HI Hr. pose proof (i_bound _ _ HI p c Hr) as Hp.
  destruct (lookup_lt_is_Some_2 fs p Hp) as [f Hf].
  destruct (lookup_lt_is_Some_2 (made (wl w)) p) as [ch Hch]; [by rewrite (i_len _ _ HI)|].
  exists ch, f. split; [done|]. split; [done|]. by apply (i_chan _ _ HI).
Qed.

Lemma Resume_inv fs w k t : Inv fs w -> triggers w !! k = Some t -> t <> Finished -> exists w',
  exec (Resume k) w = Next w' /\ Inv fs w'.
Proof.
  intros HI Hk Ht. cbn. rewrite Hk. destruct t as [p x|p|]; [| |done].
  - assert (runs w p (Sending p x)) as Hr by (split; [done|eauto]).
    destruct (target_made fs w p _ HI Hr) as (ch & f & Hch & Hf & Hok). rewrite Hch.
    destruct f as [i|y]; [by destruct (proj2 (proj2 Hok) (Sending p x))|].
    destruct Hok as [(Hr' & -> & Hg)|[Hcl _]].
    + injection (runs_same _ _ _ _ _ HI Hr Hr') as <-. cbn. eexists. split; [reflexivity|].
      destruct (runs_insert fs w (mkWaitList (<[p := mkChannel [x] false]> (made (wl w))) (e (wl w))) (got w) k _ (Closing p) p HI Hk
        eq_refl (or_introl eq_refl)) as (R1 & R2 & R3).
      eapply (Inv_at fs w _ p); try done; [by eapply lookup_lt_Some|]. right. split; [by apply R2|]. by left.
    + destruct (closed ch); [by destruct (Hcl (Sending p x))|].
      by pose proof (runs_same _ _ _ _ _ HI Hr Hcl).
  - assert (runs w p (Closing p)) as Hr by (split; [done|eauto]).
    destruct (target_made fs w p _ HI Hr) as (ch & f & Hch & Hf & Hok). rewrite Hch.
    destruct f as [i|y]; [by destruct (proj2 (proj2 Hok) (Closing p))|].
    destruct Hok as [(Hr' & _)|[Hcl Hb]]; [by pose proof (runs_same _ _ _ _ _ HI Hr Hr')|].
    destruct ch as [b [|]]; [by destruct (Hcl (Closing p))|]. eexists. split; [reflexivity|].
    destruct (runs_insert fs w (mkWaitList (<[p := mkChannel b true]> (made (wl w))) (e (wl w))) (got w) k _ Finished p HI Hk
      eq_refl (or_intror eq_refl)) as (R1 & R2 & R3).
    eapply (Inv_at fs w _ p); try done; [by eapply lookup_lt_Some|]. right. cbn. split.
    + intros t' Ht'. by apply R2 in Ht' as [_ ?].
    + destruct Hb as [Hb|(Hb & n & Hg & Hn)]; [by left|]. right. split; [done|]. exists n. done.
Qed.

Lemma received_other p q v l (w : world) : q <> p ->
  received q (mkWorld l (triggers w) (got w ++ [(p, v)])) = received q w.
Proof. intros Hq. rewrite (received_app q p v _ _ _ w) by done. rewrite decide_False by done. apply app_nil_r. Qed.

Lemma received_here p v l (w : world) :
  received p (mkWorld l (triggers w) (got w ++ [(p, v)])) = received p w ++ [v].
Proof. rewrite (received_app p p v _ _ _ w) by done. by rewrite decide_True. Qed.

Lemma Receive_inv fs w w' p : Inv fs w -> exec (Receive p) w = Next w' -> Inv fs w'.
Proof.
  intros HI. cbn. destruct (made (wl w) !! p) as [[b c]|] eqn:Hch; [|done].
  destruct (future_at _ _ _ _ HI Hch) as [f Hf]. pose proof (i_chan _ _ HI _ _ _ Hch Hf) as Hok.
  pose proof (lookup_lt_Some _ _ _ Hch) as Hlt.
  destruct b as [|x b].
  - destruct c; [|done]. intros [= <-].
    eapply (Inv_at fs w _ p (mkChannel [] true) f); try done; cbn; [by rewrite list_insert_id|..].
    + intros q Hq. exact (received_other p q None (wl w) w Hq).
    + apply (i_once _ _ HI).
    + destruct f as [i|y]; [by destruct Hok as [? _]|]. destruct Hok as [(_ & ? & _)|[Hn [[? _]|(_ & n & Hg & _)]]]; try done.
      right. split; [done|]. right. split; [done|]. exists (S n). split; [|done].
      rewrite received_here, Hg. cbn. f_equal. by rewrite <- replicate_cons_app.
  - intros [= <-].
    eapply (Inv_at fs w _ p (mkChannel b c) f); try done; cbn.
    + intros q Hq. exact (received_other p q (Some x) (mkWaitList (<[p := mkChannel b c]> (made (wl w))) (e (wl w))) w Hq).
    + apply (i_once _ _ HI).
    + destruct f as [i|y]; [by destruct Hok as [? _]|]. destruct Hok as [(_ & ? & _)|[Hn [[Hb Hg]|(? & _)]]]; try done.
      cbn in Hb. injection Hb as -> ->. right. split; [done|]. right. split; [done|]. exists 0%nat. split; [|done].
      etransitivity; [exact (received_here p (Some y) (mkWaitList (<[p := mkChannel [] c]> (made (wl w))) (e (wl w))) w)|].
      by rewrite Hg.
Qed.

Lemma Receive_not_Fatal (w : world) p : exec (Receive p) w <> Fatal.
Proof. cbn. destruct (made (wl w) !! p) as [[[|] []]|]; done. Qed.

Lemma Resume_cases fs w k : Inv fs w -> exec (Resume k) w = Blocked \/ exists w', exec (Resume k) w = Next w' /\ Inv fs w'.
Proof.
  intros HI. destruct (triggers w !! k) as [t|] eqn:Hk; [|left; cbn; by rewrite Hk].
  destruct t; try (right; by eapply Resume_inv). left. cbn. by rewrite Hk.
Qed.

Lemma run_inv evs fs w : Inv fs w -> no_dup_id fs evs ->
  match run evs w with Next w' => Inv (foldl spec_step fs evs) w' | Blocked => True | Fatal => False end.
Proof.
  revert fs w. induction evs as [|ev evs IH]; intros fs w HI Hnd; [done|].
  destruct Hnd as [Hev Hnd]. cbn [run foldl].
  destruct ev as [id|id x|k|p].
  - destruct (Register_inv fs w id HI Hev) as (w' & -> & HI'). by apply IH.
  - destruct (Trigger_inv fs w id x HI) as (w' & -> & HI'). by apply IH.
  - destruct (Resume_cases fs w k HI) as [->|(w' & -> & HI')]; [done|]. by apply IH.
  - destruct (exec (Receive p) w) as [|w'|] eqn:Ex; [done| |by destruct (Receive_not_Fatal w p)].
    apply IH; [|done]. by eapply Receive_inv.
Qed.
End Wait.

(** C22: answers reach those who wait for them. In whatever order calls of
    Register and Trigger, the sends and closes of Triggers behind their lock,
    and receives come, as long as no id is registered while it is waited
    for: nothing panics; a call of Trigger is never stuck before its send or
    its close, so that no goroutine is left behind; from the channel of a
    registration that was not triggered nothing is received; and from the
    channel of one that was, the value of the first Trigger of its id, once
    (then, if at all, the nil of a closed channel), and it is there to be
    received as soon as that call is through. *)
Theorem triggers_answer_once {V} (evs : list (@event V)) : no_dup_id [] evs ->
  match run evs init with
  | Fatal => False
  | Blocked => True
  | Next w =>
      length (made (wl w)) = length (spec evs) /\
      (forall k t, triggers w !! k = Some t -> t <> Finished -> exists w', exec (Resume k) w = Next w') /\
      (forall id, IsRegistered id (wl w) = true <-> Exists (awaits id) (spec evs)) /\
      forall p f, spec evs !! p = Some f ->
        match f with
        | Awaits _ => received p w = [] /\ exec (Receive p) w = Blocked
        | Answered x =>
            (received p w = [] \/ exists n, received p w = Some x :: replicate n None) /\
            ((forall t, ~ runs w p t) -> exists w', exec (Receive p) w = Next w')
        end
  end.
Proof.
  intros Hnd. pose proof (run_inv evs [] init Inv_init Hnd) as H. change (foldl spec_step [] evs) with (spec evs) in H.
  destruct (run evs init) as [|w|]; [done| |done].
  split; [apply (i_len _ _ H)|]. split; [|split].
  - intros k t Hk Ht. destruct (Resume_inv _ _ _ _ H Hk Ht) as (w' & Hw & _). by exists w'.
  - intros id. unfold IsRegistered. rewrite bool_decide_eq_true, Exists_exists. split.
    + intros [p Hp]. apply (i_reg _ _ H) in Hp. exists (Awaits id). split; [by eapply list_elem_of_lookup_2|done].
    + intros ([i|x] & Hf & Ha); [cbn in Ha; subst i|done]. apply list_elem_of_lookup_1 in Hf as [p Hf].
      exists p. by apply (i_reg _ _ H).
  - intros p f Hf. destruct (lookup_lt_is_Some_2 (made (wl w)) p) as [ch Hch].
    { rewrite (i_len _ _ H). by eapply lookup_lt_Some. }
    pose proof (i_chan _ _ H _ _ _ Hch Hf) as Hok. cbn. rewrite Hch. destruct f as [i|x].
    + destruct Hok as (-> & Hr & _). done.
    + destruct Hok as [(Hr & -> & Hg)|[Hn Hb]].
      * split; [by left|]. intros Hno. by destruct (Hno _ Hr).
      * destruct ch as [b c]. cbn in Hn, Hb. destruct Hb as [[-> Hg]|(-> & n & Hg & _)].
        -- split; [by left|]. eauto.
        -- split; [right; eauto|]. intros Hno. destruct c; [eauto|by destruct (Hno _ Hn)].
Qed.

(** Two waiters, answered in turn, one of them twice. *)
Definition two_answers : list (@event Z) :=
  [CallRegister 7; CallRegister 71; CallTrigger 71 1; CallTrigger 7 2; CallTrigger 7 3; Resume 1; Resume 0; Receive 0; Resume 1].

Lemma triggers_answer_once_witness : no_dup_id [] two_answers /\
  exists w, run two_answers init = Next w /\ received 0 w = [Some 2] /\ received 1 w = [] /\
    exists w', exec (Resume 0) w = Next w'.
Proof.
  assert (no_dup_id [] two_answers) as Hnd.
  { cbn. repeat split; repeat constructor; try (unfold answer; cbn; lia). }
  split; [exact Hnd|]. pose proof (triggers_answer_once two_answers Hnd) as H.
  destruct (run two_answers init) as [|w|] eqn:E; [vm_compute in E; discriminate| |destruct H].
  destruct H as (_ & Hprog & _ & _). exists w. split; [reflexivity|].
  vm_compute in E. injection E as <-. split; [reflexivity|]. split; [reflexivity|].
  apply (Hprog 0%nat (Closing 1)); [reflexivity|discriminate].
Defined.

Lemma duplicate_panics : run [CallRegister 7; CallRegister 7 : @event Z] init = Fatal.
Proof. vm_compute. reflexivity. Qed.
