(* ===== verification/Proxy.v ===== *)
(** The commands between a node and the proxy of a cluster
    (pkg/lmproxyproto). The Encoder of that package has the same writes as
    the one of pkg/lmproto (Wire.v). *)
From stdpp Require Import base list strings.
From Stdlib Require Import ZArith Lia Strings.Byte.
From S2P Require Import Prelude Wire.

(** [CMDType]. *)
Definition CMDTypeNone : Z := 0.
Definition CMDTypeConnect : Z := 1.
Definition CMDTypeConnectResp : Z := 2.
Definition CMDTypeClusterConfigReq : Z := 3.
Definition CMDTypeClusterConfigResp : Z := 4.
Definition CMDTypeClusterConfigUpdate : Z := 5.
Definition CMDTypeUploadClusterConfig : Z := 6.
Definition CMDTypeClusterConfigUpload : Z := 7.
Definition CMDTypeRegisterNode : Z := 8.
Definition CMDTypeRegisterNodeResp : Z := 9.
Definition CMDTypePing : Z := 10.
Definition CMDTypePong : Z := 11.
Definition CMDTypeStatusResp : Z := 12.
Definition CMDTypeExporting : Z := 13.
Definition CMDTypeExported : Z := 14.
Definition CMDTypeExportedAll : Z := 15.
Definition CMDTypeImportFrom : Z := 16.
Definition CMDTypeImported : Z := 17.
Definition CMDTypeClusterConfigListReq : Z := 18.
Definition CMDTypeClusterConfigListResp : Z := 19.
Definition CMDTypeClusterConfigListChange : Z := 20.

Definition CMDType_names : list (Z * string) :=
  [(CMDTypeConnect, "CMDTypeConnect"); (CMDTypeConnectResp, "CMDTypeConnectResp");
   (CMDTypeClusterConfigReq, "CMDTypeClusterConfigReq"); (CMDTypeClusterConfigResp, "CMDTypeClusterConfigResp");
   (CMDTypeClusterConfigUpdate, "CMDTypeClusterConfigUpdate");
   (CMDTypeUploadClusterConfig, "CMDTypeUploadClusterConfig");
   (CMDTypeClusterConfigUpload, "CMDTypeClusterConfigUpload"); (CMDTypeRegisterNode, "CMDTypeRegisterNode");
   (CMDTypeRegisterNodeResp, "CMDTypeRegisterNodeResp"); (CMDTypePing, "CMDTypePing"); (CMDTypePong, "CMDTypePong");
   (CMDTypeStatusResp, "CMDTypeStatusResp"); (CMDTypeExporting, "CMDTypeExporting");
   (CMDTypeExported, "CMDTypeExported"); (CMDTypeExportedAll, "CMDTypeExportedAll");
   (CMDTypeImportFrom, "CMDTypeImportFrom"); (CMDTypeImported, "CMDTypeImported");
   (CMDTypeClusterConfigListReq, "CMDTypeClusterConfigListReq");
   (CMDTypeClusterConfigListResp, "CMDTypeClusterConfigListResp");
   (CMDTypeClusterConfigListChange, "CMDTypeClusterConfigListChange")]%string.
(** [CMDType.String]: the first case that is [c]. *)
Fixpoint name_of (c : Z) (l : list (Z * string)) : string :=
  match l with
  | [] => EmptyString
  | (c', s) :: l' => if c =? c' then s else name_of c l'
  end.
Definition CMDType_String (c : Z) : string := name_of c CMDType_names.

Record CMD := mkCMD { Cmd : Z; ID : Z; Param : list byte }.

Definition Encode (c : CMD) : list byte :=
  Bytes ((NewEncoder |> WriteUint8 (Cmd c) |> WriteUint64 (ID c) |> WriteInt32 (i32 (zlen (Param c)))
    |> WriteBytes (Param c))%wire).

Definition Int32 (b : list byte) : Z :=
  Z.lor (Z.lor (Z.lor (i32 (Z.shiftl (byte_at b 0) 24)) (i32 (Z.shiftl (byte_at b 1) 16)))
               (i32 (Z.shiftl (byte_at b 2) 8))) (byte_at b 3).
Definition Uint64 (b : list byte) : Z :=
  Z.lor (Z.lor (Z.lor (Z.lor (Z.lor (Z.lor (Z.lor
    (u64 (Z.shiftl (byte_at b 0) 56)) (u64 (Z.shiftl (byte_at b 1) 48)))
    (u64 (Z.shiftl (byte_at b 2) 40))) (u64 (Z.shiftl (byte_at b 3) 32)))
    (u64 (Z.shiftl (byte_at b 4) 24))) (u64 (Z.shiftl (byte_at b 5) 16)))
    (u64 (Z.shiftl (byte_at b 6) 8))) (byte_at b 7).

(** [data[lo:hi]], of a slice as long as its array. *)
Definition slice (lo hi : Z) (data : list byte) : outcome (list byte) :=
  if (lo <? 0) || (hi <? lo) || (zlen data <? hi) then Panic
  else Ret (take (Z.to_nat (hi - lo)) (drop (Z.to_nat lo) data)).

Definition Decode (data : list byte) : outcome CMD :=
  cmd ← (match data with b :: _ => Ret (Z_of_byte b) | [] => Panic end);
  id ← slice 1 9 data;
  len ← slice 9 13 data;
  let paramLen := Int32 len in
  param ← slice 13 (i32 (paramLen + 13)) data;
  Ret (mkCMD cmd (Uint64 id) param).

(** [DecodeWithReader], of a [bytes.Reader]: neither read is checked for its
    length. *)
Definition DecodeWithReader : decoder CMD :=
  cmdBytes ← DecBytes 13;
  let len := Int32 (drop 9 cmdBytes) in
  data ← DecBytes len;
  mret (mkCMD (byte_at cmdBytes 0) (Uint64 (take 8 (drop 1 cmdBytes))) data).

(** * What is read back *)

Definition wf_CMD (c : CMD) : Prop := inU 8 (Cmd c) /\ inU 64 (ID c) /\ zlen (Param c) < 2 ^ 31 - 13.

Lemma Encode_image c : Encode c = be 1 (Cmd c) ++ be 8 (ID c) ++ be 4 (i32 (zlen (Param c))) ++ Param c.
Proof. unfold Encode. autorewrite with wire. cbn [app]. by rewrite <- !app_assoc. Qed.

Lemma be_1 z : be 1 z = [byte_of_Z z].
Proof. cbn. by rewrite Z.shiftr_0_r. Qed.

Lemma Int32_val z : Int32 (be 4 z) = i32 z.
Proof.
  pose proof (Int32_be z []) as H. unfold Wire.Int32, mbind, decoder_mbind in H.
  rewrite ReadExpect_app in H by (by rewrite ?length_be). by injection H.
Qed.

Lemma Uint64_val z : Uint64 (be 8 z) = u64 z.
Proof.
  pose proof (Uint64_be z []) as H. unfold Wire.Uint64, mbind, decoder_mbind in H.
  rewrite ReadExpect_app in H by (by rewrite ?length_be). by injection H.
Qed.

Lemma ret_bind {A B} (a : A) (f : A -> outcome B) : (Ret a ≫= f) = f a.
Proof. reflexivity. Qed.

Lemma slice_mid_Ret lo hi l1 l2 l3 : lo = zlen l1 -> hi = zlen l1 + zlen l2 ->
  slice lo hi (l1 ++ l2 ++ l3) = Ret l2.
Proof.
  intros -> ->. pose proof (zlen_nonneg l1). pose proof (zlen_nonneg l2). pose proof (zlen_nonneg l3).
  unfold slice. rewrite !zlen_app.
  rewrite (proj2 (Z.ltb_ge _ _)), (proj2 (Z.ltb_ge _ _)), (proj2 (Z.ltb_ge _ _)) by lia. cbn [orb].
  rewrite Z.add_simpl_l, !to_nat_zlen, drop_app_length, take_app_length. done.
Qed.

Lemma DecBytes_app b r : b ++ r <> [] -> DecBytes (zlen b) (b ++ r) = Ret (b, r).
Proof.
  intros Hne. unfold DecBytes, mbind, decoder_mbind, liftD, make_bytes. pose proof (zlen_nonneg b).
  rewrite (proj2 (Z.ltb_ge _ _)) by lia. cbn [mbind outcome_bind]. rewrite length_replicate, to_nat_zlen.
  unfold Read. destruct (b ++ r) as [|x l] eqn:E; [done|]. rewrite <- E, take_app_length, drop_app_length.
  unfold mret, decoder_mret, copy_into. rewrite length_replicate, take_ge by lia.
  rewrite drop_ge by (rewrite length_replicate; lia). by rewrite app_nil_r.
Qed.

(** A command of the proxy protocol is read back as it was encoded,
    whatever follows it: from the bytes when its parameter is shorter than
    2^31 - 13 bytes, and from a reader, which is left behind the command,
    unless the parameter is empty and nothing follows. *)
Theorem command_read_back c rest : wf_CMD c ->
  Decode (Encode c ++ rest) = Ret c /\
  (Param c <> [] \/ rest <> [] -> DecodeWithReader (Encode c ++ rest) = Ret (c, rest)).
Proof.
  destruct c as [cmd id param]. intros (Hc & Hi & Hp). cbn [Cmd ID Param] in *.
  pose proof (zlen_nonneg param).
  assert (i32 (zlen param) = zlen param) as Hl by (apply wrapS_id; [lia|unfold inS; lia]).
  rewrite Encode_image. cbn [Cmd ID Param]. rewrite Hl, <- !app_assoc. split.
  - unfold Decode. rewrite be_1. cbn [app]. rewrite Z_of_byte_of_Z. cbn [mbind outcome_bind].
    change (byte_of_Z cmd :: ?l) with ([byte_of_Z cmd] ++ l).
    rewrite (slice_mid_Ret 1 9 [_] (be 8 id)) by (by rewrite ?zlen_be). rewrite ret_bind.
    rewrite (app_assoc [_] (be 8 id)), (slice_mid_Ret 9 13 _ (be 4 (zlen param))) by (rewrite ?zlen_app, ?zlen_be; done).
    rewrite ret_bind, Int32_val, Hl.
    rewrite (app_assoc _ (be 4 (zlen param))), (slice_mid_Ret 13 _ _ param).
    + rewrite ret_bind, Uint64_val, wrapU_id by done. by rewrite Z.mod_small.
    + by rewrite !zlen_app, !zlen_be.
    + rewrite !zlen_app, !zlen_be. rewrite wrapS_id; [rewrite zlen_cons, zlen_nil; lia|lia|unfold inS; lia].
  - intros Hne. unfold DecodeWithReader, mbind, decoder_mbind.
    rewrite (app_assoc (be 8 id)), (app_assoc (be 1 cmd)).
    change 13 with (zlen (be 1 cmd ++ be 8 id ++ be 4 (zlen param))) at 1.
    rewrite DecBytes_app by done.
    rewrite (app_assoc (be 1 cmd)), drop_app_length' by done. rewrite Int32_val, Hl.
    rewrite DecBytes_app by (destruct Hne, param, rest; done).
    unfold mret, decoder_mret. do 3 f_equal.
    + cbn. rewrite Z.shiftr_0_r, Z_of_byte_of_Z. by apply Z.mod_small.
    + rewrite <- app_assoc. rewrite drop_app_length', take_app_length' by done. rewrite Uint64_val. by apply wrapU_id.
Qed.

Definition ping_cmd : CMD := mkCMD CMDTypePing 513 [x61; x62]%byte.

Lemma command_read_back_witness : wf_CMD ping_cmd /\ Decode (Encode ping_cmd ++ [x00]%byte) = Ret ping_cmd /\
  DecodeWithReader (Encode ping_cmd ++ [x00]%byte) = Ret (ping_cmd, [x00]%byte).
Proof.
  assert (wf_CMD ping_cmd) as H by (unfold wf_CMD, inU, zlen; repeat split; vm_compute; congruence).
  destruct (command_read_back ping_cmd [x00]%byte H) as [H1 H2]. split; [exact H|]. split; [exact H1|].
  apply H2. left. discriminate.
Defined.

(** What cannot be a command panics instead of being refused: bytes that
    end early, and a negative length. *)
Lemma Decode_short data : zlen data < 13 -> Decode data = Panic.
Proof.
  intros H. unfold Decode. destruct data as [|b data]; [done|]. cbn [mbind outcome_bind].
  destruct (slice 1 9 _) eqn:E; [|by unfold slice in E; destruct (_ || _)|done].
  cbn [mbind outcome_bind]. unfold slice.
  by rewrite (proj2 (Z.ltb_lt _ 13) H), !orb_true_r.
Qed.

Lemma Decode_truncated c n : wf_CMD c -> (n < length (Encode c))%nat -> Decode (take n (Encode c)) = Panic.
Proof.
  destruct c as [cmd id param]. intros (Hc & Hi & Hp) Hn. cbn [Cmd ID Param] in *.
  destruct (decide (n < 13)%nat) as [H13|H13]; [apply Decode_short; unfold zlen; rewrite length_take; lia|].
  pose proof (zlen_nonneg param).
  assert (i32 (zlen param) = zlen param) as Hl by (apply wrapS_id; [lia|unfold inS; lia]).
  revert Hn. rewrite Encode_image. cbn [Cmd ID Param]. rewrite !length_app, !length_be, Hl. intros Hn.
  rewrite (app_assoc (be 8 id)), (app_assoc (be 1 cmd)), take_app_ge by (cbn; lia).
  set (p := take _ param). assert (zlen p < zlen param) as Hlt.
  { unfold p, zlen. rewrite length_take, !length_app, !length_be. lia. }
  unfold Decode. rewrite <- !app_assoc, be_1. cbn [app mbind outcome_bind].
  change (byte_of_Z cmd :: ?l) with ([byte_of_Z cmd] ++ l).
  rewrite (slice_mid_Ret 1 9 [_] (be 8 id)) by (by rewrite ?zlen_be). rewrite ret_bind.
  rewrite (app_assoc [_] (be 8 id)), (slice_mid_Ret 9 13 _ (be 4 (zlen param))) by (rewrite ?zlen_app, ?zlen_be; done).
  rewrite ret_bind, Int32_val, Hl. unfold slice.
  rewrite wrapS_id; [|lia|unfold inS; lia]. rewrite !zlen_app, !zlen_be.
  rewrite (proj2 (Z.ltb_lt (_ + _) (zlen param + 13))) by (rewrite zlen_cons, zlen_nil; lia). by rewrite orb_true_r.
Qed.

Lemma negative_length_panics : DecodeWithReader (be 1 1 ++ be 8 1 ++ be 4 (-1)) = Panic.
Proof. reflexivity. Qed.

Lemma empty_param_at_end : DecodeWithReader (Encode (mkCMD CMDTypePing 1 [])) = Err EOF.
Proof. reflexivity. Qed.
