(* ===== verification/Backup.v ===== *)
(** Backups and snapshots of the data base (internal/db/db_file_public.go,
    internal/db/db_file.go, internal/db/scanner.go): what is written of the
    entries and of the log files, and what is made of it when it is read
    back. *)
From Stdlib Require Import ZArith Lia Strings.Byte Strings.Ascii Strings.String.
From stdpp Require Import base list gmap strings pretty sorting.
From S2P Require Import Prelude Effects Keys Strconv Wire Bitmap Index Segment Model PQueue Ids Storage Topic Messages MessageLog FileDB.
Import Segment Topic.

(** * internal/db/common.go *)
Definition SnapshotMagicNumber : list byte := [x0b; x0a].
Definition EndSnapshotMagicNumber : list byte := [x0f].
Definition BackupSlotMagicNumber : list byte := [x0c; x0d].
Definition BackupMagicNumber : list byte := bytes_of_string "---backup start ---".
Definition ErrorSegmentReadEnd : error := ErrMsg "Segment file reading end".
Definition ErrMagic : error := ErrMsg "Wrong magic number！".
Definition ErrEndMagic : error := ErrMsg "Wrong end magic number！".
Definition ErrNoDir : error := ErrMsg "no such file or directory".
Definition ErrSyntax : error := ErrMsg "invalid syntax".

(** * The log files of a slot *)

(** [fmt.Sprintf("%020d", n)]. *)
Definition zeros (n : nat) : string := string_of_list_ascii (replicate n "0"%char).
Definition Sprintf_020d (n : Z) : string :=
  if n <? 0 then "-" +:+ zeros (19 - String.length (pretty (- n))) +:+ pretty (- n)
  else zeros (20 - String.length (pretty n)) +:+ pretty n.
(** [fmt.Sprintf(fileFormat, baseOffset, suffix)]. *)
Definition file_name (baseOffset : Z) (suffix : string) : string := Sprintf_020d baseOffset +:+ suffix.

(** The order of [sort.StringSlice]. *)
Definition string_le (a b : string) : Prop := bytes_le (bytes_of_string a) (bytes_of_string b) = true.
#[export] Instance string_le_dec a b : Decision (string_le a b).
Proof. unfold string_le. apply _. Defined.

Record segmentInfo := mkSegmentInfo { si_slot : Z; si_topic : string; baseOffsets : list Z }.

Section Listing.
Context {CP CS : Type}.
(** The order in which [Readdir] gives the names of a directory. *)
Context (readdir : list string -> list string).
Implicit Type st : state CP CS.

(** The topics of a slot that have a directory ([getSubdir] of the directory
    [topics] of the slot): open ones and closed ones. *)
Definition topic_dirs (slot : Z) st : list string :=
  readdir ((fun kd => kd.1.2) <$> filter (fun kd : place * disk => kd.1.1 = slot /\ names kd.2 <> []) (map_to_list (left_on_disk st))).
Definition topic_disk (k : place) st : disk := default empty_disk (left_on_disk st !! k).

(** [getSubfiles] of the directory [logs] of a topic. *)
Definition log_dir (d : disk) : list string :=
  readdir (b ← (map_to_list (segment_files d)).*1; [file_name b logSuffix; file_name b indexSuffix]).
Definition getSubfiles (d : disk) (suffix : string) : outcome (list string) :=
  if decide ("logs"%string ∈ names d) then Ret (filter (fun n => HasSuffix n suffix = true) (log_dir d)) else Err ErrNoDir.

Fixpoint parse_names (l : list string) : outcome (list Z) :=
  match l with
  | [] => Ret []
  | logFile :: l' =>
      b ← (match ParseInt (TrimSuffix logFile logSuffix) with Some b => Ret b | None => Err ErrSyntax end);
      bs ← parse_names l';
      Ret (b :: bs)
  end.
(** The base offsets of a topic. *)
Definition topic_bases (k : place) st : outcome (list Z) :=
  logFiles ← getSubfiles (topic_disk k st) logSuffix;
  parse_names (merge_sort string_le logFiles).

(** The loop over the topics of a slot, which fills in one [segmentInfo]. *)
Fixpoint info_of_topics (slot : Z) (topicList : list string) st (segmentI : segmentInfo) : outcome segmentInfo :=
  match topicList with
  | [] => Ret segmentI
  | topic :: l =>
      bases ← topic_bases (slot, topic) st;
      info_of_topics slot l st (mkSegmentInfo (si_slot segmentI) topic bases)
  end.
Fixpoint getSegmentInfo (slots : list Z) st : outcome (list segmentInfo) :=
  match slots with
  | [] => Ret []
  | slot :: slots' =>
      segmentI ← info_of_topics slot (topic_dirs slot st) st (mkSegmentInfo slot EmptyString []);
      rest ← getSegmentInfo slots' st;
      Ret (segmentI :: rest)
  end.
(** The slots that have a directory. *)
Definition slot_dirs st : list Z :=
  omap (ParseUintW 64) (readdir (pretty <$> remove_dups
    (((fun kd => kd.1.1) <$> filter (fun kd : place * disk => names kd.2 <> []) (map_to_list (left_on_disk st)))
     ++ (map_to_list (slots st)).*1))).
Definition getAllSegmentInfo st : outcome (list segmentInfo) := getSegmentInfo (slot_dirs st) st.
End Listing.

(** * Reading log files one after the other: [Scanner] *)

(** The path of a log file: its topic and its base offset. The scanner keeps
    the file of the path open. *)
Abbreviation path := (place * Z)%type.
Record Scanner := mkScanner { segmentPath : option path; s_position : Z }.
Definition NewScanner : Scanner := mkScanner None 0.

(** [readFullWrapLog], over the file that is open, as a function of the
    position; [ReadAt] gives less than was asked for only with an error. *)
Definition read_part (f : list byte) (n : nat) : io Z (list byte) :=
  pos ← gets id;
  b ← lift (ReadAtFile f n pos);
  modify (fun pos => pos + zlen b) ;;
  mret b.
Definition readFullWrapLog (f : list byte) : io Z (list byte * Z) :=
  pos ← gets id;
  startBytes ← lift (match ReadAtFile f 2 pos with Err EOF => Err ErrorSegmentReadEnd | r => r end);
  modify (fun pos => pos + zlen startBytes) ;;
  if negb (bool_decide (startBytes = MagicNumber)) then raise ErrMagic
  else
    versionBytes ← read_part f 1;
    dataLenBytes ← read_part f 4;
    offsetBytes ← read_part f 8;
    appliIndexBytes ← read_part f 8;
    data ← read_part f (Z.to_nat (be_val 0 dataLenBytes));
    endBytes ← read_part f 1;
    if negb (bool_decide (endBytes = EndMagicNumber)) then raise ErrEndMagic
    else mret (startBytes ++ versionBytes ++ dataLenBytes ++ offsetBytes ++ appliIndexBytes ++ data ++ endBytes,
               be_val 0 appliIndexBytes).

(** The scanner, and the writer the callback writes to. *)
Record sink := mkSink { scanner : Scanner; written : list byte }.
Definition write_out (b : list byte) : io sink unit := modify (fun k => mkSink (scanner k) (written k ++ b)).
Definition endScanner : io sink unit := modify (fun k => mkSink (mkScanner None (s_position (scanner k))) (written k)).

Section Scan.
(** What the files hold: [None] when there is no such file. *)
Context (file_at : path -> option (list byte)).

(** [Scan], with a callback that writes the record. *)
Definition Scan (p : path) (endAppliIndex : Z) : io sink bool :=
  k ← gets scanner;
  f ← (match file_at p with
       | Some f => mret f
       | None => raise ErrNoDir
       end);
  modify (fun s => if decide (segmentPath k = Some p) then s else mkSink (mkScanner (Some p) 0) (written s)) ;;
  pos ← gets (fun s => s_position (scanner s));
  let '(r, pos') := readFullWrapLog f pos in
  modify (fun s => mkSink (mkScanner (Some p) pos') (written s)) ;;
  match r with
  | Ret (data, appliIndex) =>
      if negb (endAppliIndex =? 0) && (appliIndex >? endAppliIndex) then endScanner ;; mret false
      else write_out data ;; mret true
  | Err (ErrMsg "Segment file reading end") => endScanner ;; mret false
  | Err e => endScanner ;; raise e
  | Panic => lift Panic
  end.

(** [for { has, err := Scan(...) ... }]; every record takes bytes of the
    file. *)
Fixpoint scan_all (fuel : nat) (p : path) (endAppliIndex : Z) : io sink unit :=
  match fuel with
  | O => mret tt
  | S fuel' => has ← Scan p endAppliIndex; if has : bool then scan_all fuel' p endAppliIndex else mret tt
  end.
Definition scan_file (endAppliIndex : Z) (p : path) : io sink unit :=
  scan_all (S (length (default [] (file_at p)))) p endAppliIndex.
(** The loops over the segment infos and the base offsets. *)
Definition scan_info (endAppliIndex : Z) (i : segmentInfo) : io sink unit :=
  for_each (fun b => scan_file endAppliIndex ((si_slot i, si_topic i), b)) (baseOffsets i).
End Scan.

(** * Writing *)
Section Writing.
Context {CP CS B : Type} `{Bolt B}.
Context (readdir : list string -> list string).

(** What the log files of the data base hold. *)
Definition file_of (st : state CP CS) (p : path) : option (list byte) :=
  logFile <$> (segment_files (topic_disk p.1 st) !! p.2).

(** One slot of [backupBaseData]. *)
Definition backupSlot (slot : Z) (s : B) : outcome (list byte) :=
  if bHas (slotBucket slot) s then
    let entries := bEntries (slotBucket slot) s in
    let e := (NewEncoder |> WriteBytes BackupSlotMagicNumber |> WriteUint32 slot |> WriteInt32 (i32 (zlen entries)))%wire in
    Ret (Bytes (foldl (fun e kv => (e |> WriteBinary (bytes_of_string kv.1) |> WriteBinary kv.2)%wire) e entries))
  else Panic.
Definition backupBaseData (slots : list Z) (s : B) : io sink unit :=
  for_each (fun slot => b ← lift (backupSlot slot s); write_out b) slots.

Definition backupMessages (slots : list Z) (st : state CP CS) : io sink unit :=
  infos ← lift (getSegmentInfo readdir slots st);
  for_each (scan_info (file_of st) 0) infos.

Definition WriteBinary_to (b : list byte) : io sink unit :=
  if decide (length b = 0%nat) then write_out (be 2 0) else write_out (be 2 (zlen b)) ;; write_out b.
Definition BackupSlots (slots : list byte) (s : B) (st : state CP CS) : io sink unit :=
  let vauldSlots := GetVaildSlots (NewSlotBitMapWithBits slots) in
  if decide (length vauldSlots = 0%nat) then mret tt
  else
    write_out BackupMagicNumber ;;
    WriteBinary_to slots ;;
    backupBaseData vauldSlots s ;;
    backupMessages vauldSlots st.

(** [topicLenBytes] is filled in, but not written. *)
Definition writeSnapshotHeader (slot : Z) (topic : string) (baseOffset : Z) : io sink unit :=
  write_out (be 4 slot) ;;
  write_out (bytes_of_string topic) ;;
  write_out (be 8 baseOffset).
Definition PrepareSnapshot : io B Z := GetMetaData.
Definition SaveSnapshot (appliIndex : Z) (st : state CP CS) : io sink unit :=
  write_out SnapshotMagicNumber ;;
  writeSnapshotHeader 1 "test" 1 ;;
  infos ← lift (getAllSegmentInfo readdir st);
  if decide (length infos = 0%nat) then mret tt
  else
    for_each (scan_info (file_of st) appliIndex) infos ;;
    write_out EndSnapshotMagicNumber.
End Writing.

(** * Reading

    The reader is a file: the bytes that are left. *)
Definition reader : Type := list byte.

(** [reader.Read(b)] with [b] of [n] bytes: how many it read, and [b]. *)
Definition rd_Read (n : nat) : io reader (Z * list byte) := fun r =>
  match r with
  | [] => if decide (n = 0%nat) then (Ret (0, []), r) else (Err EOF, r)
  | _ => (Ret (zlen (take n r), copy_into (replicate n x00) (take n r)), drop n r)
  end.
(** [io.ReadFull], in [binary.Read]. *)
Definition rd_ReadFull (n : nat) : io reader (list byte) := fun r =>
  match r with
  | [] => (Err EOF, r)
  | _ => if (length r <? n)%nat then (Err ErrUnexpectedEOF, []) else (Ret (take n r), drop n r)
  end.
Definition rd_expect (n : nat) : io reader (list byte) :=
  '(k, b) ← rd_Read n;
  if k =? Z.of_nat n then mret b else raise (ErrExpect k (Z.of_nat n)).

(** The functions of pkg/lmproto/decoder.go on readers. *)
Definition rd_Int16 : io reader Z :=
  b ← rd_expect 2;
  mret (Z.lor (i16 (Z.shiftl (byte_at b 0) 8)) (byte_at b 1)).
Definition rd_Binary : io reader (list byte) :=
  size ← rd_Int16;
  buf ← lift (Wire.make_bytes size);
  if size =? 0 then mret buf else rd_expect (length buf).
Definition rd_Int32 : io reader Z :=
  b ← rd_expect 4;
  mret (Z.lor (Z.lor (Z.lor (i32 (Z.shiftl (byte_at b 0) 24)) (i32 (Z.shiftl (byte_at b 1) 16)))
                     (i32 (Z.shiftl (byte_at b 2) 8))) (byte_at b 3)).
Definition rd_Uint32 : io reader Z := i ← rd_Int32; mret (u32 i).

Definition ErrBackupMagic : error := ErrMsg "BackupMagicNumber is error".
Definition ErrBackupSlotMagic : error := ErrMsg "BackupSlotMagicNumber is error".
Definition ErrMessageMagic : error := ErrMsg "消息开始魔法数错误".
Definition ErrMessageEndMagic : error := ErrMsg "消息结尾魔法数错误".

Definition readBaseDataHeader : io reader (Z * Z) :=
  '(_, magicNumber) ← rd_Read 2;
  if negb (bool_decide (magicNumber = BackupSlotMagicNumber)) then raise ErrBackupSlotMagic
  else
    slot ← rd_Uint32;
    keyN ← rd_Int32;
    mret (slot, keyN).

(** [recoverMessage], up to the append: [None] when there is nothing left to
    read ([ErrorReadFinished]); [Some None] where the function returns
    without an error and without a message. *)
Definition readMessage : io reader (option (option Db.Message)) :=
  r ← attempt (rd_Read 2);
  match r with
  | inr EOF => mret None
  | inr _ => mret (Some None)
  | inl (_, magicNumber) =>
      if negb (bool_decide (magicNumber = MagicNumber)) then raise ErrMessageMagic
      else
        v ← attempt (rd_Read 1);
        match v with
        | inr _ => mret (Some None)
        | inl _ =>
            dataLen ← rd_ReadFull 4;
            _ ← rd_ReadFull 8;
            _ ← rd_ReadFull 8;
            '(_, data) ← rd_Read (Z.to_nat (be_val 0 dataLen));
            '(_, endMagicNumber) ← rd_Read 1;
            if negb (bool_decide (endMagicNumber = EndMagicNumber)) then raise ErrMessageEndMagic
            else m ← lift (Db.Decode 0 data); mret (Some (Some m))
        end
  end.

Section Recovering.
Context {CP CS B : Type} `{Cache Z CP} `{Cache string CS} `{Bolt B}.
Context (slotCount segmentMaxBytes : Z) (removed : string -> bool).

(** The reader that is read, and the data base that is filled. *)
Record target := mkTarget { input : reader; r_base : B; r_msgs : state CP CS }.
Definition on_input {A} : io reader A -> io target A :=
  zoom input (fun r t => mkTarget r (r_base t) (r_msgs t)).
Definition on_base {A} : io B A -> io target A :=
  zoom r_base (fun s t => mkTarget (input t) s (r_msgs t)).
Definition on_msgs {A} : io (state CP CS) A -> io target A :=
  zoom r_msgs (fun s t => mkTarget (input t) (r_base t) s).

(** [db.Batch]: when the function fails (a panic in it is caught) its changes
    to the data base are taken back, and it is run once more, by itself, in
    [db.Update]; what it has read from the reader stays read. *)
Definition try_tx {A} (f : io target A) : io target A := fun t =>
  match f t with
  | (Ret a, t') => (Ret a, t')
  | (o, t') => (o, mkTarget (input t') (r_base t) (r_msgs t'))
  end.
Definition Batch {A} (f : io target A) : io target A := fun t =>
  match try_tx f t with
  | (Ret a, t') => (Ret a, t')
  | (_, t') => try_tx f t'
  end.

(** An entry of a slot, put into its bucket. *)
Definition recoverEntry (slot : Z) : io target unit :=
  key ← on_input rd_Binary;
  value ← on_input rd_Binary;
  on_base (bucket (slotBucket slot) (bPut (slotBucket slot) (string_of_bytes key) value)).
Definition recoverSlot : io target unit :=
  '(slot, keyN) ← on_input readBaseDataHeader;
  Batch (for_each (fun _ => recoverEntry slot) (seq 0 (Z.to_nat keyN))).
Definition recoverBaseData (vaildSlots : list Z) : io target unit :=
  for_each (fun _ => recoverSlot) vaildSlots.

(** [checkAndBackupSlotDir] asks for an error that says the directory
    exists, which [os.Stat] does not give: nothing is renamed. *)
Definition checkAndBackupSlotDir (vaildSlots : list Z) : io target unit := mret tt.

(** [recoverMessage]: [false] at the end. *)
Definition recoverMessage : io target bool :=
  r ← on_input readMessage;
  match r with
  | None => mret false
  | Some None => mret true
  | Some (Some message) =>
      (if blank (bytes_of_string (Db.QueueUID message))
       then on_msgs (AppendMessage slotCount segmentMaxBytes removed message)
       else on_msgs (AppendMessageOfUser slotCount segmentMaxBytes removed message)) ;;
      mret true
  end.
(** Every round but the last has read something. *)
Fixpoint recoverMessages_loop (fuel : nat) : io target unit :=
  match fuel with
  | O => mret tt
  | S fuel' => more ← recoverMessage; if more : bool then recoverMessages_loop fuel' else mret tt
  end.
Definition recoverMessages (vaildSlots : list Z) : io target unit :=
  checkAndBackupSlotDir vaildSlots ;;
  n ← gets (fun t => length (input t));
  recoverMessages_loop (S n).

Definition RecoverSlotBackup : io target unit :=
  '(_, magicNumber) ← on_input (rd_Read (length BackupMagicNumber));
  if negb (bool_decide (magicNumber = BackupMagicNumber)) then raise ErrBackupMagic
  else
    slots ← on_input rd_Binary;
    let vaildSlots := GetVaildSlots (NewSlotBitMapWithBits slots) in
    if decide (length vaildSlots = 0%nat) then mret tt
    else recoverBaseData vaildSlots ;; recoverMessages vaildSlots.
End Recovering.
Arguments target : clear implicits.
Arguments mkTarget {CP CS B}.
