(* ===== verification/Recovery.v ===== *)
(** What a backup holds and what its recovery brings back (the functions of
    Backup.v): the scanner copies whole log files, entries are read back as
    they were written, and of the messages of a slot those of one topic. *)
From Stdlib Require Import ZArith Lia Strings.Byte Strings.Ascii Strings.String.
From stdpp Require Import base list gmap strings pretty sorting.
From S2P Require Import Prelude Effects Keys Strconv Wire Bitmap Index Segment Model PQueue Ids Storage Topic Messages MessageLog FileDB Backup.
Import Segment Topic.

(** * The scanner *)

(** The records a scan up to an applied index copies: all of them for 0, else
    those in front of the first one above it. *)
Fixpoint upto (endAppliIndex : Z) (rs : list record) : list record :=
  match rs with
  | [] => []
  | r :: rs' =>
      if negb (endAppliIndex =? 0) && (u64 (r_appliIndex r) >? endAppliIndex) then [] else r :: upto endAppliIndex rs'
  end.

Lemma upto_all rs : upto 0 rs = rs.
Proof. induction rs as [|r rs IH]; [done|]. cbn. by rewrite IH. Qed.

Lemma read_part_at f pre b post : f = pre ++ b ++ post -> read_part f (length b) (zlen pre) = (Ret b, zlen (pre ++ b)).
Proof.
  intros Hf. unfold read_part. io_step (eq_refl : gets id (zlen pre) = (Ret (zlen pre), zlen pre)).
  rewrite (bind_Ret_io _ _ (zlen pre) b (zlen pre)).
  - by rewrite zlen_app.
  - unfold lift. by rewrite (ReadAtFile_at f pre [] b post (length b) (zlen pre)) by (by rewrite ?zlen_nil, ?Z.add_0_r).
Qed.

Lemma readFullWrapLog_record f pre r post : f = pre ++ wrap_record r ++ post -> record_ok r ->
  readFullWrapLog f (zlen pre) = (Ret (wrap_record r, u64 (r_appliIndex r)), zlen (pre ++ wrap_record r)).
Proof.
  intros Hf [_ Hd]. unfold wrap_record, wrapLogData in *. rewrite <- !app_assoc in Hf.
  unfold readFullWrapLog. io_step (eq_refl : gets id (zlen pre) = (Ret (zlen pre), zlen pre)).
  rewrite (bind_Ret_io _ _ (zlen pre) MagicNumber (zlen pre)).
  2:{ unfold lift. rewrite (ReadAtFile_at f pre [] MagicNumber _ 2 (zlen pre) Hf); [done|done|]. by rewrite zlen_nil, Z.add_0_r. }
  rewrite (bind_Ret_io _ _ (zlen pre) tt (zlen (pre ++ MagicNumber))) by (unfold modify; by rewrite zlen_app).
  rewrite bool_decide_eq_true_2 by done. cbn [negb].
  rewrite (app_assoc pre) in Hf. io_step (read_part_at f _ LogVersion _ Hf).
  rewrite app_assoc in Hf. io_step (read_part_at f _ (be 4 (u32 (zlen (r_data r)))) _ Hf).
  rewrite app_assoc in Hf. io_step (read_part_at f _ (be 8 (r_offset r)) _ Hf).
  rewrite app_assoc in Hf. io_step (read_part_at f _ (be 8 (r_appliIndex r)) _ Hf).
  rewrite app_assoc in Hf.
  assert (Z.to_nat (be_val 0 (be 4 (u32 (zlen (r_data r))))) = length (r_data r)) as ->.
  { rewrite be_val_be, Z.mul_0_l, Z.add_0_l. unfold LogMaxSize in Hd. pose proof (zlen_nonneg (r_data r)). change (8 * Z.of_nat 4) with 32.
    rewrite wrapU_id, Z.mod_small by (unfold inU; lia). apply to_nat_zlen. }
  io_step (read_part_at f _ (r_data r) _ Hf).
  rewrite app_assoc in Hf. io_step (read_part_at f _ EndMagicNumber _ Hf).
  rewrite bool_decide_eq_true_2 by done. cbn [negb]. unfold mret, io_ret. by rewrite be_val_be, Z.mul_0_l, Z.add_0_l, <- !app_assoc.
Qed.

Lemma readFullWrapLog_end f : readFullWrapLog f (zlen f) = (Err ErrorSegmentReadEnd, zlen f).
Proof.
  unfold readFullWrapLog. io_step (eq_refl : gets id (zlen f) = (Ret (zlen f), zlen f)).
  unfold mbind, io_bind, lift, ReadAtFile. pose proof (zlen_nonneg f).
  rewrite (proj2 (Z.ltb_ge _ _)) by lia. change (Z.of_nat 2 =? 0) with false.
  by rewrite Z.gtb_ltb, (proj2 (Z.ltb_lt _ _)) by lia.
Qed.

Section Scanning.
Context (file_at : path -> option (list byte)).

(** Where the scanner is in a file: at its start when it comes to it, else
    where it stopped. *)
Definition at_position (p : path) (n : Z) (k : Scanner) : Prop :=
  if decide (segmentPath k = Some p) then s_position k = n else n = 0.

Lemma Scan_step p endAppliIndex f n k : file_at p = Some f -> at_position p n (scanner k) ->
  Scan file_at p endAppliIndex k =
    (let '(r, pos') := readFullWrapLog f n in
     (match r with
      | Ret (data, appliIndex) =>
          if negb (endAppliIndex =? 0) && (appliIndex >? endAppliIndex) then endScanner ;; mret false
          else write_out data ;; mret true
      | Err (ErrMsg "Segment file reading end") => endScanner ;; mret false
      | Err e => endScanner ;; raise e
      | Panic => lift Panic
      end) (mkSink (mkScanner (Some p) pos') (written k))).
Proof.
  intros Hf Hn. unfold Scan. io_step (eq_refl : gets scanner k = (Ret (scanner k), k)). rewrite Hf.
  io_step (eq_refl : (mret f : io sink _) k = (Ret f, k)).
  set (s := if decide (segmentPath (scanner k) = Some p) then k else mkSink (mkScanner (Some p) 0) (written k)).
  rewrite (bind_Ret_io _ _ k tt s) by (unfold s, modify; by case_decide).
  assert (s_position (scanner s) = n /\ written s = written k) as [Hp Hw].
  { unfold s, at_position in *. by case_decide. }
  rewrite (bind_Ret_io _ _ s n s) by (unfold gets; by rewrite Hp).
  destruct (readFullWrapLog f n) as [r pos'].
  rewrite (bind_Ret_io _ _ s tt (mkSink (mkScanner (Some p) pos') (written k))) by (unfold modify; by rewrite Hw).
  done.
Qed.

(** The rest of a file of whole records is copied, and the file left. *)
Lemma scan_all_spec p endAppliIndex rs1 rs2 fuel k : file_at p = Some (image (rs1 ++ rs2)) ->
  Forall record_ok rs2 -> at_position p (zlen (image rs1)) (scanner k) -> (length rs2 < fuel)%nat ->
  exists k', scan_all file_at fuel p endAppliIndex k = (Ret tt, k') /\
    written k' = written k ++ image (upto endAppliIndex rs2) /\ segmentPath (scanner k') = None.
Proof.
  revert rs1 fuel k. induction rs2 as [|r rs2 IH]; intros rs1 fuel k Hf Hok Hat Hfuel;
    (destruct fuel as [|fuel]; [cbn in Hfuel; lia|]); cbn [scan_all].
  - rewrite app_nil_r in Hf. pose proof (Scan_step p endAppliIndex _ _ k Hf Hat) as Hs. rewrite readFullWrapLog_end in Hs.
    io_step (Hs : _ = (Ret false, mkSink (mkScanner None (zlen (image rs1))) (written k))).
    eexists. split; [reflexivity|]. split; [symmetry; apply app_nil_r|done].
  - apply Forall_cons in Hok as [Hr Hok]. rewrite image_app, image_cons in Hf.
    pose proof (readFullWrapLog_record _ (image rs1) r (image rs2) eq_refl Hr) as Hread.
    pose proof (Scan_step p endAppliIndex _ _ k Hf Hat) as Hs. rewrite Hread in Hs. cbn [upto].
    destruct (negb _ && _) eqn:E.
    + io_step (Hs : _ = (Ret false, mkSink (mkScanner None _) (written k))).
      eexists. split; [reflexivity|]. split; [symmetry; apply app_nil_r|done].
    + io_step (Hs : _ = (Ret true, mkSink (mkScanner (Some p) _) (written k ++ wrap_record r))).
      edestruct (IH (rs1 ++ [r]) fuel) as (k' & -> & Hw & Hp).
      * rewrite <- app_assoc, image_app. change ([r] ++ rs2) with (r :: rs2). by rewrite image_cons.
      * done.
      * unfold at_position. cbn [scanner segmentPath s_position]. rewrite decide_True by done.
        rewrite image_app, image_cons. change (image []) with (@nil byte). by rewrite app_nil_r.
      * cbn in Hfuel. lia.
      * exists k'. split; [reflexivity|]. rewrite Hw. cbn [written]. by rewrite image_cons, app_assoc.
Qed.

Lemma scan_file_spec p endAppliIndex rs k : file_at p = Some (image rs) -> Forall record_ok rs ->
  segmentPath (scanner k) = None ->
  exists k', scan_file file_at endAppliIndex p k = (Ret tt, k') /\
    written k' = written k ++ image (upto endAppliIndex rs) /\ segmentPath (scanner k') = None.
Proof.
  intros Hf Hok Hk. apply (scan_all_spec p endAppliIndex [] rs); [done|done|unfold at_position; by rewrite Hk|].
  rewrite Hf. cbn [default from_option id]. pose proof (image_length rs) as Hl. unfold zlen in Hl. lia.
Qed.
End Scanning.

(** * The log files of a data base that keeps messages *)
Section Files.
Context {CP CS : Type} `{CacheLaws Z CP} `{CacheLaws string CS}.
Context (segmentMaxBytes : Z) (readdir : list string -> list string).
Hypothesis readdir_perm : forall l, readdir l ≡ₚ l.
Implicit Types (st : state CP CS) (M : logs).

(** A directory of a topic holds the log of its place, in one file. *)
Lemma rep_disk M st k d : rep segmentMaxBytes M st -> left_on_disk st !! k = Some d ->
  (names d <> [] -> made d) /\ logFile (files_of d 0) = image (as_record <$> M k) /\
  Forall record_ok (as_record <$> M k).
Proof.
  intros (Hh & _) Hd. destruct (Hh k) as [(es & _ & Hmo & Hlog) _].
  assert (kept d (as_record <$> M k) es) as Hk.
  { unfold left_on_disk in Hd. rewrite lookup_union, lookup_fmap in Hd. destruct (topics st !! k) as [t|] eqn:Et.
    - destruct Hlog as (s & Hl & _). cbn in Hd. rewrite union_Some_l in Hd. injection Hd as <-.
      exact (live_kept false t s _ es Hl Hmo).
    - cbn in Hd. rewrite (left_id_L None _) in Hd. unfold disk_of in Hlog. by rewrite Hd in Hlog. }
  split; [|split; apply Hk]. intros Hn. destruct (kp_names _ _ _ Hk) as [?|[? _]]; done.
Qed.

(** A place with messages has a directory. *)
Lemma rep_listed M st k : rep segmentMaxBytes M st -> M k <> [] ->
  exists d, left_on_disk st !! k = Some d /\ made d.
Proof.
  intros Hr Hne. pose proof Hr as (Hh & _). destruct (Hh k) as [(es & _ & Hmo & Hlog) _].
  assert (image (as_record <$> M k) <> []) as Hi.
  { destruct (M k) as [|m l]; [done|]. intros E%(f_equal zlen). rewrite fmap_cons, image_cons, zlen_app, zlen_wrap, zlen_nil in E.
    pose proof (record_size_pos (as_record m)). pose proof (zlen_nonneg (image (as_record <$> l))). lia. }
  destruct (left_on_disk st !! k) as [d|] eqn:Hd.
  - exists d. split; [done|]. destruct (rep_disk M st k d Hr Hd) as (Hm & Hf & _). apply Hm. intros Hn.
    assert (tidy d) as Ht.
    { unfold left_on_disk in Hd. rewrite lookup_union, lookup_fmap in Hd. destruct (topics st !! k) as [t|] eqn:Et.
      - destruct Hlog as (s & Hl & _). cbn in Hd. rewrite union_Some_l in Hd. injection Hd as <-. left. apply Hl.
      - cbn in Hd. rewrite (left_id_L None _) in Hd. unfold disk_of in Hlog. rewrite Hd in Hlog. apply Hlog. }
    destruct Ht as [[Hn' _]|[_ He]]; [congruence|]. unfold files_of in Hf. rewrite He, lookup_empty in Hf. by destruct Hi.
  - unfold left_on_disk in Hd. apply lookup_union_None in Hd as [Ht Hd]. rewrite lookup_fmap in Ht.
    destruct (topics st !! k); [done|]. unfold disk_of in Hlog. rewrite Hd in Hlog. destruct Hi. symmetry. apply Hlog.
Qed.

Lemma topic_dirs_spec slot name st : name ∈ topic_dirs readdir slot st <->
  exists d, left_on_disk st !! (slot, name) = Some d /\ names d <> [].
Proof.
  unfold topic_dirs. rewrite readdir_perm, list_elem_of_fmap. split.
  - intros ([[slot' name'] d] & -> & [[Hs Hn] Hin]%list_elem_of_filter). cbn in *. subst slot'.
    apply elem_of_map_to_list in Hin. eauto.
  - intros (d & Hd & Hn). exists ((slot, name), d). split; [done|]. apply list_elem_of_filter. split; [done|].
    by apply elem_of_map_to_list.
Qed.

(** The one log file of a topic is found. *)
Lemma topic_bases_made k st d : left_on_disk st !! k = Some d -> made d -> topic_bases readdir k st = Ret [0].
Proof.
  intros Hd [Hn [fs Hfs]]. unfold topic_bases, topic_disk, getSubfiles. rewrite Hd. cbn [default from_option id].
  rewrite Hn, decide_True by (by left). cbn [mbind outcome_bind].
  assert (filter (fun n => HasSuffix n logSuffix = true) (log_dir readdir d) = [file_name 0 logSuffix]) as ->; [|reflexivity].
  apply Permutation_singleton_r. unfold log_dir. rewrite readdir_perm, Hfs, map_to_list_singleton. reflexivity.
Qed.

Lemma info_of_topics_last M st slot names i : rep segmentMaxBytes M st ->
  (forall n, n ∈ names -> exists d, left_on_disk st !! (slot, n) = Some d /\ made d) -> si_slot i = slot ->
  info_of_topics readdir slot names st i =
    Ret (match last names with Some n => mkSegmentInfo slot n [0] | None => i end).
Proof.
  intros Hr. revert i. induction names as [|n names IH]; intros i Hn Hi; [done|]. cbn [info_of_topics].
  destruct (Hn n ltac:(left)) as (d & Hd & Hm). rewrite (topic_bases_made _ _ _ Hd Hm). cbn [mbind outcome_bind].
  rewrite Hi, IH; [|intros n' ?; apply Hn; by right|done].
  rewrite last_cons. by destruct (last names).
Qed.

(** What a backup of the messages of a slot holds: the log of the topic that
    is listed last. *)
Definition saved_topic (st : state CP CS) (slot : Z) : option place :=
  (fun name => (slot, name)) <$> last (topic_dirs readdir slot st).
Definition info_of_slot st slot : segmentInfo :=
  match saved_topic st slot with Some k => mkSegmentInfo slot k.2 [0] | None => mkSegmentInfo slot EmptyString [] end.

Lemma getSegmentInfo_spec M st slots : rep segmentMaxBytes M st ->
  getSegmentInfo readdir slots st = Ret (info_of_slot st <$> slots).
Proof.
  intros Hr. induction slots as [|slot slots IH]; [done|]. cbn [getSegmentInfo].
  rewrite (info_of_topics_last M st slot _ _ Hr); [|..|done].
  - cbn [mbind outcome_bind]. rewrite IH. cbn [mbind outcome_bind fmap list_fmap]. do 2 f_equal.
    unfold info_of_slot, saved_topic. by destruct (last _).
  - intros n (d & Hd & Hn)%topic_dirs_spec. exists d. split; [done|]. by apply (rep_disk M st _ d Hr Hd).
Qed.

Definition saved_messages M st slot : list Db.Message :=
  match saved_topic st slot with Some k => M k | None => [] end.

Lemma scan_info_spec M st endAppliIndex slot k : rep segmentMaxBytes M st -> segmentPath (scanner k) = None ->
  exists k', scan_info (file_of st) endAppliIndex (info_of_slot st slot) k = (Ret tt, k') /\
    written k' = written k ++ image (upto endAppliIndex (as_record <$> saved_messages M st slot)) /\
    segmentPath (scanner k') = None.
Proof.
  intros Hr Hk. unfold info_of_slot, saved_messages, saved_topic.
  destruct (last (topic_dirs readdir slot st)) as [name|] eqn:El; cbn [fmap option_fmap option_map snd].
  - assert (name ∈ topic_dirs readdir slot st) as Hin by (by apply last_Some_elem_of).
    apply topic_dirs_spec in Hin as (d & Hd & Hn).
    destruct (rep_disk M st _ d Hr Hd) as (Hm & Hf & Hok). destruct (Hm Hn) as [_ [fs Hfs]].
    unfold scan_info. cbn [for_each baseOffsets si_slot si_topic].
    destruct (scan_file_spec (file_of st) ((slot, name), 0) endAppliIndex (as_record <$> M (slot, name)) k)
      as (k' & E & Hw & Hk'); [|done|done|].
    + unfold file_of, topic_disk. cbn [fst snd]. rewrite Hd. cbn [default from_option id].
      rewrite Hfs, lookup_singleton_eq. cbn. unfold files_of in Hf. rewrite Hfs, lookup_singleton_eq in Hf. by rewrite <- Hf.
    + exists k'. io_step E. done.
  - exists k. split; [reflexivity|]. split; [|done]. cbn. by rewrite app_nil_r.
Qed.

Lemma scan_infos_spec M st endAppliIndex slots k : rep segmentMaxBytes M st -> segmentPath (scanner k) = None ->
  exists k', for_each (scan_info (file_of st) endAppliIndex) (info_of_slot st <$> slots) k = (Ret tt, k') /\
    written k' = written k ++ concat ((fun s => image (upto endAppliIndex (as_record <$> saved_messages M st s))) <$> slots) /\
    segmentPath (scanner k') = None.
Proof.
  intros Hr. revert k. induction slots as [|slot slots IH]; intros k Hk; cbn [for_each fmap list_fmap concat].
  { exists k. split; [reflexivity|]. split; [by rewrite app_nil_r|done]. }
  destruct (scan_info_spec M st endAppliIndex slot k Hr Hk) as (k1 & E1 & W1 & K1). io_step E1.
  destruct (IH k1 K1) as (k2 & -> & W2 & K2). exists k2. split; [done|]. split; [|done]. by rewrite W2, W1, app_assoc.
Qed.

Lemma backupMessages_spec M st slots k : rep segmentMaxBytes M st -> segmentPath (scanner k) = None ->
  exists k', backupMessages readdir slots st k = (Ret tt, k') /\
    written k' = written k ++ image (as_record <$> concat (saved_messages M st <$> slots)) /\
    segmentPath (scanner k') = None.
Proof.
  intros Hr Hk. unfold backupMessages. rewrite (bind_Ret_io _ _ k (info_of_slot st <$> slots) k)
    by (unfold lift; by rewrite (getSegmentInfo_spec M)).
  destruct (scan_infos_spec M st 0 slots k Hr Hk) as (k' & E & Hw & Hk'). exists k'. split; [done|]. split; [|done].
  rewrite Hw. f_equal. clear -slots. induction slots as [|s slots IH]; [done|].
  cbn [fmap list_fmap concat]. rewrite upto_all, fmap_app, image_app. by f_equal.
Qed.

(** A snapshot holds, of the topic each slot lists last, the records in front
    of the first that was applied later. *)
Lemma SaveSnapshot_spec M st appliIndex k (dirs := slot_dirs readdir st) :
  rep segmentMaxBytes M st -> segmentPath (scanner k) = None ->
  exists k', SaveSnapshot readdir appliIndex st k = (Ret tt, k') /\
    written k' = written k ++ SnapshotMagicNumber ++ (be 4 1 ++ bytes_of_string "test" ++ be 8 1) ++
      (if decide (length dirs = 0%nat) then []
       else concat ((fun s => image (upto appliIndex (as_record <$> saved_messages M st s))) <$> dirs)
            ++ EndSnapshotMagicNumber).
Proof.
  intros Hr Hk. unfold SaveSnapshot, getAllSegmentInfo. fold dirs.
  set (k1 := mkSink (scanner k) (written k ++ SnapshotMagicNumber)).
  io_step (eq_refl : write_out SnapshotMagicNumber k = (Ret tt, k1)).
  set (k2 := mkSink (scanner k) (((written k1 ++ be 4 1) ++ bytes_of_string "test") ++ be 8 1)).
  io_step (eq_refl : writeSnapshotHeader 1 "test" 1 k1 = (Ret tt, k2)).
  rewrite (bind_Ret_io _ _ k2 (info_of_slot st <$> dirs) k2)
    by (unfold lift; by rewrite (getSegmentInfo_spec M)). rewrite length_fmap.
  destruct (decide (length dirs = 0%nat)).
  - exists k2. split; [reflexivity|]. unfold k2, k1. cbn [written]. by rewrite app_nil_r, <- !app_assoc.
  - destruct (scan_infos_spec M st appliIndex dirs k2 Hr Hk) as (k3 & E & Hw & _). io_step E.
    eexists. split; [reflexivity|]. cbn [written]. rewrite Hw. unfold k2, k1. cbn [written]. by rewrite <- !app_assoc.
Qed.
End Files.

(** * Reading what was written *)

Lemma rd_Read_app n b r : length b = n -> n <> 0%nat -> rd_Read n (b ++ r) = (Ret (Z.of_nat n, b), r).
Proof.
  intros <- Hn. unfold rd_Read. destruct b as [|x b]; [done|]. cbn [app].
  change (x :: b ++ r) with ((x :: b) ++ r). rewrite take_app_length, drop_app_length. unfold copy_into.
  rewrite length_replicate, take_ge, drop_ge, app_nil_r by (rewrite ?length_replicate; lia). done.
Qed.

Lemma rd_ReadFull_app n b r : length b = n -> n <> 0%nat -> rd_ReadFull n (b ++ r) = (Ret b, r).
Proof.
  intros <- Hn. unfold rd_ReadFull. destruct b as [|x b]; [done|]. cbn [app].
  change (x :: b ++ r) with ((x :: b) ++ r). rewrite (proj2 (Nat.ltb_ge _ _)) by (rewrite length_app; lia).
  by rewrite take_app_length, drop_app_length.
Qed.

Lemma rd_expect_app n b r : length b = n -> n <> 0%nat -> rd_expect n (b ++ r) = (Ret b, r).
Proof. intros Hb Hn. unfold rd_expect. io_step (rd_Read_app n b r Hb Hn). by rewrite Z.eqb_refl. Qed.

(** The readers give what the decoders of Wire.v give. *)
Lemma ReadExpect_split n r b r' : ReadExpect n r = Ret (b, r') -> r = b ++ r' /\ length b = n.
Proof.
  unfold ReadExpect, mbind, decoder_mbind, Read. destruct r as [|x r]; [done|].
  destruct (decide _) as [Hl|]; [|done]. intros [= <- <-]. by rewrite take_drop.
Qed.

Lemma rd_Int16_be z r : rd_Int16 (be 2 z ++ r) = (Ret (i16 z), r).
Proof.
  unfold rd_Int16. io_step (rd_expect_app 2 (be 2 z) r eq_refl ltac:(done)).
  pose proof (Int16_be z r) as H. unfold Int16, mbind, decoder_mbind in H.
  rewrite ReadExpect_app in H by done.
  exact (f_equal (fun o => match o with Ret (a, r) => (Ret a, r) | _ => (Panic, []) end) H).
Qed.

Lemma rd_Int32_be z r : rd_Int32 (be 4 z ++ r) = (Ret (i32 z), r).
Proof.
  unfold rd_Int32. io_step (rd_expect_app 4 (be 4 z) r eq_refl ltac:(done)).
  pose proof (Int32_be z r) as H. unfold Int32, mbind, decoder_mbind in H.
  rewrite ReadExpect_app in H by done.
  exact (f_equal (fun o => match o with Ret (a, r) => (Ret a, r) | _ => (Panic, []) end) H).
Qed.

Lemma rd_Uint32_be z r : rd_Uint32 (be 4 z ++ r) = (Ret (u32 z), r).
Proof. unfold rd_Uint32. io_step (rd_Int32_be z r). unfold mret, io_ret. by rewrite wrapU_wrapS. Qed.

Lemma rd_Binary_image b r : zlen b < 2 ^ 15 -> rd_Binary (str_image b ++ r) = (Ret b, r).
Proof.
  intros Hb. pose proof (zlen_nonneg b). unfold rd_Binary, str_image. rewrite <- app_assoc.
  io_step (rd_Int16_be (zlen b) (b ++ r)). rewrite wrapS_id by (try lia; unfold inS; lia).
  unfold Wire.make_bytes. rewrite (proj2 (Z.ltb_ge _ _)) by lia.
  rewrite (bind_Ret_io _ _ (b ++ r) (replicate (length b) x00) (b ++ r)) by (unfold lift; by rewrite to_nat_zlen).
  destruct (zlen b =? 0) eqn:E; zbool.
  - destruct b as [|x b]; [done|]. rewrite zlen_cons in E. pose proof (zlen_nonneg b). lia.
  - rewrite length_replicate. apply rd_expect_app; [done|]. unfold zlen in E. lia.
Qed.

(** A value whose length does not fit into an [int16] makes the reader
    panic. *)
Lemma rd_Binary_long b r : 2 ^ 15 <= zlen b < 2 ^ 16 -> rd_Binary (str_image b ++ r) = (Panic, b ++ r).
Proof.
  intros Hb. unfold rd_Binary, str_image. rewrite <- app_assoc. io_step (rd_Int16_be (zlen b) (b ++ r)).
  assert (i16 (zlen b) = zlen b - 2 ^ 16) as ->.
  { unfold wrapS. replace (zlen b + 2 ^ (16 - 1)) with (zlen b - 2 ^ 15 + 1 * 2 ^ 16) by lia.
    rewrite Z.mod_add, Z.mod_small by lia. lia. }
  unfold Wire.make_bytes. rewrite (proj2 (Z.ltb_lt _ 0)) by lia. done.
Qed.

(** * Entries *)
Section Entries.
Context {CP CS B : Type} `{Cache Z CP} `{Cache string CS} `{BoltLaws B}.
Implicit Types (t : target CP CS B) (s : B).

Definition entry_image (kv : string * list byte) : list byte := str_image (bytes_of_string kv.1) ++ str_image kv.2.
Definition slot_image (slot : Z) s : list byte :=
  BackupSlotMagicNumber ++ be 4 slot ++ be 4 (i32 (zlen (bEntries (slotBucket slot) s)))
    ++ concat (entry_image <$> bEntries (slotBucket slot) s).

Lemma backupSlot_spec slot s : bHas (slotBucket slot) s = true -> backupSlot slot s = Ret (slot_image slot s).
Proof.
  intros Hb. unfold backupSlot, slot_image. rewrite Hb. do 2 f_equal. unfold Bytes.
  assert (forall es e, foldl (fun e kv => (e |> WriteBinary (bytes_of_string kv.1) |> WriteBinary kv.2)%wire) e es
    = e ++ concat (entry_image <$> es)) as Hfold.
  { induction es as [|kv es IH]; intros e; [by rewrite app_nil_r|]. cbn [foldl fmap list_fmap concat].
    rewrite IH. autorewrite with wire. unfold entry_image. by rewrite <- !app_assoc. }
  rewrite Hfold. autorewrite with wire. unfold NewEncoder. cbn [app]. by rewrite <- !app_assoc.
Qed.

(** What can be written and read back: keys that are there and values of at
    most 32767 bytes each. *)
Definition small_entries (slot : Z) s : Prop :=
  bHas (slotBucket slot) s = true /\ zlen (bEntries (slotBucket slot) s) < 2 ^ 31 /\
  forall k v, bGet (slotBucket slot) k s = Some v ->
    k <> EmptyString /\ zlen (bytes_of_string k) < 2 ^ 15 /\ zlen v < 2 ^ 15.

(** The entries of the buckets [bs] of [src] over those of [old]. *)
Definition overlay (src old : B) (b : string) (bs : list string) (k : string) : option (list byte) :=
  if decide (b ∈ bs) then match bGet b k src with Some v => Some v | None => bGet b k old end else bGet b k old.

Lemma recoverEntry_spec slot k v r t : bHas (slotBucket slot) (r_base t) = true ->
  k <> EmptyString -> zlen (bytes_of_string k) < 2 ^ 15 -> zlen v < 2 ^ 15 ->
  input t = entry_image (k, v) ++ r ->
  exists s', recoverEntry slot t = (Ret tt, mkTarget r s' (r_msgs t)) /\
    (forall b' k', bGet b' k' s' = if decide ((b', k') = (slotBucket slot, k)) then Some v else bGet b' k' (r_base t)) /\
    (forall b', bHas b' s' = bHas b' (r_base t)).
Proof.
  intros Hb Hk Hkl Hvl Hin. unfold entry_image in Hin. cbn [fst snd] in Hin. rewrite <- app_assoc in Hin.
  destruct (put_law (slotBucket slot) k v (r_base t) Hb) as (s' & Hput & Hget & Hhas & _).
  { unfold refused. rewrite bool_decide_eq_false_2 by done.
    rewrite (proj2 (Z.ltb_ge _ _)), (proj2 (Z.ltb_ge _ _)) by lia. done. }
  exists s'. split; [|done]. unfold recoverEntry.
  rewrite (bind_Ret_io _ _ t (bytes_of_string k) (mkTarget (str_image v ++ r) (r_base t) (r_msgs t))).
  2:{ unfold on_input, zoom. by rewrite Hin, rd_Binary_image. }
  rewrite (bind_Ret_io _ _ _ v (mkTarget r (r_base t) (r_msgs t))).
  2:{ unfold on_input, zoom. cbn [input]. by rewrite rd_Binary_image. }
  unfold on_base, zoom. cbn [r_base input r_msgs]. unfold bucket.
  rewrite (bind_Ret_io _ _ (r_base t) true (r_base t)) by (unfold gets; by rewrite Hb).
  by rewrite string_of_bytes_of_string, Hput.
Qed.

Lemma recoverEntries_spec slot src r es n t : bHas (slotBucket slot) (r_base t) = true ->
  (forall k v, (k, v) ∈ es -> bGet (slotBucket slot) k src = Some v /\
     k <> EmptyString /\ zlen (bytes_of_string k) < 2 ^ 15 /\ zlen v < 2 ^ 15) ->
  input t = concat (entry_image <$> es) ++ r ->
  exists s', for_each (fun _ => recoverEntry slot) (seq n (length es)) t = (Ret tt, mkTarget r s' (r_msgs t)) /\
    (forall b' k', bGet b' k' s' =
       if decide (b' = slotBucket slot /\ k' ∈ es.*1) then bGet b' k' src else bGet b' k' (r_base t)) /\
    (forall b', bHas b' s' = bHas b' (r_base t)).
Proof.
  revert n t. induction es as [|[k v] es IH]; intros n t Hb Hes Hin.
  { exists (r_base t). split; [|split; [|done]].
    - cbn. unfold mret, io_ret. destruct t. cbn in *. by subst.
    - intros b' k'. rewrite decide_False; [done|]. intros [_ Hk]. inversion Hk. }
  cbn [fmap list_fmap concat] in Hin. rewrite <- app_assoc in Hin.
  destruct (Hes k v ltac:(left)) as (Hsrc & Hk & Hkl & Hvl).
  destruct (recoverEntry_spec slot k v _ t Hb Hk Hkl Hvl Hin) as (s1 & E1 & G1 & Has1).
  cbn [length seq for_each]. io_step E1.
  destruct (IH (S n) (mkTarget (concat (entry_image <$> es) ++ r) s1 (r_msgs t))) as (s2 & E2 & G2 & Has2).
  - cbn [r_base]. by rewrite Has1.
  - intros k' v' Hkv. apply Hes. by right.
  - done.
  - exists s2. split; [exact E2|]. cbn [r_base] in G2, Has2. split; [|intros b'; by rewrite Has2, Has1].
    intros b' k'. rewrite G2, G1. rewrite fmap_cons. cbn [fst].
    destruct (decide (b' = slotBucket slot)) as [->|Hne].
    + destruct (decide (k' ∈ es.*1)) as [Hin'|Hni].
      * rewrite !decide_True by (split; [done|done || by right]). done.
      * rewrite decide_False by tauto. destruct (decide (k' = k)) as [->|Hk'].
        -- rewrite decide_True by done. rewrite decide_True by (split; [done|left]). done.
        -- rewrite decide_False by congruence. rewrite decide_False; [done|]. intros [_ [?|?]%elem_of_cons]; done.
    + rewrite !decide_False by naive_solver. done.
Qed.

Lemma recoverSlot_spec slot src r t : 0 <= slot < 2 ^ 32 -> small_entries slot src ->
  bHas (slotBucket slot) (r_base t) = true -> input t = slot_image slot src ++ r ->
  exists s', recoverSlot t = (Ret tt, mkTarget r s' (r_msgs t)) /\
    (forall b k, bGet b k s' = overlay src (r_base t) b [slotBucket slot] k) /\
    (forall b, bHas b s' = bHas b (r_base t)).
Proof.
  intros Hslot (Hb & Hn & Hsmall) Hhas Hin. unfold slot_image in Hin. rewrite <- !app_assoc in Hin.
  set (es := bEntries (slotBucket slot) src) in *. pose proof (zlen_nonneg es).
  assert (i32 (zlen es) = zlen es) as Hlen by (apply wrapS_id; [lia|unfold inS; lia]). rewrite Hlen in Hin.
  set (t1 := mkTarget (concat (entry_image <$> es) ++ r) (r_base t) (r_msgs t)).
  assert (on_input readBaseDataHeader t = (Ret (slot, zlen es), t1)) as Hhead.
  { unfold on_input, zoom. rewrite Hin. unfold readBaseDataHeader.
    io_step (rd_Read_app 2 BackupSlotMagicNumber (be 4 slot ++ be 4 (zlen es) ++ concat (entry_image <$> es) ++ r) eq_refl ltac:(done)).
    rewrite bool_decide_eq_true_2 by done. cbn [negb].
    io_step (rd_Uint32_be slot (be 4 (zlen es) ++ concat (entry_image <$> es) ++ r)).
    io_step (rd_Int32_be (zlen es) (concat (entry_image <$> es) ++ r)).
    rewrite Hlen, wrapU_id by (unfold inU; lia). done. }
  destruct (recoverEntries_spec slot src r es 0 t1) as (s' & E & Hg & Hh); [done| |done|].
  { intros k v Hkv. apply entries_law in Hkv. split; [done|]. by apply Hsmall. }
  exists s'. split; [|split; [|done]].
  - unfold recoverSlot. io_step Hhead. unfold Batch, try_tx. rewrite to_nat_zlen, E. done.
  - intros b k. rewrite Hg. unfold overlay. cbn [r_base t1].
    destruct (decide (b ∈ [slotBucket slot])) as [->%list_elem_of_singleton|Hne].
    + destruct (bGet (slotBucket slot) k src) as [v|] eqn:Ek.
      * rewrite decide_True; [done|]. split; [done|]. apply list_elem_of_fmap. exists (k, v). split; [done|].
        by apply entries_law.
      * rewrite decide_False; [done|]. intros [_ Hin']. apply list_elem_of_fmap in Hin' as ([k' v] & -> & Hkv).
        apply entries_law in Hkv. cbn in Ek. congruence.
    + rewrite decide_False; [done|]. intros [-> _]. apply Hne. by left.
Qed.

Lemma overlay_app src s0 s1 b bs1 bs2 k : (forall b k, bGet b k s1 = overlay src s0 b bs1 k) ->
  overlay src s1 b bs2 k = overlay src s0 b (bs1 ++ bs2) k.
Proof.
  intros Hs. unfold overlay at 1 2. rewrite Hs. unfold overlay.
  destruct (decide (b ∈ bs1 ++ bs2)) as [Ha|Ha]; rewrite elem_of_app in Ha;
    destruct (decide (b ∈ bs1)) as [Hb1|Hb1], (decide (b ∈ bs2)) as [Hb2|Hb2]; try tauto;
    by destruct (bGet b k src).
Qed.

Lemma recoverBaseData_spec slots src r t : (forall slot, slot ∈ slots -> 0 <= slot < 2 ^ 32 /\
    small_entries slot src /\ bHas (slotBucket slot) (r_base t) = true) ->
  input t = concat ((fun slot => slot_image slot src) <$> slots) ++ r ->
  exists s', recoverBaseData slots t = (Ret tt, mkTarget r s' (r_msgs t)) /\
    (forall b k, bGet b k s' = overlay src (r_base t) b (slotBucket <$> slots) k) /\
    (forall b, bHas b s' = bHas b (r_base t)).
Proof.
  revert t. induction slots as [|slot slots IH]; intros t Hs Hin.
  { exists (r_base t). split; [|done]. cbn. unfold mret, io_ret. destruct t. cbn in *. by subst. }
  cbn [fmap list_fmap concat] in Hin. rewrite <- app_assoc in Hin.
  destruct (Hs slot ltac:(left)) as (Hr & Hsm & Hb).
  destruct (recoverSlot_spec slot src _ t Hr Hsm Hb Hin) as (s1 & E1 & G1 & Has1).
  destruct (IH (mkTarget (concat ((fun slot => slot_image slot src) <$> slots) ++ r) s1 (r_msgs t)))
    as (s2 & E2 & G2 & Has2); [|done|].
  { intros slot' Hin'. cbn [r_base]. rewrite Has1. apply Hs. by right. }
  cbn [r_base] in *. exists s2. split; [|split].
  - unfold recoverBaseData in *. cbn [for_each]. by io_step E1.
  - intros b k. rewrite G2. exact (overlay_app src (r_base t) s1 b [slotBucket slot] (slotBucket <$> slots) k G1).
  - intros b. by rewrite Has2.
Qed.

Lemma backupBaseData_spec slots src k : (forall slot, slot ∈ slots -> bHas (slotBucket slot) src = true) ->
  backupBaseData slots src k = (Ret tt, mkSink (scanner k) (written k ++ concat ((fun slot => slot_image slot src) <$> slots))).
Proof.
  revert k. induction slots as [|slot slots IH]; intros k Hs.
  { cbn. rewrite app_nil_r. by destruct k. }
  unfold backupBaseData in *. cbn [for_each fmap list_fmap concat].
  rewrite (bind_Ret_io _ _ k tt (mkSink (scanner k) (written k ++ slot_image slot src))).
  - rewrite IH by (intros; apply Hs; by right). cbn [scanner written]. by rewrite app_assoc.
  - rewrite (bind_Ret_io _ _ k (slot_image slot src) k) by (unfold lift; by rewrite backupSlot_spec by (apply Hs; by left)).
    done.
Qed.
End Entries.

(** * Messages *)
Lemma rd_Read_more n b r : length b = n -> r <> [] -> rd_Read n (b ++ r) = (Ret (Z.of_nat n, b), r).
Proof.
  intros Hb Hr. destruct (decide (n = 0%nat)) as [->|Hn]; [|by apply rd_Read_app].
  apply nil_length_inv in Hb as ->. cbn [app]. by destruct r.
Qed.

Lemma plain_ok m : Db.ok m -> Db.ok (plain m).
Proof. intros []. by split. Qed.

Lemma readMessage_record m r : Db.ok m -> record_ok (as_record m) ->
  readMessage (wrap_record (as_record m) ++ r) = (Ret (Some (Some (plain m))), r).
Proof.
  intros Hok [_ Hd]. cbn [r_data as_record] in Hd. set (data := Db.MarshalMessage m) in *.
  unfold wrap_record, wrapLogData. cbn [r_offset r_appliIndex r_data as_record]. fold data. rewrite <- !app_assoc.
  unfold readMessage.
  set (r1 := LogVersion ++ _). io_step (attempt_Ret _ _ _ _ (rd_Read_app 2 MagicNumber r1 eq_refl ltac:(done))).
  rewrite bool_decide_eq_true_2 by done. cbn [negb]. unfold r1.
  set (r2 := be 4 _ ++ _). io_step (attempt_Ret _ _ _ _ (rd_Read_app 1 LogVersion r2 eq_refl ltac:(done))). unfold r2.
  set (r3 := be 8 (Db.MessageSeq m) ++ _). io_step (rd_ReadFull_app 4 (be 4 (u32 (zlen data))) r3 eq_refl ltac:(done)). unfold r3.
  set (r4 := be 8 (Db.AppliIndex m) ++ _). io_step (rd_ReadFull_app 8 (be 8 (Db.MessageSeq m)) r4 eq_refl ltac:(done)). unfold r4.
  io_step (rd_ReadFull_app 8 (be 8 (Db.AppliIndex m)) (data ++ EndMagicNumber ++ r) eq_refl ltac:(done)).
  assert (Z.to_nat (be_val 0 (be 4 (u32 (zlen data)))) = length data) as ->.
  { rewrite be_val_be, Z.mul_0_l, Z.add_0_l. unfold LogMaxSize in Hd. pose proof (zlen_nonneg data).
    change (8 * Z.of_nat 4) with 32. rewrite wrapU_id, Z.mod_small by (unfold inU; lia). apply to_nat_zlen. }
  io_step (rd_Read_more (length data) data (EndMagicNumber ++ r) eq_refl ltac:(done)).
  io_step (rd_Read_app 1 EndMagicNumber r eq_refl ltac:(done)).
  rewrite bool_decide_eq_true_2 by done. cbn [negb].
  destruct (Decode_Encode_Message m 0 Hok) as (data' & He & Hdec). injection He as <-.
  rewrite (bind_Ret_io (lift (Db.Decode 0 data)) _ r (plain m) r); [done|]. unfold lift. unfold data. by rewrite Hdec.
Qed.

Lemma log_size_plain ms : log_size (plain <$> ms) = log_size ms.
Proof.
  induction ms as [|m ms IH]; [done|]. unfold log_size in *. rewrite !fmap_cons, !image_cons, !zlen_app, IH, !zlen_wrap.
  done.
Qed.

Section Recover.
Context {CP CS B : Type} `{CacheLaws Z CP} `{CacheLaws string CS} `{Bolt B}.
Context (slotCount segmentMaxBytes : Z) (removed : string -> bool).
Hypothesis segments_large : LogMaxSize + logMinLen <= segmentMaxBytes.
Hypothesis slotCount_pos : 0 < slotCount < 2 ^ 32.
Implicit Types (t : target CP CS B) (M : logs).

(** Where the recovery puts a message. *)
Definition home (m : Db.Message) : place :=
  if blank (bytes_of_string (Db.QueueUID m)) then message_place slotCount m else queue_place slotCount m.

Lemma recoverMessage_spec m r t M : Db.ok m -> record_ok (as_record m) -> rep segmentMaxBytes M (r_msgs t) ->
  appendable_to (M (home m)) (plain m) -> input t = wrap_record (as_record m) ++ r ->
  exists st', recoverMessage slotCount segmentMaxBytes removed t = (Ret true, mkTarget r (r_base t) st') /\
    rep segmentMaxBytes (add_to (home m) (plain m) M) st'.
Proof.
  intros Hok Hrok Hr Ha Hin. unfold recoverMessage.
  rewrite (bind_Ret_io _ _ t (Some (Some (plain m))) (mkTarget r (r_base t) (r_msgs t)))
    by (unfold on_input, zoom; by rewrite Hin, readMessage_record).
  change (Db.QueueUID (plain m)) with (Db.QueueUID m). unfold home in *.
  destruct (blank (bytes_of_string (Db.QueueUID m))) eqn:Hblank.
  - destruct (log_append segmentMaxBytes removed segments_large (slot_of slotCount (Db.ChannelID m))
      (topicName (Db.ChannelID m, Db.ChannelType m)) (plain m) M (r_msgs t) Hr Ha) as (n & st' & E & Hr').
    exists st'. split; [|exact Hr'].
    assert (AppendMessage slotCount segmentMaxBytes removed (plain m) (r_msgs t) = (Ret n, st')) as Ea
      by (unfold AppendMessage; rewrite (slot_number_bind slotCount slotCount_pos); exact E).
    rewrite (bind_Ret_io _ _ _ n (mkTarget r (r_base t) st')); [done|].
    unfold on_msgs, zoom. cbn [r_msgs input r_base]. by rewrite Ea.
  - destruct (log_append segmentMaxBytes removed segments_large (slot_of slotCount (Db.QueueUID m))
      (Db.QueueUID m) (plain m) M (r_msgs t) Hr Ha) as (n & st' & E & Hr').
    exists st'. split; [|exact Hr'].
    assert (AppendMessageOfUser slotCount segmentMaxBytes removed (plain m) (r_msgs t) = (Ret n, st')) as Ea.
    { unfold AppendMessageOfUser. change (Db.QueueUID (plain m)) with (Db.QueueUID m). rewrite Hblank.
      rewrite (slot_number_bind slotCount slotCount_pos). exact E. }
    rewrite (bind_Ret_io _ _ _ n (mkTarget r (r_base t) st')); [done|].
    unfold on_msgs, zoom. cbn [r_msgs input r_base]. by rewrite Ea.
Qed.

(** Messages that can be appended one after the other. *)
Fixpoint recoverable M (ms : list Db.Message) : Prop :=
  match ms with
  | [] => True
  | m :: ms' => Db.ok m /\ record_ok (as_record m) /\ appendable_to (M (home m)) (plain m) /\
                recoverable (add_to (home m) (plain m) M) ms'
  end.
Definition recovered M (ms : list Db.Message) : logs := foldl (fun M m => add_to (home m) (plain m) M) M ms.

Lemma recoverMessages_spec ms fuel t M : rep segmentMaxBytes M (r_msgs t) -> recoverable M ms ->
  input t = image (as_record <$> ms) -> (length ms < fuel)%nat ->
  exists st', recoverMessages_loop slotCount segmentMaxBytes removed fuel t = (Ret tt, mkTarget [] (r_base t) st') /\
    rep segmentMaxBytes (recovered M ms) st'.
Proof.
  revert fuel t M. induction ms as [|m ms IH]; intros fuel t M Hr Hrec Hin Hf;
    (destruct fuel as [|fuel]; [cbn in Hf; lia|]); cbn [recoverMessages_loop].
  - exists (r_msgs t). split; [|done].
    rewrite (bind_Ret_io _ _ t false t); [destruct t; cbn in *; by subst|].
    unfold recoverMessage. rewrite (bind_Ret_io _ _ t None t); [done|].
    unfold on_input, zoom. rewrite Hin. destruct t; cbn in *; by subst.
  - destruct Hrec as (Hok & Hrok & Ha & Hrec). rewrite fmap_cons, image_cons in Hin.
    destruct (recoverMessage_spec m _ t M Hok Hrok Hr Ha Hin) as (st1 & E1 & Hr1). io_step E1.
    destruct (IH fuel (mkTarget (image (as_record <$> ms)) (r_base t) st1) _ Hr1 Hrec eq_refl) as (st2 & E2 & Hr2);
      [cbn in Hf; lia|]. exists st2. split; [exact E2|exact Hr2].
Qed.

(** ** The messages of one log *)
Definition logged (ms : list Db.Message) : Prop :=
  Forall Db.ok ms /\ Forall record_ok (as_record <$> ms) /\ Forall (fun m => 0 < Db.MessageSeq m) ms /\
  (forall l1 m l2, ms = l1 ++ m :: l2 -> Forall (fun a => Db.MessageSeq a < Db.MessageSeq m) l1) /\
  log_size ms <= LogMaxSize + logMinLen.

Lemma recoverable_log k ms1 ms2 M : logged (ms1 ++ ms2) -> Forall (fun m => home m = k) ms2 ->
  M k = plain <$> ms1 -> recoverable M ms2.
Proof.
  revert ms1 M. induction ms2 as [|m ms2 IH]; intros ms1 M Hl Hk HM; [done|].
  apply Forall_cons in Hk as [Hm Hk]. pose proof Hl as (Hok & Hrok & Hpos & Hasc & Hsize).
  apply Forall_app in Hok as [_ [Hok _]%Forall_cons]. rewrite fmap_app in Hrok.
  apply Forall_app in Hrok as [_ [Hrok _]%Forall_cons]. apply Forall_app in Hpos as [_ [Hpos _]%Forall_cons].
  cbn [recoverable]. split; [done|]. split; [done|]. split.
  - rewrite Hm, HM. split; [by apply plain_ok|]. split; [done|]. split.
    + apply Forall_fmap. exact (Hasc ms1 m ms2 eq_refl).
    + change [plain m] with (plain <$> [m]). rewrite <- fmap_app, log_size_plain.
      unfold log_size in *. change (m :: ms2) with ([m] ++ ms2) in Hsize.
      rewrite app_assoc, fmap_app, image_app, zlen_app in Hsize. pose proof (zlen_nonneg (image (as_record <$> ms2))). lia.
  - apply (IH (ms1 ++ [m])); [by rewrite <- app_assoc|done|]. unfold add_to. rewrite decide_True by done.
    by rewrite HM, fmap_app.
Qed.

Lemma recovered_log k ms M : Forall (fun m => home m = k) ms ->
  forall k', recovered M ms k' = if decide (k' = k) then M k ++ (plain <$> ms) else M k'.
Proof.
  revert M. induction ms as [|m ms IH]; intros M Hk k'.
  { cbn. case_decide; [|done]. subst. by rewrite app_nil_r. }
  apply Forall_cons in Hk as [Hm Hk]. unfold recovered. cbn [foldl].
  change (foldl _ ?M0 ms) with (recovered M0 ms). rewrite (IH _ Hk). unfold add_to. rewrite Hm.
  case_decide as E; [|done]. rewrite decide_True by done. by rewrite <- app_assoc.
Qed.
End Recover.

(** * A backup and its recovery *)
Section RoundTrip.
Context {CP CS B : Type} `{CacheLaws Z CP} `{CacheLaws string CS} `{BoltLaws B}.
Context (slotCount segmentMaxBytes : Z) (removed : string -> bool) (readdir : list string -> list string).
Hypothesis segments_large : LogMaxSize + logMinLen <= segmentMaxBytes.
Hypothesis slotCount_pos : 0 < slotCount < 2 ^ 32.
Hypothesis readdir_perm : forall l, readdir l ≡ₚ l.
Implicit Types (st : state CP CS) (M : logs) (src dst : B).

Lemma rep_logged M st k : rep segmentMaxBytes M st -> logged (M k).
Proof.
  intros (Hh & _). destruct (Hh k) as [(es & _ & [Hsize Hpos] & Hlog) Hok].
  assert (exists d, kept d (as_record <$> M k) es) as [d Hk].
  { destruct (topics st !! k) as [t|]; [|by eexists]. destruct Hlog as (s & Hl & _). eexists.
    by apply (live_kept false t s). }
  split; [done|]. split; [apply Hk|]. split; [by rewrite Forall_fmap in Hpos|]. split; [|done].
  intros l1 m l2 E. apply Forall_lookup. intros i a Ha.
  apply (kp_sorted _ _ _ Hk i (length l1) (as_record a) (as_record m)).
  - by eapply lookup_lt_Some.
  - rewrite list_lookup_fmap, E, lookup_app_l by (by eapply lookup_lt_Some). by rewrite Ha.
  - by rewrite list_lookup_fmap, E, list_lookup_middle.
Qed.

Lemma recoverable_app M ms1 ms2 : recoverable slotCount M (ms1 ++ ms2) <->
  recoverable slotCount M ms1 /\ recoverable slotCount (recovered slotCount M ms1) ms2.
Proof.
  revert M. induction ms1 as [|m ms1 IH]; intros M; cbn [app recoverable]; [cbn; tauto|].
  rewrite IH. change (recovered slotCount M (m :: ms1)) with
    (recovered slotCount (add_to (home slotCount m) (plain m) M) ms1). tauto.
Qed.

Lemma rep_ext M M' st : (forall k, M k = M' k) -> rep segmentMaxBytes M st -> rep segmentMaxBytes M' st.
Proof. intros E (Hh & Hc). split; [|done]. intros k. unfold holds_log. rewrite <- E. apply Hh. Qed.

(** Every message is where the recovery would put it: messages with a
    [QueueUID] in the log of that user, the others in that of their channel. *)
Definition placed M : Prop := forall k, Forall (fun m => home slotCount m = k) (M k).

(** What is left of the logs [M]. *)
Definition restored M st (slots : list Z) (M0 : logs) : logs := fun k =>
  if decide (k.1 ∈ slots /\ saved_topic readdir st k.1 = Some k) then plain <$> M k else M0 k.

Lemma saved_in_slot st slot k : saved_topic readdir st slot = Some k -> k.1 = slot.
Proof. unfold saved_topic. destruct (last _); [|done]. by intros [= <-]. Qed.

Lemma recover_slots M st slots M0 : rep segmentMaxBytes M st -> placed M -> NoDup slots ->
  (forall k, k.1 ∈ slots -> M0 k = []) ->
  recoverable slotCount M0 (concat (saved_messages readdir M st <$> slots)) /\
  forall k, recovered slotCount M0 (concat (saved_messages readdir M st <$> slots)) k = restored M st slots M0 k.
Proof.
  intros Hr Hp. revert M0. induction slots as [|slot slots IH]; intros M0 Hnd Hempty.
  { split; [done|]. intros k. unfold restored. rewrite decide_False; [done|]. intros [Hin _]. inversion Hin. }
  apply NoDup_cons in Hnd as [Hni Hnd]. cbn [fmap list_fmap concat]. rewrite recoverable_app.
  unfold recovered in *. rewrite foldl_app. fold (recovered slotCount M0 (saved_messages readdir M st slot)).
  set (ms := saved_messages readdir M st slot).
  assert (recoverable slotCount M0 ms /\ forall k, recovered slotCount M0 ms k = restored M st [slot] M0 k) as [Hms HM1].
  { unfold ms, saved_messages. destruct (saved_topic readdir st slot) as [k|] eqn:Es.
    - pose proof (saved_in_slot _ _ _ Es) as Hk. assert (M0 k = []) as Hk0 by (apply Hempty; rewrite Hk; by left). split.
      + by apply (recoverable_log slotCount k []); [apply (rep_logged M st)|apply Hp|rewrite Hk0].
      + intros k'. rewrite (recovered_log slotCount k) by apply Hp. unfold restored. rewrite Hk0. cbn [app].
        destruct (decide (k' = k)) as [->|Hne].
        * rewrite decide_True; [done|]. rewrite Hk. split; [by left|done].
        * rewrite decide_False; [done|]. intros [->%list_elem_of_singleton Hs]. congruence.
    - split; [done|]. intros k'. unfold restored. cbn. rewrite decide_False; [done|].
      intros [E%list_elem_of_singleton Hs]. rewrite E in Hs. congruence. }
  destruct (IH (recovered slotCount M0 ms) Hnd) as [Hrec HM2].
  { intros k Hk. rewrite HM1. unfold restored. rewrite decide_False; [apply Hempty; by right|].
    intros [E%list_elem_of_singleton _]. congruence. }
  split; [done|]. intros k. rewrite HM2. unfold restored at 1. rewrite HM1. unfold restored.
  destruct (decide (k.1 ∈ slots /\ _)) as [[Hin Hs]|Hno].
  - rewrite decide_True; [done|]. split; [by right|done].
  - destruct (decide (k.1 ∈ [slot] /\ _)) as [[E%list_elem_of_singleton Hs]|Hno'].
    + rewrite decide_True; [done|]. split; [rewrite E; by left|done].
    + rewrite decide_False; [done|]. rewrite elem_of_cons. intros [[E|E] Hs]; [|tauto].
      apply Hno'. split; [by apply list_elem_of_singleton|done].
Qed.

Lemma vaild_slots_range bits : zlen bits < 2 ^ 15 ->
  NoDup (GetVaildSlots (NewSlotBitMapWithBits bits)) /\
  forall slot, slot ∈ GetVaildSlots (NewSlotBitMapWithBits bits) -> 0 <= slot < 2 ^ 32.
Proof.
  intros Hb. unfold GetVaildSlots, NewSlotBitMapWithBits. cbn [Bitmap.bits]. rewrite slots_from_spec by lia. split.
  - apply NoDup_filter, NoDup_seqZ.
  - intros slot [_ Hin%elem_of_seqZ]%list_elem_of_filter. lia.
Qed.

Definition backup_image (bits : list byte) src M st : list byte :=
  let slots := GetVaildSlots (NewSlotBitMapWithBits bits) in
  BackupMagicNumber ++ str_image bits ++ concat ((fun slot => slot_image slot src) <$> slots)
    ++ image (as_record <$> concat (saved_messages readdir M st <$> slots)).

Lemma WriteBinary_to_image b k : WriteBinary_to b k = (Ret tt, mkSink (scanner k) (written k ++ str_image b)).
Proof.
  unfold WriteBinary_to, str_image. case_decide as E.
  - apply nil_length_inv in E as ->. by rewrite app_nil_r.
  - unfold write_out, mbind, io_bind, modify. cbn [scanner written]. by rewrite <- app_assoc.
Qed.

Lemma BackupSlots_spec bits src M st k : rep segmentMaxBytes M st -> segmentPath (scanner k) = None ->
  GetVaildSlots (NewSlotBitMapWithBits bits) <> [] ->
  (forall slot, slot ∈ GetVaildSlots (NewSlotBitMapWithBits bits) -> bHas (slotBucket slot) src = true) ->
  exists k', BackupSlots readdir bits src st k = (Ret tt, k') /\ written k' = written k ++ backup_image bits src M st.
Proof.
  intros Hr Hk Hne Hb. unfold BackupSlots, backup_image. set (slots := GetVaildSlots _) in *.
  rewrite decide_False by (by intros E%nil_length_inv).
  set (k1 := mkSink (scanner k) (written k ++ BackupMagicNumber)).
  io_step (eq_refl : write_out BackupMagicNumber k = (Ret tt, k1)). io_step (WriteBinary_to_image bits k1).
  set (k2 := mkSink (scanner k1) (written k1 ++ str_image bits)). io_step (backupBaseData_spec slots src k2 Hb).
  set (k3 := mkSink _ _).
  destruct (backupMessages_spec segmentMaxBytes readdir readdir_perm M st slots k3 Hr Hk) as (k' & E & Hw & _).
  exists k'. split; [exact E|]. rewrite Hw. unfold k3, k2, k1. cbn [written]. by rewrite <- !app_assoc.
Qed.

Lemma RecoverSlotBackup_spec bits src M st dst (st0 : state CP CS) : rep segmentMaxBytes M st -> placed M ->
  zlen bits < 2 ^ 15 -> GetVaildSlots (NewSlotBitMapWithBits bits) <> [] ->
  (forall slot, slot ∈ GetVaildSlots (NewSlotBitMapWithBits bits) ->
     small_entries slot src /\ bHas (slotBucket slot) dst = true) ->
  rep segmentMaxBytes no_logs st0 ->
  exists dst' st', RecoverSlotBackup slotCount segmentMaxBytes removed (mkTarget (backup_image bits src M st) dst st0) =
      (Ret tt, mkTarget [] dst' st') /\
    (forall b k, bGet b k dst' = overlay src dst b (slotBucket <$> GetVaildSlots (NewSlotBitMapWithBits bits)) k) /\
    rep segmentMaxBytes (restored M st (GetVaildSlots (NewSlotBitMapWithBits bits)) no_logs) st'.
Proof.
  intros Hr Hp Hbits Hne Hslots Hr0. unfold RecoverSlotBackup, backup_image.
  destruct (vaild_slots_range bits Hbits) as [Hnd Hrange]. set (slots := GetVaildSlots _) in *.
  set (ms := concat (saved_messages readdir M st <$> slots)).
  set (r1 := concat ((fun slot => slot_image slot src) <$> slots) ++ image (as_record <$> ms)).
  rewrite (bind_Ret_io _ _ _ (Z.of_nat (length BackupMagicNumber), BackupMagicNumber) (mkTarget (str_image bits ++ r1) dst st0)).
  2:{ unfold on_input, zoom. cbn [input r_base r_msgs]. by rewrite rd_Read_app. }
  rewrite bool_decide_eq_true_2 by done. cbn [negb].
  rewrite (bind_Ret_io _ _ _ bits (mkTarget r1 dst st0)).
  2:{ unfold on_input, zoom. cbn [input r_base r_msgs]. by rewrite rd_Binary_image. }
  fold slots. rewrite decide_False by (by intros E%nil_length_inv).
  destruct (recoverBaseData_spec slots src (image (as_record <$> ms)) (mkTarget r1 dst st0)) as (dst' & E & Hg & _);
    [|done|].
  { intros slot Hin. destruct (Hslots slot Hin). split; [by apply Hrange|]. done. }
  io_step E. cbn [r_msgs r_base] in *.
  destruct (recover_slots M st slots no_logs Hr Hp Hnd) as [Hrec HM]; [done|]. fold ms in Hrec, HM.
  destruct (recoverMessages_spec slotCount segmentMaxBytes removed segments_large slotCount_pos ms
    (S (length (image (as_record <$> ms)))) (mkTarget (image (as_record <$> ms)) dst' st0) no_logs Hr0 Hrec eq_refl)
    as (st' & Em & Hr').
  { pose proof (image_length (as_record <$> ms)) as Hl. unfold zlen in Hl. rewrite length_fmap in Hl. lia. }
  exists dst', st'. split; [exact Em|]. split; [done|]. by apply (rep_ext (recovered slotCount no_logs ms)).
Qed.
End RoundTrip.

(** C21: what a backup of some slots brings back into a data base without
    messages. The backup of a data base that keeps the logs M is written
    without an error; its recovery returns, having read it to its end; every
    entry of the slots is there again, over what the other data base had
    (entries with keys and values below 32 KB are assumed: longer ones make
    the recovery fail); and of the messages of a slot exactly those of the
    topic that the directory of the slot lists last are there again, without
    their applied index. The messages of its other topics are lost, because
    getSegmentInfo adds to its result behind, not inside, the loop over the
    topics. *)
Theorem backup_recovers_last_topic {CP CS B} `{CacheLaws Z CP} `{CacheLaws string CS} `{BoltLaws B}
    (slotCount segmentMaxBytes : Z) (removed : string -> bool) (readdir : list string -> list string)
    (bits : list byte) (src dst : B) (M : logs) (st st0 : state CP CS)
    (slots := GetVaildSlots (NewSlotBitMapWithBits bits)) :
  LogMaxSize + logMinLen <= segmentMaxBytes -> 0 < slotCount < 2 ^ 32 -> (forall l, readdir l ≡ₚ l) ->
  rep segmentMaxBytes M st -> placed slotCount M -> rep segmentMaxBytes no_logs st0 ->
  zlen bits < 2 ^ 15 -> slots <> [] ->
  (forall slot, slot ∈ slots -> small_entries slot src /\ bHas (slotBucket slot) dst = true) ->
  exists k, BackupSlots readdir bits src st (mkSink NewScanner []) = (Ret tt, k) /\
  exists dst' st', RecoverSlotBackup slotCount segmentMaxBytes removed (mkTarget (written k) dst st0) =
      (Ret tt, mkTarget [] dst' st') /\
    (forall b key, bGet b key dst' =
       match bGet b key src with
       | Some v => if decide (b ∈ slotBucket <$> slots) then Some v else bGet b key dst
       | None => bGet b key dst
       end) /\
    rep segmentMaxBytes (fun k =>
      if decide (k.1 ∈ slots /\ last (topic_dirs readdir k.1 st) = Some k.2) then plain <$> M k else []) st'.
Proof.
  intros Hseg Hcount Hperm Hr Hp Hr0 Hbits Hne Hslots.
  destruct (BackupSlots_spec segmentMaxBytes readdir Hperm bits src M st (mkSink NewScanner []) Hr eq_refl Hne)
    as (k & E & Hw); [intros; by apply Hslots|]. exists k. split; [done|].
  destruct (RecoverSlotBackup_spec slotCount segmentMaxBytes removed readdir Hseg Hcount bits src M st dst st0
    Hr Hp Hbits Hne Hslots Hr0) as (dst' & st' & Er & Hg & Hr').
  exists dst', st'. rewrite Hw. split; [exact Er|]. split.
  - intros b key. rewrite Hg. unfold overlay. destruct (bGet b key src); by destruct (decide _).
  - eapply rep_ext; [|exact Hr']. intros q. unfold restored, saved_topic. destruct q as [s n]. cbn [fst snd].
    destruct (last (topic_dirs readdir s st)) as [n'|]; cbn [fmap option_fmap option_map];
      repeat case_decide; naive_solver.
Qed.

(** * Runs *)
Definition base_of (f : io MemBolt.file unit) : MemBolt.file := snd (f ∅).
Definition with_token : MemBolt.file := base_of (NewFileDB 4 ;; UpdateUserToken 4 "bob" 0 1 "tok").
Definition new_base : MemBolt.file := base_of (NewFileDB 4).
Definition all_four : list byte := [x0f].
Definition dir_order : list string -> list string := fun l => l.

Lemma three_placed : placed 4 three.
Proof.
  intros k. unfold three. cbn [foldl after1]. unfold add_to, no_logs.
  destruct (decide (k = _)) as [->|]; repeat (case_decide; [|done]); repeat constructor.
Qed.

Lemma with_token_small slot : slot ∈ GetVaildSlots (NewSlotBitMapWithBits all_four) ->
  small_entries slot with_token /\ bHas (slotBucket slot) new_base = true.
Proof.
  intros Hin. assert (slot = 0 \/ slot = 1 \/ slot = 2 \/ slot = 3) as Hs.
  { change (GetVaildSlots (NewSlotBitMapWithBits all_four)) with [0; 1; 2; 3] in Hin.
    rewrite !elem_of_cons in Hin. destruct Hin as [|[|[|[|H]]]]; auto. inversion H. }
  assert (forallb (fun kv => negb (bool_decide (kv.1 = EmptyString)) && (zlen (bytes_of_string kv.1) <? 2 ^ 15)
    && (zlen kv.2 <? 2 ^ 15)) (bEntries (slotBucket slot) with_token) = true) as Hall
    by (destruct Hs as [->|[->|[->| ->]]]; vm_compute; reflexivity).
  rewrite forallb_forall in Hall. split; [split; [|split]|].
  - destruct Hs as [->|[->|[->| ->]]]; vm_compute; reflexivity.
  - destruct Hs as [->|[->|[->| ->]]]; vm_compute; reflexivity.
  - intros k v Hk. apply entries_law in Hk. apply list_elem_of_In in Hk.
    specialize (Hall _ Hk). clear Hk. cbn [fst snd] in Hall. zbool. split; [exact (proj1 (bool_decide_eq_false _) H)|done].
  - destruct Hs as [->|[->|[->| ->]]]; vm_compute; reflexivity.
Qed.

Lemma backup_recovers_last_topic_witness : exists (st st' : state pools caches) k dst',
  rep (2 ^ 30) three st /\
  BackupSlots dir_order all_four with_token st (mkSink NewScanner []) = (Ret tt, k) /\
  RecoverSlotBackup 4 (2 ^ 30) no_remove (mkTarget (written k) new_base (NewFileDB_on ∅)) =
    (Ret tt, mkTarget [] dst' st') /\
  bGet "0" (getUserTokenKey "bob" 0) dst' = bGet "0" (getUserTokenKey "bob" 0) with_token.
Proof.
  destruct three_stored as [st Hst]. exists st.
  destruct (backup_recovers_last_topic 4 (2 ^ 30) no_remove dir_order all_four with_token new_base three st (NewFileDB_on ∅)
    large_segments four_slots (fun l => Permutation_refl l) Hst three_placed (empty_rep (2 ^ 30)) eq_refl
    ltac:(discriminate) with_token_small) as (k & E & dst' & st' & Er & Hg & _).
  exists st', k, dst'. split; [exact Hst|]. split; [exact E|]. split; [exact Er|].
  rewrite Hg. vm_compute. reflexivity.
Defined.

(** Two groups in one slot: one of them is empty behind the recovery. *)
Definition to_group (typ : Z) : Db.Message :=
  Db.mkMessage 0 7 0 0 300 1 "no" 0 "alice" "" "g1" typ (bytes_of_string "hi").
Definition two_groups : state pools caches :=
  snd (impl 4 (2 ^ 30) no_remove (OAppendMessage (to_group 3))
    (snd (impl 4 (2 ^ 30) no_remove (OAppendMessage (to_group 2)) (NewFileDB_on ∅)))).
Definition brought_back : state pools caches :=
  r_msgs (snd (RecoverSlotBackup 4 (2 ^ 30) no_remove
    (mkTarget (written (snd (BackupSlots dir_order all_four new_base two_groups (mkSink NewScanner []))))
       new_base (NewFileDB_on ∅)))).
Example second_topic_lost : exists typ other, typ <> other /\
  fst (GetMessages 4 (2 ^ 30) no_remove ("g1"%string, typ) 0 10 brought_back) = Ret [] /\
  fst (GetMessages 4 (2 ^ 30) no_remove ("g1"%string, other) 0 10 brought_back) = Ret [plain (to_group other)].
Proof.
  first [exists 2, 3; split; [done|]; vm_compute; split; reflexivity
        |exists 3, 2; split; [done|]; vm_compute; split; reflexivity].
Qed.

(** A value of 32768 bytes or more (a list of two thousand subscribers) is
    written, but reading its entry panics. *)
Lemma long_value_unreadable {CP CS B} `{Bolt B} slot k v r (t : target CP CS B) :
  zlen (bytes_of_string k) < 2 ^ 15 -> 2 ^ 15 <= zlen v < 2 ^ 16 -> input t = entry_image (k, v) ++ r ->
  fst (recoverEntry slot t) = Panic.
Proof.
  intros Hk Hv Hin. unfold entry_image in Hin. cbn [fst snd] in Hin. rewrite <- app_assoc in Hin. unfold recoverEntry.
  rewrite (bind_Ret_io _ _ t (bytes_of_string k) (mkTarget (str_image v ++ r) (r_base t) (r_msgs t))).
  2:{ unfold on_input, zoom. by rewrite Hin, rd_Binary_image. }
  unfold mbind, io_bind, on_input, zoom. cbn [input]. by rewrite rd_Binary_long.
Qed.

(** A snapshot of no messages has no end. *)
Example empty_snapshot :
  written (snd (SaveSnapshot dir_order 0 (NewFileDB_on ∅ : state pools caches) (mkSink NewScanner []))) =
    SnapshotMagicNumber ++ be 4 1 ++ bytes_of_string "test" ++ be 8 1.
Proof. vm_compute. reflexivity. Qed.
