(* ===== verification/Senders.v ===== *)
(** Several senders at one topic at once (internal/lim/handler.go,
    internal/db/topic_public.go). A send takes a number with [NextOffset] and
    later calls [AppendLog], which is not under a lock: its loads and stores of
    the atomic fields of the topic are steps between which others run. Only
    the write into a segment is under the lock of the segment. *)
From Stdlib Require Import ZArith Lia Strings.Byte Strings.String.
From stdpp Require Import base list gmap strings sorting relations.
From S2P Require Import Prelude Effects Keys Wire Index Segment Model Strconv Topic Messages MessageLog.
Import Segment Topic.

(** * Steps *)

(** The message of a sender once it has its number. *)
Definition set_MessageSeq (n : Z) (m : Db.Message) : Db.Message :=
  Db.mkMessage (Db.Header m) (Db.AppliIndex m) (Db.Version m) (Db.Setting m) (Db.MessageID m) n
    (Db.ClientMsgNo m) (Db.Timestamp m) (Db.FromUID m) (Db.QueueUID m) (Db.ChannelID m) (Db.ChannelType m)
    (Db.Payload m).

(** Where a sender is: before [GetNextMessageSeq]; before [AppendLog]; with
    the active segment loaded; behind the check of [lastMemLog]; behind its
    store; behind [lastSeq.Load()], if that was smaller; before the test
    whether the segment is full; in [roll], before [NewSegment],
    [setActiveSegment] and the append to [segments]; before
    [getActiveSegment]; before the write; behind it. *)
Inductive pc :=
  | Sending (m : Db.Message)
  | Numbered (m : Db.Message)
  | Active (m : Db.Message) (a : nat)
  | Unseen (m : Db.Message) (a : nat)
  | Remembered (m : Db.Message) (a : nat)
  | Lower (m : Db.Message) (a : nat)
  | Measuring (m : Db.Message) (a : nat)
  | Rolling (m : Db.Message)
  | Activating (m : Db.Message) (a : nat)
  | Listing (m : Db.Message)
  | Aiming (m : Db.Message)
  | Writing (m : Db.Message) (a : nat)
  | Ended (m : Db.Message) (o : outcome Z).

Section Fields.
Implicit Type t : Topic Db.Message.
Definition set_lastMemLog (m : Db.Message) t : Topic Db.Message :=
  mkTopic (segments t) (activeSegment t) (segmentMaxBytes t) (segmentCache t) (lastSeq t) (Some m) (objects t) (t_disk t).
Definition set_lastSeq (n : Z) t : Topic Db.Message :=
  mkTopic (segments t) (activeSegment t) (segmentMaxBytes t) (segmentCache t) n (lastMemLog t) (objects t) (t_disk t).
Definition set_store (objs : gmap nat Segment) (d : disk) t : Topic Db.Message :=
  mkTopic (segments t) (activeSegment t) (segmentMaxBytes t) (segmentCache t) (lastSeq t) (lastMemLog t) objs d.
Definition setActiveSegment (a : nat) t : Topic Db.Message :=
  mkTopic (segments t) a (segmentMaxBytes t) (segmentCache t) (lastSeq t) (lastMemLog t) (objects t) (t_disk t).
Definition add_segment (base : Z) t : Topic Db.Message :=
  mkTopic (segments t ++ [base]) (activeSegment t) (segmentMaxBytes t) (segmentCache t) (lastSeq t) (lastMemLog t)
    (objects t) (t_disk t).
End Fields.

(** The next step of a sender; none when it has ended. *)
Definition step (p : pc) (t : Topic Db.Message) : option (pc * Topic Db.Message) :=
  match p with
  | Sending m => let '(n, t') := NextOffset t in Some (Numbered (set_MessageSeq n m), t')
  | Numbered m =>
      Some (match objects t !! activeSegment t with
            | Some _ => Active m (activeSegment t)
            | None => Ended m Panic
            end, t)
  | Active m a =>
      Some (if match lastMemLog t with Some l => Offset l >=? Offset m | None => false end
            then Ended m (Ret 0) else Unseen m a, t)
  | Unseen m a => Some (Remembered m a, set_lastMemLog m t)
  | Remembered m a => Some (if lastSeq t <? u32 (Offset m) then Lower m a else Measuring m a, t)
  | Lower m a => Some (Measuring m a, set_lastSeq (u32 (Offset m)) t)
  | Measuring m a =>
      Some (match objects t !! a with
            | Some s => if Index.IsFull (index s) || (position s >=? segmentMaxBytes t) then Rolling m else Aiming m
            | None => Ended m Panic
            end, t)
  | Rolling m =>
      Some (match new_segment (Offset m) (objects t) (t_disk t) with
            | Ret (a, objs, d) => (Activating m a, set_store objs d t)
            | _ => (Ended m Panic, t)
            end)
  | Activating m a => Some (Listing m, setActiveSegment a t)
  | Listing m => Some (Aiming m, add_segment (Offset m) t)
  | Aiming m => Some (Writing m (activeSegment t), t)
  | Writing m a =>
      Some (match objects t !! a with
            | None => (Ended m Panic, t)
            | Some s =>
                let base := Segment.baseOffset s in
                match Segment.AppendLog m s (files_of (t_disk t) base) with
                | Ret (n, s', fs') => (Ended m (Ret n), with_object a s' base fs' t)
                | Err e => (Ended m (Err e), t)
                | Panic => (Ended m Panic, t)
                end
            end)
  | Ended _ _ => None
  end.

(** A sender on its own; eleven steps are enough from [AppendLog] on. *)
Fixpoint alone (fuel : nat) (p : pc) (t : Topic Db.Message) : pc * Topic Db.Message :=
  match fuel, step p t with
  | S fuel', Some (p', t') => alone fuel' p' t'
  | _, _ => (p, t)
  end.

(** The topic and all that send. *)
Record world := mkWorld { topic : Topic Db.Message; senders : list pc }.
Definition begin (t : Topic Db.Message) (bodies : list Db.Message) : world := mkWorld t (Sending <$> bodies).
Definition exec (i : nat) (w : world) : option world :=
  p ← senders w !! i;
  '(p', t') ← step p (topic w);
  Some (mkWorld t' (<[i := p']> (senders w))).
(** A schedule: whose turn it is. *)
Fixpoint schedule (turns : list nat) (w : world) : option world :=
  match turns with [] => Some w | i :: turns' => w' ← exec i w; schedule turns' w' end.

(** ** Uninterrupted, the steps are [AppendLog] *)
(** From the test whether the segment is full on. *)
Lemma alone_measured k m s t a : activeSegment t = a -> objects t !! a = Some s ->
  alone (6 + k) (Measuring m a) t =
    let '(o, t') :=
      match (if Index.IsFull (index s) || (position s >=? segmentMaxBytes t) then roll m t else Ret t) with
      | Ret t2 =>
          match objects t2 !! activeSegment t2 with
          | None => (Panic, t2)
          | Some s =>
              match Segment.AppendLog m s (files_of (t_disk t2) (Segment.baseOffset s)) with
              | Ret (n, s', fs') => (Ret n, with_object (activeSegment t2) s' (Segment.baseOffset s) fs' t2)
              | Err e => (Err e, t2)
              | Panic => (Panic, t2)
              end
          end
      | _ => (Panic, t)
      end in (Ended m o, t').
Proof.
  intros <- Hs. cbn [Nat.add alone step]. rewrite Hs. destruct (_ || _); cbn [alone step].
  - unfold roll. destruct (new_segment _ _ _) as [[[a objs] d]| |]; cbn [mbind outcome_bind];
      [|by destruct k..].
    cbn [step set_store setActiveSegment add_segment objects activeSegment t_disk segments segmentMaxBytes
         segmentCache lastSeq lastMemLog].
    destruct (objs !! a) as [s2|]; [|by destruct k].
    by destruct (Segment.AppendLog _ _ _) as [[[n s'] fs']| |], k.
  - rewrite Hs. by destruct (Segment.AppendLog _ _ _) as [[[n s'] fs']| |], k.
Qed.

Lemma alone_step k p t p' t' : step p t = Some (p', t') -> alone (S k) p t = alone k p' t'.
Proof. intros E. cbn [alone]. by rewrite E. Qed.

Lemma alone_is_AppendLog m t : alone 11 (Numbered m) t = let '(o, t') := AppendLog m t in (Ended m o, t').
Proof.
  unfold AppendLog. rewrite (alone_step 10 (Numbered m) t _ _ eq_refl).
  destruct (objects t !! activeSegment t) as [s|] eqn:Hs; [|done].
  rewrite (alone_step 9 (Active m _) t _ _ eq_refl).
  destruct (match lastMemLog t with Some l => _ | None => false end); [done|].
  rewrite (alone_step 8 (Unseen m _) t _ _ eq_refl), (alone_step 7 (Remembered m _) _ _ _ eq_refl).
  cbn [set_lastMemLog lastSeq]. unfold remember. destruct (lastSeq t <? u32 (Offset m)).
  - rewrite (alone_step 6 (Lower m _) _ _ _ eq_refl).
    exact (alone_measured 0 m s (set_lastSeq (u32 (Offset m)) (set_lastMemLog m t)) (activeSegment t) eq_refl Hs).
  - refine (eq_trans (alone_measured 1 m s (set_lastMemLog m t) (activeSegment t) eq_refl Hs) _). by destruct t.
Qed.

(** * All schedules *)

Definition message (p : pc) : Db.Message :=
  match p with
  | Sending m | Numbered m | Active m _ | Unseen m _ | Remembered m _ | Lower m _ | Measuring m _ | Rolling m
  | Activating m _ | Listing m | Aiming m | Writing m _ | Ended m _ => m
  end.
Definition has_number (p : pc) : bool := match p with Sending _ => false | _ => true end.

(** The bytes a sender was told of; whether its message is stored, or is
    past the check and will be. *)
Definition bytes_of (p : pc) : Z := match p with Ended _ (Ret n) => n | _ => 0 end.
Definition stored (p : pc) : bool := negb (bytes_of p =? 0).
Definition announced (p : pc) : bool :=
  match p with Sending _ | Numbered _ | Active _ _ | Unseen _ _ => false | Ended _ _ => stored p | _ => true end.
Definition ended (p : pc) : Prop := match p with Ended _ _ => True | _ => False end.

#[export] Instance ended_Decision p : Decision (ended p).
Proof. destruct p; apply _. Defined.

Definition size (m : Db.Message) : Z := record_size (as_record m).

Lemma size_set n m : size (set_MessageSeq n m) = size m.
Proof.
  unfold size, record_size, as_record. cbn [r_data]. unfold Db.MarshalMessage, Bytes, WriteBytes, WriteUint8, WriteInt,
    WriteString, WriteInt32, WriteUint32, WriteByte, write.
  cbn [set_MessageSeq Db.Header Db.AppliIndex Db.Version Db.Setting Db.MessageID Db.MessageSeq Db.ClientMsgNo
       Db.Timestamp Db.FromUID Db.QueueUID Db.ChannelID Db.ChannelType Db.Payload].
  rewrite !WriteBinary_app. by rewrite !zlen_app.
Qed.
Lemma size_pos m : 24 <= size m.
Proof. apply record_size_pos. Qed.

(** ** Sums over the senders *)
Section Sums.
Context {A : Type}.
Implicit Types (f g : A -> Z) (l : list A).
Fixpoint total f l : Z := match l with [] => 0 | x :: l' => f x + total f l' end.

Lemma total_insert f l i x y : l !! i = Some x -> total f (<[i := y]> l) = total f l - f x + f y.
Proof.
  revert i. induction l as [|a l IH]; intros [|i] Hi; try discriminate; cbn in Hi |- *.
  - injection Hi as ->. lia.
  - etransitivity; [exact (f_equal (Z.add (f a)) (IH i Hi))|lia].
Qed.

Lemma total_le f g l : (forall x, f x <= g x) -> total f l <= total g l.
Proof. intros Hle. induction l as [|a l IH]; cbn; [done|]. specialize (Hle a). lia. Qed.

Lemma total_room f g l i x : (forall i x, l !! i = Some x -> f x <= g x) -> l !! i = Some x -> f x = 0 ->
  total f l + g x <= total g l.
Proof.
  revert i. induction l as [|a l IH]; intros [|i] Hle Hi Hx; try discriminate; cbn in Hi |- *.
  - injection Hi as ->. assert (total f l <= total g l); [|lia].
    clear -Hle. assert (forall i x, l !! i = Some x -> f x <= g x) as H by (intros i; apply (Hle (S i))). clear Hle.
    induction l as [|b l IH]; cbn; [done|]. pose proof (H 0%nat b eq_refl).
    assert (total f l <= total g l) by (apply IH; intros j; apply (H (S j))). lia.
  - pose proof (Hle 0%nat a eq_refl). assert (total f l + g x <= total g l); [|lia].
    apply (IH i); [|done..]. intros j. apply (Hle (S j)).
Qed.

Lemma total_const f c l : (forall x, f x = c) -> total f l = c * Z.of_nat (length l).
Proof. intros Hc. induction l as [|a l IH]; cbn [total length]; [lia|]. rewrite Hc, IH. lia. Qed.
End Sums.

Lemma total_map {A B} (g : A -> B) (f : B -> Z) l : total f (g <$> l) = total (fun x => f (g x)) l.
Proof. induction l as [|a l IH]; cbn [fmap list_fmap total]; [done|]. by rewrite <- IH. Qed.

(** ** A write, in whatever order the numbers come *)
Lemma AppendLog_bytes m s fs : position s = zlen (logFile fs) -> zlen (Db.MarshalMessage m) <= LogMaxSize ->
  Index.position (index s) + Index.entrySize <= Index.maxBytes ->
  exists s' fs', Segment.AppendLog m s fs = Ret (size m, s', fs') /\
    logFile fs' = logFile fs ++ wrap_record (as_record m) /\ position s' = zlen (logFile fs') /\
    Segment.baseOffset s' = Segment.baseOffset s /\
    Index.position (index s') <= Index.position (index s) + Index.entrySize.
Proof.
  intros Hp Hm Hi. unfold Segment.AppendLog. change (Encode m) with (Ret (Db.MarshalMessage m)). cbn [mbind outcome_bind].
  rewrite Z.gtb_ltb, (proj2 (Z.ltb_ge _ _)) by done.
  change (wrapLogData _ _ _) with (wrap_record (as_record m)). rewrite zlen_wrap. cbn [append].
  assert (0 < Index.entrySize) by done.
  destruct (_ >? _); cbn [index indexFile logFile position].
  - unfold Index.Append. rewrite Z.geb_leb, (proj2 (Z.leb_gt _ _)) by lia. unfold Index.writeAt.
    rewrite Z.gtb_ltb, (proj2 (Z.ltb_ge _ _)) by lia. cbn [mbind outcome_bind].
    eexists _, _. split; [reflexivity|].
    cbn [set_since set_index Index.set_position Index.position index position logFile Segment.baseOffset].
    rewrite zlen_app. repeat split; lia.
  - cbn [mbind outcome_bind]. eexists _, _. split; [reflexivity|].
    cbn [set_since set_index Index.set_position Index.position index position logFile Segment.baseOffset].
    rewrite zlen_app. repeat split; lia.
Qed.

(** ** What holds between any two steps *)
Section Schedules.
(** The topic at first: one segment [a0] with the messages [ms], the last
    number [L]; and what is sent. *)
Context (a0 : nat) (ms : list Db.Message) (L maxBytes : Z) (bodies : list Db.Message).
Implicit Types (w : world) (ths : list pc) (order : list nat).

Definition pc_ok ths (p : pc) : Prop :=
  match p with
  | Sending _ | Numbered _ | Aiming _ => True
  | Active _ a | Unseen _ a | Remembered _ a | Measuring _ a | Writing _ a => a = a0
  | Lower _ _ | Rolling _ | Activating _ _ | Listing _ => False
  | Ended m (Ret n) => n = size m \/
      n = 0 /\ exists j q, ths !! j = Some q /\ announced q = true /\ Db.MessageSeq m < Db.MessageSeq (message q)
  | Ended _ _ => False
  end.

(** The messages stored, in the order of the writes. *)
Definition written order ths : list Db.Message := omap (fun i => message <$> ths !! i) order.

(** The numbers, and what the check of [lastMemLog] relies on. *)
Record numbering (t : Topic Db.Message) ths : Prop := {
  r_bodies : (fun p => set_MessageSeq 0 (message p)) <$> ths = set_MessageSeq 0 <$> bodies;
  r_numbers i p : ths !! i = Some p -> has_number p = true -> L < Db.MessageSeq (message p) <= lastSeq t;
  r_distinct i j p q : ths !! i = Some p -> ths !! j = Some q -> has_number p = true ->
    has_number q = true -> Db.MessageSeq (message p) = Db.MessageSeq (message q) -> i = j;
  r_last : lastSeq t = L + total (fun p => Z.b2z (has_number p)) ths;
  r_mem l : lastMemLog t = Some l -> Db.MessageSeq l <= L \/
    exists j q, ths !! j = Some q /\ announced q = true /\ message q = l;
  r_pcs i p : ths !! i = Some p -> pc_ok ths p
}.

(** The segment and its file. *)
Record storing (t : Topic Db.Message) ths order : Prop := {
  r_max : segmentMaxBytes t = maxBytes;
  r_active : activeSegment t = a0;
  r_segment : exists s, objects t !! a0 = Some s /\ Segment.baseOffset s = 0 /\
    position s = zlen (logFile (files_of (t_disk t) 0)) /\
    Index.position (index s) <= Index.entrySize * zlen (ms ++ written order ths);
  r_log : logFile (files_of (t_disk t) 0) = image (as_record <$> ms ++ written order ths);
  r_size : log_size (ms ++ written order ths) = log_size ms + total bytes_of ths;
  r_nodup : NoDup order;
  r_order i : i ∈ order <-> exists p, ths !! i = Some p /\ stored p = true
}.
Definition running w order : Prop := numbering (topic w) (senders w) /\ storing (topic w) (senders w) order.

Lemma written_insert order ths i p : i ∉ order -> written order (<[i := p]> ths) = written order ths.
Proof.
  unfold written. induction order as [|j order IH]; intros Hi; [done|]. apply not_elem_of_cons in Hi as [Hne Hi].
  cbn [omap list_omap]. rewrite list_lookup_insert_ne by done. rewrite IH by done. done.
Qed.

Lemma sizes t ths : numbering t ths -> total (fun p => size (message p)) ths = total size bodies.
Proof.
  intros Hr. pose proof (f_equal (total size) (r_bodies _ _ Hr)) as E. rewrite !total_map in E.
  assert (forall (l : list pc), total (fun p => size (set_MessageSeq 0 (message p))) l = total (fun p => size (message p)) l) as <-
    by (induction l as [|p l IH]; cbn; rewrite ?size_set; congruence).
  rewrite E. clear E. induction bodies as [|b l IH]; cbn [total]; rewrite ?size_set; congruence.
Qed.

(** *** One sender takes a step *)
Lemma taken_nonneg ths : 0 <= total (fun p => Z.b2z (has_number p)) ths.
Proof. induction ths as [|p ths IH]; cbn [total]; [done|]. destruct (has_number p); cbn; lia. Qed.
Lemma announced_insert ths i p p' (P : Db.Message -> Prop) : ths !! i = Some p ->
  (announced p = true -> announced p' = true /\ message p' = message p) ->
  (exists j q, ths !! j = Some q /\ announced q = true /\ P (message q)) ->
  exists j q, <[i := p']> ths !! j = Some q /\ announced q = true /\ P (message q).
Proof.
  intros Hi Hp (j & q & Hj & Ha & HP). exists j. destruct (decide (j = i)) as [->|Hne].
  - assert (q = p) as -> by congruence. destruct (Hp Ha) as [Ha' Hm]. exists p'.
    rewrite list_lookup_insert_eq by (by eapply lookup_lt_Some). rewrite Hm. auto.
  - exists q. by rewrite list_lookup_insert_ne.
Qed.

Lemma pc_ok_insert ths i p p' q : ths !! i = Some p ->
  (announced p = true -> announced p' = true /\ message p' = message p) ->
  pc_ok ths q -> pc_ok (<[i := p']> ths) q.
Proof.
  intros Hi Hp. destruct q as [| | | | | | | | | | | |m [n| |]]; cbn [pc_ok]; try done.
  intros [->|[-> Hq]]; [by left|right]. split; [done|].
  by eapply (announced_insert _ _ _ _ (fun q => Db.MessageSeq m < Db.MessageSeq q)).
Qed.

Lemma lookup_insert_cases ths i p j q : <[i := p]> ths !! j = Some q -> j = i /\ q = p \/ j <> i /\ ths !! j = Some q.
Proof. intros [(-> & -> & _)|[? ?]]%list_lookup_insert_Some; auto. Qed.

Lemma bodies_insert ths i p p' : ths !! i = Some p -> set_MessageSeq 0 (message p') = set_MessageSeq 0 (message p) ->
  (fun p => set_MessageSeq 0 (message p)) <$> <[i := p']> ths = (fun p => set_MessageSeq 0 (message p)) <$> ths.
Proof.
  intros Hi E. rewrite list_fmap_insert, E. apply list_insert_id. by rewrite list_lookup_fmap, Hi.
Qed.

(** A sender that gets the next number, or has one and keeps it. *)
Lemma numbering_insert t t' ths i p p' : numbering t ths -> ths !! i = Some p ->
  set_MessageSeq 0 (message p') = set_MessageSeq 0 (message p) ->
  (announced p = true -> announced p' = true /\ message p' = message p) ->
  lastMemLog t' = lastMemLog t -> pc_ok (<[i := p']> ths) p' -> has_number p' = true ->
  (if has_number p then message p' = message p /\ lastSeq t' = lastSeq t
   else Db.MessageSeq (message p') = lastSeq t + 1 /\ lastSeq t' = lastSeq t + 1) ->
  numbering t' (<[i := p']> ths).
Proof.
  intros Hr Hi Hm Ha Hl Hok Hn' Hcase. pose proof (taken_nonneg ths) as Hnn. destruct Hr as [Bo Nu Di La Me Pc].
  assert (lastSeq t <= lastSeq t') as Hle by (destruct (has_number p); lia).
  assert (forall j q, j <> i -> ths !! j = Some q -> has_number q = true ->
    Db.MessageSeq (message q) <> Db.MessageSeq (message p')) as Hnew.
  { intros j q Hne Hj Hq E. destruct (has_number p) eqn:Hn; [|specialize (Nu j q Hj Hq); lia].
    destruct Hcase as [Hm' _]. rewrite Hm' in E. eauto. }
  split.
  - by rewrite (bodies_insert ths i p).
  - intros j q [[-> ->]|[_ Hj]]%lookup_insert_cases Hq; [|specialize (Nu j q Hj Hq); lia].
    destruct (has_number p) eqn:Hn; [|lia]. destruct Hcase as [-> ->]. eauto.
  - intros j k q r [[-> ->]|[Hne Hj]]%lookup_insert_cases [[-> ->]|[Hne' Hk]]%lookup_insert_cases Hq Hr' Es;
      [done|by destruct (Hnew k r)|by destruct (Hnew j q)|eauto].
  - rewrite (total_insert _ ths i p), Hn' by done. destruct (has_number p); cbn; lia.
  - rewrite Hl. intros l [Hl'|Hl']%Me; [by left|right]. by eapply (announced_insert _ _ _ _ (fun q => q = l)).
  - intros j q [[-> ->]|[_ Hj]]%lookup_insert_cases; [done|]. eapply pc_ok_insert; eauto.
Qed.

Lemma order_insert ths order i p p' : (forall j, j ∈ order <-> exists q, ths !! j = Some q /\ stored q = true) ->
  ths !! i = Some p -> stored p = false ->
  i ∉ order /\ forall j, (j ∈ order \/ j = i /\ stored p' = true) <->
    exists q, <[i := p']> ths !! j = Some q /\ stored q = true.
Proof.
  intros Or Hi Hs. split.
  { intros (q & Hq & Hs')%Or. congruence. }
  intros j. rewrite Or. split.
  - intros [(q & Hq & Hs')|[-> Hs']].
    + exists q. split; [|done]. rewrite list_lookup_insert_ne; [done|]. congruence.
    + exists p'. by rewrite list_lookup_insert_eq by (by eapply lookup_lt_Some).
  - intros (q & [[-> ->]|[_ Hq]]%lookup_insert_cases & Hs'); [by right|left; eauto].
Qed.

Definition same_store (t t' : Topic Db.Message) : Prop :=
  segmentMaxBytes t' = segmentMaxBytes t /\ activeSegment t' = activeSegment t /\ objects t' = objects t /\
  t_disk t' = t_disk t.

Lemma storing_insert t t' ths order i p p' : storing t ths order -> ths !! i = Some p -> bytes_of p = 0 ->
  bytes_of p' = 0 -> same_store t t' -> storing t' (<[i := p']> ths) order.
Proof.
  intros [Mx Ac Se Lo Si Nd Or] Hi Hb Hb' (Em & Ea & Eo & Ed).
  destruct (order_insert ths order i p p' Or Hi) as [Hnot Hor]; [unfold stored; by rewrite Hb|].
  split; rewrite ?Em, ?Ea, ?Eo, ?Ed, ?(written_insert _ _ _ _ Hnot); try done.
  - rewrite (total_insert _ ths i p) by done. lia.
  - intros j. rewrite <- Hor. unfold stored. rewrite Hb'. split; [by left|]. by intros [|[]].
Qed.

(** Between its number and the end nothing of a sender shows but that it is
    past the check. *)
Lemma running_quiet t ths order i p p' : running (mkWorld t ths) order -> ths !! i = Some p ->
  message p' = message p -> has_number p = true -> has_number p' = true -> bytes_of p = 0 -> bytes_of p' = 0 ->
  (announced p = true -> announced p' = true) -> pc_ok (<[i := p']> ths) p' ->
  running (mkWorld t (<[i := p']> ths)) order.
Proof.
  intros [Hn Hs] Hi Hm Hp Hp' Hb Hb' Ha Hok. split; cbn [topic senders] in *.
  - apply (numbering_insert t t ths i p p'); auto; [by rewrite Hm|by rewrite Hp].
  - by apply (storing_insert t t ths order i p p').
Qed.

(** A sender past the check puts its message into [lastMemLog]. *)
Lemma running_mem t ths order j q : running (mkWorld t ths) order -> ths !! j = Some q -> announced q = true ->
  running (mkWorld (set_lastMemLog (message q) t) ths) order.
Proof.
  intros [[Bo Nu Di La Me Pc] [Mx Ac Se Lo Si Nd Or]] Hj Ha. split; split; try done.
  cbn. intros l [= <-]. right. eauto.
Qed.

(** A message gets its number. *)
Hypothesis numbers_left : 0 <= L /\ L + zlen bodies < 2 ^ 32.
Hypothesis room_left : log_size ms + total size bodies <= LogMaxSize + logMinLen.
Hypothesis segments_large : LogMaxSize + logMinLen <= maxBytes.

Lemma senders_length t ths : numbering t ths -> length ths = length bodies.
Proof. intros Hr. pose proof (f_equal length (r_bodies _ _ Hr)) as E. by rewrite !length_fmap in E. Qed.

Lemma next_number t ths i m : numbering t ths -> ths !! i = Some (Sending m) -> u32 (lastSeq t + 1) = lastSeq t + 1.
Proof.
  intros Hr Hi. apply wrapU_id. pose proof (r_last _ _ Hr) as La. pose proof (senders_length _ _ Hr) as Hlen.
  assert (total (fun p => Z.b2z (has_number p)) ths + 1 <= total (fun _ => 1) ths) as Hle.
  { apply (total_room _ (fun _ => 1) ths i (Sending m)); [|done..]. intros j q _. by destruct (has_number q). }
  rewrite (total_const (fun _ => 1) 1) in Hle by done. unfold zlen in *. pose proof (taken_nonneg ths).
  unfold inU. lia.
Qed.

Lemma running_number t ths order i m : running (mkWorld t ths) order -> ths !! i = Some (Sending m) ->
  let '(n, t') := NextOffset t in running (mkWorld t' (<[i := Numbered (set_MessageSeq n m)]> ths)) order.
Proof.
  intros [Hn Hs] Hi. cbn [topic senders] in *. unfold NextOffset. rewrite (next_number t ths i m Hn Hi).
  split; cbn [topic senders].
  - by apply (numbering_insert t _ ths i (Sending m)).
  - by apply (storing_insert t _ ths order i (Sending m)).
Qed.

(** A message is written. *)
Lemma written_snoc ths order i p : i ∉ order -> (i < length ths)%nat ->
  written (order ++ [i]) (<[i := p]> ths) = written order ths ++ [message p].
Proof.
  intros Hi Hlt. pose proof (written_insert order ths i p Hi) as E. unfold written in *. rewrite omap_app, E.
  cbn [omap list_omap]. by rewrite list_lookup_insert_eq.
Qed.

Lemma write_fits t ths order i p : running (mkWorld t ths) order -> ths !! i = Some p -> bytes_of p = 0 ->
  log_size (ms ++ written order ths) + size (message p) <= LogMaxSize + logMinLen.
Proof.
  intros [Hn Hs] Hi Hb. cbn [topic senders] in *. pose proof (sizes _ _ Hn) as Es. rewrite (r_size _ _ _ Hs).
  assert (total bytes_of ths + size (message p) <= total (fun p => size (message p)) ths) as Hle; [|lia].
  apply (total_room bytes_of (fun p => size (message p)) ths i); [|done..]. intros j q Hq%(r_pcs _ _ Hn).
  pose proof (size_pos (message q)). destruct q as [| | | | | | | | | | | |x [n| |]]; cbn in *; lia.
Qed.

Lemma stored_ended m : stored (Ended m (Ret (size m))) = true.
Proof. unfold stored. cbn. pose proof (size_pos m). by rewrite (proj2 (Z.eqb_neq _ _)) by lia. Qed.

Lemma storing_write t ths order i m s' fs' : storing t ths order -> ths !! i = Some (Writing m a0) ->
  logFile fs' = logFile (files_of (t_disk t) 0) ++ wrap_record (as_record m) -> position s' = zlen (logFile fs') ->
  Segment.baseOffset s' = 0 ->
  Index.position (index s') <= Index.entrySize * zlen (ms ++ written order ths) + Index.entrySize ->
  storing (with_object a0 s' 0 fs' t) (<[i := Ended m (Ret (size m))]> ths) (order ++ [i]).
Proof.
  intros [Mx Ac Se Lo Si Nd Or] Hi Hlog Hp Hb Hix. set (p' := Ended m _).
  destruct (order_insert ths order i (Writing m a0) p' Or Hi eq_refl) as [Hnot Hor].
  assert (written (order ++ [i]) (<[i := p']> ths) = written order ths ++ [m]) as Hw
    by (apply written_snoc; [done|by eapply lookup_lt_Some]).
  split; cbn [with_object segmentMaxBytes activeSegment objects t_disk]; rewrite ?Hw, ?files_of_put, ?app_assoc;
    try done.
  - exists s'. split; [apply lookup_insert_eq|]. split; [done|]. split; [done|].
    rewrite (zlen_app (ms ++ written order ths) [m]). change (zlen [m]) with 1. unfold Index.entrySize in *. lia.
  - rewrite Hlog, Lo, (fmap_app _ (ms ++ written order ths)), image_app. f_equal.
    change (image (as_record <$> [m])) with (wrap_record (as_record m) ++ []). by rewrite app_nil_r.
  - rewrite (total_insert _ ths i (Writing m a0)), log_size_snoc, Si by done. unfold p', size. cbn [bytes_of]. lia.
  - apply NoDup_app. split; [done|]. split; [|apply NoDup_singleton]. by intros x Hx ->%list_elem_of_singleton.
  - intros j. rewrite elem_of_app, list_elem_of_singleton, <- Hor. unfold p'. rewrite stored_ended. tauto.
Qed.

Lemma running_write t ths order i m : running (mkWorld t ths) order -> ths !! i = Some (Writing m a0) ->
  exists t' order', step (Writing m a0) t = Some (Ended m (Ret (size m)), t') /\
    running (mkWorld t' (<[i := Ended m (Ret (size m))]> ths)) order'.
Proof.
  intros Hr Hi. pose proof (write_fits t ths order i _ Hr Hi eq_refl) as Hfit. cbn [message] in Hfit.
  destruct Hr as [Hn Hs]. cbn [topic senders] in *. destruct (r_segment _ _ _ Hs) as (s & Ho & Hb & Hp & Hix).
  set (ws := ms ++ written order ths) in *.
  pose proof (image_length (as_record <$> ws)) as Hil. fold (log_size ws) in Hil. pose proof (size_pos m) as Hsz.
  assert (LogMaxSize + logMinLen = 1048600) as Hmax by reflexivity.
  assert (zlen (as_record <$> ws) = zlen ws) as Hlen by (unfold zlen; by rewrite length_fmap).
  assert (0 <= log_size ws) by apply zlen_nonneg.
  destruct (AppendLog_bytes m s (files_of (t_disk t) 0)) as (s' & fs' & Happ & Hlog' & Hp' & Hb' & Hix').
  { done. }
  { unfold size, record_size in Hfit. cbn [as_record r_data] in Hfit. unfold LogMaxSize in *. lia. }
  { unfold Index.entrySize, Index.maxBytes in *. lia. }
  exists (with_object a0 s' 0 fs' t), (order ++ [i]). split.
  { cbn [step]. by rewrite Ho, Hb, Happ. }
  split; cbn [topic senders].
  - apply (numbering_insert t _ ths i (Writing m a0)); try done; [|by left]. intros _. by rewrite <- (stored_ended m).
  - apply (storing_write t ths order i m s' fs'); try done; [congruence|]. fold ws. lia.
Qed.

(** The check, and the tests on the way to the write. *)
Lemma check_overtaken t ths i m a l : numbering t ths -> ths !! i = Some (Active m a) -> lastMemLog t = Some l ->
  Db.MessageSeq m <= Db.MessageSeq l ->
  exists j q, ths !! j = Some q /\ announced q = true /\ Db.MessageSeq m < Db.MessageSeq (message q).
Proof.
  intros Hn Hi [Hl|(j & q & Hj & Ha & <-)]%(r_mem _ _ Hn) Hle;
    pose proof (r_numbers _ _ Hn i _ Hi eq_refl) as Hr; cbn in Hr; [lia|].
  exists j, q. split; [done|]. split; [done|].
  destruct (decide (Db.MessageSeq m = Db.MessageSeq (message q))) as [E|]; [|lia].
  assert (i = j) as -> by (apply (r_distinct _ _ Hn i j _ q Hi Hj); [done|by destruct q|done]).
  assert (q = Active m a) as -> by congruence. done.
Qed.

Lemma number_not_lower t ths i p : numbering t ths -> ths !! i = Some p -> has_number p = true ->
  (lastSeq t <? u32 (Db.MessageSeq (message p))) = false.
Proof.
  intros Hn Hi Hp. pose proof (r_numbers _ _ Hn i p Hi Hp). pose proof (r_last _ _ Hn) as La.
  pose proof (senders_length _ _ Hn) as Hlen.
  assert (total (fun p => Z.b2z (has_number p)) ths <= total (fun _ => 1) ths) as Hle
    by (apply total_le; intros q; by destruct (has_number q)).
  rewrite (total_const (fun _ => 1) 1) in Hle by done. unfold zlen in *.
  rewrite wrapU_id by (unfold inU; lia). apply Z.ltb_ge. lia.
Qed.

Lemma segment_not_full t ths order i p : running (mkWorld t ths) order -> ths !! i = Some p -> bytes_of p = 0 ->
  exists s, objects t !! a0 = Some s /\ Index.IsFull (index s) || (position s >=? segmentMaxBytes t) = false.
Proof.
  intros Hr Hi Hp. pose proof (write_fits t ths order i p Hr Hi Hp) as Hfit. destruct Hr as [_ Hs].
  cbn [topic senders] in *. destruct (r_segment _ _ _ Hs) as (s & Ho & _ & Hpos & Hix). exists s. split; [done|].
  rewrite (r_log _ _ _ Hs) in Hpos. set (ws := ms ++ written order ths) in *. fold (log_size ws) in Hpos.
  pose proof (image_length (as_record <$> ws)) as Hil. fold (log_size ws) in Hil. pose proof (size_pos (message p)).
  assert (LogMaxSize + logMinLen = 1048600) as Hmax by reflexivity.
  assert (zlen (as_record <$> ws) = zlen ws) as Hlen by (unfold zlen; by rewrite length_fmap).
  unfold Index.IsFull, Index.entrySize, Index.maxBytes in *. rewrite (r_max _ _ _ Hs), !Z.geb_leb.
  apply orb_false_iff. split; apply Z.leb_gt; lia.
Qed.

Lemma running_step w order i w' : running w order -> exec i w = Some w' -> exists order', running w' order'.
Proof.
  destruct w as [t ths]. intros Hr He. unfold exec in He. cbn [topic senders] in He.
  destruct (ths !! i) as [p|] eqn:Hi; cbn [mbind option_bind] in He; [|done].
  pose proof Hr as [Hn Hs]. cbn [topic senders] in *. pose proof (r_pcs _ _ Hn i p Hi) as Hok. cbn [topic senders] in *.
  destruct (step p t) as [[p' t']|] eqn:Est; cbn [mbind option_bind] in He; [|done]. injection He as <-.
  destruct p as [m|m|m a|m a|m a|m a|m a|m|m a|m|m|m a|m o]; cbn [pc_ok] in Hok; try done; subst;
    try (cbn [step] in Est).
  - pose proof (running_number t ths order i m Hr Hi) as Hr'. destruct (NextOffset t). injection Est as <- <-. eauto.
  - rewrite (r_active _ _ _ Hs) in Est. destruct (r_segment _ _ _ Hs) as (s & Ho & _). rewrite Ho in Est.
    injection Est as <- <-. exists order. by apply (running_quiet t ths order i (Numbered m)).
  - destruct (lastMemLog t) as [l|] eqn:Hl.
    + destruct (Offset l >=? Offset m) eqn:Hc; injection Est as <- <-; exists order;
        apply (running_quiet t ths order i (Active m a0)); try done.
      right. split; [done|]. apply (announced_insert ths i (Active m a0) _ (fun q => Db.MessageSeq m < Db.MessageSeq q)); [done..|].
      apply (check_overtaken t ths i m a0 l); [done..|]. rewrite Z.geb_leb in Hc. by apply Z.leb_le.
    + injection Est as <- <-. exists order. by apply (running_quiet t ths order i (Active m a0)).
  - injection Est as <- <-. exists order.
    assert (running (mkWorld t (<[i := Remembered m a0]> ths)) order) as Hr'
      by (by apply (running_quiet t ths order i (Unseen m a0))).
    apply (running_mem t _ order i (Remembered m a0) Hr'); [|done].
    by rewrite list_lookup_insert_eq by (by eapply lookup_lt_Some).
  - pose proof (number_not_lower t ths i _ Hn Hi eq_refl) as Hlow. cbn [message] in Hlow. change (Db.MessageSeq m) with (Offset m) in Hlow.
    rewrite Hlow in Est. injection Est as <- <-. exists order. by apply (running_quiet t ths order i (Remembered m a0)).
  - destruct (segment_not_full t ths order i _ Hr Hi eq_refl) as (s & Ho & Hfull). rewrite Ho, Hfull in Est.
    injection Est as <- <-. exists order. by apply (running_quiet t ths order i (Measuring m a0)).
  - rewrite (r_active _ _ _ Hs) in Est. injection Est as <- <-. exists order. by apply (running_quiet t ths order i (Aiming m)).
  - destruct (running_write t ths order i m Hr Hi) as (t2 & order' & Est' & Hr'). cbn [step] in Est'.
    rewrite Est' in Est. injection Est as <- <-. eauto.
Qed.
End Schedules.

(** ** Every schedule is finite *)
Definition rank (p : pc) : Z :=
  match p with
  | Sending _ => 12 | Numbered _ => 11 | Active _ _ => 10 | Unseen _ _ => 9 | Remembered _ _ => 8 | Lower _ _ => 7
  | Measuring _ _ => 6 | Rolling _ => 5 | Activating _ _ => 4 | Listing _ => 3 | Aiming _ => 2 | Writing _ _ => 1
  | Ended _ _ => 0
  end.

Lemma step_rank p t p' t' : step p t = Some (p', t') -> rank p' < rank p.
Proof.
  destruct p; cbn [step]; intros E; try done;
    repeat (case_match; simplify_eq; cbn [rank]); simplify_eq; cbn [rank]; try lia.
Qed.

Lemma exec_rank i w w' : exec i w = Some w' -> total rank (senders w') < total rank (senders w).
Proof.
  unfold exec. destruct (senders w !! i) as [p|] eqn:Hi; cbn [mbind option_bind]; [|done].
  destruct (step p (topic w)) as [[p' t']|] eqn:E; cbn [mbind option_bind]; [|done]. intros [= <-]. cbn [senders].
  rewrite (total_insert _ _ i p) by done. apply step_rank in E. lia.
Qed.

Lemma rank_nonneg ths : 0 <= total rank ths.
Proof. induction ths as [|p ths IH]; cbn [total]; [done|]. destruct p; cbn [rank]; lia. Qed.

Lemma schedule_length turns w w' : schedule turns w = Some w' -> zlen turns <= total rank (senders w).
Proof.
  revert w. induction turns as [|i turns IH]; intros w; cbn [schedule]; [intros _; apply rank_nonneg|].
  destruct (exec i w) as [w1|] eqn:E; cbn [mbind option_bind]; [|done]. intros Hs%IH. apply exec_rank in E.
  rewrite zlen_cons. lia.
Qed.

(** Nobody blocks: who has not ended can take a step. *)
Lemma exec_enabled w i p : senders w !! i = Some p -> ~ ended p -> is_Some (exec i w).
Proof.
  intros Hi He. unfold exec. rewrite Hi. cbn [mbind option_bind].
  destruct (step p (topic w)) as [[p' t']|] eqn:E; [cbn; eauto|]. destruct p; cbn in E, He; try done; by destruct He.
Qed.

(** * What the senders can rely on *)

(** After any schedule: every sender has its own message under a number of
    its own; the file has the messages of those who were told of bytes, in
    the order of their writes, behind what it had before; and who ended
    without a write was overtaken by a message with a higher number, which is
    in the file or on its way there. *)
Record outcome_of (ms : list Db.Message) (L : Z) (bodies : list Db.Message) (w : world) (order : list nat) : Prop := {
  oc_own i p : senders w !! i = Some p -> exists b, bodies !! i = Some b /\
    message p = set_MessageSeq (Db.MessageSeq (message p)) b;
  oc_range i p : senders w !! i = Some p -> has_number p = true ->
    L < Db.MessageSeq (message p) <= L + zlen bodies;
  oc_distinct i j p q : senders w !! i = Some p -> senders w !! j = Some q -> has_number p = true ->
    has_number q = true -> Db.MessageSeq (message p) = Db.MessageSeq (message q) -> i = j;
  oc_file : logFile (files_of (t_disk (topic w)) 0) = image (as_record <$> ms ++ written order (senders w));
  oc_once : NoDup order;
  oc_stored i : i ∈ order <-> exists m, senders w !! i = Some (Ended m (Ret (size m)));
  oc_ended i m o : senders w !! i = Some (Ended m o) -> o = Ret (size m) \/
    o = Ret 0 /\ exists j q, senders w !! j = Some q /\ announced q = true /\ Db.MessageSeq m < Db.MessageSeq (message q)
}.

Lemma set_MessageSeq_own m b : set_MessageSeq 0 m = set_MessageSeq 0 b -> m = set_MessageSeq (Db.MessageSeq m) b.
Proof. destruct m, b. unfold set_MessageSeq. cbn. congruence. Qed.

Section Outcome.
Context (a0 : nat) (ms : list Db.Message) (L maxBytes : Z) (bodies : list Db.Message).
Hypothesis numbers_left : 0 <= L /\ L + zlen bodies < 2 ^ 32.
Hypothesis room_left : log_size ms + total size bodies <= LogMaxSize + logMinLen.
Hypothesis segments_large : LogMaxSize + logMinLen <= maxBytes.

Lemma running_outcome w order : running a0 ms L maxBytes bodies w order -> outcome_of ms L bodies w order.
Proof.
  intros [Hn Hs]. pose proof Hn as [Bo Nu Di La Me Pc]. destruct Hs as [Mx Ac Se Lo Si Nd Or].
  assert (forall i m o, senders w !! i = Some (Ended m o) -> pc_ok a0 (senders w) (Ended m o)) as Hend by eauto.
  split; try done.
  - intros i p Hi. pose proof (f_equal (.!! i) Bo) as E. cbv beta in E. rewrite !list_lookup_fmap, Hi in E.
    destruct (bodies !! i) as [b|]; cbn in E; [|done]. exists b. split; [done|]. injection E as E. apply set_MessageSeq_own.
    unfold set_MessageSeq. congruence.
  - intros i p Hi Hp. specialize (Nu i p Hi Hp). pose proof (senders_length _ _ _ _ _ Hn) as Hlen.
    assert (total (fun p => Z.b2z (has_number p)) (senders w) <= total (fun _ => 1) (senders w)) as Hle
      by (apply total_le; intros q; by destruct (has_number q)).
    rewrite (total_const (fun _ => 1) 1) in Hle by done. unfold zlen. lia.
  - intros i. rewrite Or. split; [|intros [m Hm]; eexists; split; [done|apply stored_ended]].
    intros (p & Hi & Hst). destruct p as [| | | | | | | | | | | |m [n| |]]; try done.
    destruct (Hend i m _ Hi) as [->|[-> _]]; [eauto|done].
  - intros i m o Hi. pose proof (Hend i m o Hi) as Hok. destruct o as [n| |]; cbn in Hok; try done.
    destruct Hok as [->|[-> Hq]]; [by left|by right].
Qed.

Lemma schedule_running turns w order w' : running a0 ms L maxBytes bodies w order -> schedule turns w = Some w' ->
  exists order', running a0 ms L maxBytes bodies w' order'.
Proof.
  revert w order. induction turns as [|i turns IH]; intros w order Hr; cbn [schedule]; [intros [= <-]; eauto|].
  destruct (exec i w) as [w1|] eqn:E; cbn [mbind option_bind]; [|done].
  destruct (running_step a0 ms L maxBytes bodies numbers_left room_left segments_large w order i w1 Hr E) as [order1 Hr1].
  eauto.
Qed.
End Outcome.

Lemma total_sending (f : pc -> Z) l c : (forall m, f (Sending m) = c) -> total f (Sending <$> l) = c * zlen l.
Proof.
  intros Hf. induction l as [|m l IH]; [unfold zlen; cbn; lia|].
  change (f (Sending m) + total f (Sending <$> l) = c * zlen (m :: l)). rewrite zlen_cons, Hf, IH. lia.
Qed.

Lemma begin_running t s ms es bodies : live t s (as_record <$> ms) es -> marks_ok (as_record <$> ms) es ->
  Forall (fun m => Db.MessageSeq m <= lastSeq t) ms ->
  running (activeSegment t) ms (lastSeq t) (segmentMaxBytes t) bodies (begin t bodies) [].
Proof.
  intros Hl [Hmarks _] Hms. destruct Hl as [Sg Ca Ob Ba Va Po Me Nm Si].
  assert (forall i p, (Sending <$> bodies) !! i = Some p -> exists m, p = Sending m) as Hall.
  { intros i p Hi. rewrite list_lookup_fmap in Hi. destruct (bodies !! i); [injection Hi as <-; eauto|done]. }
  split; split; cbn [begin topic senders written omap list_omap]; rewrite ?app_nil_r; try done.
  - by rewrite <- list_fmap_compose.
  - intros i p [m ->]%Hall. done.
  - intros i j p q [m ->]%Hall. done.
  - rewrite (total_sending _ _ 0) by done. lia.
  - intros l (i & a & Ha & E)%Me. left. rewrite list_lookup_fmap in Ha. destruct (ms !! i) as [m|] eqn:Hm; [|done].
    injection Ha as <-. cbn in E. pose proof (Forall_lookup_1 _ _ _ _ Hms Hm) as Hle. cbv beta in Hle.
    change (Db.MessageSeq m = Db.MessageSeq l) in E. lia.
  - intros i p [m ->]%Hall. done.
  - exists s. split; [done|]. split; [done|]. rewrite (v_log _ _ _ _ Va). split; [done|].
    rewrite (Index.h_position _ _ _ (v_holds _ _ _ _ Va)). unfold zlen in *. rewrite length_fmap in Hmarks.
    unfold Index.entrySize. lia.
  - apply (v_log _ _ _ _ Va).
  - rewrite (total_sending _ _ 0) by done. lia.
  - constructor.
  - intros i. split; [intros Hin; inversion Hin|]. by intros (p & [m ->]%Hall & ?).
Qed.

(** C6: however the steps of any number of senders at one topic interleave -
    a topic of one segment, with room for all they send -, nobody waits, and
    after at most twelve steps each all have ended; every message has a number
    of its own; the log has, behind what it had, the messages of the senders
    that were told of bytes, each once and in the order of the writes; a sender
    that was told of none - which is no error to it - was overtaken by a
    message with a higher number, and its message is not stored. *)
Theorem interleaved_sends t s ms es bodies turns w :
  live t s (as_record <$> ms) es -> marks_ok (as_record <$> ms) es ->
  Forall (fun m => Db.MessageSeq m <= lastSeq t) ms -> 0 <= lastSeq t -> lastSeq t + zlen bodies < 2 ^ 32 ->
  log_size ms + total size bodies <= LogMaxSize + logMinLen <= segmentMaxBytes t ->
  schedule turns (begin t bodies) = Some w ->
  zlen turns <= 12 * zlen bodies /\ (exists order, outcome_of ms (lastSeq t) bodies w order) /\
  forall i p, senders w !! i = Some p -> ended p \/ is_Some (exec i w).
Proof.
  intros Hl Hmarks Hms H0 Hn [Hroom Hmax] Hs. split; [|split].
  - apply schedule_length in Hs. cbn [begin senders] in Hs. by rewrite (total_sending _ _ 12) in Hs by done.
  - destruct (schedule_running _ ms (lastSeq t) (segmentMaxBytes t) bodies ltac:(done) ltac:(done) ltac:(done)
      turns _ [] w (begin_running t s ms es bodies Hl Hmarks Hms) Hs) as [order Hr].
    exists order. by eapply running_outcome.
  - intros i p Hi. destruct (decide (ended p)) as [E|E]; [by left|right]. by eapply exec_enabled.
Qed.

(** * Runs *)
Definition new_topic : Topic Db.Message := topic_or (NewTopic no_remove (2 ^ 30) empty_disk) dead_topic.

Lemma empty_kept : kept empty_disk [] [].
Proof. split; try done; try by constructor. intros e Hin. inversion Hin. Qed.

(** The numbers in the file of a topic, as its check at start reads them. *)
Definition file_numbers (t : Topic Db.Message) : outcome (list Z) := fst (read_seqs 0 10 t).
Definition two_senders : world := begin new_topic [example_message 0; example_message 0].
Definition numbers_after (turns : list nat) : option (list (option (Z * outcome Z)) * outcome (list Z)) :=
  w ← schedule turns two_senders;
  Some ((fun p => match p with Ended m o => Some (Db.MessageSeq m, o) | _ => None end) <$> senders w,
        file_numbers (topic w)).

(** One after the other. *)
Example in_turn : numbers_after (replicate 8 0%nat ++ replicate 8 1%nat) =
  Some ([Some (1, Ret 63); Some (2, Ret 63)], Ret [1; 2]).
Proof. vm_compute. reflexivity. Qed.

(** The second takes its number after the first and is done before it: the
    first is told that all is well, and its message is nowhere. *)
Definition overtaking : list nat := [0%nat] ++ replicate 8 1%nat ++ replicate 2 0%nat.
Example overtaken_message_is_lost : numbers_after overtaking = Some ([Some (1, Ret 0); Some (2, Ret 63)], Ret [2]).
Proof. vm_compute. reflexivity. Qed.

(** Both are past the check before the later one writes first: the file is
    out of order. A topic opened on it takes the number of the last record
    for the last number, and gives 2 a second time. *)
Definition racing : list nat := ([0; 1] ++ replicate 2 0 ++ replicate 7 1 ++ replicate 5 0)%nat.
Definition reopened_number (turns : list nat) : option Z :=
  w ← schedule turns two_senders;
  match NewTopic no_remove (2 ^ 30) (t_disk (topic w)) with
  | Ret t => Some (fst (NextOffset (t : Topic Db.Message)))
  | _ => None
  end.
Example racing_writes_out_of_order : numbers_after racing = Some ([Some (1, Ret 63); Some (2, Ret 63)], Ret [2; 1]) /\
  reopened_number racing = Some 2.
Proof. vm_compute. split; reflexivity. Qed.

Lemma interleaved_sends_witness : exists w order, schedule overtaking two_senders = Some w /\
  outcome_of [] 0 [example_message 0; example_message 0] w order.
Proof.
  destruct (kept_opens (T:=Db.Message) no_remove (2 ^ 30) empty_disk [] [] empty_kept) as (t & s & Ht & Hl & Hmax & _ & Hlast).
  assert (new_topic = t) as E by (unfold new_topic; by rewrite Ht).
  destruct (schedule overtaking two_senders) as [w|] eqn:Hs; [|vm_compute in Hs; discriminate].
  unfold two_senders in Hs. rewrite E in Hs. cbn in Hlast.
  destruct (interleaved_sends t s [] [] [example_message 0; example_message 0] overtaking w Hl) as (_ & [order Ho] & _);
    rewrite ?Hlast, ?Hmax; try done; [by split; [|left]|].
  rewrite Hlast in Ho. by exists w, order.
Defined.
