(* ===== verification/Settings.v ===== *)
(** The settings of a node (internal/lim/options.go) and the addresses it
    finds out (pkg/util/ip.go). configor, which reads the configuration, the
    network interfaces and the service that tells the external address are
    parameters. *)
From stdpp Require Import base list strings pretty.
From Stdlib Require Import ZArith Lia Strings.Byte Strings.Ascii Strings.String.
From S2P Require Import Prelude Keys Strconv Channels ChannelAPI.
#[local] Open Scope string_scope.
#[local] Open Scope Z_scope.

(** * Addresses *)
Definition dot : ascii := ".".
Definition colon : ascii := ":".
Definition slash : ascii := "/".

Definition IsIntranet (ipStr : string) : bool :=
  if String.prefix "10." ipStr || String.prefix "192.168." ipStr then true
  else if String.prefix "172." ipStr then
    match Split ipStr dot with
    | [_; second; _; _] =>
        match ParseInt second with
        | Some second => (16 <=? second) && (second <=? 31)
        | None => false
        end
    | _ => false
    end
  else false.

(** An interface: whether it is up, and loopback, its name, and its addresses,
    with [None] for what is no IPv4 address. *)
Record iface := mkIface { up : bool; loopback : bool; name : string; addrs : outcome (list (option string)) }.

(** Loopback addresses are those in 127.0.0.0/8. *)
Definition GetIntranetIP_addrs (l : list (option string)) : list string :=
  omap (fun a => match a with
                 | Some ip => if negb (String.prefix "127." ip) && IsIntranet ip then Some ip else None
                 | None => None
                 end) l.
Fixpoint GetIntranetIP_loop (ifaces : list iface) (ips : list string) : outcome (list string) :=
  match ifaces with
  | [] => Ret ips
  | i :: ifaces' =>
      if negb (up i) || loopback i || String.prefix "docker" (name i) || String.prefix "w-" (name i)
      then GetIntranetIP_loop ifaces' ips
      else l ← addrs i; GetIntranetIP_loop ifaces' (ips ++ GetIntranetIP_addrs l)
  end.
Definition GetIntranetIP (interfaces : outcome (list iface)) : outcome (list string) :=
  ifaces ← interfaces; GetIntranetIP_loop ifaces [].

(** ** The private networks *)
Definition dotted (a b c d : Z) : string := Join (pretty <$> [a; b; c; d]) dot.
Definition octet (z : Z) : Prop := 0 <= z < 256.

Example intranet_examples :
  IsIntranet "10.1.2.3" = true /\ IsIntranet "100.1.2.3" = false /\ IsIntranet "192.168.0.1" = true /\
  IsIntranet "172.16.0.1" = true /\ IsIntranet "172.32.0.1" = false /\ IsIntranet "172.16.1" = false.
Proof. repeat split; reflexivity. Qed.

Lemma prefix_spec p s : String.prefix p s = true <-> exists r, s = p +:+ r.
Proof.
  revert s. induction p as [|a p IH]; intros s; [by destruct s; split; eauto|].
  destruct s as [|b s]; [split; [done|by intros [? [=]]]|]. cbn. specialize (IH s). destruct (ascii_dec a b) as [->|Hne].
  - split; [intros [r ->]%IH; by exists r|]. intros [r [= E]]. apply IH. eauto.
  - split; [done|]. intros [r E]. injection E. congruence.
Qed.

Lemma append_dot p r : (p +:+ String dot "") +:+ r = p +:+ String dot r.
Proof. induction p as [|a p IH]; [done|]. exact (f_equal (String a) IH). Qed.

(** A first part, with its dot. *)
Lemma prefix_first p s t : avoids dot p -> avoids dot s ->
  String.prefix (p +:+ String dot "") (s +:+ String dot t) = bool_decide (s = p).
Proof.
  intros Hp Hs. apply eq_bool_prop_intro. split.
  - intros [r E]%Is_true_true%prefix_spec. apply Is_true_true, bool_decide_eq_true.
    rewrite append_dot in E.
    by apply split_first in E as [-> _].
  - intros ->%Is_true_true%bool_decide_eq_true. apply Is_true_true, prefix_spec. exists t.
    by rewrite append_dot.
Qed.

Lemma pretty_avoids_dot (z : Z) : avoids dot (pretty z).
Proof. apply pretty_Z_avoids; [reflexivity|by left]. Qed.

Lemma prefix_number (n z : Z) t : String.prefix (pretty n +:+ String dot "") (pretty z +:+ String dot t) = (z =? n).
Proof.
  rewrite prefix_first by apply pretty_avoids_dot. destruct (Z.eqb_spec z n) as [->|Hne]; [by apply bool_decide_true|].
  apply bool_decide_false. intros E. apply Hne, (inj pretty), E.
Qed.

(** The addresses of the three private networks are those [IsIntranet]
    recognises. *)
Theorem IsIntranet_private a b c d : octet a -> octet b -> octet c -> octet d ->
  IsIntranet (dotted a b c d) = (a =? 10) || (a =? 192) && (b =? 168) || (a =? 172) && (16 <=? b) && (b <=? 31).
Proof.
  intros Ha Hb Hc Hd. unfold IsIntranet.
  assert (dotted a b c d = pretty a +:+ String dot (pretty b +:+ String dot (Join (pretty <$> [c; d]) dot))) as E by done.
  assert (String.prefix "192.168." (dotted a b c d) = (a =? 192) && (b =? 168)) as ->.
  { rewrite E. destruct (Z.eqb_spec a 192) as [->|Hne]; cbn [andb].
    - exact (prefix_number 168 b (Join (pretty <$> [c; d]) dot)).
    - apply not_true_is_false. intros [r Er]%prefix_spec.
      change ("192.168." +:+ r) with (pretty 192 +:+ String dot ("168." +:+ r)) in Er.
      apply split_first in Er as [Er _]; [|apply pretty_avoids_dot..]. by apply Hne, (inj pretty). }
  assert (forall n, String.prefix (pretty n +:+ String dot "") (dotted a b c d) = (a =? n)) as Hfirst
    by (intros n; rewrite E; apply prefix_number).
  rewrite (Hfirst 10 : String.prefix "10." _ = _), (Hfirst 172 : String.prefix "172." _ = _).
  destruct (_ || _ && _); [done|]. destruct (a =? 172); [|done]. cbn [orb andb].
  unfold dotted. rewrite Split_Join by (try done; repeat constructor; apply pretty_avoids_dot). cbn [fmap list_fmap].
  unfold ParseInt. by rewrite ParseIntW_pretty by (unfold octet, inS in *; lia).
Qed.

(** * Loading *)

(** The fields of [Options] that [Load] reads or writes, and those the
    server's decisions depend on. *)
Record Settings := mkSettings {
  NodeID : Z; Addr : string; HTTPAddr : string; Mode : string;
  NodeRaftAddr : string; NodeAPIAddr : string; NodeRPCAddr : string; NodeTCPAddr : string;
  DataDir : string; Proxy : string; SlotCount : Z; SegmentMaxBytes : Z; Webhook : string; Datasource : string;
  TmpChannelSuffix : string; CreateIfChannelNotExist : bool; ConversationOfUserMaxCount : Z;
  IsCluster : bool; SlotBackupDir : string
}.

Definition NewOptions : Settings := {|
  NodeID := 1; Addr := "tcp://0.0.0.0:7677"; HTTPAddr := "0.0.0.0:1516"; Mode := "debug";
  NodeRaftAddr := ""; NodeAPIAddr := ""; NodeRPCAddr := ""; NodeTCPAddr := "";
  DataDir := ""; Proxy := ""; SlotCount := 256; SegmentMaxBytes := 1024 * 1024 * 1024; Webhook := ""; Datasource := "";
  TmpChannelSuffix := "@tmp"; CreateIfChannelNotExist := false; ConversationOfUserMaxCount := 100;
  IsCluster := false; SlotBackupDir := ""
|}.

(** [path.Clean] on the components between the slashes, the last one first. *)
Fixpoint clean_parts (rooted : bool) (out parts : list string) : list string :=
  match parts with
  | [] => out
  | part :: parts' =>
      clean_parts rooted
        (if bool_decide (part = "") || bool_decide (part = ".") then out
         else if bool_decide (part = "..") then
           match out with
           | x :: out' => if bool_decide (x = "..") then part :: out else out'
           | [] => if rooted then out else [part]
           end
         else part :: out) parts'
  end.
Definition Clean (s : string) : string :=
  let rooted := String.prefix "/" s in
  let body := Join (rev (clean_parts rooted [] (Split s slash))) slash in
  if rooted then "/" +:+ body else if bool_decide (body = "") then "." else body.
(** [path.Join] of a directory that is not empty and a name. *)
Definition path_Join (dir name : string) : string := Clean (dir +:+ String slash name).

(** White space at the start cut off; [strings.TrimSpace(s) == word], for a
    word without white space. *)
Fixpoint trim_left (s : string) : string :=
  match s with
  | String a r =>
      if space1 (code a) then trim_left r
      else match r with
           | String b r2 =>
               if space2 (code a) (code b) then trim_left r2
               else match r2 with
                    | String c r3 => if space3 (code a) (code b) (code c) then trim_left r3 else s
                    | EmptyString => s
                    end
           | EmptyString => s
           end
  | EmptyString => s
  end.
Definition trims_to (word s : string) : bool :=
  let t := trim_left s in
  String.prefix word t && blank (String.substring (String.length word) (String.length t) t).

Section Load.
(** What the machine tells: its interfaces, its address outside, whether a
    directory can be made. *)
Context (interfaces : outcome (list iface)) (GetExternalIP : outcome string) (MkdirAll : string -> bool).

Definition getIntranetIP : outcome string :=
  match GetIntranetIP interfaces with
  | Ret (ip :: _) => Ret ip
  | Ret [] => Ret ""
  | _ => Panic
  end.

(** [if strings.TrimSpace(v) == "" { v = ... }]. *)
Definition unless_set (v : string) (o : outcome string) : outcome string := if blank v then o else Ret v.

Definition with_port (ip : string) (port : string) : string := ip +:+ ":" +:+ pretty (Atoi port).
Definition api_addr (HTTPAddr : string) : outcome string :=
  match Split HTTPAddr colon with
  | _ :: port :: _ => ip ← getIntranetIP; Ret ("http://" +:+ with_port ip port)
  | _ => Panic
  end.
Definition tcp_addr (Addr : string) : outcome string :=
  externalIP ← (match GetExternalIP with Ret ip => Ret ip | _ => Panic end);
  Ret (with_port externalIP (default "" (last (Split Addr colon)))).

(** [Load]; what configor makes of the options comes first. *)
Definition Load (configor : Settings -> Settings) (o : Settings) : outcome Settings :=
  let o := configor o in
  dataDir ← unless_set (DataDir o) (Ret ("limaodata-" +:+ pretty (NodeID o)));
  raftAddr ← unless_set (NodeRaftAddr o) (ip ← getIntranetIP; Ret (ip +:+ ":6000"));
  apiAddr ← unless_set (NodeAPIAddr o) (api_addr (HTTPAddr o));
  rpcAddr ← unless_set (NodeRPCAddr o) (ip ← getIntranetIP; Ret (ip +:+ ":6001"));
  tcpAddr ← unless_set (NodeTCPAddr o) (tcp_addr (Addr o));
  let maxCount := if trims_to "test" (Mode o) then 100000 else ConversationOfUserMaxCount o in
  let isCluster := if blank (Proxy o) then IsCluster o else true in
  let backupDir := path_Join dataDir "slotbackup" in
  if negb (blank backupDir) && negb (MkdirAll backupDir) then Panic
  else Ret (mkSettings (NodeID o) (Addr o) (HTTPAddr o) (Mode o) raftAddr apiAddr rpcAddr tcpAddr dataDir (Proxy o)
              (SlotCount o) (SegmentMaxBytes o) (Webhook o) (Datasource o) (TmpChannelSuffix o)
              (CreateIfChannelNotExist o) maxCount isCluster backupDir).
End Load.

(** The options as the server's decisions see them. *)
Definition decisions (o : Settings) : Channels.Options :=
  Channels.mkOptions (IsCluster o) (NodeID o) (bool_decide (Mode o = "test")) (TmpChannelSuffix o) (CreateIfChannelNotExist o)
    (negb (blank (Webhook o))) (negb (blank (Datasource o))).

(** ** What is printed with a colon is not blank *)
Lemma blank_avoids c s : 32 < code c < 128 -> blank s = true -> avoids c s.
Proof.
  intros Hc. remember (String.length s) as n eqn:Hn. revert s Hn.
  induction (lt_wf n) as [n _ IH]; intros s ->. destruct s as [|a r]; [done|]. cbn [blank].
  assert (forall x, x = c -> code x = code c) as Hcode by (by intros x ->).
  destruct (space1 (code a)) eqn:E1.
  { intros Hb. split; [intros E%Hcode; unfold space1 in E1; lia|]. by eapply IH; [|reflexivity|]; cbn; [lia|]. }
  destruct r as [|b r2]; [done|]. destruct (space2 (code a) (code b)) eqn:E2.
  { intros Hb. split; [intros E%Hcode; unfold space2 in E2; lia|]. split; [intros E%Hcode; unfold space2 in E2; lia|].
    by eapply IH; [|reflexivity|]; cbn; [lia|]. }
  destruct r2 as [|d r3]; [done|]. intros [E3 Hb]%andb_true_iff.
  repeat (split; [intros E%Hcode; unfold space3 in E3; lia|]). by eapply IH; [|reflexivity|]; cbn; [lia|].
Qed.

Lemma not_blank c s t : 32 < code c < 128 -> blank (s +:+ String c t) = false.
Proof.
  intros Hc. destruct (blank _) eqn:E; [|done]. apply (blank_avoids c) in E; [|done].
  apply avoids_app in E as [_ [[] _]]. done.
Qed.

Lemma with_port_set ip port : blank (with_port ip port) = false.
Proof. exact (not_blank colon ip _ ltac:(split; reflexivity)). Qed.

(** ** What is loaded *)
Section Loaded.
Context (interfaces : outcome (list iface)) (GetExternalIP : outcome string) (MkdirAll : string -> bool).

Lemma getIntranetIP_cases : (exists ip, getIntranetIP interfaces = Ret ip) \/ getIntranetIP interfaces = Panic.
Proof. unfold getIntranetIP. destruct (GetIntranetIP interfaces) as [[|ip l]| |]; eauto. Qed.

Lemma raft_cases v (o := ip ← getIntranetIP interfaces; Ret (ip +:+ ":6000")) :
  (exists a, unless_set v o = Ret a) \/ unless_set v o = Panic.
Proof.
  unfold unless_set, o. destruct (blank v); [|eauto]. destruct getIntranetIP_cases as [[ip ->]| ->]; cbn; eauto.
Qed.

(** A field that comes out is set; one that was set comes out as it was. *)
Lemma unless_set_Ret v o r : unless_set v o = Ret r -> (forall x, o = Ret x -> blank x = false) ->
  blank r = false /\ (blank v = false -> r = v).
Proof. unfold unless_set. destruct (blank v) eqn:E; [intros -> Ho; split; [auto|done]|]. by intros [= <-]. Qed.

Lemma unless_set_again v r o : unless_set v o = Ret r -> blank r = false -> forall o', unless_set r o' = Ret r.
Proof. unfold unless_set. by intros _ ->. Qed.

Lemma bind_Ret_inv {A B} (m : outcome A) (f : A -> outcome B) b : m ≫= f = Ret b -> exists a, m = Ret a /\ f a = Ret b.
Proof. destruct m as [a| |]; cbn; [eauto|done..]. Qed.

Lemma intranet_set (port : string) r : (ip ← getIntranetIP interfaces; Ret (ip +:+ String colon port)) = Ret r -> blank r = false.
Proof. intros (ip & _ & [= <-])%bind_Ret_inv. by apply not_blank. Qed.
Lemma api_addr_set a r : api_addr interfaces a = Ret r -> blank r = false.
Proof.
  unfold api_addr. destruct (Split a colon) as [|? [|port ?]]; [done..|]. intros (ip & _ & [= <-])%bind_Ret_inv. reflexivity.
Qed.
Lemma tcp_addr_set a r : tcp_addr GetExternalIP a = Ret r -> blank r = false.
Proof. unfold tcp_addr. intros (ip & _ & [= <-])%bind_Ret_inv. apply with_port_set. Qed.

(** A fresh configuration may say less than the node needs; what [Load]
    returns says it all, keeps what was said, and is loaded: loading it again
    changes nothing, whatever has become of the network. *)
Theorem Load_settles (configor : Settings -> Settings) o o' : Load interfaces GetExternalIP MkdirAll configor o = Ret o' ->
  let given := configor o in
  (forall f, In f [DataDir; NodeRaftAddr; NodeAPIAddr; NodeRPCAddr; NodeTCPAddr] ->
    blank (f o') = false /\ (blank (f given) = false -> f o' = f given)) /\
  IsCluster o' = IsCluster given || negb (blank (Proxy given)) /\
  forall interfaces' GetExternalIP' MkdirAll', MkdirAll' (SlotBackupDir o') = true ->
    Load interfaces' GetExternalIP' MkdirAll' (fun o => o) o' = Ret o'.
Proof.
  intros E given. unfold Load in E. fold given in E. cbv zeta in E.
  apply bind_Ret_inv in E as (dataDir & Hd & E). apply bind_Ret_inv in E as (raft & Hr & E).
  apply bind_Ret_inv in E as (api & Ha & E). apply bind_Ret_inv in E as (rpc & Hp & E).
  apply bind_Ret_inv in E as (tcp & Ht & E).
  apply unless_set_Ret in Hd as [Hd Hd']; [|by intros x [= <-]].
  apply unless_set_Ret in Hr as [Hr Hr']; [|apply intranet_set].
  apply unless_set_Ret in Ha as [Ha Ha']; [|apply api_addr_set].
  apply unless_set_Ret in Hp as [Hp Hp']; [|apply intranet_set].
  apply unless_set_Ret in Ht as [Ht Ht']; [|apply tcp_addr_set].
  destruct (_ && _); [done|]. injection E as <-.
  split; [|split].
  - intros f [<-|[<-|[<-|[<-|[<-|[]]]]]]; auto.
  - cbn [IsCluster]. destruct (blank (Proxy given)); cbn; [by rewrite orb_false_r|by rewrite orb_true_r].
  - intros interfaces' ext' mk' Hmk. cbn [SlotBackupDir] in Hmk.
    unfold Load, unless_set. cbn [SlotBackupDir DataDir NodeRaftAddr NodeAPIAddr NodeRPCAddr NodeTCPAddr NodeID Addr
      HTTPAddr Mode Proxy SlotCount SegmentMaxBytes Webhook Datasource TmpChannelSuffix CreateIfChannelNotExist
      ConversationOfUserMaxCount IsCluster]. rewrite Hd, Hr, Ha, Hp, Ht. cbn [mbind outcome_bind]. rewrite Hmk, andb_false_r.
    by destruct (trims_to _ _), (blank (Proxy given)).
Qed.

(** An HTTP address without a port makes the node panic, unless its API
    address is set. *)
Theorem Load_needs_port (configor : Settings -> Settings) o : blank (NodeAPIAddr (configor o)) = true ->
  avoids colon (HTTPAddr (configor o)) -> Load interfaces GetExternalIP MkdirAll configor o = Panic.
Proof.
  intros Hb Hc. unfold Load.
  assert (exists d, unless_set (DataDir (configor o)) (Ret ("limaodata-" +:+ pretty (NodeID (configor o)))) = Ret d) as [d ->]
    by (unfold unless_set; destruct (blank (DataDir (configor o))); eexists; reflexivity).
  cbn [mbind outcome_bind]. destruct (raft_cases (NodeRaftAddr (configor o))) as [[a ->]| ->]; cbn [mbind outcome_bind]; [|done].
  assert (unless_set (NodeAPIAddr (configor o)) (api_addr interfaces (HTTPAddr (configor o))) = Panic) as ->; [|done].
  unfold unless_set, api_addr. by rewrite Hb, Split_avoids.
Qed.
End Loaded.

(** * A machine *)
Definition lan : outcome (list iface) :=
  Ret [mkIface true true "lo" (Ret [Some "127.0.0.1"]); mkIface true false "docker0" (Ret [Some "172.17.0.1"]);
       mkIface true false "eth0" (Ret [None; Some "192.168.1.7"; Some "8.8.8.8"])].

Example loaded_default :
  (fun o => (NodeRaftAddr o, NodeAPIAddr o, NodeRPCAddr o, NodeTCPAddr o, SlotBackupDir o)) <$>
    (match Load lan (Ret "203.0.113.9") (fun _ => true) (fun o => o) NewOptions with Ret o => Some o | _ => None end) =
  Some ("192.168.1.7:6000", "http://192.168.1.7:1516", "192.168.1.7:6001", "203.0.113.9:7677", "limaodata-1/slotbackup").
Proof. vm_compute. reflexivity. Qed.

Example cleaned : path_Join "./data/../x//" "slotbackup" = "x/slotbackup" /\ path_Join "/.." "slotbackup" = "/slotbackup" /\
  path_Join "../.." "slotbackup" = "../../slotbackup".
Proof. vm_compute. repeat split. Qed.

(** A mode with spaces around it counts as test mode for [Load], and for
    nothing else. *)
Example spaced_mode : trims_to "test" " test " = true /\ trims_to "test" "tests" = false /\
  bool_decide (" test " = "test") = false.
Proof. repeat split. Qed.
